(** * The bootstrap control plane of the collective library (src/bootstrap.cc)

    A shallow embedding of the rendezvous code: framed socket transfers, the
    root service, the ring all-gather, the tagged point-to-point layer with
    its queue of unexpected connections, the dissemination barrier and the
    teardown paths, followed by the properties proved about them.

    Conventions of the embedding:
    - a C [int] is a [Z] and every arithmetic operation writes out its 32-bit
      two's-complement wrap-around; [%] is C's truncating remainder [Z.rem];
      a [size_t] is a [Z] reduced modulo 2^64;
    - memory reached through a pointer is a [list byte] together with a byte
      offset; an access outside the list is undefined behaviour and is
      reported as the status [Fault];
    - every function returns its [status] together with the state it leaves
      behind, because the C code mutates its arguments before it fails. *)

From Stdlib Require Import ZArith List Bool Lia.
From Stdlib Require Import Strings.Byte.
Import ListNotations.
Local Open Scope Z_scope.

(* ================================================================== *)
(** ** C integers *)

Definition INT_MAX : Z := 2147483647.
Definition INT_MIN : Z := -2147483648.

Definition is_int (z : Z) : Prop := INT_MIN <= z <= INT_MAX.

(** Reduction of a mathematical integer to the [int] it is stored as. *)
Definition wrap_int (z : Z) : Z := (z + 2147483648) mod 4294967296 - 2147483648.

Definition int_add (a b : Z) : Z := wrap_int (a + b).
Definition int_sub (a b : Z) : Z := wrap_int (a - b).
Definition int_mul (a b : Z) : Z := wrap_int (a * b).
Definition int_rem (a b : Z) : Z := wrap_int (Z.rem a b).
Definition int_shl (a k : Z) : Z := wrap_int (Z.shiftl a k).

(** Conversion of an [int] to [size_t]. *)
Definition to_size_t (z : Z) : Z := z mod 18446744073709551616.

(** [sizeof(int)] *)
Definition SIZEOF_INT : Z := 4.

(* ================================================================== *)
(** ** Bytes and the in-memory image of an [int] *)

Definition byte_of_Z (z : Z) : byte :=
  match Byte.of_N (Z.to_N (z mod 256)) with
  | Some b => b
  | None => x00
  end.

Definition Z_of_byte (b : byte) : Z := Z.of_N (Byte.to_N b).

Fixpoint le_encode (n : nat) (z : Z) : list byte :=
  match n with
  | O => []
  | S k => byte_of_Z z :: le_encode k (z / 256)
  end.

Fixpoint le_decode (bs : list byte) : Z :=
  match bs with
  | [] => 0
  | b :: t => Z_of_byte b + 256 * le_decode t
  end.

(** The four bytes of an [int] object (host order, little-endian). *)
Definition int_to_bytes (z : Z) : list byte := le_encode 4 z.

(** The [int] read back from the bytes of an object. *)
Definition bytes_to_int (bs : list byte) : Z := wrap_int (le_decode bs).

(* ================================================================== *)
(** ** Memory regions *)

Definition zeros (n : Z) : list byte := repeat x00 (Z.to_nat n).

Definition in_bounds (m : list byte) (off len : Z) : bool :=
  (0 <=? off) && (off + len <=? Z.of_nat (length m)).

(** Reading [len] bytes at byte offset [off]; a non-positive [len] touches
    no memory. *)
Definition mem_read (m : list byte) (off len : Z) : option (list byte) :=
  if len <=? 0 then Some []
  else if in_bounds m off len
       then Some (firstn (Z.to_nat len) (skipn (Z.to_nat off) m))
       else None.

(** Storing the bytes [src] at byte offset [off]; an empty [src] touches no
    memory. *)
Definition mem_write (m : list byte) (off : Z) (src : list byte) : option (list byte) :=
  if (length src =? 0)%nat then Some m
  else if in_bounds m off (Z.of_nat (length src))
       then Some (firstn (Z.to_nat off) m ++ src
                  ++ skipn (Z.to_nat off + length src) m)
       else None.

(** [ncclCalloc(&p, nelem)] for elements of [elsz] bytes: the element count
    is converted to [size_t], so a negative count asks for more memory than
    exists and the allocation fails. *)
Definition ncclCalloc (nelem elsz : Z) : option (list byte) :=
  if nelem <? 0 then None else Some (zeros (nelem * elsz)).

(* ================================================================== *)
(** ** Results *)

Inductive ncclResult_t : Type :=
| ncclSuccess
| ncclUnhandledCudaError
| ncclSystemError
| ncclInternalError
| ncclInvalidArgument
| ncclInvalidUsage
| ncclRemoteError
| ncclInProgress.

(** What a call does: it returns a result, or it waits for the peer and never
    returns because nothing more arrives ([Blocked]), or it runs into
    undefined behaviour ([Fault]), or the model's loop budget is used up
    ([OutOfFuel]; only the barrier loop has a budget). *)
Inductive status : Type :=
| Ret (r : ncclResult_t)
| Blocked
| Fault
| OutOfFuel.

(** The test made by [NCCLCHECK] and [NCCLCHECKGOTO]. *)
Definition ok (s : status) : bool :=
  match s with
  | Ret ncclSuccess => true
  | _ => false
  end.

(* ================================================================== *)
(** ** The socket helper library *)

(** Modelled from the spec: [struct ncclSocket] and the helper functions
    [ncclSocketInit], [Listen], [Accept], [Connect], [GetAddr], [Send],
    [Recv] and [Close] live in the socket helper library, which is consumed as
    a black box.  A socket carries its address, the magic it was created
    with, whether it is open, the bytes that have arrived and are not yet
    read ([sock_rx]), the bytes written to it so far ([sock_tx]) and, for a
    listening socket, the connections waiting to be accepted. *)
#[local] Unset Elimination Schemes.
Inductive ncclSocket : Type := mkSocket {
  sock_addr : list byte;
  sock_magic : Z;
  sock_open : bool;
  sock_rx : list byte;
  sock_tx : list byte;
  sock_acceptq : list ncclSocket
}.
#[local] Set Elimination Schemes.

(** Modelled from the spec: the part of the operating system the helper
    library talks to.  [net_listen] holds, in the order of the [Listen]
    calls, the sockets the system will create for them (bound address and
    the connections that will arrive); [net_reachable] tells whether a
    [Connect] to an address succeeds; [net_closed] records, in order, the
    sockets that have been closed; [net_accept_error] tells what an
    [Accept] does when no connection is left to accept: it waits for ever
    ([None]), or the helper gives up with an error, because it sees the
    abort flag set while it waits or because the system call fails. *)
Record Net : Type := mkNet {
  net_listen : list ncclSocket;
  net_reachable : list byte -> bool;
  net_closed : list ncclSocket;
  net_accept_error : option ncclResult_t
}.

Definition set_rx (s : ncclSocket) (rx : list byte) : ncclSocket :=
  mkSocket (sock_addr s) (sock_magic s) (sock_open s) rx (sock_tx s) (sock_acceptq s).

Definition set_tx (s : ncclSocket) (tx : list byte) : ncclSocket :=
  mkSocket (sock_addr s) (sock_magic s) (sock_open s) (sock_rx s) tx (sock_acceptq s).

Definition set_acceptq (s : ncclSocket) (q : list ncclSocket) : ncclSocket :=
  mkSocket (sock_addr s) (sock_magic s) (sock_open s) (sock_rx s) (sock_tx s) q.

Definition set_open (s : ncclSocket) (b : bool) : ncclSocket :=
  mkSocket (sock_addr s) (sock_magic s) b (sock_rx s) (sock_tx s) (sock_acceptq s).

(** [ncclSocketInit(&sock)] with the default arguments. *)
Definition ncclSocketInit0 : ncclSocket := mkSocket [] 0 false [] [] [].

(** [ncclSocketInit(&sock, &addr, magic, type, abortFlag)]. *)
Definition ncclSocketInit (addr : list byte) (magic : Z) : ncclSocket :=
  mkSocket addr magic true [] [] [].

Definition ncclSocketListen (net : Net) (s : ncclSocket) : status * Net * ncclSocket :=
  match net_listen net with
  | [] => (Ret ncclSystemError, net, s)
  | l :: rest =>
      (Ret ncclSuccess,
       mkNet rest (net_reachable net) (net_closed net) (net_accept_error net),
       mkSocket (sock_addr l) (sock_magic s) true [] [] (sock_acceptq l))
  end.

(** [ncclSocketGetAddr(sock, &addr)] copies the [union ncclSocketAddress] of
    the socket: an object of [asz] bytes. *)
Definition ncclSocketGetAddr (asz : Z) (s : ncclSocket) : list byte :=
  firstn (Z.to_nat asz) (sock_addr s ++ zeros asz).

Definition ncclSocketConnect (net : Net) (s : ncclSocket) : status :=
  if net_reachable net (sock_addr s) then Ret ncclSuccess else Ret ncclSystemError.

(** What an [Accept] that finds no connection to accept comes to: the wait
    that never ends, or the error the helper gives up with. *)
Definition accept_idle (net : Net) : status :=
  match net_accept_error net with
  | Some e => if ok (Ret e) then Blocked else Ret e
  | None => Blocked
  end.

(** [ncclSocketAccept(&sock, listenSock)]: the accepted connection and the
    listening socket without it.  The helper checks the magic of a
    connection before it hands it out and drops the connections that fail
    the check without telling the caller: [sock_acceptq] holds, in the order
    of their arrival, the connections that pass. *)
Definition ncclSocketAccept (net : Net) (listenSock : ncclSocket)
  : status * ncclSocket * ncclSocket :=
  match sock_acceptq listenSock with
  | [] => (accept_idle net, ncclSocketInit0, listenSock)
  | c :: q => (Ret ncclSuccess, c, set_acceptq listenSock q)
  end.

Definition ncclSocketSend (s : ncclSocket) (bytes : list byte) : status * ncclSocket :=
  (Ret ncclSuccess, set_tx s (sock_tx s ++ bytes)).

(** [ncclSocketRecv(sock, ptr, size)]: the bytes delivered to [ptr]. *)
Definition ncclSocketRecv (s : ncclSocket) (size : Z) : status * ncclSocket * list byte :=
  if size <=? 0 then (Ret ncclSuccess, s, [])
  else if size <=? Z.of_nat (length (sock_rx s))
       then (Ret ncclSuccess,
             set_rx s (skipn (Z.to_nat size) (sock_rx s)),
             firstn (Z.to_nat size) (sock_rx s))
       else (Blocked, s, []).

Definition ncclSocketClose (net : Net) (s : ncclSocket) : status * Net * ncclSocket :=
  let s' := set_open s false in
  (Ret ncclSuccess,
   mkNet (net_listen net) (net_reachable net) (net_closed net ++ [s']) (net_accept_error net),
   s').

(* ================================================================== *)
(** ** Framed transfers *)

(** [bootstrapNetSend(sock, data, size)], with [data] the address [off]
    bytes into the region [mem]. *)
Definition bootstrapNetSend (sock : ncclSocket) (mem : list byte) (off size : Z)
  : status * ncclSocket :=
  let '(s1, sock1) := ncclSocketSend sock (int_to_bytes size) in
  if ok s1 then
    match mem_read mem off size with
    | None => (Fault, sock1)
    | Some payload => ncclSocketSend sock1 payload
    end
  else (s1, sock1).

(** [bootstrapNetRecv(sock, data, size)], with [data] the address [off]
    bytes into the region [mem]; the region is returned as the call leaves
    it. *)
Definition bootstrapNetRecv (sock : ncclSocket) (mem : list byte) (off size : Z)
  : status * ncclSocket * list byte :=
  let '(s1, sock1, hdr) := ncclSocketRecv sock SIZEOF_INT in
  if ok s1 then
    let recvSize := bytes_to_int hdr in
    if recvSize >? size then (Ret ncclInternalError, sock1, mem)
    else
      let '(s2, sock2, payload) := ncclSocketRecv sock1 (Z.min recvSize size) in
      if ok s2 then
        match mem_write mem off payload with
        | None => (Fault, sock2, mem)
        | Some mem' => (Ret ncclSuccess, sock2, mem')
        end
      else (s2, sock2, mem)
  else (s1, sock1, mem).

(* ================================================================== *)
(** ** The bootstrap state *)

Record unexConn : Type := mkUnex {
  unex_peer : Z;
  unex_tag : Z;
  unex_sock : ncclSocket
}.

(** [struct bootstrapState].  The two address tables are the byte regions
    the pointers lead to ([None] for a null pointer); the linked list of
    unexpected connections is the list of its nodes from the head on;
    [st_abortFlag] is the value read through the [abortFlag] pointer. *)
Record bootstrapState : Type := mkState {
  listenSock : ncclSocket;
  ringRecvSocket : ncclSocket;
  ringSendSocket : ncclSocket;
  peerCommAddresses : option (list byte);
  peerProxyAddresses : option (list byte);
  unexpectedConnections : list unexConn;
  st_cudaDev : Z;
  st_rank : Z;
  st_nranks : Z;
  st_magic : Z;
  st_abortFlag : Z
}.

Definition set_listenSock (st : bootstrapState) (s : ncclSocket) : bootstrapState :=
  mkState s (ringRecvSocket st) (ringSendSocket st) (peerCommAddresses st)
          (peerProxyAddresses st) (unexpectedConnections st) (st_cudaDev st)
          (st_rank st) (st_nranks st) (st_magic st) (st_abortFlag st).

Definition set_ringRecvSocket (st : bootstrapState) (s : ncclSocket) : bootstrapState :=
  mkState (listenSock st) s (ringSendSocket st) (peerCommAddresses st)
          (peerProxyAddresses st) (unexpectedConnections st) (st_cudaDev st)
          (st_rank st) (st_nranks st) (st_magic st) (st_abortFlag st).

Definition set_ringSendSocket (st : bootstrapState) (s : ncclSocket) : bootstrapState :=
  mkState (listenSock st) (ringRecvSocket st) s (peerCommAddresses st)
          (peerProxyAddresses st) (unexpectedConnections st) (st_cudaDev st)
          (st_rank st) (st_nranks st) (st_magic st) (st_abortFlag st).

Definition set_peerCommAddresses (st : bootstrapState) (t : option (list byte)) : bootstrapState :=
  mkState (listenSock st) (ringRecvSocket st) (ringSendSocket st) t
          (peerProxyAddresses st) (unexpectedConnections st) (st_cudaDev st)
          (st_rank st) (st_nranks st) (st_magic st) (st_abortFlag st).

Definition set_peerProxyAddresses (st : bootstrapState) (t : option (list byte)) : bootstrapState :=
  mkState (listenSock st) (ringRecvSocket st) (ringSendSocket st) (peerCommAddresses st)
          t (unexpectedConnections st) (st_cudaDev st)
          (st_rank st) (st_nranks st) (st_magic st) (st_abortFlag st).

Definition set_unexpectedConnections (st : bootstrapState) (q : list unexConn) : bootstrapState :=
  mkState (listenSock st) (ringRecvSocket st) (ringSendSocket st) (peerCommAddresses st)
          (peerProxyAddresses st) q (st_cudaDev st)
          (st_rank st) (st_nranks st) (st_magic st) (st_abortFlag st).

(* ================================================================== *)
(** ** Ring all-gather *)

(** [size_t rslice = (rank - i - 1 + nranks) % nranks;] *)
Definition allgather_rslice (rank i nranks : Z) : Z :=
  to_size_t (int_rem (int_add (int_sub (int_sub rank i) 1) nranks) nranks).

(** [size_t sslice = (rank - i + nranks) % nranks;] *)
Definition allgather_sslice (rank i nranks : Z) : Z :=
  to_size_t (int_rem (int_add (int_sub rank i) nranks) nranks).

(** The byte offset of [data + slice*size]: [size] is converted to
    [size_t] and the product is taken in [size_t]. *)
Definition slice_offset (slice size : Z) : Z := to_size_t (slice * to_size_t size).

(** The two statements of the loop body of [bootstrapAllGather] in step
    [i], for the rank [rank] of [nranks]:
    [bootstrapNetSend(&state->ringSendSocket, data+sslice*size, size)] and
    [bootstrapNetRecv(&state->ringRecvSocket, data+rslice*size, size)]. *)
Definition allgather_send (rank nranks : Z) (ringSendSocket : ncclSocket)
  (data : list byte) (size i : Z) : status * ncclSocket :=
  let sslice := allgather_sslice rank i nranks in
  bootstrapNetSend ringSendSocket data (slice_offset sslice size) size.

Definition allgather_recv (rank nranks : Z) (ringRecvSocket : ncclSocket)
  (data : list byte) (size i : Z) : status * ncclSocket * list byte :=
  let rslice := allgather_rslice rank i nranks in
  bootstrapNetRecv ringRecvSocket data (slice_offset rslice size) size.

(** The loop of [bootstrapAllGather], run [todo] times from step [i] on. *)
Fixpoint allgather_loop (todo : nat) (st : bootstrapState) (data : list byte)
  (size i : Z) : status * bootstrapState * list byte :=
  match todo with
  | O => (Ret ncclSuccess, st, data)
  | S todo' =>
      let '(s1, ssock) :=
        allgather_send (st_rank st) (st_nranks st) (ringSendSocket st) data size i in
      let st1 := set_ringSendSocket st ssock in
      if ok s1 then
        let '(s2, rsock, data') :=
          allgather_recv (st_rank st1) (st_nranks st1) (ringRecvSocket st1) data size i in
        let st2 := set_ringRecvSocket st1 rsock in
        if ok s2 then allgather_loop todo' st2 data' size (int_add i 1)
        else (s2, st2, data')
      else (s1, st1, data)
  end.

(** [bootstrapAllGather(commState, allData, size)]: the loop runs for
    [i = 0 .. nranks-2]. *)
Definition bootstrapAllGather (st : bootstrapState) (data : list byte) (size : Z)
  : status * bootstrapState * list byte :=
  allgather_loop (Z.to_nat (int_sub (st_nranks st) 1)) st data size 0.

(** *** All ranks together

    The ring as a whole: every rank runs [bootstrapAllGather] on its own
    buffer, and the socket layer delivers what rank [r] writes to its send
    socket, in the order it is written, to the receive socket of rank
    [(r+1) mod nranks].  A call reads its receive socket in order and nothing
    else from outside, so what the call of a rank has done by the time the
    bytes [arrived] have reached it is what [bootstrapAllGather] does on a
    receive socket that holds [arrived] and nothing more: it has returned,
    or it waits for the next byte ([Blocked]) with its send socket and its
    buffer as they are then.  The state of the ring is therefore given by
    the bytes that have arrived so far at every rank. *)
Definition upd {A : Type} (f : Z -> A) (k : Z) (v : A) : Z -> A :=
  fun x => if x =? k then v else f x.

(** The rank whose send socket feeds the receive socket of rank [r]. *)
Definition ring_pred (nranks r : Z) : Z := (r - 1) mod nranks.

(** The call of rank [r], which enters with the state [st0 r] and the
    buffer [data0 r], when [arrived] has arrived at its receive socket. *)
Definition ring_call (size : Z) (st0 : Z -> bootstrapState) (data0 : Z -> list byte)
  (r : Z) (arrived : list byte) : status * bootstrapState * list byte :=
  let st := st0 r in
  bootstrapAllGather (set_ringRecvSocket st (set_rx (ringRecvSocket st) arrived))
                     (data0 r) size.

(** The bytes this call has written to its send socket by then. *)
Definition ring_written (size : Z) (st0 : Z -> bootstrapState) (data0 : Z -> list byte)
  (r : Z) (arrived : list byte) : list byte :=
  skipn (length (sock_tx (ringSendSocket (st0 r))))
        (sock_tx (ringSendSocket (snd (fst (ring_call size st0 data0 r arrived))))).

Definition is_prefix (a b : list byte) : Prop := exists c, b = a ++ c.

(** The executions of the ring.  In a state [arrived], one move lets more
    bytes arrive at some rank [r]: any number of the bytes that its
    predecessor has written and that have not arrived yet, in their order.
    The moves of the ranks interleave in any way. *)
Inductive ring_runs (nranks size : Z) (st0 : Z -> bootstrapState) (data0 : Z -> list byte)
  : (Z -> list byte) -> (Z -> list byte) -> Prop :=
| ring_runs_refl : forall arrived, ring_runs nranks size st0 data0 arrived arrived
| ring_runs_deliver : forall arrived r more arrived'',
    0 <= r < nranks ->
    is_prefix (arrived r ++ more)
              (ring_written size st0 data0 (ring_pred nranks r)
                            (arrived (ring_pred nranks r))) ->
    ring_runs nranks size st0 data0 (upd arrived r (arrived r ++ more)) arrived'' ->
    ring_runs nranks size st0 data0 arrived arrived''.

(** When the ranks enter, nothing has arrived anywhere. *)
Definition ring_start : Z -> list byte := fun _ => [].

(** *** Vocabulary for the statement about the ring *)

(** What rank [r] contributes: the slice [r] of the buffer it enters
    with. *)
Definition contribution (data0 : Z -> list byte) (size r : Z) : list byte :=
  firstn (Z.to_nat size) (skipn (Z.to_nat (r * size)) (data0 r)).

(** A framed message on the wire: the length, then the payload. *)
Definition frame (size : Z) (payload : list byte) : list byte :=
  int_to_bytes size ++ payload.

Arguments frame _ _ : simpl never.
Arguments contribution _ _ _ : simpl never.

(** The frames rank [r] sends in steps [a], [a+1], ..., [a+k-1] of a correct
    run: in step [j] it forwards the contribution of rank [(r-j) mod
    nranks]. *)
Fixpoint frames_from (nranks size : Z) (data0 : Z -> list byte) (r a : Z) (k : nat)
  : list byte :=
  match k with
  | O => []
  | S k' =>
      frame size (contribution data0 size ((r - a) mod nranks))
      ++ frames_from nranks size data0 r (a + 1) k'
  end.

(** The invariant of the ring: what has arrived at a rank is the beginning
    of what its predecessor sends in a correct run, and of what the call of
    its predecessor has written by now. *)
Definition ring_inv (nranks size : Z) (st0 : Z -> bootstrapState) (data0 : Z -> list byte)
  (arrived : Z -> list byte) : Prop :=
  forall r, 0 <= r < nranks ->
    is_prefix (arrived r)
              (frames_from nranks size data0 (ring_pred nranks r) 0 (Z.to_nat (nranks - 1)))
    /\ is_prefix (arrived r)
                 (ring_written size st0 data0 (ring_pred nranks r)
                               (arrived (ring_pred nranks r))).

(** At least [m] whole frames have arrived at every rank. *)
Definition ring_fed (nranks size : Z) (m : nat) (arrived : Z -> list byte) : Prop :=
  forall r, 0 <= r < nranks -> Z.of_nat m * (4 + size) <= Z.of_nat (length (arrived r)).

(* ================================================================== *)
(** ** Tagged point-to-point transfers *)

(** [unexpectedEnqueue]: the walk to the last node of the list, where the
    new node is linked. *)
Fixpoint unexpected_link (q : list unexConn) (unex : unexConn) : list unexConn :=
  match q with
  | [] => [unex]
  | e :: next => e :: unexpected_link next unex
  end.

Definition unexpectedEnqueue (st : bootstrapState) (peer tag : Z) (sock : ncclSocket)
  : status * bootstrapState :=
  let unex := mkUnex peer tag sock in
  (Ret ncclSuccess,
   set_unexpectedConnections st (unexpected_link (unexpectedConnections st) unex)).

(** [unexpectedDequeue]: the scan from the head for the first node with the
    given peer and tag; the socket of that node and the list without it. *)
Fixpoint unexpected_scan (elems : list unexConn) (peer tag : Z)
  : option (ncclSocket * list unexConn) :=
  match elems with
  | [] => None
  | elem :: next =>
      if (unex_peer elem =? peer) && (unex_tag elem =? tag)
      then Some (unex_sock elem, next)
      else match unexpected_scan next peer tag with
           | Some (sock, rest) => Some (sock, elem :: rest)
           | None => None
           end
  end.

(** Returns the state, the socket variable of the caller and [*found]. *)
Definition unexpectedDequeue (st : bootstrapState) (peer tag : Z) (sock : ncclSocket)
  : status * bootstrapState * ncclSocket * Z :=
  match unexpected_scan (unexpectedConnections st) peer tag with
  | Some (sock', rest) => (Ret ncclSuccess, set_unexpectedConnections st rest, sock', 1)
  | None => (Ret ncclSuccess, st, sock, 0)
  end.

(** The [exit:] label of [bootstrapSend] and [bootstrapRecv]:
    [NCCLCHECK(ncclSocketClose(&sock)); return ret;].  It is reached when
    the last call has returned; a call that waits forever or runs into
    undefined behaviour does not get there. *)
Definition close_and_return (ret : status) (net : Net) (sock : ncclSocket) : status * Net :=
  match ret with
  | Ret _ =>
      let '(s, net', _) := ncclSocketClose net sock in
      if ok s then (ret, net') else (s, net')
  | _ => (ret, net)
  end.

(** [bootstrapSend(commState, peer, tag, data, size)]; [asz] is
    [sizeof(union ncclSocketAddress)], [data] is the address [off] bytes into
    [mem]. *)
Definition bootstrapSend (asz : Z) (ns : Net * bootstrapState) (peer tag : Z)
  (mem : list byte) (off size : Z) : status * (Net * bootstrapState) :=
  let '(net, st) := ns in
  let leave (ret : status) (sock : ncclSocket) :=
    let '(r, net') := close_and_return ret net sock in (r, (net', st)) in
  match peerCommAddresses st with
  | None => (Fault, ns)
  | Some table =>
      match mem_read table (peer * asz) asz with
      | None => (Fault, ns)
      | Some addr =>
          let sock := ncclSocketInit addr (st_magic st) in
          let s := ncclSocketConnect net sock in
          if negb (ok s) then leave s sock else
          let '(s, sock) := bootstrapNetSend sock (int_to_bytes (st_rank st)) 0 SIZEOF_INT in
          if negb (ok s) then leave s sock else
          let '(s, sock) := bootstrapNetSend sock (int_to_bytes tag) 0 SIZEOF_INT in
          if negb (ok s) then leave s sock else
          let '(s, sock) := bootstrapNetSend sock mem off size in
          leave s sock
      end
  end.

(** The [while (1)] loop of [bootstrapRecv].  [pending] is the accept queue
    of [state->listenSock]; every turn takes one connection from it, and
    when none is left the [Accept] waits or fails, with the socket variable
    as [ncclSocketInit(&sock)] has just set it.  The locals [newPeer] and
    [newTag] keep their value from one turn to the next. *)
Fixpoint bootstrapRecv_loop (pending : list ncclSocket) (net : Net) (st : bootstrapState)
  (peer tag newPeer newTag : Z) (mem : list byte) (off size : Z)
  : status * (Net * bootstrapState) * list byte :=
  match pending with
  | [] =>
      let '(r, net') := close_and_return (accept_idle net) net ncclSocketInit0 in
      (r, (net', st), mem)
  | sock :: pending' =>
      let st := set_listenSock st (set_acceptq (listenSock st) pending') in
      let leave (ret : status) (sock : ncclSocket) (mem : list byte) :=
        let '(r, net') := close_and_return ret net sock in (r, (net', st), mem) in
      let '(s, sock, buf) := bootstrapNetRecv sock (int_to_bytes newPeer) 0 SIZEOF_INT in
      let newPeer := bytes_to_int buf in
      if negb (ok s) then leave s sock mem else
      let '(s, sock, buf) := bootstrapNetRecv sock (int_to_bytes newTag) 0 SIZEOF_INT in
      let newTag := bytes_to_int buf in
      if negb (ok s) then leave s sock mem else
      if (newPeer =? peer) && (newTag =? tag) then
        let '(s, sock, mem') := bootstrapNetRecv sock mem off size in
        leave s sock mem'
      else
        let '(s, st') := unexpectedEnqueue st newPeer newTag sock in
        if negb (ok s) then leave s sock mem else
        bootstrapRecv_loop pending' net st' peer tag newPeer newTag mem off size
  end.

(** [bootstrapRecv(commState, peer, tag, data, size)].  [newPeer0] and
    [newTag0] are the indeterminate initial values of the two locals. *)
Definition bootstrapRecv (newPeer0 newTag0 : Z) (ns : Net * bootstrapState) (peer tag : Z)
  (mem : list byte) (off size : Z) : status * (Net * bootstrapState) * list byte :=
  let '(net, st) := ns in
  let '(s, st, sock, found) := unexpectedDequeue st peer tag ncclSocketInit0 in
  if negb (ok s) then (s, (net, st), mem) else
  if found =? 0 then
    bootstrapRecv_loop (sock_acceptq (listenSock st)) net st peer tag newPeer0 newTag0
                       mem off size
  else
    let '(s, sock, mem') := bootstrapNetRecv sock mem off size in
    let '(r, net') := close_and_return s net sock in
    (r, (net', st), mem').

(* ================================================================== *)
(** ** Barrier and intra-node collectives *)

(** A call of the point-to-point layer, as a recording layer notes it. *)
Inductive p2pCall : Type :=
| CallSend (peer tag size : Z)
| CallRecv (peer tag size : Z).

Section Collectives.

(** The three collectives are written once, over the two point-to-point
    calls they make, so that they can be run on [bootstrapSend] and
    [bootstrapRecv] and on a layer that only records the calls. *)
Context {St : Type}.
Variable Send : St -> Z -> Z -> list byte -> Z -> Z -> status * St.
Variable Recv : St -> Z -> Z -> list byte -> Z -> Z -> status * St * list byte.

(** The loop [for (int mask=1; mask<nranks; mask<<=1)]; [ranks k] is
    [ranks[k]], [None] outside the array. *)
Fixpoint barrier_loop (fuel : nat) (st : St) (ranks : Z -> option Z)
  (rank nranks tag : Z) (data : list byte) (mask : Z) : status * St :=
  if mask <? nranks then
    match fuel with
    | O => (OutOfFuel, st)
    | S fuel' =>
        let src := int_rem (int_add (int_sub rank mask) nranks) nranks in
        let dst := int_rem (int_add rank mask) nranks in
        match ranks dst with
        | None => (Fault, st)
        | Some peer_dst =>
            let '(s, st) := Send st peer_dst tag data 0 SIZEOF_INT in
            if negb (ok s) then (s, st) else
            match ranks src with
            | None => (Fault, st)
            | Some peer_src =>
                let '(s, st, data) := Recv st peer_src tag data 0 SIZEOF_INT in
                if negb (ok s) then (s, st) else
                barrier_loop fuel' st ranks rank nranks tag data (int_shl mask 1)
            end
        end
    end
  else (Ret ncclSuccess, st).

(** [bootstrapBarrier(commState, ranks, rank, nranks, tag)]; [data0] is the
    indeterminate content of the local [int data[1]]. *)
Definition bootstrapBarrier (fuel : nat) (st : St) (ranks : Z -> option Z)
  (rank nranks tag : Z) (data0 : Z) : status * St :=
  if nranks =? 1 then (Ret ncclSuccess, st)
  else barrier_loop fuel st ranks rank nranks tag (int_to_bytes data0) 1.

(** The loop [for (int i=1; i<nranks; i++)] of
    [bootstrapIntraNodeAllGather]. *)
Fixpoint intranode_allgather_loop (todo : nat) (st : St) (ranks : Z -> option Z)
  (rank nranks : Z) (data : list byte) (size i : Z) : status * St * list byte :=
  match todo with
  | O => (Ret ncclSuccess, st, data)
  | S todo' =>
      let src := int_rem (int_add (int_sub rank i) nranks) nranks in
      let dst := int_rem (int_add rank i) nranks in
      match ranks dst with
      | None => (Fault, st, data)
      | Some peer_dst =>
          let '(s, st) := Send st peer_dst i data (int_mul rank size) size in
          if negb (ok s) then (s, st, data) else
          match ranks src with
          | None => (Fault, st, data)
          | Some peer_src =>
              let '(s, st, data) := Recv st peer_src i data (int_mul src size) size in
              if negb (ok s) then (s, st, data) else
              intranode_allgather_loop todo' st ranks rank nranks data size (int_add i 1)
          end
      end
  end.

Definition bootstrapIntraNodeAllGather (st : St) (ranks : Z -> option Z)
  (rank nranks : Z) (allData : list byte) (size : Z) : status * St * list byte :=
  if nranks =? 1 then (Ret ncclSuccess, st, allData)
  else intranode_allgather_loop (Z.to_nat (int_sub nranks 1)) st ranks rank nranks
                                allData size 1.

(** The loop [for (int i=0; i<nranks; i++)] of the root in
    [bootstrapIntraNodeBroadcast]. *)
Fixpoint intranode_bcast_loop (todo : nat) (st : St) (ranks : Z -> option Z)
  (root : Z) (bcastData : list byte) (size i : Z) : status * St :=
  match todo with
  | O => (Ret ncclSuccess, st)
  | S todo' =>
      if i =? root
      then intranode_bcast_loop todo' st ranks root bcastData size (int_add i 1)
      else
        match ranks i with
        | None => (Fault, st)
        | Some peer =>
            let '(s, st) := Send st peer peer bcastData 0 size in
            if negb (ok s) then (s, st) else
            intranode_bcast_loop todo' st ranks root bcastData size (int_add i 1)
        end
  end.

Definition bootstrapIntraNodeBroadcast (st : St) (ranks : Z -> option Z)
  (rank nranks root : Z) (bcastData : list byte) (size : Z) : status * St * list byte :=
  if nranks =? 1 then (Ret ncclSuccess, st, bcastData)
  else if rank =? root then
    let '(s, st) := intranode_bcast_loop (Z.to_nat nranks) st ranks root bcastData size 0 in
    (s, st, bcastData)
  else
    match ranks root, ranks rank with
    | Some peer, Some tag => Recv st peer tag bcastData 0 size
    | _, _ => (Fault, st, bcastData)
    end.

End Collectives.

(** The layer that records the calls and lets every one of them succeed. *)
Definition record_send (log : list p2pCall) (peer tag : Z) (mem : list byte) (off size : Z)
  : status * list p2pCall :=
  (Ret ncclSuccess, log ++ [CallSend peer tag size]).

Definition record_recv (log : list p2pCall) (peer tag : Z) (mem : list byte) (off size : Z)
  : status * list p2pCall * list byte :=
  (Ret ncclSuccess, log ++ [CallRecv peer tag size], mem).

(** An [int] array of [n] elements with the contents [f]. *)
Definition int_array (n : Z) (f : Z -> Z) : Z -> option Z :=
  fun k => if (0 <=? k) && (k <? n) then Some (f k) else None.

(** The rounds the dissemination barrier is meant to make: for
    [mask = 2^k < nranks], a send to [ranks[(rank + mask) mod nranks]] and then
    a receive from [ranks[(rank - mask + nranks) mod nranks]]. *)
Definition barrier_round (f : Z -> Z) (rank nranks tag : Z) (k : nat) : list p2pCall :=
  [ CallSend (f ((rank + 2 ^ Z.of_nat k) mod nranks)) tag SIZEOF_INT;
    CallRecv (f ((rank - 2 ^ Z.of_nat k + nranks) mod nranks)) tag SIZEOF_INT ].

Definition barrier_rounds (f : Z -> Z) (rank nranks tag : Z) : list p2pCall :=
  flat_map (barrier_round f rank nranks tag) (seq 0 (Z.to_nat (Z.log2_up nranks))).

(* ================================================================== *)
(** ** Close and abort *)

(** The heap objects the teardown paths hand to [free]. *)
Inductive heapObject : Type :=
| UnexNode (peer tag : Z)
| PeerCommAddressesTable
| PeerProxyAddressesTable
| StateStruct.

(** [free(p)]: nothing happens for a null pointer. *)
Definition free_table (p : option (list byte)) (obj : heapObject) : list heapObject :=
  match p with
  | None => []
  | Some _ => [obj]
  end.

(** [unexpectedFree]: every node of the list is freed, from the head on. *)
Fixpoint unexpectedFree (elems : list unexConn) : list heapObject :=
  match elems with
  | [] => []
  | elem :: next => UnexNode (unex_peer elem) (unex_tag elem) :: unexpectedFree next
  end.

(** What a teardown call leaves behind: its result, the network, the
    objects it freed (in order) and the state as the call leaves it ([None]
    for the null pointer). *)
Record teardown : Type := mkTeardown {
  td_status : status;
  td_net : Net;
  td_freed : list heapObject;
  td_state : option bootstrapState
}.

(** [bootstrapClose(commState)]. *)
Definition bootstrapClose (net : Net) (st : bootstrapState) : teardown :=
  let freed0 :=
    match unexpectedConnections st with
    | [] => []
    | _ => unexpectedFree (unexpectedConnections st)
    end in
  if negb (length (unexpectedConnections st) =? 0)%nat && (st_abortFlag st =? 0)
  then mkTeardown (Ret ncclInternalError) net freed0 (Some st)
  else
    let '(s, net, lsock) := ncclSocketClose net (listenSock st) in
    let st := set_listenSock st lsock in
    if negb (ok s) then mkTeardown s net freed0 (Some st) else
    let '(s, net, ssock) := ncclSocketClose net (ringSendSocket st) in
    let st := set_ringSendSocket st ssock in
    if negb (ok s) then mkTeardown s net freed0 (Some st) else
    let '(s, net, rsock) := ncclSocketClose net (ringRecvSocket st) in
    let st := set_ringRecvSocket st rsock in
    if negb (ok s) then mkTeardown s net freed0 (Some st) else
    mkTeardown (Ret ncclSuccess) net
      (freed0 ++ free_table (peerCommAddresses st) PeerCommAddressesTable ++ [StateStruct])
      (Some st).

(** [bootstrapAbort(commState)]; [None] is the null pointer. *)
Definition bootstrapAbort (net : Net) (commState : option bootstrapState) : teardown :=
  match commState with
  | None => mkTeardown (Ret ncclSuccess) net [] None
  | Some st =>
      let '(s, net, lsock) := ncclSocketClose net (listenSock st) in
      let st := set_listenSock st lsock in
      if negb (ok s) then mkTeardown s net [] (Some st) else
      let '(s, net, ssock) := ncclSocketClose net (ringSendSocket st) in
      let st := set_ringSendSocket st ssock in
      if negb (ok s) then mkTeardown s net [] (Some st) else
      let '(s, net, rsock) := ncclSocketClose net (ringRecvSocket st) in
      let st := set_ringRecvSocket st rsock in
      if negb (ok s) then mkTeardown s net [] (Some st) else
      mkTeardown (Ret ncclSuccess) net
        (free_table (peerCommAddresses st) PeerCommAddressesTable
         ++ free_table (peerProxyAddresses st) PeerProxyAddressesTable
         ++ [StateStruct])
        (Some st)
  end.

(* ================================================================== *)
(** ** Rank initialisation *)

Record ncclBootstrapHandle : Type := mkHandle {
  handle_magic : Z;
  handle_addr : list byte
}.

(** Modelled from the spec: the fields of [struct ncclComm] that
    [bootstrapInit] reads and writes, and [ncclProxyInit], which is handed
    the proxy socket and the table of proxy addresses and keeps them in the
    communicator. *)
Record ncclComm : Type := mkComm {
  comm_rank : Z;
  comm_nRanks : Z;
  comm_abortFlag : Z;
  comm_magic : Z;
  comm_bootstrap : option bootstrapState;
  comm_proxy : option (ncclSocket * list byte)
}.

Definition ncclProxyInit (comm : ncclComm) (proxySocket : ncclSocket)
  (peerAddresses : list byte) : status * ncclComm :=
  (Ret ncclSuccess,
   mkComm (comm_rank comm) (comm_nRanks comm) (comm_abortFlag comm) (comm_magic comm)
          (comm_bootstrap comm) (Some (proxySocket, peerAddresses))).

Definition set_comm_bootstrap (comm : ncclComm) (st : bootstrapState) : ncclComm :=
  mkComm (comm_rank comm) (comm_nRanks comm) (comm_abortFlag comm) (comm_magic comm)
         (Some st) (comm_proxy comm).

Definition set_comm_magic (comm : ncclComm) (magic : Z) : ncclComm :=
  mkComm (comm_rank comm) (comm_nRanks comm) (comm_abortFlag comm) magic
         (comm_bootstrap comm) (comm_proxy comm).

(** [struct extInfo] as the bytes that go on the wire; [asz] is
    [sizeof(union ncclSocketAddress)]. *)
Definition extInfo_bytes (rank nranks : Z) (extAddressListenRoot extAddressListen : list byte)
  : list byte :=
  int_to_bytes rank ++ int_to_bytes nranks ++ extAddressListenRoot ++ extAddressListen.

Definition sizeof_extInfo (asz : Z) : Z := 2 * SIZEOF_INT + 2 * asz.

(** The first part of [bootstrapInit]: the two listening sockets, the
    check-in with the root, the address of the successor and the two ring
    sockets. *)
Definition bootstrapInit_ring (asz : Z) (bootstrapNetIfAddr nextAddr0 : list byte)
  (handle : ncclBootstrapHandle) (net : Net) (st : bootstrapState)
  : status * Net * bootstrapState :=
  let magic := handle_magic handle in
  (* Create socket for other ranks to contact me *)
  let '(s, net, lsock) := ncclSocketListen net (ncclSocketInit bootstrapNetIfAddr magic) in
  let st := set_listenSock st lsock in
  if negb (ok s) then (s, net, st) else
  let extAddressListen := ncclSocketGetAddr asz (listenSock st) in
  (* Create socket for root to contact me *)
  let '(s, net, listenSockRoot) :=
    ncclSocketListen net (ncclSocketInit bootstrapNetIfAddr magic) in
  if negb (ok s) then (s, net, st) else
  let extAddressListenRoot := ncclSocketGetAddr asz listenSockRoot in
  let info := extInfo_bytes (st_rank st) (st_nranks st) extAddressListenRoot extAddressListen in
  (* stagger connection times: the sleep changes nothing in the state *)
  (* send info on my listening socket to root *)
  let sock := ncclSocketInit (handle_addr handle) magic in
  let s := ncclSocketConnect net sock in
  if negb (ok s) then (s, net, st) else
  let '(s, sock) := bootstrapNetSend sock info 0 (sizeof_extInfo asz) in
  if negb (ok s) then (s, net, st) else
  let '(s, net, _) := ncclSocketClose net sock in
  if negb (ok s) then (s, net, st) else
  (* get info on my "next" rank in the bootstrap ring from root *)
  let '(s, sock, listenSockRoot) := ncclSocketAccept net listenSockRoot in
  if negb (ok s) then (s, net, st) else
  let '(s, sock, nextAddr) := bootstrapNetRecv sock nextAddr0 0 asz in
  if negb (ok s) then (s, net, st) else
  let '(s, net, _) := ncclSocketClose net sock in
  if negb (ok s) then (s, net, st) else
  let '(s, net, _) := ncclSocketClose net listenSockRoot in
  if negb (ok s) then (s, net, st) else
  let st := set_ringSendSocket st (ncclSocketInit nextAddr magic) in
  let s := ncclSocketConnect net (ringSendSocket st) in
  if negb (ok s) then (s, net, st) else
  (* Accept the connect request from the previous rank in the AllGather ring *)
  let '(s, rsock, lsock) := ncclSocketAccept net (listenSock st) in
  if negb (ok s) then (s, net, st) else
  let st := set_listenSock (set_ringRecvSocket st rsock) lsock in
  (Ret ncclSuccess, net, st).

(** [bootstrapInit(handle, comm)].  [callocState] is the result of
    [ncclCalloc(&state, 1)]: when the allocation fails the call returns its
    error before it has touched the communicator.  Otherwise the state is
    allocated zeroed and [comm->bootstrap] points to it from then on, so the
    communicator shows the state as the call leaves it, also when the call
    fails later. *)
Definition bootstrapInit (asz : Z) (bootstrapNetIfAddr nextAddr0 : list byte)
  (callocState : ncclResult_t) (handle : ncclBootstrapHandle) (comm : ncclComm) (net : Net)
  : status * Net * ncclComm :=
  (* NCCLCHECK(ncclCalloc(&state, 1)) *)
  if negb (ok (Ret callocState)) then (Ret callocState, net, comm) else
  let magic := handle_magic handle in
  let st := mkState ncclSocketInit0 ncclSocketInit0 ncclSocketInit0 None None []
                    0 (comm_rank comm) (comm_nRanks comm) magic (comm_abortFlag comm) in
  let comm := set_comm_magic comm magic in
  let '(s, net, st) := bootstrapInit_ring asz bootstrapNetIfAddr nextAddr0 handle net st in
  if negb (ok s) then (s, net, set_comm_bootstrap comm st) else
  (* AllGather all listen handlers *)
  match ncclCalloc (st_nranks st) asz with
  | None => (Ret ncclSystemError, net, set_comm_bootstrap comm st)
  | Some table =>
  let st := set_peerCommAddresses st (Some table) in
  match mem_write table (st_rank st * asz) (ncclSocketGetAddr asz (listenSock st)) with
  | None => (Fault, net, set_comm_bootstrap comm st)
  | Some table =>
  let st := set_peerCommAddresses st (Some table) in
  let '(s, st, table) := bootstrapAllGather st table asz in
  let st := set_peerCommAddresses st (Some table) in
  if negb (ok s) then (s, net, set_comm_bootstrap comm st) else
  (* Create the service proxy *)
  match ncclCalloc (st_nranks st) asz with
  | None => (Ret ncclSystemError, net, set_comm_bootstrap comm st)
  | Some ptable =>
  let st := set_peerProxyAddresses st (Some ptable) in
  let '(s, net, proxySocket) :=
    ncclSocketListen net (ncclSocketInit bootstrapNetIfAddr magic) in
  if negb (ok s) then (s, net, set_comm_bootstrap comm st) else
  match mem_write ptable (st_rank st * asz) (ncclSocketGetAddr asz proxySocket) with
  | None => (Fault, net, set_comm_bootstrap comm st)
  | Some ptable =>
  let st := set_peerProxyAddresses st (Some ptable) in
  let '(s, st, ptable) := bootstrapAllGather st ptable asz in
  let st := set_peerProxyAddresses st (Some ptable) in
  if negb (ok s) then (s, net, set_comm_bootstrap comm st) else
  let '(s, comm) := ncclProxyInit (set_comm_bootstrap comm st) proxySocket ptable in
  (s, net, comm)
  end end end end.

(* ================================================================== *)
(** ** The root service *)

(** The locals of [bootstrapRoot] that live across the turns of the
    collecting loop.  [root_info] is the object [info] (its bytes stay from
    one turn to the next); the two tables are the regions the pointers lead
    to, [None] while they are null. *)
Record rootLocals : Type := mkRoot {
  root_nranks : Z;
  root_c : Z;
  root_info : list byte;
  root_rankAddresses : option (list byte);
  root_rankAddressesRoot : option (list byte)
}.

(** The fields of [info]. *)
Definition info_rank (info : list byte) : Z := bytes_to_int (firstn 4 info).
Definition info_nranks (info : list byte) : Z := bytes_to_int (firstn 4 (skipn 4 info)).
Definition info_extAddressListenRoot (asz : Z) (info : list byte) : list byte :=
  firstn (Z.to_nat asz) (skipn 8 info).
Definition info_extAddressListen (asz : Z) (info : list byte) : list byte :=
  firstn (Z.to_nat asz) (skipn (8 + Z.to_nat asz) info).

(** [memcmp(a, b, n) == 0] for two regions of the same length. *)
Definition bytes_eqb (a b : list byte) : bool :=
  if list_eq_dec Byte.byte_eq_dec a b then true else false.

(** How the service ends. *)
Inductive rootExit : Type :=
| RootSentAll                                (* "SENT OUT ALL %d HANDLES" *)
| RootMismatch (nranks info_nranks : Z)      (* "mismatch in rank count" *)
| RootDuplicate (rank nranks : Z)            (* "has already checked in" *)
| RootFailed (s : status).                   (* a NCCLCHECKGOTO failed *)

(** What one turn of the collecting loop decides. *)
Inductive rootTurn : Type :=
| TurnNext (l : rootLocals)
| TurnCollected (l : rootLocals)
| TurnOut (e : rootExit) (l : rootLocals).

(** The body of the [do ... while (c < nranks)] loop, from the received
    [info] on. *)
Definition bootstrapRoot_checkin (asz : Z) (l : rootLocals) : rootTurn :=
  let info := root_info l in
  (* if (c == 0) *)
  let allocated :=
    if root_c l =? 0 then
      match ncclCalloc (info_nranks info) asz with
      | None => None
      | Some t => Some (mkRoot (info_nranks info) (root_c l) info (Some t) (Some t))
      end
    else Some l in
  match allocated with
  | None => TurnOut (RootFailed (Ret ncclSystemError))
                    (mkRoot (info_nranks info) (root_c l) info
                            (root_rankAddresses l) (root_rankAddressesRoot l))
  | Some l =>
      let nranks := root_nranks l in
      if negb (nranks =? info_nranks info)
      then TurnOut (RootMismatch nranks (info_nranks info)) l
      else
        match root_rankAddresses l, root_rankAddressesRoot l with
        | Some rankAddresses, Some rankAddressesRoot =>
            (* memcmp(zero, &rankAddressesRoot[info.rank], sizeof(union ncclSocketAddress)) *)
            match mem_read rankAddressesRoot (info_rank info * asz) asz with
            | None => TurnOut (RootFailed Fault) l
            | Some slot =>
                if negb (bytes_eqb (zeros asz) slot)
                then TurnOut (RootDuplicate (info_rank info) nranks) l
                else
                  (* Save the connection handle for that rank *)
                  match mem_write rankAddressesRoot (info_rank info * asz)
                                  (info_extAddressListenRoot asz info),
                        mem_write rankAddresses (info_rank info * asz)
                                  (info_extAddressListen asz info) with
                  | Some rankAddressesRoot', Some rankAddresses' =>
                      let c := int_add (root_c l) 1 in
                      let l' := mkRoot nranks c info (Some rankAddresses')
                                       (Some rankAddressesRoot') in
                      if c <? nranks then TurnNext l' else TurnCollected l'
                  | _, _ => TurnOut (RootFailed Fault) l
                  end
            end
        | _, _ => TurnOut (RootFailed Fault) l
        end
  end.

(** The collecting loop.  [pending] is the accept queue of the listening
    socket; every turn takes one connection from it, and when none is left
    the [Accept] waits or fails.  Returns the network, the connections left
    in the queue and the decision of the last turn. *)
Fixpoint bootstrapRoot_collect (asz : Z) (pending : list ncclSocket) (net : Net)
  (l : rootLocals) : Net * list ncclSocket * rootTurn :=
  match pending with
  | [] => (net, [], TurnOut (RootFailed (accept_idle net)) l)
  | sock :: pending' =>
      let '(s, sock, info) := bootstrapNetRecv sock (root_info l) 0 (sizeof_extInfo asz) in
      let l := mkRoot (root_nranks l) (root_c l) info
                      (root_rankAddresses l) (root_rankAddressesRoot l) in
      if negb (ok s) then (net, pending', TurnOut (RootFailed s) l) else
      let '(s, net, _) := ncclSocketClose net sock in
      if negb (ok s) then (net, pending', TurnOut (RootFailed s) l) else
      match bootstrapRoot_checkin asz l with
      | TurnNext l' => bootstrapRoot_collect asz pending' net l'
      | turn => (net, pending', turn)
      end
  end.

(** The distributing loop [for (int r=0; r<nranks; ++r)], [todo] turns from
    [r] on. *)
Fixpoint bootstrapRoot_distribute (asz : Z) (todo : nat) (magic : Z) (net : Net)
  (l : rootLocals) (r : Z) : Net * rootExit :=
  match todo with
  | O => (net, RootSentAll)
  | S todo' =>
      let next := int_rem (int_add r 1) (root_nranks l) in
      match root_rankAddresses l, root_rankAddressesRoot l with
      | Some rankAddresses, Some rankAddressesRoot =>
          match mem_read rankAddressesRoot (r * asz) asz with
          | None => (net, RootFailed Fault)
          | Some addr =>
              let sock := ncclSocketInit addr magic in
              let s := ncclSocketConnect net sock in
              if negb (ok s) then (net, RootFailed s) else
              let '(s, sock) := bootstrapNetSend sock rankAddresses (next * asz) asz in
              if negb (ok s) then (net, RootFailed s) else
              let '(s, net, _) := ncclSocketClose net sock in
              if negb (ok s) then (net, RootFailed s) else
              bootstrapRoot_distribute asz todo' magic net l (int_add r 1)
          end
      | _, _ => (net, RootFailed Fault)
      end
  end.

(** Whether the service gets to its [out:] label: it does when it has sent
    all addresses, on the two [goto out] of the collecting loop and when a
    call has returned an error; it does not when a call waits for ever or
    runs into undefined behaviour. *)
Definition root_reaches_out (e : rootExit) : bool :=
  match e with
  | RootFailed (Ret _) => true
  | RootFailed _ => false
  | _ => true
  end.

(** What [bootstrapRoot] leaves behind: how it ended, the network, the
    listening socket (closed when the service gets to [out:]), and its
    locals as they were then, before they are freed. *)
Record rootResult : Type := mkRootResult {
  res_exit : rootExit;
  res_net : Net;
  res_listenSock : ncclSocket;
  res_locals : rootLocals
}.

(** [bootstrapRoot(rargs)]; [info0] is the indeterminate initial content of
    [info].  The allocation of the one zero address and the call of
    [setFilesLimit], whose result the code does not look at, leave no trace
    here. *)
Definition bootstrapRoot (asz : Z) (listenSock : ncclSocket) (magic : Z) (info0 : list byte)
  (net : Net) : rootResult :=
  let l0 := mkRoot 0 0 info0 None None in
  let '(net, pending, turn) := bootstrapRoot_collect asz (sock_acceptq listenSock) net l0 in
  let listenSock := set_acceptq listenSock pending in
  let '(net, e, l) :=
    match turn with
    | TurnOut e l => (net, e, l)
    | TurnNext l => (net, RootFailed Blocked, l)
    | TurnCollected l =>
        let '(net, e) :=
          bootstrapRoot_distribute asz (Z.to_nat (root_nranks l)) magic net l 0 in
        (net, e, l)
    end in
  if root_reaches_out e then
    (* out: *)
    let '(_, net, listenSock) := ncclSocketClose net listenSock in
    mkRootResult e net listenSock l
  else mkRootResult e net listenSock l.

(** *** Vocabulary for the statements about the state *)

(** Two states that differ at most in their ring sockets. *)
Definition same_but_ring (st st' : bootstrapState) : Prop :=
  listenSock st' = listenSock st
  /\ peerCommAddresses st' = peerCommAddresses st
  /\ peerProxyAddresses st' = peerProxyAddresses st
  /\ unexpectedConnections st' = unexpectedConnections st
  /\ st_rank st' = st_rank st
  /\ st_nranks st' = st_nranks st
  /\ st_magic st' = st_magic st
  /\ st_abortFlag st' = st_abortFlag st.

(* ================================================================== *)
(** ** Example inputs *)

(** Four ranks with one-byte contributions 0x10, 0x20, 0x30, 0x40. *)
Definition ring4_data0 (r : Z) : list byte :=
  if r =? 0 then [x10; x00; x00; x00]
  else if r =? 1 then [x00; x20; x00; x00]
  else if r =? 2 then [x00; x00; x30; x00]
  else [x00; x00; x00; x40].

(** The four ranks of scenario S2 as they enter the all-gather. *)
Definition ring4_st0 (r : Z) : bootstrapState :=
  mkState ncclSocketInit0 ncclSocketInit0 ncclSocketInit0 None None [] 0 r 4 0 0.

(** Rank 1 of two ranks, with two-byte addresses: the root answers with the
    address of rank 0, and rank 0 sends its two addresses along the ring. *)
Definition init2_net : Net :=
  mkNet
    [ mkSocket [xb1; xb1] 0 true [] []
        [mkSocket [] 0 true (frame 2 [xb0; xb0] ++ frame 2 [xc0; xc0]) [] []];
      mkSocket [xa1; xa1] 0 true [] [] [mkSocket [] 0 true (frame 2 [xb0; xb0]) [] []];
      mkSocket [xc1; xc1] 0 true [] [] [] ]
    (fun _ => true) [] None.

Definition init2_run : status * Net * ncclComm :=
  bootstrapInit 2 [x7f; x00] [x00; x00] ncclSuccess (mkHandle 9 [x01; x01])
                (mkComm 1 2 0 0 None None) init2_net.

(** The state of that rank when it enters its first all-gather. *)
Definition init2_state : bootstrapState :=
  mkState (mkSocket [xb1; xb1] 9 true [] [] [])
          (mkSocket [] 0 true (frame 2 [xb0; xb0] ++ frame 2 [xc0; xc0]) [] [])
          (mkSocket [xb0; xb0] 9 true [] [] [])
          None None [] 0 1 2 9 0.

(** *** Vocabulary for the statement about the unexpected queue *)

(** A connection as it waits in the accept queue when its sender has
    written its rank [peer] and its tag, each framed, and [after] is the
    connection once these two frames are read. *)
Definition announce (peer tag : Z) (after : ncclSocket) : ncclSocket :=
  set_rx after (frame SIZEOF_INT (int_to_bytes peer)
                ++ frame SIZEOF_INT (int_to_bytes tag) ++ sock_rx after).

Definition arrival : Type := (Z * Z * ncclSocket)%type.

Definition arrival_conn (a : arrival) : ncclSocket :=
  let '(p, t, after) := a in announce p t after.

Definition arrival_unex (a : arrival) : unexConn :=
  let '(p, t, after) := a in mkUnex p t after.

(** An arrival that a [Recv(peer, tag)] has to put aside. *)
Definition arrival_other (peer tag : Z) (a : arrival) : Prop :=
  let '(p, t, _) := a in is_int p /\ is_int t /\ (p <> peer \/ t <> tag).

Definition unex_other (peer tag : Z) (e : unexConn) : Prop :=
  unex_peer e <> peer \/ unex_tag e <> tag.

(** Rank 2 of scenario S3: the message of rank 1 with tag 9 arrives before
    the message of rank 0 with tag 7. *)
Definition s3_state : bootstrapState :=
  mkState (mkSocket [x01] 5 true [] []
             [ announce 1 9 (mkSocket [] 0 true (frame 2 [x78; x78]) [] []);
               announce 0 7 (mkSocket [] 0 true (frame 2 [x68; x69]) [] []) ])
          ncclSocketInit0 ncclSocketInit0 (Some [x0a; x0b; x0c; x0d]) None []
          0 2 4 5 0.

Definition s3_net : Net := mkNet [] (fun _ => true) [] None.

(** What a [bootstrapRecv] that returns [r] has done to the sockets.  One
    turn after the other, its accept loop either parks the connection it
    accepted or closes it; when no connection is left and the accept fails,
    it closes the socket it has just initialised.  [waiting] and [queued]
    count the connections at the listening socket and in the queue before
    the call. *)
Definition retired (net net' : Net) (st' : bootstrapState) (r : ncclResult_t)
  (waiting queued : nat) : Prop :=
  exists sock,
    net_closed net' = net_closed net ++ [sock] /\ sock_open sock = false
    /\ ((length (sock_acceptq (listenSock st')) + length (unexpectedConnections st') + 1
         = waiting + queued)%nat
        \/ (net_accept_error net = Some r /\ r <> ncclSuccess
            /\ sock = set_open ncclSocketInit0 false
            /\ sock_acceptq (listenSock st') = []
            /\ length (unexpectedConnections st') = (waiting + queued)%nat)).

(** *** Vocabulary for the statements about the root service *)

(** The address in slot [r] of a table. *)
Definition table_slot (asz : Z) (table : list byte) (r : Z) : list byte :=
  firstn (Z.to_nat asz) (skipn (Z.to_nat (r * asz)) table).

Definition with_info (l : rootLocals) (info : list byte) : rootLocals :=
  mkRoot (root_nranks l) (root_c l) info (root_rankAddresses l) (root_rankAddressesRoot l).

(** [root_turns asz conns net l net' l']: the collecting loop takes the
    connections [conns] one after the other, every one of them checks in
    well and the loop goes on; it starts the first of these turns with the
    network [net] and the locals [l] and ends the last with [net'] and
    [l']. *)
Inductive root_turns (asz : Z) : list ncclSocket -> Net -> rootLocals -> Net -> rootLocals -> Prop :=
| root_turns_nil : forall net l, root_turns asz [] net l net l
| root_turns_cons : forall sock conns net l sock' info' l' net2 l2,
    bootstrapNetRecv sock (root_info l) 0 (sizeof_extInfo asz)
    = (Ret ncclSuccess, sock', info') ->
    bootstrapRoot_checkin asz (with_info l info') = TurnNext l' ->
    root_turns asz conns (snd (fst (ncclSocketClose net sock'))) l' net2 l2 ->
    root_turns asz (sock :: conns) net l net2 l2.

(** The locals once the first check-in is stored: the tables exist and have
    [nranks] slots, and [c] check-ins are counted. *)
Definition root_collecting (asz : Z) (l : rootLocals) : Prop :=
  1 <= root_nranks l <= INT_MAX
  /\ 1 <= root_c l <= root_nranks l
  /\ exists rankAddresses rankAddressesRoot,
       root_rankAddresses l = Some rankAddresses
       /\ root_rankAddressesRoot l = Some rankAddressesRoot
       /\ Z.of_nat (length rankAddresses) = root_nranks l * asz
       /\ Z.of_nat (length rankAddressesRoot) = root_nranks l * asz.

(** The connection the distributing loop makes in turn [r]: to the root
    address of rank [r], carrying the framed address of its successor. *)
Definition distribute_conn (asz magic : Z) (rankAddresses rankAddressesRoot : list byte)
  (nranks r : Z) : ncclSocket :=
  mkSocket (table_slot asz rankAddressesRoot r) magic false []
           (frame asz (table_slot asz rankAddresses ((r + 1) mod nranks))) [].

(** The ranks [r, r+1, ..., r+k-1]. *)
Fixpoint ranks_from (r : Z) (k : nat) : list Z :=
  match k with
  | O => []
  | S k' => r :: ranks_from (r + 1) k'
  end.

(** Three ranks checking in with the root in the order 2, 0, 1, with
    two-byte addresses. *)
Definition root3_checkin (r n : Z) (a b : list byte) : ncclSocket :=
  mkSocket [] 0 true (frame (sizeof_extInfo 2) (extInfo_bytes r n a b)) [] [].

Definition root3_listen : ncclSocket :=
  mkSocket [x01; x01] 9 true [] []
    [ root3_checkin 2 3 [xa2; xa2] [xb2; xb2];
      root3_checkin 0 3 [xa0; xa0] [xb0; xb0];
      root3_checkin 1 3 [xa1; xa1] [xb1; xb1] ].

Definition root3_net : Net := mkNet [] (fun _ => true) [] None.

(** The same root, with rank 2 checking in twice, and with a second
    check-in that reports four ranks. *)
Definition root3_listen_duplicate : ncclSocket :=
  mkSocket [x01; x01] 9 true [] []
    [ root3_checkin 2 3 [xa2; xa2] [xb2; xb2];
      root3_checkin 2 3 [xa0; xa0] [xb0; xb0];
      root3_checkin 1 3 [xa1; xa1] [xb1; xb1] ].

Definition root3_listen_mismatch : ncclSocket :=
  mkSocket [x01; x01] 9 true [] []
    [ root3_checkin 2 3 [xa2; xa2] [xb2; xb2];
      root3_checkin 0 4 [xa0; xa0] [xb0; xb0];
      root3_checkin 1 3 [xa1; xa1] [xb1; xb1] ].

(** The locals of the root after the first of these check-ins. *)
Definition root3_after_first : rootLocals :=
  mkRoot 3 1 (extInfo_bytes 2 3 [xa2; xa2] [xb2; xb2])
         (Some [x00; x00; x00; x00; xb2; xb2])
         (Some [x00; x00; x00; x00; xa2; xa2]).

Definition root3_net_after_first : Net :=
  mkNet [] (fun _ => true) [mkSocket [] 0 false [] [] []] None.

(** A state with both address tables and an empty queue, as a
    communicator of one rank has it when it is closed. *)
Definition close_state : bootstrapState :=
  mkState ncclSocketInit0 ncclSocketInit0 ncclSocketInit0
          (Some [x0a; x0b]) (Some [x0c; x0d]) [] 0 0 1 9 0.

(** *** Vocabulary for the statements about the intra-node collectives *)

(** A call of the point-to-point layer together with the place of its
    buffer: [data + off], [size] bytes. *)
Inductive p2pTransfer : Type :=
| SendFrom (peer tag off size : Z)
| RecvInto (peer tag off size : Z).

(** The layer that notes the calls with their buffers and lets every one of
    them succeed. *)
Definition note_send (log : list p2pTransfer) (peer tag : Z) (mem : list byte) (off size : Z)
  : status * list p2pTransfer :=
  (Ret ncclSuccess, log ++ [SendFrom peer tag off size]).

Definition note_recv (log : list p2pTransfer) (peer tag : Z) (mem : list byte) (off size : Z)
  : status * list p2pTransfer * list byte :=
  (Ret ncclSuccess, log ++ [RecvInto peer tag off size], mem).

(** Round [i] of the intra-node all-gather of rank [rank]: its own slice
    goes to the rank [i] places ahead, and the slice of the rank [i] places
    behind is received into the place of that rank. *)
Definition intranode_round (f : Z -> Z) (rank nranks size i : Z) : list p2pTransfer :=
  [ SendFrom (f ((rank + i) mod nranks)) i (rank * size) size;
    RecvInto (f ((rank - i) mod nranks)) i (((rank - i) mod nranks) * size) size ].

(** The connection the root of a broadcast makes to the rank at index [i]
    of [ranks]: to the address of that rank in the table, carrying the
    rank of the root, the tag [ranks[i]] and the data. *)
Definition bcast_conn (asz : Z) (st : bootstrapState) (table : list byte) (f : Z -> Z)
  (size : Z) (payload : list byte) (i : Z) : ncclSocket :=
  mkSocket (table_slot asz table (f i)) (st_magic st) false []
           (frame SIZEOF_INT (int_to_bytes (st_rank st))
            ++ frame SIZEOF_INT (int_to_bytes (f i))
            ++ frame size payload) [].

(* ================================================================== *)
(** ** Selection of the bootstrap interface *)

(** The file-scope variables of bootstrap.cc: the name and the address of
    the interface chosen for the bootstrap traffic, the flag that tells
    that the choice is made, and the mutex that guards it
    ([bootstrapNetLock] is [true] while the mutex is held). *)
Record netGlobals : Type := mkGlobals {
  bootstrapNetIfName : list byte;
  bootstrapNetIfAddr : list byte;
  bootstrapNetInitDone : Z;
  bootstrapNetLock : bool
}.

Definition set_bootstrapNetLock (g : netGlobals) (held : bool) : netGlobals :=
  mkGlobals (bootstrapNetIfName g) (bootstrapNetIfAddr g) (bootstrapNetInitDone g) held.

Definition set_bootstrapNetInitDone (g : netGlobals) (v : Z) : netGlobals :=
  mkGlobals (bootstrapNetIfName g) (bootstrapNetIfAddr g) v (bootstrapNetLock g).

Definition set_bootstrapNetIf (g : netGlobals) (ifName ifAddr : list byte) : netGlobals :=
  mkGlobals ifName ifAddr (bootstrapNetInitDone g) (bootstrapNetLock g).

Section InterfaceSelection.

(** Modelled from the spec: the address parser and the two interface
    finders belong to the socket helper library, which is consumed as a
    black box.  They are parameters here and nothing is assumed about what
    they answer.  [ncclSocketGetAddrFromString s] gives its result and the
    address it wrote; a finder is given the two output buffers as they are
    and gives the number of interfaces it found and the two buffers as it
    leaves them. *)
Variable ncclSocketGetAddrFromString : list byte -> ncclResult_t * list byte.
Variable ncclFindInterfaceMatchSubnet :
  list byte -> list byte -> list byte -> Z * list byte * list byte.
Variable ncclFindInterfaces : list byte -> list byte -> Z * list byte * list byte.

(** [bootstrapNetInit()]; [env] is the value of [NCCL_COMM_ID] in the
    environment, [None] when it is not set.  A [pthread_mutex_lock] on a
    mutex that is held waits until it is released. *)
Definition bootstrapNetInit (env : option (list byte)) (g : netGlobals)
  : status * netGlobals :=
  if bootstrapNetInitDone g =? 0 then
    (* pthread_mutex_lock(&bootstrapNetLock) *)
    if bootstrapNetLock g then (Blocked, g) else
    let g := set_bootstrapNetLock g true in
    if bootstrapNetInitDone g =? 0 then
      let '(s, g) :=
        match env with
        | Some env =>
            let '(res, remoteAddr) := ncclSocketGetAddrFromString env in
            if negb (ok (Ret res)) then (Ret ncclInvalidArgument, g) else
            let '(n, ifName, ifAddr) :=
              ncclFindInterfaceMatchSubnet (bootstrapNetIfName g) (bootstrapNetIfAddr g)
                                           remoteAddr in
            let g := set_bootstrapNetIf g ifName ifAddr in
            if n <=? 0 then (Ret ncclSystemError, g) else (Ret ncclSuccess, g)
        | None =>
            let '(nIfs, ifName, ifAddr) :=
              ncclFindInterfaces (bootstrapNetIfName g) (bootstrapNetIfAddr g) in
            let g := set_bootstrapNetIf g ifName ifAddr in
            if nIfs <=? 0 then (Ret ncclInternalError, g) else (Ret ncclSuccess, g)
        end in
      (* the three error returns leave the function here, inside the
         critical section *)
      if negb (ok s) then (s, g) else
      let g := set_bootstrapNetInitDone g 1 in
      (* pthread_mutex_unlock(&bootstrapNetLock) *)
      (Ret ncclSuccess, set_bootstrapNetLock g false)
    else (Ret ncclSuccess, set_bootstrapNetLock g false)
  else (Ret ncclSuccess, g).

(* ================================================================== *)
(** ** The unique id and the start of the root *)

(** [struct bootstrapRootArgs]. *)
Record bootstrapRootArgs : Type := mkRootArgs {
  args_listenSock : ncclSocket;
  args_magic : Z
}.

(** [bootstrapCreateRoot(handle, idFromEnv)].  [pthread_create] and
    [pthread_detach] are the values these two calls return; the last
    component of the result is the argument of the thread that was started,
    [None] when none was.  The two allocations, of one element each, are
    taken to succeed. *)
Definition bootstrapCreateRoot (asz : Z) (pthread_create pthread_detach : Z)
  (handle : ncclBootstrapHandle) (idFromEnv : bool) (net : Net)
  : status * Net * ncclBootstrapHandle * option bootstrapRootArgs :=
  let listenSock := ncclSocketInit (handle_addr handle) (handle_magic handle) in
  let '(s, net, listenSock) := ncclSocketListen net listenSock in
  if negb (ok s) then (s, net, handle, None) else
  let handle := mkHandle (handle_magic handle) (ncclSocketGetAddr asz listenSock) in
  let args := mkRootArgs listenSock (handle_magic handle) in
  (* NEQCHECK(pthread_create(&thread, NULL, bootstrapRoot, args), 0) *)
  if negb (pthread_create =? 0) then (Ret ncclSystemError, net, handle, None) else
  (* NEQCHECK(pthread_detach(thread), 0) *)
  if negb (pthread_detach =? 0) then (Ret ncclSystemError, net, handle, Some args) else
  (Ret ncclSuccess, net, handle, Some args).

(** [bootstrapGetUniqueId(handle)].  [getRandomData] is the result of the
    call of that name and the value it left in [handle->magic]; [g] holds
    the file-scope variables. *)
Definition bootstrapGetUniqueId (asz : Z) (getRandomData : status * Z)
  (env : option (list byte)) (pthread_create pthread_detach : Z)
  (g : netGlobals) (net : Net)
  : status * Net * ncclBootstrapHandle * option bootstrapRootArgs :=
  (* memset(handle, 0, sizeof(ncclBootstrapHandle)) *)
  let handle := mkHandle 0 (zeros asz) in
  let '(s, magic) := getRandomData in
  let handle := mkHandle magic (handle_addr handle) in
  if negb (ok s) then (s, net, handle, None) else
  match env with
  | Some env =>
      let '(res, addr) := ncclSocketGetAddrFromString env in
      let handle := mkHandle (handle_magic handle) addr in
      if negb (ok (Ret res)) then (Ret ncclInvalidArgument, net, handle, None)
      else (Ret ncclSuccess, net, handle, None)
  | None =>
      let handle := mkHandle (handle_magic handle) (bootstrapNetIfAddr g) in
      let '(s, net, handle, thread) :=
        bootstrapCreateRoot asz pthread_create pthread_detach handle false net in
      if negb (ok s) then (s, net, handle, thread)
      else (Ret ncclSuccess, net, handle, thread)
  end.

End InterfaceSelection.

(* ================================================================== *)
(** ** Split *)

(** Modelled from the spec: the fields of [struct ncclComm] that
    [bootstrapSplit] uses besides those [bootstrapInit] uses.  The proxy
    states are shared between communicators: they live in a store that holds
    the reference count of each one, and a pointer to a proxy state is an
    index into this store ([None] is the null pointer).
    [top_sharedProxyState] is [sharedRes->proxyState]. *)
Record ncclCommTop : Type := mkCommTop {
  top_comm : ncclComm;
  top_splitShare : Z;
  top_topParentRanks : list Z;
  top_sharedProxyState : option nat;
  top_proxyState : option nat
}.

Definition set_top_comm (t : ncclCommTop) (c : ncclComm) : ncclCommTop :=
  mkCommTop c (top_splitShare t) (top_topParentRanks t) (top_sharedProxyState t)
            (top_proxyState t).

Definition set_top_topParentRanks (t : ncclCommTop) (a : list Z) : ncclCommTop :=
  mkCommTop (top_comm t) (top_splitShare t) a (top_sharedProxyState t) (top_proxyState t).

Definition set_top_proxyState (t : ncclCommTop) (p : option nat) : ncclCommTop :=
  mkCommTop (top_comm t) (top_splitShare t) (top_topParentRanks t)
            (top_sharedProxyState t) p.

(** An [int] array that is read and written by index; an index outside the
    array is undefined behaviour ([None]). *)
Definition array_get (a : list Z) (i : Z) : option Z :=
  if i <? 0 then None else nth_error a (Z.to_nat i).

Definition array_set (a : list Z) (i v : Z) : option (list Z) :=
  if (0 <=? i) && (i <? Z.of_nat (length a))
  then Some (firstn (Z.to_nat i) a ++ v :: skipn (Z.to_nat i + 1) a)
  else None.

(** [ncclAtomicRefCountIncrement(&p->refCount)] on the store of proxy
    states. *)
Definition ncclAtomicRefCountIncrement (store : list Z) (p : nat) : option (list Z) :=
  match nth_error store p with
  | Some refCount => Some (firstn p store ++ int_add refCount 1 :: skipn (p + 1) store)
  | None => None
  end.

(** Modelled from the spec: [ncclSocketInit(&sock, NULL, magic, ...)], a
    socket with a magic and no address. *)
Definition ncclSocketInitNull (magic : Z) : ncclSocket := mkSocket [] magic false [] [] [].

(** The loop [for (int i = 0; i < nranks; ++i)
    comm->topParentRanks[i] = parent->topParentRanks[parentRanks[i]];],
    [todo] turns from [i] on. *)
Fixpoint split_topParentRanks (todo : nat) (i : Z) (topParentRanks parentTop : list Z)
  (parentRanks : Z -> option Z) : option (list Z) :=
  match todo with
  | O => Some topParentRanks
  | S todo' =>
      match parentRanks i with
      | None => None
      | Some pr =>
          match array_get parentTop pr with
          | None => None
          | Some v =>
              match array_set topParentRanks i v with
              | None => None
              | Some topParentRanks' =>
                  split_topParentRanks todo' (int_add i 1) topParentRanks' parentTop
                                       parentRanks
              end
          end
      end
  end.

(** The first part of [bootstrapSplit]: the two neighbours in the new
    ring, the listening socket, the exchange of the listening addresses
    through the bootstrap state of the parent (tag -2), and the two ring
    sockets.  [tmpAddr0], [newPeer0] and [newTag0] are the indeterminate
    initial contents of the locals [tmpAddr] of this function and
    [newPeer], [newTag] of [bootstrapRecv]. *)
Definition bootstrapSplit_ring (asz : Z) (g : netGlobals) (newPeer0 newTag0 : Z)
  (tmpAddr0 : list byte) (parentRanks : Z -> option Z) (net : Net)
  (st : bootstrapState) (parent : ncclCommTop)
  : status * Net * bootstrapState * ncclCommTop :=
  let rank := st_rank st in
  let nranks := st_nranks st in
  let magic := st_magic st in
  (* prev = parentRanks[(rank-1+nranks)%nranks]; next = parentRanks[(rank+1)%nranks]; *)
  if nranks =? 0 then (Fault, net, st, parent) else
  match parentRanks (int_rem (int_add (int_sub rank 1) nranks) nranks),
        parentRanks (int_rem (int_add rank 1) nranks) with
  | Some prev, Some next =>
      (* Setup my sockets for the allgather ring and other p2p connections *)
      let st := set_listenSock st (ncclSocketInit (bootstrapNetIfAddr g) magic) in
      let st := set_ringRecvSocket st (ncclSocketInitNull magic) in
      (* Create socket for other ranks to contact me *)
      let '(s, net, lsock) := ncclSocketListen net (listenSock st) in
      let st := set_listenSock st lsock in
      if negb (ok s) then (s, net, st, parent) else
      (* Get addr from next rank *)
      let listenAddr := ncclSocketGetAddr asz (listenSock st) in
      match comm_bootstrap (top_comm parent) with
      | None => (Fault, net, st, parent)
      | Some pst =>
          let '(s, (net, pst)) := bootstrapSend asz (net, pst) prev (-2) listenAddr 0 asz in
          let parent := set_top_comm parent (set_comm_bootstrap (top_comm parent) pst) in
          if negb (ok s) then (s, net, st, parent) else
          let '(s, (net, pst), tmpAddr) :=
            bootstrapRecv newPeer0 newTag0 (net, pst) next (-2) tmpAddr0 0 asz in
          let parent := set_top_comm parent (set_comm_bootstrap (top_comm parent) pst) in
          if negb (ok s) then (s, net, st, parent) else
          let st := set_ringSendSocket st (ncclSocketInit tmpAddr magic) in
          let s := ncclSocketConnect net (ringSendSocket st) in
          if negb (ok s) then (s, net, st, parent) else
          (* Accept the connect request from the previous rank in the AllGather ring *)
          let '(s, rsock, lsock) := ncclSocketAccept net (listenSock st) in
          if negb (ok s) then (s, net, st, parent) else
          let st := set_listenSock (set_ringRecvSocket st rsock) lsock in
          (Ret ncclSuccess, net, st, parent)
      end
  | _, _ => (Fault, net, st, parent)
  end.

(** The branch [if (parent->config.splitShare)]: the new communicator
    takes over the proxy state of the parent. *)
Definition bootstrapSplit_shareProxy (nranks : Z) (comm parent : ncclCommTop)
  (parentRanks : Z -> option Z) (store : list Z) : status * ncclCommTop * list Z :=
  (* map local rank to top parent local rank. *)
  match split_topParentRanks (Z.to_nat nranks) 0 (top_topParentRanks comm)
                             (top_topParentRanks parent) parentRanks with
  | None => (Fault, comm, store)
  | Some topParentRanks =>
      let comm := set_top_topParentRanks comm topParentRanks in
      let comm := set_top_proxyState comm (top_sharedProxyState parent) in
      match top_sharedProxyState parent with
      | None => (Fault, comm, store)
      | Some p =>
          match ncclAtomicRefCountIncrement store p with
          | None => (Fault, comm, store)
          | Some store => (Ret ncclSuccess, comm, store)
          end
      end
  end.

(** The other branch: the new communicator gets a service proxy of its own,
    as in [bootstrapInit]. *)
Definition bootstrapSplit_newProxy (asz : Z) (g : netGlobals) (net : Net)
  (st : bootstrapState) (comm : ncclComm) : status * Net * ncclComm :=
  match ncclCalloc (st_nranks st) asz with
  | None => (Ret ncclSystemError, net, set_comm_bootstrap comm st)
  | Some ptable =>
  let st := set_peerProxyAddresses st (Some ptable) in
  let '(s, net, proxySocket) :=
    ncclSocketListen net (ncclSocketInit (bootstrapNetIfAddr g) (st_magic st)) in
  if negb (ok s) then (s, net, set_comm_bootstrap comm st) else
  let tmpAddr := ncclSocketGetAddr asz proxySocket in
  match mem_write ptable (st_rank st * asz) tmpAddr with
  | None => (Fault, net, set_comm_bootstrap comm st)
  | Some ptable =>
  let st := set_peerProxyAddresses st (Some ptable) in
  let '(s, st, ptable) := bootstrapAllGather st ptable asz in
  let st := set_peerProxyAddresses st (Some ptable) in
  if negb (ok s) then (s, net, set_comm_bootstrap comm st) else
  let '(s, comm) := ncclProxyInit (set_comm_bootstrap comm st) proxySocket ptable in
  (s, net, comm)
  end end.

(** What [bootstrapSplit] leaves behind: its result, the network, the new
    communicator, the parent and the store of proxy states. *)
Definition splitResult : Type := (status * Net * ncclCommTop * ncclCommTop * list Z)%type.

(** [bootstrapSplit(handle, comm, parent, color, key, parentRanks)].
    [callocState] is the result of [ncclCalloc(&state, 1)]: when the
    allocation fails the call returns its error and nothing has changed.
    Otherwise, as in [bootstrapInit], [comm->bootstrap] points to the state
    from then on, so the communicator shows the state as the call leaves
    it. *)
Definition bootstrapSplit (asz : Z) (g : netGlobals) (newPeer0 newTag0 : Z)
  (tmpAddr0 : list byte) (callocState : ncclResult_t) (handle : ncclBootstrapHandle)
  (comm parent : ncclCommTop)
  (color key : Z) (parentRanks : Z -> option Z) (net : Net) (store : list Z)
  : splitResult :=
  (* NCCLCHECKGOTO(ncclCalloc(&state, 1), ret, fail) *)
  if negb (ok (Ret callocState)) then (Ret callocState, net, comm, parent, store) else
  let rank := comm_rank (top_comm comm) in
  let nranks := comm_nRanks (top_comm comm) in
  let magic := handle_magic handle in
  let st := mkState ncclSocketInit0 ncclSocketInit0 ncclSocketInit0 None None []
                    0 rank nranks magic (comm_abortFlag (top_comm comm)) in
  let comm := set_top_comm comm (set_comm_magic (top_comm comm) magic) in
  (* exit: return ret; *)
  let leave (ret : status) (net : Net) (st : bootstrapState) (parent : ncclCommTop)
    : splitResult :=
    (ret, net, set_top_comm comm (set_comm_bootstrap (top_comm comm) st), parent, store) in
  let '(s, net, st, parent) :=
    bootstrapSplit_ring asz g newPeer0 newTag0 tmpAddr0 parentRanks net st parent in
  if negb (ok s) then leave s net st parent else
  (* AllGather all listen handlers *)
  match ncclCalloc nranks asz with
  | None => leave (Ret ncclSystemError) net st parent
  | Some table =>
  let st := set_peerCommAddresses st (Some table) in
  match mem_write table (rank * asz) (ncclSocketGetAddr asz (listenSock st)) with
  | None => leave Fault net st parent
  | Some table =>
  let st := set_peerCommAddresses st (Some table) in
  let '(s, st, table) := bootstrapAllGather st table asz in
  let st := set_peerCommAddresses st (Some table) in
  if negb (ok s) then leave s net st parent else
  if negb (top_splitShare parent =? 0) then
    let '(s, comm, store) :=
      bootstrapSplit_shareProxy nranks comm parent parentRanks store in
    (s, net, set_top_comm comm (set_comm_bootstrap (top_comm comm) st), parent, store)
  else
    (* Create the service proxy *)
    let '(s, net, c) := bootstrapSplit_newProxy asz g net st (top_comm comm) in
    (s, net, set_top_comm comm c, parent, store)
  end end.

(** *** Vocabulary and example for the statements about the split *)

(** The parent as [bootstrapSplit] may leave it: nothing is changed but,
    in its bootstrap state, the connections waiting at the listening socket,
    of which some have been taken from the front, and the queue of
    unexpected connections.  (The reference counts of the proxy states are
    not in the communicator but in the store.) *)
Definition parent_same_but_queue (parent parent' : ncclCommTop) : Prop :=
  top_splitShare parent' = top_splitShare parent
  /\ top_topParentRanks parent' = top_topParentRanks parent
  /\ top_sharedProxyState parent' = top_sharedProxyState parent
  /\ top_proxyState parent' = top_proxyState parent
  /\ comm_rank (top_comm parent') = comm_rank (top_comm parent)
  /\ comm_nRanks (top_comm parent') = comm_nRanks (top_comm parent)
  /\ comm_magic (top_comm parent') = comm_magic (top_comm parent)
  /\ comm_proxy (top_comm parent') = comm_proxy (top_comm parent)
  /\ match comm_bootstrap (top_comm parent) with
     | None => comm_bootstrap (top_comm parent') = None
     | Some pst =>
         exists n q,
           comm_bootstrap (top_comm parent')
           = Some (set_unexpectedConnections
                     (set_listenSock pst
                        (set_acceptq (listenSock pst)
                                     (skipn n (sock_acceptq (listenSock pst)))))
                     q)
     end.

(** Scenario S5: a parent of four ranks is split into the ranks 0 and 2.
    Shown is rank 2 of the parent, which becomes rank 1 of the two ranks of
    the new communicator; its two neighbours in the new ring are both rank 0
    of the parent.  At the listening socket of the parent state a message of
    rank 3 with tag 9 is waiting in front of the message of rank 0 with tag
    -2, which carries the address b0 b0 of the new listening socket of rank
    0.  The network gives the new communicator its listening socket b1 b1,
    to which rank 0 has connected and over which it sends its two
    contributions to the all-gathers (its listening address b0 b0 and its
    proxy address c0 c0), and one more socket c1 c1.  The store holds three
    proxy states; the shared one of the parent is the second. *)
Definition split2_pst : bootstrapState :=
  mkState (mkSocket [xa2; xa2] 5 true [] []
             [ announce 3 9 (mkSocket [] 0 true (frame 2 [x78; x78]) [] []);
               announce 0 (-2) (mkSocket [] 0 true (frame 2 [xb0; xb0]) [] []) ])
          ncclSocketInit0 ncclSocketInit0
          (Some [xa0; xa0; xa1; xa1; xa2; xa2; xa3; xa3]) None [] 0 2 4 5 0.

Definition split2_parent (splitShare : Z) : ncclCommTop :=
  mkCommTop (mkComm 2 4 0 5 (Some split2_pst) None) splitShare [10; 11; 12; 13]
            (Some 1%nat) (Some 1%nat).

Definition split2_comm : ncclCommTop :=
  mkCommTop (mkComm 1 2 0 0 None None) 0 [0; 0] None None.

Definition split2_prevconn : ncclSocket :=
  mkSocket [] 0 true (frame 2 [xb0; xb0] ++ frame 2 [xc0; xc0]) [] [].

Definition split2_net : Net :=
  mkNet [ mkSocket [xb1; xb1] 0 true [] [] [split2_prevconn];
          mkSocket [xc1; xc1] 0 true [] [] [] ]
        (fun _ => true) [] None.

Definition split2_globals : netGlobals := mkGlobals [] [x7f; x00] 1 false.

Definition split2_ranks : Z -> option Z := int_array 2 (fun i => 2 * i).

Definition split2_store : list Z := [4; 1; 7].

Definition split2_run (splitShare : Z) : splitResult :=
  bootstrapSplit 2 split2_globals 0 0 [x00; x00] ncclSuccess (mkHandle 9 [x01; x01])
                 split2_comm (split2_parent splitShare) 0 0
                 split2_ranks split2_net split2_store.

(* ================================================================== *)
(** ** The ranks of a barrier together *)

(** Modelled from the spec: the bootstrap network routes a connection by
    the address it is made to.  Two addresses are compared byte by byte. *)
Definition addr_eqb (a b : list byte) : bool :=
  if list_eq_dec Byte.byte_eq_dec a b then true else false.

(** Modelled from the spec: what the accepting side sees of a connection
    the connecting side has written to: the bytes written arrive, and the
    accepted socket has no listening address of its own. *)
Definition accepted (c : ncclSocket) : ncclSocket :=
  mkSocket [] (sock_magic c) true (sock_tx c) [] [].

(** The connections in [arrived] that rank [p] has made. *)
Definition made_by (p : Z) (arrived : list (Z * ncclSocket)) : list (Z * ncclSocket) :=
  filter (fun e => fst e =? p) arrived.

Section BarrierRanks.

(** The group has [nranks] members; member [p] is rank [f p] of the
    communicator, listens on [addr p], and enters the barrier with the
    state [st0 p], the network [net0 p] and whatever [data0 p] its local
    [int data[1]] holds.  [entered p] tells whether member [p] calls
    [bootstrapBarrier] at all. *)
Variables (asz nranks tag : Z) (f : Z -> Z) (fuel : nat) (newPeer0 newTag0 : Z).
Variables (st0 : Z -> bootstrapState) (net0 : Z -> Net) (data0 : Z -> Z).
Variable addr : Z -> list byte.
Variable entered : Z -> bool.

(** The call of member [p] when the connections [arrived] have reached its
    listening socket, in this order, behind those that waited there when it
    entered: it has returned, or it waits in an [Accept] for the next
    connection ([Blocked]). *)
Definition barrier_call (p : Z) (arrived : list ncclSocket)
  : status * (Net * bootstrapState) :=
  bootstrapBarrier (bootstrapSend asz) (bootstrapRecv newPeer0 newTag0) fuel
    (net0 p,
     set_listenSock (st0 p)
       (set_acceptq (listenSock (st0 p))
                    (sock_acceptq (listenSock (st0 p)) ++ arrived)))
    (int_array nranks f) p nranks tag (data0 p).

(** The connections member [p] has made to the address of member [q] by
    then, in their order: a [bootstrapSend] closes its connection when it
    has written its message. *)
Definition barrier_made (p q : Z) (arrived : list ncclSocket) : list ncclSocket :=
  filter (fun c => addr_eqb (sock_addr c) (addr q))
         (skipn (length (net_closed (net0 p)))
                (net_closed (fst (snd (barrier_call p arrived))))).

(** The executions of the barrier.  A state gives, for every member, the
    connections that have reached its listening socket, each with the
    member that made it.  One move lets the next connection that a member
    [p] inside the barrier has made to [q] arrive at [q], if it carries the
    magic that the listening socket of [q] checks for.  Connections of
    different members arrive in any order. *)
Inductive barrier_runs
  : (Z -> list (Z * ncclSocket)) -> (Z -> list (Z * ncclSocket)) -> Prop :=
| barrier_runs_refl : forall A, barrier_runs A A
| barrier_runs_deliver : forall A p q c A'',
    0 <= p < nranks -> 0 <= q < nranks -> entered p = true ->
    nth_error (barrier_made p q (map snd (A p))) (length (made_by p (A q))) = Some c ->
    sock_magic c = sock_magic (listenSock (st0 q)) ->
    barrier_runs (upd A q (A q ++ [(p, accepted c)])) A'' ->
    barrier_runs A A''.

End BarrierRanks.

(** When the first member enters, no connection has arrived anywhere. *)
Definition barrier_start : Z -> list (Z * ncclSocket) := fun _ => [].

(** *** Vocabulary for the statement about the barrier *)

(** The member that member [p] receives from, and the one it sends to, in
    round [k]. *)
Definition barrier_src (nranks p : Z) (k : nat) : Z := (p - 2 ^ Z.of_nat k) mod nranks.
Definition barrier_dst (nranks p : Z) (k : nat) : Z := (p + 2 ^ Z.of_nat k) mod nranks.

(** Member [p] has got the messages of its first [j] rounds. *)
Definition barrier_reached (nranks p : Z) (arrived : list (Z * ncclSocket)) (j : nat)
  : Prop :=
  forall i, (i < j)%nat -> In (barrier_src nranks p i) (map fst arrived).

(** A connection as it waits for a receive of the barrier: it announces the
    rank [x] and the tag, and one [int] follows. *)
Definition barrier_arrival (tag : Z) (a : arrival) : Prop :=
  let '(x, t, after) := a in
  is_int x /\ t = tag /\ sock_addr after = []
  /\ exists d, length d = 4%nat /\ sock_rx after = frame SIZEOF_INT d.

Definition barrier_msg (tag x : Z) (c : ncclSocket) : Prop :=
  exists after, c = announce x tag after /\ barrier_arrival tag (x, tag, after).

(** The connection member [p] makes in round [t]. *)
Definition barrier_sent (nranks tag magic : Z) (f : Z -> Z) (addr : Z -> list byte)
  (p : Z) (t : nat) (c : ncclSocket) : Prop :=
  sock_addr c = addr (barrier_dst nranks p t)
  /\ sock_magic c = magic
  /\ exists d, length d = 4%nat
       /\ sock_tx c = frame SIZEOF_INT (int_to_bytes (f p))
                      ++ frame SIZEOF_INT (int_to_bytes tag) ++ frame SIZEOF_INT d.

(** The invariant of the barrier: every connection that has arrived at
    [q] is the message of a round [j] of a member [s] inside the barrier,
    which had got the messages of its rounds before [j]. *)
Definition barrier_inv (nranks tag : Z) (f : Z -> Z) (entered : Z -> bool)
  (A : Z -> list (Z * ncclSocket)) : Prop :=
  forall q s c, 0 <= q < nranks -> In (s, c) (A q) ->
    0 <= s < nranks /\ entered s = true /\ barrier_msg tag (f s) c
    /\ exists j, (j < Z.to_nat (Z.log2_up nranks))%nat
         /\ q = barrier_dst nranks s j /\ barrier_reached nranks s (A s) j.

(** Every member has got the messages of its first [k] rounds. *)
Definition barrier_fed (nranks : Z) (k : nat) (A : Z -> list (Z * ncclSocket)) : Prop :=
  forall p, 0 <= p < nranks -> barrier_reached nranks p (A p) k.

(** The members that member [p] of [n] has heard of when it has got the
    messages of its first [k] rounds: itself and the [2^k - 1] members
    before it. *)
Definition heard_after (n : Z) (k : nat) (p : Z) : list Z :=
  map (fun d => (p - Z.of_nat d) mod n) (seq 0 (2 ^ k)).

(** Three members of a barrier, ranks 0, 2 and 4 of their communicator,
    with one-byte addresses. *)
Definition barrier3_addr (q : Z) : list byte :=
  if q =? 0 then [xa0] else if q =? 1 then [xa1] else [xa2].

Definition barrier3_st0 (p : Z) : bootstrapState :=
  mkState (mkSocket (barrier3_addr p) 9 true [] [] []) ncclSocketInit0 ncclSocketInit0
          (Some [xa0; x00; xa1; x00; xa2]) None [] 0 (2 * p) 5 9 0.

Definition barrier3_net0 (p : Z) : Net := mkNet [] (fun _ => true) [] None.

(* ================================================================== *)
(** * Properties *)

(** Decides a comparison between integers that [lia] can settle. *)
Ltac zbool :=
  match goal with
  | |- true = _ => symmetry
  | |- false = _ => symmetry
  | _ => idtac
  end;
  rewrite ?Z.gtb_ltb, ?Z.geb_leb;
  first [ apply Z.leb_le; lia | apply Z.leb_gt; lia
        | apply Z.ltb_lt; lia | apply Z.ltb_ge; lia
        | apply Z.eqb_eq; lia | apply Z.eqb_neq; lia ].

(** ** Integers and bytes *)

Lemma wrap_int_id (z : Z) : is_int z -> wrap_int z = z.
Proof.
  unfold is_int, INT_MIN, INT_MAX, wrap_int. intros H.
  rewrite Z.mod_small by lia. lia.
Qed.

Lemma wrap_int_is_int (z : Z) : is_int (wrap_int z).
Proof.
  unfold is_int, INT_MIN, INT_MAX, wrap_int.
  pose proof (Z.mod_pos_bound (z + 2147483648) 4294967296 ltac:(lia)). lia.
Qed.

Lemma wrap_int_mod (z : Z) : wrap_int (z mod 4294967296) = wrap_int z.
Proof.
  unfold wrap_int. now rewrite Zplus_mod_idemp_l.
Qed.

Lemma Z_of_byte_of_Z (z : Z) : Z_of_byte (byte_of_Z z) = z mod 256.
Proof.
  unfold Z_of_byte, byte_of_Z.
  pose proof (Z.mod_pos_bound z 256 ltac:(lia)) as Hb.
  destruct (Byte.of_N (Z.to_N (z mod 256))) as [b|] eqn:E.
  - apply Byte.to_of_N in E. rewrite E. lia.
  - apply Byte.of_N_None_iff in E. lia.
Qed.

Lemma le_decode_encode (n : nat) (z : Z) :
  le_decode (le_encode n z) = z mod 256 ^ Z.of_nat n.
Proof.
  revert z. induction n as [|n IH]; intros z.
  - simpl. now rewrite Z.mod_1_r.
  - cbn [le_encode le_decode]. rewrite IH, Z_of_byte_of_Z.
    rewrite Nat2Z.inj_succ, Z.pow_succ_r by lia.
    rewrite Z.rem_mul_r by lia. reflexivity.
Qed.

Lemma length_le_encode (n : nat) (z : Z) : length (le_encode n z) = n.
Proof. revert z. induction n; intros; simpl; auto. Qed.

Lemma length_int_to_bytes (z : Z) : length (int_to_bytes z) = 4%nat.
Proof. apply length_le_encode. Qed.

Lemma bytes_to_int_to_bytes (z : Z) : is_int z -> bytes_to_int (int_to_bytes z) = z.
Proof.
  intros H. unfold bytes_to_int, int_to_bytes.
  rewrite le_decode_encode. change (256 ^ Z.of_nat 4) with 4294967296.
  rewrite wrap_int_mod. now apply wrap_int_id.
Qed.

(** ** Memory regions *)

Lemma mem_read_length (m : list byte) (off len : Z) (bs : list byte) :
  mem_read m off len = Some bs -> length bs = Z.to_nat len.
Proof.
  unfold mem_read, in_bounds. destruct (len <=? 0) eqn:E.
  - intros [= <-]. simpl. lia.
  - destruct (_ && _) eqn:B; [|discriminate]. intros [= <-].
    apply andb_true_iff in B. destruct B as [B1 B2].
    rewrite length_firstn, length_skipn. lia.
Qed.

Lemma mem_write_length (m : list byte) (off : Z) (src m' : list byte) :
  mem_write m off src = Some m' -> length m' = length m.
Proof.
  unfold mem_write, in_bounds. destruct (length src =? 0)%nat.
  - now intros [= <-].
  - destruct (_ && _) eqn:B; [|discriminate]. intros [= <-].
    apply andb_true_iff in B. destruct B as [B1 B2].
    rewrite !length_app, length_firstn, length_skipn. lia.
Qed.

(** A region written and then read at the same place gives back what was
    written. *)
Lemma mem_read_write_same (m : list byte) (off : Z) (src m' : list byte) :
  mem_write m off src = Some m' ->
  mem_read m' off (Z.of_nat (length src)) = Some src.
Proof.
  intros W. pose proof (mem_write_length _ _ _ _ W) as L. revert W.
  unfold mem_write, mem_read. destruct (length src =? 0)%nat eqn:E.
  - intros _. apply Nat.eqb_eq in E. rewrite E. simpl.
    destruct src; [reflexivity|discriminate].
  - apply Nat.eqb_neq in E. unfold in_bounds.
    destruct (_ && _) eqn:B; [|discriminate]. intros [= <-].
    replace (Z.of_nat (length src) <=? 0) with false by zbool.
    rewrite L, B. f_equal.
    apply andb_true_iff in B. destruct B as [B1 B2].
    rewrite skipn_app, length_firstn.
    replace (Z.to_nat off - Init.Nat.min (Z.to_nat off) (length m))%nat with 0%nat by lia.
    rewrite skipn_all2 by (rewrite length_firstn; lia).
    simpl. rewrite Nat2Z.id. rewrite firstn_app, Nat.sub_diag. simpl.
    now rewrite firstn_all, app_nil_r.
Qed.

(** ** Framed transfers *)

Lemma ncclSocketRecv_header (sock : ncclSocket) (hdr rest : list byte) :
  sock_rx sock = hdr ++ rest ->
  length hdr = 4%nat ->
  ncclSocketRecv sock SIZEOF_INT = (Ret ncclSuccess, set_rx sock rest, hdr).
Proof.
  intros Hrx Hlen. unfold ncclSocketRecv, SIZEOF_INT. simpl (4 <=? 0).
  rewrite Hrx, length_app, Hlen.
  replace (4 <=? Z.of_nat (4 + length rest)) with true by zbool.
  change (Z.to_nat 4) with 4%nat. rewrite <- Hlen.
  rewrite skipn_app, firstn_app, Nat.sub_diag, skipn_all, firstn_all.
  simpl. now rewrite app_nil_r.
Qed.

Lemma netrecv_reject (sock : ncclSocket) (mem : list byte) (off size : Z)
  (hdr rest : list byte) :
  sock_rx sock = hdr ++ rest ->
  length hdr = 4%nat ->
  bytes_to_int hdr > size ->
  bootstrapNetRecv sock mem off size = (Ret ncclInternalError, set_rx sock rest, mem).
Proof.
  intros Hrx Hlen Hgt. unfold bootstrapNetRecv.
  rewrite (ncclSocketRecv_header _ _ _ Hrx Hlen). simpl ok. cbv iota.
  replace (bytes_to_int hdr >? size) with true by zbool. reflexivity.
Qed.

Lemma netrecv_accept (sock : ncclSocket) (mem : list byte) (off size : Z)
  (hdr rest mem' : list byte) (n : nat) :
  sock_rx sock = hdr ++ rest ->
  length hdr = 4%nat ->
  bytes_to_int hdr <= size ->
  n = Z.to_nat (Z.min (bytes_to_int hdr) size) ->
  (n <= length rest)%nat ->
  mem_write mem off (firstn n rest) = Some mem' ->
  bootstrapNetRecv sock mem off size
  = (Ret ncclSuccess, set_rx sock (skipn n rest), mem').
Proof.
  intros Hrx Hlen Hle Hn Hfit Hw. unfold bootstrapNetRecv.
  rewrite (ncclSocketRecv_header _ _ _ Hrx Hlen). simpl ok. cbv iota.
  replace (bytes_to_int hdr >? size) with false by zbool.
  assert (H2 : ncclSocketRecv (set_rx sock rest) (Z.min (bytes_to_int hdr) size)
               = (Ret ncclSuccess, set_rx sock (skipn n rest), firstn n rest)).
  { unfold ncclSocketRecv. destruct (Z.min (bytes_to_int hdr) size <=? 0) eqn:E.
    - replace n with 0%nat by lia. reflexivity.
    - simpl sock_rx.
      replace (Z.min (bytes_to_int hdr) size <=? Z.of_nat (length rest)) with true by zbool.
      subst n. reflexivity. }
  rewrite H2. simpl ok. cbv iota. now rewrite Hw.
Qed.

(** The receive of one whole frame of exactly the expected size. *)
Lemma netrecv_frame (sock : ncclSocket) (mem : list byte) (off size : Z)
  (payload rest mem' : list byte) :
  0 <= size <= INT_MAX ->
  Z.of_nat (length payload) = size ->
  sock_rx sock = frame size payload ++ rest ->
  mem_write mem off payload = Some mem' ->
  bootstrapNetRecv sock mem off size = (Ret ncclSuccess, set_rx sock rest, mem').
Proof.
  intros Hs Hp Hrx Hw. unfold frame in Hrx. rewrite <- app_assoc in Hrx.
  assert (Hd : bytes_to_int (int_to_bytes size) = size).
  { apply bytes_to_int_to_bytes. unfold is_int, INT_MIN, INT_MAX in *. lia. }
  rewrite (netrecv_accept sock mem off size (int_to_bytes size) (payload ++ rest) mem'
             (length payload) Hrx (length_int_to_bytes size)).
  - now rewrite skipn_app, skipn_all, Nat.sub_diag.
  - lia.
  - rewrite Hd. lia.
  - rewrite length_app. lia.
  - now rewrite firstn_app, firstn_all, Nat.sub_diag, app_nil_r.
Qed.

Lemma netsend_tx (sock : ncclSocket) (mem : list byte) (off size : Z) (payload : list byte) :
  mem_read mem off size = Some payload ->
  bootstrapNetSend sock mem off size
  = (Ret ncclSuccess, set_tx sock (sock_tx sock ++ frame size payload)).
Proof.
  intros R. unfold bootstrapNetSend, ncclSocketSend. simpl ok. cbv iota.
  rewrite R. unfold set_tx, frame. simpl. now rewrite <- app_assoc.
Qed.

(** C5.  [bootstrapNetRecv] reads the four-byte length prefix [recvSize]
    first.  When [recvSize > size] it returns [ncclInternalError] and leaves
    the payload unread on the socket and the destination untouched.
    Otherwise, when the payload has arrived and the destination is inside its
    region, it reads exactly [min(recvSize, size)] bytes from the socket
    into the destination and returns [ncclSuccess]. *)
Theorem bootstrapNetRecv_truncation
  (sock : ncclSocket) (mem : list byte) (off size : Z)
  (hdr rest : list byte) (recvSize : Z) :
  sock_rx sock = hdr ++ rest ->
  length hdr = 4%nat ->
  bytes_to_int hdr = recvSize ->
  (recvSize > size ->
     bootstrapNetRecv sock mem off size
     = (Ret ncclInternalError, set_rx sock rest, mem))
  /\
  (recvSize <= size ->
     forall mem',
       let n := Z.to_nat (Z.min recvSize size) in
       (n <= length rest)%nat ->
       mem_write mem off (firstn n rest) = Some mem' ->
       bootstrapNetRecv sock mem off size
       = (Ret ncclSuccess, set_rx sock (skipn n rest), mem')
       /\ mem_read mem' off (Z.of_nat n) = Some (firstn n rest)).
Proof.
  intros Hrx Hlen Hdec. subst recvSize. split.
  - intros Hgt. now apply netrecv_reject with (hdr := hdr).
  - intros Hle mem' n Hn Hw. split.
    + now apply netrecv_accept with (hdr := hdr) (n := n).
    + pose proof (mem_read_write_same _ _ _ _ Hw) as R.
      rewrite length_firstn in R.
      now replace (Init.Nat.min n (length rest)) with n in R by lia.
Qed.

Lemma bootstrapNetRecv_truncation_witness :
  bootstrapNetRecv (mkSocket [] 0 true (int_to_bytes 2 ++ [x0a; x0b; x0c]) [] [])
                   [x00; x00; x00; x00] 1 3
  = (Ret ncclSuccess, mkSocket [] 0 true [x0c] [] [], [x00; x0a; x0b; x00])
  /\ bootstrapNetRecv (mkSocket [] 0 true (int_to_bytes 5 ++ [x0a; x0b; x0c]) [] [])
                   [x00; x00; x00; x00] 1 3
  = (Ret ncclInternalError, mkSocket [] 0 true [x0a; x0b; x0c] [] [], [x00; x00; x00; x00]).
Proof.
  split.
  - refine (proj1 (proj2 (bootstrapNetRecv_truncation
             (mkSocket [] 0 true (int_to_bytes 2 ++ [x0a; x0b; x0c]) [] [])
             [x00; x00; x00; x00] 1 3 (int_to_bytes 2) [x0a; x0b; x0c] 2
             eq_refl eq_refl eq_refl) _ [x00; x0a; x0b; x00] _ _)).
    + lia.
    + simpl. lia.
    + reflexivity.
  - refine (proj1 (bootstrapNetRecv_truncation
             (mkSocket [] 0 true (int_to_bytes 5 ++ [x0a; x0b; x0c]) [] [])
             [x00; x00; x00; x00] 1 3 (int_to_bytes 5) [x0a; x0b; x0c] 5
             eq_refl eq_refl eq_refl) _).
    lia.
Defined.

(** ** Arithmetic of the ring *)

Lemma ring_next_cases (n r : Z) :
  0 <= r < n ->
  ((r + 1) mod n = r + 1 /\ r + 1 < n) \/ ((r + 1) mod n = 0 /\ r = n - 1).
Proof.
  intros H. destruct (Z.eq_dec r (n - 1)) as [E|E].
  - right. split; [|exact E]. subst r. replace (n - 1 + 1) with n by lia.
    apply Z_mod_same_full.
  - left. split; [apply Z.mod_small|]; lia.
Qed.

Lemma ring_pred_cases (n r : Z) :
  0 <= r < n ->
  (ring_pred n r = r - 1 /\ 0 < r) \/ (ring_pred n r = n - 1 /\ r = 0).
Proof.
  intros H. unfold ring_pred. destruct (Z.eq_dec r 0) as [E|E].
  - right. split; [|exact E]. subst r.
    replace (0 - 1) with (n - 1 + (-1) * n) by lia.
    rewrite Z_mod_plus_full. apply Z.mod_small. lia.
  - left. split; [apply Z.mod_small|]; lia.
Qed.

Lemma mod_range (n x : Z) : 0 < n -> 0 <= x mod n < n.
Proof. intros H. apply Z.mod_pos_bound. lia. Qed.

(** Two steps back along the ring from the same rank land on different
    ranks unless the steps are equal. *)
Lemma mod_sub_inj (n r a b : Z) :
  0 < n -> 0 <= a < n -> 0 <= b < n ->
  (r - a) mod n = (r - b) mod n -> a = b.
Proof.
  intros Hn Ha Hb E. apply Z.cong_iff_0 in E.
  replace (r - a - (r - b)) with (b - a) in E by lia.
  apply Z.mod_divide in E; [|lia]. destruct E as [k Hk].
  assert (k = 0) by nia. lia.
Qed.

Lemma mod_sub_back (n r i : Z) :
  0 <= r < n -> 0 <= i < n -> (r - (r - i) mod n) mod n = i.
Proof.
  intros Hr Hi. rewrite Zminus_mod_idemp_r.
  replace (r - (r - i)) with i by lia. apply Z.mod_small. lia.
Qed.

Lemma int_rem_nonneg (a n : Z) :
  0 <= a -> 0 < n <= INT_MAX -> int_rem a n = a mod n.
Proof.
  intros Ha Hn. unfold int_rem. rewrite Z.rem_mod_nonneg by lia.
  apply wrap_int_id. pose proof (mod_range n a ltac:(lia)).
  unfold is_int, INT_MIN, INT_MAX in *. lia.
Qed.

Lemma to_size_t_id (z : Z) : 0 <= z < 18446744073709551616 -> to_size_t z = z.
Proof. intros H. unfold to_size_t. now apply Z.mod_small. Qed.

Lemma allgather_sslice_spec (n r i : Z) :
  1 <= n <= 1073741824 -> 0 <= r < n -> 0 <= i < n ->
  allgather_sslice r i n = (r - i) mod n.
Proof.
  intros Hn Hr Hi. unfold allgather_sslice, int_add, int_sub.
  rewrite (wrap_int_id (r - i)) by (unfold is_int, INT_MIN, INT_MAX; lia).
  rewrite (wrap_int_id (r - i + n)) by (unfold is_int, INT_MIN, INT_MAX; lia).
  rewrite int_rem_nonneg by (unfold INT_MAX; lia).
  replace (r - i + n) with (r - i + 1 * n) by lia. rewrite Z_mod_plus_full.
  apply to_size_t_id. pose proof (mod_range n (r - i) ltac:(lia)). lia.
Qed.

Lemma allgather_rslice_spec (n r i : Z) :
  1 <= n <= 1073741824 -> 0 <= r < n -> 0 <= i < n - 1 ->
  allgather_rslice r i n = (r - i - 1) mod n.
Proof.
  intros Hn Hr Hi. unfold allgather_rslice, int_add, int_sub.
  rewrite (wrap_int_id (r - i)) by (unfold is_int, INT_MIN, INT_MAX; lia).
  rewrite (wrap_int_id (r - i - 1)) by (unfold is_int, INT_MIN, INT_MAX; lia).
  rewrite (wrap_int_id (r - i - 1 + n)) by (unfold is_int, INT_MIN, INT_MAX; lia).
  rewrite int_rem_nonneg by (unfold INT_MAX; lia).
  replace (r - i - 1 + n) with (r - i - 1 + 1 * n) by lia. rewrite Z_mod_plus_full.
  apply to_size_t_id. pose proof (mod_range n (r - i - 1) ltac:(lia)). lia.
Qed.

Lemma slice_offset_spec (n s size : Z) :
  0 <= s < n -> n <= INT_MAX -> 0 < size <= INT_MAX ->
  slice_offset s size = s * size.
Proof.
  intros Hs Hn Hz. unfold slice_offset, INT_MAX in *.
  rewrite (to_size_t_id size) by lia. apply to_size_t_id. nia.
Qed.

(** ** Slices of a buffer *)

(** A store leaves every region it does not overlap as it was. *)
Lemma mem_read_write_other (m : list byte) (off : Z) (src m' : list byte) (o len : Z) :
  mem_write m off src = Some m' ->
  0 <= o ->
  o + len <= off \/ off + Z.of_nat (length src) <= o ->
  mem_read m' o len = mem_read m o len.
Proof.
  intros W Ho D. pose proof (mem_write_length _ _ _ _ W) as L. revert W.
  unfold mem_write. destruct (length src =? 0)%nat eqn:E; [now intros [= <-]|].
  apply Nat.eqb_neq in E. unfold in_bounds.
  destruct (_ && _) eqn:B; [|discriminate]. intros [= W].
  apply andb_true_iff in B. destruct B as [B1 B2].
  apply Z.leb_le in B1, B2.
  unfold mem_read. destruct (len <=? 0) eqn:El; [reflexivity|]. apply Z.leb_gt in El.
  unfold in_bounds. rewrite L.
  destruct ((0 <=? o) && (o + len <=? Z.of_nat (length m))) eqn:B; [|reflexivity].
  apply andb_true_iff in B. destruct B as [B3 B4]. apply Z.leb_le in B3, B4.
  f_equal. subst m'. destruct D as [D|D].
  - rewrite skipn_app, firstn_app.
    rewrite length_skipn, !length_firstn.
    replace (Z.to_nat len - (Init.Nat.min (Z.to_nat off) (length m) - Z.to_nat o))%nat
      with 0%nat by lia.
    rewrite firstn_O, app_nil_r.
    rewrite <- (firstn_skipn (Z.to_nat off) m) at 2.
    rewrite skipn_app, firstn_app, length_skipn, !length_firstn.
    replace (Z.to_nat len - (Init.Nat.min (Z.to_nat off) (length m) - Z.to_nat o))%nat
      with 0%nat by lia.
    now rewrite firstn_O, app_nil_r.
  - rewrite app_assoc, skipn_app, length_app, length_firstn.
    rewrite (skipn_all2 (firstn (Z.to_nat off) m ++ src))
      by (rewrite length_app, length_firstn; lia).
    simpl app. rewrite skipn_skipn. do 2 f_equal. lia.
Qed.

Lemma mem_write_in_bounds (m : list byte) (off : Z) (src : list byte) :
  in_bounds m off (Z.of_nat (length src)) = true ->
  exists m', mem_write m off src = Some m'.
Proof.
  intros B. unfold mem_write. rewrite B.
  destruct (length src =? 0)%nat; eauto.
Qed.

(** ** The ring all-gather: contributions and frames *)

Section RingAllGather.

Variables (nranks size : Z) (data0 : Z -> list byte).
Hypothesis Hn : 1 <= nranks <= 1073741824.
Hypothesis Hsize : 0 < size <= INT_MAX.
Hypothesis Hlen0 : forall r, 0 <= r < nranks ->
  Z.of_nat (length (data0 r)) = nranks * size.

Local Abbreviation contrib := (contribution data0 size).
Local Abbreviation frames := (frames_from nranks size data0).

Lemma slice_bounds (s : Z) : 0 <= s < nranks -> 0 <= s * size /\ s * size + size <= nranks * size.
Proof. intros H. nia. Qed.

Lemma contribution_length (r : Z) :
  0 <= r < nranks -> Z.of_nat (length (contrib r)) = size.
Proof.
  intros Hr. unfold contribution. rewrite length_firstn, length_skipn.
  pose proof (Hlen0 r Hr). pose proof (slice_bounds r Hr). lia.
Qed.

Lemma contribution_init (r : Z) :
  0 <= r < nranks -> mem_read (data0 r) (r * size) size = Some (contrib r).
Proof.
  intros Hr. unfold mem_read, in_bounds.
  pose proof (Hlen0 r Hr). pose proof (slice_bounds r Hr).
  replace (size <=? 0) with false by zbool.
  replace (0 <=? r * size) with true by zbool.
  replace (r * size + size <=? Z.of_nat (length (data0 r))) with true by zbool.
  reflexivity.
Qed.

Lemma frames_from_snoc (r a : Z) (k : nat) :
  frames r a (S k)
  = frames r a k ++ frame size (contrib ((r - (a + Z.of_nat k)) mod nranks)).
Proof.
  revert a. induction k as [|k IH]; intros a.
  - cbn [frames_from]. rewrite app_nil_r. simpl app. do 3 f_equal. lia.
  - change (frames r a (S (S k)))
      with (frame size (contrib ((r - a) mod nranks)) ++ frames r (a + 1) (S k)).
    rewrite IH. cbn [frames_from]. rewrite <- app_assoc. do 5 f_equal. lia.
Qed.

Lemma int_sub_nranks_1 : int_sub nranks 1 = nranks - 1.
Proof. apply wrap_int_id. unfold is_int, INT_MIN, INT_MAX. lia. Qed.

Lemma upd_same {A : Type} (f : Z -> A) (k : Z) (v : A) : upd f k v k = v.
Proof. unfold upd. now rewrite Z.eqb_refl. Qed.

Lemma upd_other {A : Type} (f : Z -> A) (k : Z) (v : A) (x : Z) :
  x <> k -> upd f k v x = f x.
Proof. intros H. unfold upd. apply Z.eqb_neq in H. now rewrite H. Qed.

End RingAllGather.

(** *** More than 2^30 ranks

    With more than 2^30 ranks the sum [rank - i + nranks] no longer fits an
    [int] for the last rank: the slice its first send computes lies outside
    the buffer. *)

Lemma overflow_sslice_offset (nranks size : Z) :
  1073741824 < nranks <= INT_MAX -> 0 < size <= INT_MAX ->
  nranks * size + size
  <= slice_offset (allgather_sslice (nranks - 1) 0 nranks) size + size.
Proof.
  unfold INT_MAX. intros Hn Hs.
  unfold allgather_sslice, int_add, int_sub.
  rewrite Z.sub_0_r.
  rewrite (wrap_int_id (nranks - 1)) by (unfold is_int, INT_MIN, INT_MAX; lia).
  assert (Hw : wrap_int (nranks - 1 + nranks) = 2 * nranks - 1 - 4294967296).
  { unfold wrap_int.
    replace (nranks - 1 + nranks + 2147483648)
      with (2 * nranks - 1 - 2147483648 + 1 * 4294967296) by lia.
    rewrite Z_mod_plus_full, Z.mod_small by lia. lia. }
  rewrite Hw. unfold int_rem.
  set (w := 4294967296 + 1 - 2 * nranks).
  replace (2 * nranks - 1 - 4294967296) with (- w) by (unfold w; lia).
  rewrite Z.rem_opp_l by lia. rewrite Z.rem_mod_nonneg by (unfold w; lia).
  pose proof (mod_range nranks w ltac:(lia)) as Hv.
  assert (Hnz : w mod nranks <> 0).
  { intros E. apply Z.mod_divide in E; [|lia]. destruct E as [k Hk]. unfold w in Hk.
    assert (k + 2 = 3) by nia. nia. }
  set (v := w mod nranks) in *.
  rewrite (wrap_int_id (- v)) by (unfold is_int, INT_MIN, INT_MAX; lia).
  unfold slice_offset, to_size_t.
  rewrite (Z.mod_small size) by lia.
  replace (- v) with (18446744073709551616 - v + (-1) * 18446744073709551616) by lia.
  rewrite Z_mod_plus_full, (Z.mod_small (18446744073709551616 - v)) by lia.
  replace ((18446744073709551616 - v) * size)
    with (18446744073709551616 - v * size + (size - 1) * 18446744073709551616) by lia.
  rewrite Z_mod_plus_full. rewrite Z.mod_small by nia. nia.
Qed.

(** ** The ring all-gather: one rank on its own *)

Lemma Z_rem_cases (a n : Z) :
  0 < n ->
  (0 <= a /\ Z.rem a n = a mod n) \/ (a < 0 /\ Z.rem a n = - ((- a) mod n)).
Proof.
  intros Hn. destruct (Z.le_gt_cases 0 a) as [H|H].
  - left. split; [exact H|]. apply Z.rem_mod_nonneg; lia.
  - right. split; [exact H|].
    replace a with (- (- a)) at 1 by lia.
    rewrite Z.rem_opp_l', Z.rem_mod_nonneg by lia. reflexivity.
Qed.

(** The slice a receive goes to is either one of the [nranks] slices of
    the buffer, or, when the sum overflowed, an index just below 2^64. *)
Lemma allgather_rslice_range (rank i nranks : Z) :
  0 < nranks <= INT_MAX ->
  0 <= allgather_rslice rank i nranks < nranks
  \/ 18446744073709551616 - nranks < allgather_rslice rank i nranks < 18446744073709551616.
Proof.
  unfold INT_MAX. intros Hn. unfold allgather_rslice, int_rem.
  set (x := int_add (int_sub (int_sub rank i) 1) nranks).
  destruct (Z_rem_cases x nranks ltac:(lia)) as [[_ ->]|[_ ->]].
  - left. pose proof (mod_range nranks x ltac:(lia)).
    rewrite wrap_int_id by (unfold is_int, INT_MIN, INT_MAX; lia).
    rewrite to_size_t_id; lia.
  - pose proof (mod_range nranks (- x) ltac:(lia)) as Hv.
    rewrite wrap_int_id by (unfold is_int, INT_MIN, INT_MAX; lia).
    destruct (Z.eq_dec ((- x) mod nranks) 0) as [E|E].
    + left. rewrite E. cbn. lia.
    + right. unfold to_size_t.
      replace (- ((- x) mod nranks))
        with (18446744073709551616 - (- x) mod nranks + (-1) * 18446744073709551616) by lia.
      rewrite Z_mod_plus_full, Z.mod_small; lia.
Qed.

Lemma allgather_rslice_not_own (rank i nranks : Z) :
  0 <= rank < nranks -> nranks <= INT_MAX -> 0 <= i < nranks - 1 ->
  allgather_rslice rank i nranks <> rank.
Proof.
  unfold INT_MAX. intros Hr Hn Hi.
  unfold allgather_rslice, int_add, int_sub.
  rewrite (wrap_int_id (rank - i)) by (unfold is_int, INT_MIN, INT_MAX; lia).
  rewrite (wrap_int_id (rank - i - 1)) by (unfold is_int, INT_MIN, INT_MAX; lia).
  destruct (Z.le_gt_cases (rank - i - 1 + nranks) 2147483647) as [Hfit|Hover].
  - rewrite (wrap_int_id (rank - i - 1 + nranks))
      by (unfold is_int, INT_MIN, INT_MAX; lia).
    rewrite int_rem_nonneg by (unfold INT_MAX; lia).
    replace (rank - i - 1 + nranks) with (rank - (i + 1) + 1 * nranks) by lia.
    rewrite Z_mod_plus_full.
    pose proof (mod_range nranks (rank - (i + 1)) ltac:(lia)).
    rewrite to_size_t_id by lia. intros E.
    assert (E' : (rank - (i + 1)) mod nranks = (rank - 0) mod nranks).
    { rewrite E, Z.sub_0_r. symmetry. apply Z.mod_small. lia. }
    apply mod_sub_inj in E'; lia.
  - assert (Hw : wrap_int (rank - i - 1 + nranks) = rank - i - 1 + nranks - 4294967296).
    { unfold wrap_int.
      replace (rank - i - 1 + nranks + 2147483648)
        with (rank - i - 1 + nranks - 2147483648 + 1 * 4294967296) by lia.
      rewrite Z_mod_plus_full, Z.mod_small by lia. lia. }
    rewrite Hw. unfold int_rem.
    set (x := rank - i - 1 + nranks - 4294967296).
    destruct (Z_rem_cases x nranks ltac:(lia)) as [[Hx _]|[_ ->]]; [unfold x in Hx; lia|].
    pose proof (mod_range nranks (- x) ltac:(lia)) as Hv.
    rewrite wrap_int_id by (unfold is_int, INT_MIN, INT_MAX; lia).
    destruct (Z.eq_dec ((- x) mod nranks) 0) as [E|E].
    + rewrite E. cbn. lia.
    + unfold to_size_t.
      replace (- ((- x) mod nranks))
        with (18446744073709551616 - (- x) mod nranks + (-1) * 18446744073709551616) by lia.
      rewrite Z_mod_plus_full, Z.mod_small; lia.
Qed.

Lemma slice_offset_high (nranks s size : Z) :
  0 < nranks <= INT_MAX -> 0 < size <= INT_MAX ->
  18446744073709551616 - nranks < s < 18446744073709551616 ->
  nranks * size + size <= slice_offset s size.
Proof.
  unfold INT_MAX. intros Hn Hs Hr. unfold slice_offset, to_size_t.
  rewrite (Z.mod_small size) by lia.
  set (v := 18446744073709551616 - s).
  replace (s * size)
    with (18446744073709551616 - v * size + (size - 1) * 18446744073709551616)
    by (unfold v; lia).
  rewrite Z_mod_plus_full. assert (0 < v < nranks) by (unfold v; lia).
  rewrite Z.mod_small by nia. nia.
Qed.

(** What a framed receive can do to the destination region: nothing, or one
    store of at most [size] bytes at the destination. *)
Lemma netrecv_mem (sock : ncclSocket) (mem : list byte) (off size : Z)
  (s : status) (sock' : ncclSocket) (mem' : list byte) :
  0 <= size ->
  bootstrapNetRecv sock mem off size = (s, sock', mem') ->
  mem' = mem
  \/ exists payload, mem_write mem off payload = Some mem'
                     /\ Z.of_nat (length payload) <= size.
Proof.
  intros Hs. unfold bootstrapNetRecv.
  destruct (ncclSocketRecv sock SIZEOF_INT) as [[s1 sock1] hdr].
  destruct (ok s1); [|intros [= _ _ <-]; now left].
  destruct (bytes_to_int hdr >? size) eqn:Hgt; [intros [= _ _ <-]; now left|].
  destruct (ncclSocketRecv sock1 (Z.min (bytes_to_int hdr) size))
    as [[s2 sock2] payload] eqn:E2.
  destruct (ok s2); [|intros [= _ _ <-]; now left].
  destruct (mem_write mem off payload) as [m|] eqn:W; intros [= _ _ <-]; [|now left].
  right. exists payload. split; [exact W|].
  unfold ncclSocketRecv in E2.
  destruct (Z.min (bytes_to_int hdr) size <=? 0); [injection E2 as _ _ <-; simpl; lia|].
  destruct (_ <=? _) in E2; injection E2 as _ _ <-; [|simpl; lia].
  rewrite length_firstn. lia.
Qed.

Lemma netsend_sock_only (sock : ncclSocket) (mem : list byte) (off size : Z) :
  sock_rx (snd (bootstrapNetSend sock mem off size)) = sock_rx sock.
Proof.
  unfold bootstrapNetSend, ncclSocketSend. simpl ok. cbv iota.
  destruct (mem_read mem off size); reflexivity.
Qed.

(** A receive of the all-gather loop leaves the slice of the rank itself
    as it is. *)
Lemma allgather_recv_keeps_own (rank i nranks size : Z) (sock : ncclSocket)
  (mem : list byte) (s : status) (sock' : ncclSocket) (mem' : list byte) :
  0 <= rank < nranks -> nranks <= INT_MAX -> 0 <= i < nranks - 1 ->
  0 < size <= INT_MAX ->
  Z.of_nat (length mem) = nranks * size ->
  allgather_recv rank nranks sock mem size i = (s, sock', mem') ->
  mem_read mem' (rank * size) size = mem_read mem (rank * size) size
  /\ length mem' = length mem.
Proof.
  intros Hr Hn Hi Hs Hlen E. unfold allgather_recv in E.
  assert (Hs0 : 0 <= size) by lia.
  destruct (netrecv_mem _ _ _ _ _ _ _ Hs0 E) as [->|(payload & W & Hp)];
    [now split|].
  split; [|now apply mem_write_length in W].
  pose proof (allgather_rslice_not_own rank i nranks Hr Hn Hi) as Hne.
  apply (mem_read_write_other _ _ _ _ _ _ W); [nia|].
  destruct (allgather_rslice_range rank i nranks ltac:(lia)) as [Hin|Hout].
  - rewrite (slice_offset_spec nranks) by (unfold INT_MAX in *; lia).
    set (rs := allgather_rslice rank i nranks) in *. nia.
  - left. pose proof (slice_offset_high nranks _ size ltac:(lia) Hs Hout). nia.
Qed.

Lemma allgather_loop_keeps_own (todo : nat) :
  forall (st : bootstrapState) (data : list byte) (size i : Z)
         (s : status) (st' : bootstrapState) (data' : list byte),
  0 <= st_rank st < st_nranks st -> st_nranks st <= INT_MAX ->
  0 < size <= INT_MAX ->
  Z.of_nat (length data) = st_nranks st * size ->
  0 <= i -> i + Z.of_nat todo <= st_nranks st - 1 ->
  allgather_loop todo st data size i = (s, st', data') ->
  mem_read data' (st_rank st * size) size = mem_read data (st_rank st * size) size
  /\ length data' = length data
  /\ listenSock st' = listenSock st
  /\ unexpectedConnections st' = unexpectedConnections st.
Proof.
  induction todo as [|todo IH]; intros st data size i s st' data' Hr Hn Hs Hlen Hi Hi' E.
  - cbn in E. injection E as _ <- <-. auto.
  - cbn [allgather_loop] in E.
    destruct (allgather_send _ _ _ _ _ _) as [s1 ssock].
    destruct (ok s1); [|injection E as _ <- <-; auto].
    destruct (allgather_recv _ _ _ _ _ _) as [[s2 rsock] data1] eqn:ER.
    cbn [st_rank st_nranks set_ringSendSocket] in ER.
    assert (Hi1 : 0 <= i < st_nranks st - 1) by lia.
    destruct (allgather_recv_keeps_own _ _ _ _ _ _ _ _ _ Hr Hn Hi1 Hs Hlen ER)
      as [Hown Hl1].
    destruct (ok s2); [|injection E as _ <- <-; auto].
    apply IH in E; cbn [st_rank st_nranks set_ringSendSocket set_ringRecvSocket] in *;
      try assumption; try lia.
    + destruct E as (E1 & E2 & E3 & E4). cbn in E3, E4.
      repeat split; congruence.
    + unfold int_add. rewrite wrap_int_id; unfold is_int, INT_MIN, INT_MAX in *; lia.
    + unfold int_add. rewrite wrap_int_id; unfold is_int, INT_MIN, INT_MAX in *; lia.
Qed.

Lemma bootstrapAllGather_keeps_own (st : bootstrapState) (data : list byte) (size : Z)
  (s : status) (st' : bootstrapState) (data' : list byte) :
  0 <= st_rank st < st_nranks st -> st_nranks st <= INT_MAX ->
  0 < size <= INT_MAX ->
  Z.of_nat (length data) = st_nranks st * size ->
  bootstrapAllGather st data size = (s, st', data') ->
  mem_read data' (st_rank st * size) size = mem_read data (st_rank st * size) size
  /\ length data' = length data
  /\ listenSock st' = listenSock st
  /\ unexpectedConnections st' = unexpectedConnections st.
Proof.
  intros Hr Hn Hs Hlen E. unfold bootstrapAllGather in E.
  apply allgather_loop_keeps_own in E; try assumption; try lia.
  unfold int_sub. rewrite wrap_int_id; unfold is_int, INT_MIN, INT_MAX in *; lia.
Qed.

Lemma allgather_loop_fields (todo : nat) :
  forall (st : bootstrapState) (data : list byte) (size i : Z),
  same_but_ring st (snd (fst (allgather_loop todo st data size i))).
Proof.
  induction todo as [|todo IH]; intros st data size i.
  - cbn. repeat split.
  - cbn [allgather_loop].
    destruct (allgather_send _ _ _ _ _ _) as [s1 ssock].
    destruct (ok s1); [|cbn; repeat split].
    destruct (allgather_recv _ _ _ _ _ _) as [[s2 rsock] data1].
    destruct (ok s2); [|cbn; repeat split].
    specialize (IH (set_ringRecvSocket (set_ringSendSocket st ssock) rsock)
                   data1 size (int_add i 1)).
    unfold same_but_ring in *. cbn in IH. exact IH.
Qed.

Lemma bootstrapAllGather_fields (st : bootstrapState) (data : list byte) (size : Z) :
  same_but_ring st (snd (fst (bootstrapAllGather st data size))).
Proof. apply allgather_loop_fields. Qed.

Lemma length_zeros (n : Z) : Z.of_nat (length (zeros n)) = Z.max 0 n.
Proof. unfold zeros. rewrite repeat_length. lia. Qed.

Lemma length_ncclSocketGetAddr (asz : Z) (s : ncclSocket) :
  0 <= asz -> Z.of_nat (length (ncclSocketGetAddr asz s)) = asz.
Proof.
  intros H. unfold ncclSocketGetAddr.
  rewrite length_firstn, length_app. pose proof (length_zeros asz). lia.
Qed.

Lemma bootstrapInit_ring_fields (asz : Z) (ifAddr nextAddr0 : list byte)
  (handle : ncclBootstrapHandle) (net : Net) (st : bootstrapState) :
  let st' := snd (bootstrapInit_ring asz ifAddr nextAddr0 handle net st) in
  st_rank st' = st_rank st /\ st_nranks st' = st_nranks st.
Proof.
  unfold bootstrapInit_ring.
  repeat match goal with
         | |- context [let '(_, _) := ?e in _] => destruct e as [? ?]
         | |- context [if negb (ok ?s) then _ else _] => destruct (ok s); cbn [negb]
         | |- context [match ?e with (_, _) => _ end] => destruct e
         end; cbn; auto.
Qed.

(** A table with the address of this rank stored in its slot keeps that
    address through [bootstrapAllGather]. *)
Lemma gather_keeps_address (asz : Z) (st : bootstrapState) (table table1 : list byte)
  (addr : list byte) (s : status) (st' : bootstrapState) (table' : list byte) :
  0 < asz <= INT_MAX -> st_nranks st <= INT_MAX ->
  ncclCalloc (st_nranks st) asz = Some table ->
  Z.of_nat (length addr) = asz ->
  mem_write table (st_rank st * asz) addr = Some table1 ->
  bootstrapAllGather st table1 asz = (s, st', table') ->
  mem_read table' (st_rank st * asz) asz = Some addr.
Proof.
  intros Ha Hn Hc Hl Hw Hg.
  unfold ncclCalloc in Hc. destruct (st_nranks st <? 0) eqn:Hneg; [discriminate|].
  apply Z.ltb_ge in Hneg. injection Hc as <-.
  pose proof (mem_write_length _ _ _ _ Hw) as Hlen1.
  pose proof (length_zeros (st_nranks st * asz)) as Hz.
  assert (Hr : 0 <= st_rank st < st_nranks st).
  { revert Hw. unfold mem_write, in_bounds.
    replace (length addr =? 0)%nat with false by (symmetry; apply Nat.eqb_neq; lia).
    destruct (_ && _) eqn:B; [|discriminate]. intros _.
    apply andb_true_iff in B. destruct B as [B1 B2].
    apply Z.leb_le in B1, B2. nia. }
  destruct (bootstrapAllGather_keeps_own st table1 asz s st' table' Hr Hn Ha
              ltac:(nia) Hg) as (Hown & _).
  rewrite Hown. pose proof (mem_read_write_same _ _ _ _ Hw) as R.
  now rewrite Hl in R.
Qed.

Lemma ok_true (s : status) : ok s = true -> s = Ret ncclSuccess.
Proof. destruct s as [[]| | |]; simpl; congruence. Qed.

(** In a call that returned [ncclSuccess], the check of a status that
    would have ended the call early has passed. *)
Ltac passed s E :=
  let O := fresh "O" in
  destruct (ok s) eqn:O; cbn [negb] in E;
  [|exfalso; injection E; intros; subst; discriminate].

Lemma bootstrapInit_own_addresses (asz : Z) (ifAddr nextAddr0 : list byte)
  (callocState : ncclResult_t)
  (handle : ncclBootstrapHandle) (comm : ncclComm) (net net' : Net) (comm' : ncclComm) :
  0 < asz <= INT_MAX ->
  comm_nRanks comm <= INT_MAX ->
  bootstrapInit asz ifAddr nextAddr0 callocState handle comm net
  = (Ret ncclSuccess, net', comm') ->
  exists st tableC tableP proxySocket,
    comm_bootstrap comm' = Some st
    /\ st_rank st = comm_rank comm
    /\ peerCommAddresses st = Some tableC
    /\ peerProxyAddresses st = Some tableP
    /\ comm_proxy comm' = Some (proxySocket, tableP)
    /\ mem_read tableC (st_rank st * asz) asz
       = Some (ncclSocketGetAddr asz (listenSock st))
    /\ mem_read tableP (st_rank st * asz) asz
       = Some (ncclSocketGetAddr asz proxySocket).
Proof.
  intros Ha Hn E. unfold bootstrapInit in E.
  passed (Ret callocState) E.
  match type of E with context [bootstrapInit_ring ?a ?b ?c ?d ?e ?f] =>
    pose proof (bootstrapInit_ring_fields a b c d e f) as HF;
    destruct (bootstrapInit_ring a b c d e f) as [[s1 net1] st1] end.
  cbn in HF. destruct HF as [HFr HFn].
  passed s1 E.
  destruct (ncclCalloc (st_nranks st1) asz) as [t0|] eqn:HC1; [|discriminate].
  cbn [st_rank st_nranks listenSock set_peerCommAddresses] in E.
  destruct (mem_write t0 _ _) as [t1|] eqn:HW1; [|discriminate].
  destruct (bootstrapAllGather _ t1 asz) as [[s2 st2] t2] eqn:HG1.
  match type of HG1 with bootstrapAllGather ?st _ _ = _ =>
    pose proof (bootstrapAllGather_fields st t1 asz) as HS1;
    pose proof (gather_keeps_address asz st t0 t1 (ncclSocketGetAddr asz (listenSock st1))
                  s2 st2 t2 Ha) as HK1 end.
  rewrite HG1 in HS1. unfold same_but_ring in HS1. cbn in HS1, HK1.
  destruct HS1 as (HL1 & _ & _ & _ & HR1 & HN1 & _).
  assert (Hn1 : st_nranks st1 <= INT_MAX) by lia.
  assert (Ha0 : 0 <= asz) by lia.
  specialize (HK1 Hn1 HC1 (length_ncclSocketGetAddr _ _ Ha0) HW1 HG1).
  passed s2 E.
  cbn [st_rank st_nranks listenSock set_peerCommAddresses set_peerProxyAddresses] in E.
  destruct (ncclCalloc (st_nranks st2) asz) as [p0|] eqn:HC2; [|discriminate].
  destruct (ncclSocketListen _ _) as [[s3 net3] psock].
  passed s3 E.
  destruct (mem_write p0 _ _) as [p1|] eqn:HW2; [|discriminate].
  destruct (bootstrapAllGather _ p1 asz) as [[s4 st4] p2] eqn:HG2.
  match type of HG2 with bootstrapAllGather ?st _ _ = _ =>
    pose proof (bootstrapAllGather_fields st p1 asz) as HS2;
    pose proof (gather_keeps_address asz st p0 p1 (ncclSocketGetAddr asz psock)
                  s4 st4 p2 Ha) as HK2 end.
  rewrite HG2 in HS2. unfold same_but_ring in HS2. cbn in HS2, HK2.
  destruct HS2 as (HL2 & HP2 & _ & _ & HR2 & HN2 & _).
  assert (Hn2 : st_nranks st2 <= INT_MAX) by lia.
  specialize (HK2 Hn2 HC2 (length_ncclSocketGetAddr _ _ Ha0) HW2 HG2).
  passed s4 E.
  cbn in E. injection E as <- <-.
  exists (set_peerProxyAddresses st4 (Some p2)), t2, p2, psock. cbn.
  rewrite HR2, HR1, HL2, HL1, HP2. rewrite HR1 in HK2.
  repeat split; try reflexivity; try assumption.
Qed.

(** C7.  For every rank [0 <= rank < nranks], none of the [nranks-1]
    receive slices [(rank - i - 1 + nranks) % nranks] that
    [bootstrapAllGather] computes is [rank]; so, however the call ends and
    whatever arrives on the ring, the slice of the caller reads after the
    call as it did before.  Consequently, after a successful
    [bootstrapInit], the slot [rank] of [peerCommAddresses] is the address
    of the local [listenSock] and the slot [rank] of [peerProxyAddresses]
    is the address of the local proxy socket. *)
Theorem bootstrapAllGather_own_slice :
  (forall rank nranks i,
     0 <= rank < nranks -> nranks <= INT_MAX -> 0 <= i < nranks - 1 ->
     allgather_rslice rank i nranks <> rank)
  /\
  (forall st data size s st' data',
     0 <= st_rank st < st_nranks st -> st_nranks st <= INT_MAX ->
     0 < size <= INT_MAX ->
     Z.of_nat (length data) = st_nranks st * size ->
     bootstrapAllGather st data size = (s, st', data') ->
     mem_read data' (st_rank st * size) size = mem_read data (st_rank st * size) size)
  /\
  (forall asz ifAddr nextAddr0 callocState handle comm net net' comm',
     0 < asz <= INT_MAX ->
     comm_nRanks comm <= INT_MAX ->
     bootstrapInit asz ifAddr nextAddr0 callocState handle comm net
     = (Ret ncclSuccess, net', comm') ->
     exists st tableC tableP proxySocket,
       comm_bootstrap comm' = Some st
       /\ st_rank st = comm_rank comm
       /\ peerCommAddresses st = Some tableC
       /\ peerProxyAddresses st = Some tableP
       /\ comm_proxy comm' = Some (proxySocket, tableP)
       /\ mem_read tableC (st_rank st * asz) asz
          = Some (ncclSocketGetAddr asz (listenSock st))
       /\ mem_read tableP (st_rank st * asz) asz
          = Some (ncclSocketGetAddr asz proxySocket)).
Proof.
  split; [|split].
  - intros rank nranks i. apply allgather_rslice_not_own.
  - intros st data size s st' data' Hr Hn Hs Hl E.
    now destruct (bootstrapAllGather_keeps_own _ _ _ _ _ _ Hr Hn Hs Hl E).
  - exact bootstrapInit_own_addresses.
Qed.

Lemma bootstrapAllGather_own_slice_witness :
  allgather_rslice 1 0 4 <> 1
  /\ mem_read (snd (bootstrapAllGather init2_state [x00; x00; xb1; xb1] 2)) (1 * 2) 2
     = mem_read [x00; x00; xb1; xb1] (1 * 2) 2
  /\ exists st tableC tableP proxySocket,
       comm_bootstrap (snd init2_run) = Some st
       /\ st_rank st = 1
       /\ peerCommAddresses st = Some tableC
       /\ peerProxyAddresses st = Some tableP
       /\ comm_proxy (snd init2_run) = Some (proxySocket, tableP)
       /\ mem_read tableC (st_rank st * 2) 2 = Some (ncclSocketGetAddr 2 (listenSock st))
       /\ mem_read tableP (st_rank st * 2) 2 = Some (ncclSocketGetAddr 2 proxySocket).
Proof.
  destruct bootstrapAllGather_own_slice as (Ha & Hb & Hc).
  split; [|split].
  - apply Ha; unfold INT_MAX; lia.
  - apply (Hb init2_state [x00; x00; xb1; xb1] 2
              (fst (fst (bootstrapAllGather init2_state [x00; x00; xb1; xb1] 2)))
              (snd (fst (bootstrapAllGather init2_state [x00; x00; xb1; xb1] 2)))).
    + unfold init2_state, st_rank, st_nranks. lia.
    + unfold init2_state, st_nranks, INT_MAX. lia.
    + unfold INT_MAX. lia.
    + reflexivity.
    + vm_compute. reflexivity.
  - apply (Hc 2 [x7f; x00] [x00; x00] ncclSuccess (mkHandle 9 [x01; x01])
              (mkComm 1 2 0 0 None None) init2_net (snd (fst init2_run))).
    + unfold INT_MAX. lia.
    + unfold comm_nRanks, INT_MAX. lia.
    + vm_compute. reflexivity.
Defined.

(** ** The queue of unexpected connections *)

Lemma unexpected_link_app (q : list unexConn) (unex : unexConn) :
  unexpected_link q unex = q ++ [unex].
Proof. induction q as [|e q IH]; simpl; [reflexivity|now rewrite IH]. Qed.

Lemma unex_other_test (peer tag : Z) (e : unexConn) :
  unex_other peer tag e ->
  (unex_peer e =? peer) && (unex_tag e =? tag) = false.
Proof.
  intros [H|H]; apply Z.eqb_neq in H; rewrite H; [reflexivity|apply andb_false_r].
Qed.

Lemma unexpected_scan_found (l1 l2 : list unexConn) (e : unexConn) (peer tag : Z) :
  Forall (unex_other peer tag) l1 ->
  unex_peer e = peer -> unex_tag e = tag ->
  unexpected_scan (l1 ++ e :: l2) peer tag = Some (unex_sock e, l1 ++ l2).
Proof.
  intros Hl1 Hp Ht. induction Hl1 as [|x l1 Hx _ IH]; simpl.
  - now rewrite Hp, Ht, !Z.eqb_refl.
  - now rewrite (unex_other_test _ _ _ Hx), IH.
Qed.

Lemma unexpected_scan_none (q : list unexConn) (peer tag : Z) :
  Forall (unex_other peer tag) q -> unexpected_scan q peer tag = None.
Proof.
  induction 1 as [|x q Hx _ IH]; simpl; [reflexivity|].
  now rewrite (unex_other_test _ _ _ Hx), IH.
Qed.

Lemma mem_write_whole (m src : list byte) :
  length src = length m -> mem_write m 0 src = Some src.
Proof.
  intros H. unfold mem_write, in_bounds.
  destruct (length src =? 0)%nat eqn:E.
  - apply Nat.eqb_eq in E. destruct src; [|discriminate].
    destruct m; [reflexivity|discriminate].
  - replace ((0 <=? 0) && (0 + Z.of_nat (length src) <=? Z.of_nat (length m))) with true
      by (symmetry; apply andb_true_iff; split; zbool).
    change (Z.to_nat 0) with 0%nat. simpl firstn. simpl app.
    rewrite skipn_all2 by (simpl; lia). now rewrite app_nil_r.
Qed.

(** Reading a framed [int] into an [int] variable. *)
Lemma netrecv_int (sock : ncclSocket) (v old : Z) (rest : list byte) :
  is_int v ->
  sock_rx sock = frame SIZEOF_INT (int_to_bytes v) ++ rest ->
  bootstrapNetRecv sock (int_to_bytes old) 0 SIZEOF_INT
  = (Ret ncclSuccess, set_rx sock rest, int_to_bytes v).
Proof.
  intros Hv Hrx. apply netrecv_frame with (payload := int_to_bytes v).
  - unfold SIZEOF_INT, INT_MAX. lia.
  - now rewrite length_int_to_bytes.
  - exact Hrx.
  - apply mem_write_whole. now rewrite !length_int_to_bytes.
Qed.

Lemma set_rx_announce (p t : Z) (after : ncclSocket) (rx : list byte) :
  set_rx (announce p t after) rx = set_rx after rx.
Proof. reflexivity. Qed.

Lemma set_rx_set_rx (s : ncclSocket) (a b : list byte) :
  set_rx (set_rx s a) b = set_rx s b.
Proof. reflexivity. Qed.

Lemma set_rx_id (s : ncclSocket) : set_rx s (sock_rx s) = s.
Proof. now destruct s. Qed.

(** One turn of the accept loop on a connection that announces [(p, t)]:
    the two headers are read; what happens next depends on the match. *)
Lemma bootstrapRecv_loop_other (a : arrival) (pending : list ncclSocket) (net : Net)
  (st : bootstrapState) (peer tag newPeer newTag : Z) (mem : list byte) (off size : Z) :
  arrival_other peer tag a ->
  bootstrapRecv_loop (arrival_conn a :: pending) net st peer tag newPeer newTag mem off size
  = bootstrapRecv_loop pending net
      (set_unexpectedConnections
         (set_listenSock st (set_acceptq (listenSock st) pending))
         (unexpectedConnections st ++ [arrival_unex a]))
      peer tag (fst (fst a)) (snd (fst a)) mem off size.
Proof.
  destruct a as [[p t] after]. intros (Hp & Ht & Hne).
  cbn [arrival_conn arrival_unex fst snd bootstrapRecv_loop].
  rewrite (netrecv_int (announce p t after) p newPeer
             (frame SIZEOF_INT (int_to_bytes t) ++ sock_rx after) Hp eq_refl).
  cbn [ok negb]. rewrite set_rx_announce.
  rewrite (netrecv_int (set_rx after (frame SIZEOF_INT (int_to_bytes t) ++ sock_rx after))
             t newTag (sock_rx after) Ht eq_refl).
  cbn [ok negb]. rewrite set_rx_set_rx, !bytes_to_int_to_bytes by assumption.
  replace ((p =? peer) && (t =? tag)) with false.
  2:{ symmetry. destruct Hne as [H|H]; apply Z.eqb_neq in H; rewrite H;
      [reflexivity|apply andb_false_r]. }
  unfold unexpectedEnqueue. cbn [ok negb].
  rewrite unexpected_link_app. cbn [unexpectedConnections set_listenSock].
  now rewrite set_rx_id.
Qed.

Lemma bootstrapRecv_loop_match (after : ncclSocket) (pending : list ncclSocket) (net : Net)
  (st : bootstrapState) (peer tag newPeer newTag : Z) (mem : list byte) (off size : Z) :
  is_int peer -> is_int tag ->
  bootstrapRecv_loop (announce peer tag after :: pending) net st peer tag
                     newPeer newTag mem off size
  = let '(s, sock, mem') := bootstrapNetRecv after mem off size in
    let '(r, net') := close_and_return s net sock in
    (r, (net', set_listenSock st (set_acceptq (listenSock st) pending)), mem').
Proof.
  intros Hp Ht. cbn [bootstrapRecv_loop].
  rewrite (netrecv_int (announce peer tag after) peer newPeer
             (frame SIZEOF_INT (int_to_bytes tag) ++ sock_rx after) Hp eq_refl).
  cbn [ok negb]. rewrite set_rx_announce.
  rewrite (netrecv_int (set_rx after (frame SIZEOF_INT (int_to_bytes tag) ++ sock_rx after))
             tag newTag (sock_rx after) Ht eq_refl).
  cbn [ok negb]. rewrite set_rx_set_rx, !bytes_to_int_to_bytes by assumption.
  rewrite !Z.eqb_refl. cbn [andb]. now rewrite set_rx_id.
Qed.

Lemma bootstrapRecv_loop_arrivals (arrivals : list arrival) :
  forall (after : ncclSocket) (rest : list ncclSocket) (net : Net)
         (st : bootstrapState) (peer tag newPeer newTag : Z)
         (mem : list byte) (off size : Z),
  is_int peer -> is_int tag ->
  Forall (arrival_other peer tag) arrivals ->
  bootstrapRecv_loop (map arrival_conn arrivals ++ announce peer tag after :: rest)
                     net st peer tag newPeer newTag mem off size
  = let '(s, sock, mem') := bootstrapNetRecv after mem off size in
    let '(r, net') := close_and_return s net sock in
    (r, (net', set_unexpectedConnections
                 (set_listenSock st (set_acceptq (listenSock st) rest))
                 (unexpectedConnections st ++ map arrival_unex arrivals)),
     mem').
Proof.
  induction arrivals as [|a arrivals IH];
    intros after rest net st peer tag newPeer newTag mem off size Hp Ht Hall.
  - cbn [map app]. rewrite bootstrapRecv_loop_match by assumption.
    rewrite app_nil_r. now destruct st.
  - inversion Hall as [|a' l' Ha Hl]; subst. cbn [map app].
    rewrite bootstrapRecv_loop_other by assumption.
    rewrite IH by assumption. cbn. rewrite <- app_assoc. reflexivity.
Qed.

(** C2.  The queue of unexpected connections is matched first-in
    first-out.  (1) When the queue holds an entry for [(peer, tag)],
    [Recv(peer, tag)] takes the earliest such entry, receives from its socket
    and leaves all other entries in their order, without accepting anything.
    (2) When it holds none, the connections accepted before the one that
    announces [(peer, tag)] are appended at the tail of the queue in the
    order of their arrival, and the data is received from the matching
    connection.  (3) [unexpectedEnqueue] always links the new entry at the
    tail. *)
Theorem unexpected_queue_fifo
  (newPeer0 newTag0 : Z) (net : Net) (st : bootstrapState) (peer tag : Z)
  (mem : list byte) (off size : Z) :
  (forall l1 e l2,
     unexpectedConnections st = l1 ++ e :: l2 ->
     Forall (unex_other peer tag) l1 ->
     unex_peer e = peer -> unex_tag e = tag ->
     unexpectedDequeue st peer tag ncclSocketInit0
     = (Ret ncclSuccess, set_unexpectedConnections st (l1 ++ l2), unex_sock e, 1)
     /\ bootstrapRecv newPeer0 newTag0 (net, st) peer tag mem off size
        = let '(s, sock, mem') := bootstrapNetRecv (unex_sock e) mem off size in
          let '(r, net') := close_and_return s net sock in
          (r, (net', set_unexpectedConnections st (l1 ++ l2)), mem'))
  /\
  (forall arrivals after rest,
     is_int peer -> is_int tag ->
     Forall (unex_other peer tag) (unexpectedConnections st) ->
     Forall (arrival_other peer tag) arrivals ->
     sock_acceptq (listenSock st)
     = map arrival_conn arrivals ++ announce peer tag after :: rest ->
     bootstrapRecv newPeer0 newTag0 (net, st) peer tag mem off size
     = let '(s, sock, mem') := bootstrapNetRecv after mem off size in
       let '(r, net') := close_and_return s net sock in
       (r, (net', set_unexpectedConnections
                    (set_listenSock st (set_acceptq (listenSock st) rest))
                    (unexpectedConnections st ++ map arrival_unex arrivals)),
        mem'))
  /\
  (forall p t sock,
     unexpectedEnqueue st p t sock
     = (Ret ncclSuccess,
        set_unexpectedConnections st (unexpectedConnections st ++ [mkUnex p t sock]))).
Proof.
  split; [|split].
  - intros l1 e l2 Hq Hl1 Hp Ht.
    assert (HD : unexpectedDequeue st peer tag ncclSocketInit0
                 = (Ret ncclSuccess, set_unexpectedConnections st (l1 ++ l2),
                    unex_sock e, 1)).
    { unfold unexpectedDequeue.
      now rewrite Hq, (unexpected_scan_found l1 l2 e peer tag Hl1 Hp Ht). }
    split; [exact HD|].
    unfold bootstrapRecv. rewrite HD. reflexivity.
  - intros arrivals after rest Hp Ht Hq Harr Hacc.
    unfold bootstrapRecv, unexpectedDequeue.
    rewrite (unexpected_scan_none _ _ _ Hq). cbn [ok negb]. cbn [Z.eqb].
    rewrite Hacc. now apply bootstrapRecv_loop_arrivals.
  - intros p t sock. unfold unexpectedEnqueue. now rewrite unexpected_link_app.
Qed.

Lemma unexpected_queue_fifo_witness :
  (* the receive of (0, 7) parks the connection of (1, 9) ... *)
  snd (fst (bootstrapRecv 0 0 (s3_net, s3_state) 0 7 [x00; x00] 0 2))
  = (mkNet [] (net_reachable s3_net) [mkSocket [] 0 false [] [] []] (net_accept_error s3_net),
     set_unexpectedConnections
       (set_listenSock s3_state (set_acceptq (listenSock s3_state) []))
       [mkUnex 1 9 (mkSocket [] 0 true (frame 2 [x78; x78]) [] [])])
  /\
  (* ... and the receive of (1, 9) finds it in the queue *)
  unexpectedDequeue
    (set_unexpectedConnections s3_state
       [mkUnex 1 9 (mkSocket [] 0 true (frame 2 [x78; x78]) [] [])])
    1 9 ncclSocketInit0
  = (Ret ncclSuccess, set_unexpectedConnections s3_state [],
     mkSocket [] 0 true (frame 2 [x78; x78]) [] [], 1).
Proof.
  split.
  - destruct (unexpected_queue_fifo 0 0 s3_net s3_state 0 7 [x00; x00] 0 2)
      as (_ & H2 & _).
    rewrite (H2 [(1, 9, mkSocket [] 0 true (frame 2 [x78; x78]) [] [])]
                (mkSocket [] 0 true (frame 2 [x68; x69]) [] []) []).
    + reflexivity.
    + unfold is_int, INT_MIN, INT_MAX. lia.
    + unfold is_int, INT_MIN, INT_MAX. lia.
    + constructor.
    + constructor; [|constructor]. unfold arrival_other, is_int, INT_MIN, INT_MAX. lia.
    + reflexivity.
  - destruct (unexpected_queue_fifo 0 0 s3_net
                (set_unexpectedConnections s3_state
                   [mkUnex 1 9 (mkSocket [] 0 true (frame 2 [x78; x78]) [] [])])
                1 9 [x00; x00] 0 2) as (H1 & _ & _).
    destruct (H1 [] (mkUnex 1 9 (mkSocket [] 0 true (frame 2 [x78; x78]) [] [])) []
                 eq_refl (Forall_nil _) eq_refl eq_refl) as [HD _].
    exact HD.
Defined.

(** ** The root service *)

Lemma collect_step (asz : Z) (sock sock' : ncclSocket) (pending : list ncclSocket)
  (net : Net) (l : rootLocals) (info' : list byte) :
  bootstrapNetRecv sock (root_info l) 0 (sizeof_extInfo asz)
  = (Ret ncclSuccess, sock', info') ->
  bootstrapRoot_collect asz (sock :: pending) net l
  = match bootstrapRoot_checkin asz (with_info l info') with
    | TurnNext l' =>
        bootstrapRoot_collect asz pending (snd (fst (ncclSocketClose net sock'))) l'
    | turn => (snd (fst (ncclSocketClose net sock')), pending, turn)
    end.
Proof.
  intros E. cbn [bootstrapRoot_collect]. rewrite E. reflexivity.
Qed.

Lemma collect_after_turns (asz : Z) (pre : list ncclSocket) (net : Net) (l : rootLocals)
  (net1 : Net) (l1 : rootLocals) :
  root_turns asz pre net l net1 l1 ->
  forall post,
    bootstrapRoot_collect asz (pre ++ post) net l
    = bootstrapRoot_collect asz post net1 l1.
Proof.
  induction 1 as [|sock conns net l sock' info' l' net2 l2 HR HC _ IH]; intros post.
  - reflexivity.
  - cbn [app]. rewrite (collect_step _ _ _ _ _ _ _ HR), HC. apply IH.
Qed.

Lemma checkin_mismatch (asz : Z) (l : rootLocals) :
  root_c l <> 0 ->
  info_nranks (root_info l) <> root_nranks l ->
  bootstrapRoot_checkin asz l
  = TurnOut (RootMismatch (root_nranks l) (info_nranks (root_info l))) l.
Proof.
  intros Hc Hn. unfold bootstrapRoot_checkin.
  replace (root_c l =? 0) with false by zbool.
  replace (root_nranks l =? info_nranks (root_info l)) with false by zbool.
  reflexivity.
Qed.

Lemma checkin_duplicate (asz : Z) (l : rootLocals) (rankAddresses rankAddressesRoot slot : list byte) :
  root_c l <> 0 ->
  info_nranks (root_info l) = root_nranks l ->
  root_rankAddresses l = Some rankAddresses ->
  root_rankAddressesRoot l = Some rankAddressesRoot ->
  mem_read rankAddressesRoot (info_rank (root_info l) * asz) asz = Some slot ->
  slot <> zeros asz ->
  bootstrapRoot_checkin asz l
  = TurnOut (RootDuplicate (info_rank (root_info l)) (root_nranks l)) l.
Proof.
  intros Hc Hn HA HR Hslot Hnz. unfold bootstrapRoot_checkin.
  replace (root_c l =? 0) with false by zbool.
  replace (root_nranks l =? info_nranks (root_info l)) with true by zbool.
  cbn [negb]. rewrite HA, HR, Hslot.
  unfold bytes_eqb. destruct (list_eq_dec _ _ _) as [E|E]; [congruence|reflexivity].
Qed.

Lemma info_nranks_is_int (info : list byte) : is_int (info_nranks info).
Proof. apply wrap_int_is_int. Qed.

(** A check-in that is stored leaves the tables in place and counts one
    more rank. *)
Lemma checkin_stored (asz : Z) (l l' : rootLocals) :
  0 < asz ->
  root_c l = 0 \/ (root_collecting asz l /\ root_c l < root_nranks l) ->
  (bootstrapRoot_checkin asz l = TurnNext l' ->
   root_collecting asz l' /\ root_c l' < root_nranks l')
  /\ (bootstrapRoot_checkin asz l = TurnCollected l' ->
      root_collecting asz l' /\ root_c l' = root_nranks l').
Proof.
  intros Ha Hl. unfold bootstrapRoot_checkin.
  set (info := root_info l).
  (* the locals after the allocation of the first turn *)
  assert (Halloc : forall la,
            (if root_c l =? 0
             then match ncclCalloc (info_nranks info) asz with
                  | Some t => Some (mkRoot (info_nranks info) (root_c l) info (Some t) (Some t))
                  | None => None
                  end
             else Some l) = Some la ->
            is_int (root_nranks la) /\ 0 <= root_c la < INT_MAX
            /\ root_c la = root_c l
            /\ (root_c la <> 0 -> root_c la < root_nranks la)
            /\ exists A R, root_rankAddresses la = Some A
                           /\ root_rankAddressesRoot la = Some R
                           /\ Z.of_nat (length A) = Z.max 0 (root_nranks la * asz)
                           /\ Z.of_nat (length R) = Z.max 0 (root_nranks la * asz)).
  { intros la. destruct (Z.eqb_spec (root_c l) 0) as [Hc|Hc].
    - unfold ncclCalloc. destruct (info_nranks info <? 0); [discriminate|].
      intros [= <-]. cbn. rewrite Hc. unfold INT_MAX.
      repeat split; try lia; try apply info_nranks_is_int.
      exists (zeros (info_nranks info * asz)), (zeros (info_nranks info * asz)).
      repeat split; apply length_zeros.
    - intros [= <-]. destruct Hl as [Hl|[(Hn & Hcn & A & R & HA & HR & HlA & HlR) Hlt]];
        [contradiction|].
      unfold is_int, INT_MIN, INT_MAX in *. repeat split; try lia.
      exists A, R. repeat split; try assumption; lia. }
  destruct (if root_c l =? 0 then _ else _) as [la|]; [|split; discriminate].
  destruct (Halloc la eq_refl) as (Hint & Hc & _ & Hcn & A & R & HA & HR & HlA & HlR).
  clear Halloc.
  destruct (negb (root_nranks la =? info_nranks info)); [split; discriminate|].
  rewrite HA, HR.
  destruct (mem_read R (info_rank info * asz) asz) as [slot|] eqn:Hslot;
    [|split; discriminate].
  destruct (negb (bytes_eqb (zeros asz) slot)); [split; discriminate|].
  destruct (mem_write R _ _) as [R'|] eqn:HwR; [|split; discriminate].
  destruct (mem_write A _ _) as [A'|] eqn:HwA; [|split; discriminate].
  apply mem_write_length in HwR, HwA.
  (* the slot was inside the table, so there is at least one rank *)
  assert (Hn1 : 1 <= root_nranks la).
  { revert Hslot. unfold mem_read, in_bounds.
    replace (asz <=? 0) with false by zbool.
    destruct (_ && _) eqn:B; [|discriminate]. intros _.
    apply andb_true_iff in B. destruct B as [B1 B2]. apply Z.leb_le in B1, B2.
    destruct (Z.le_gt_cases 1 (root_nranks la)); [assumption|].
    exfalso. assert (Z.max 0 (root_nranks la * asz) = 0) by nia. lia. }
  assert (Hadd : int_add (root_c la) 1 = root_c la + 1).
  { apply wrap_int_id. unfold is_int, INT_MIN, INT_MAX in *. lia. }
  rewrite Hadd. unfold is_int, INT_MIN, INT_MAX in *.
  assert (Hmax : Z.max 0 (root_nranks la * asz) = root_nranks la * asz) by nia.
  destruct (Z.ltb_spec (root_c la + 1) (root_nranks la)) as [Hlt|Hge];
    split; intros E; cbv iota in E; try discriminate E; injection E as E; subst l';
    unfold root_collecting, INT_MAX; cbn;
    (split; [split; [lia|split; [lia|]]|lia]);
    exists A', R'; repeat split; lia.
Qed.

Lemma turns_collecting (asz : Z) (pre : list ncclSocket) (net : Net) (l : rootLocals)
  (net1 : Net) (l1 : rootLocals) :
  0 < asz ->
  root_turns asz pre net l net1 l1 ->
  root_c l = 0 \/ (root_collecting asz l /\ root_c l < root_nranks l) ->
  pre <> [] ->
  root_collecting asz l1 /\ root_c l1 < root_nranks l1.
Proof.
  intros Ha HT. induction HT as [|sock conns net l sock' info' l' net2 l2 HR HC HT IH];
    intros Hl Hne; [congruence|].
  destruct (checkin_stored asz (with_info l info') l' Ha Hl) as [Hnext _].
  specialize (Hnext HC).
  destruct conns as [|c conns].
  - inversion HT; subst. exact Hnext.
  - apply IH; [now right|discriminate].
Qed.

Lemma collect_collected (asz : Z) (pending : list ncclSocket) :
  forall (net : Net) (l : rootLocals) (net1 : Net) (pending1 : list ncclSocket)
         (l1 : rootLocals),
  0 < asz ->
  root_c l = 0 \/ (root_collecting asz l /\ root_c l < root_nranks l) ->
  bootstrapRoot_collect asz pending net l = (net1, pending1, TurnCollected l1) ->
  root_collecting asz l1 /\ root_c l1 = root_nranks l1.
Proof.
  induction pending as [|sock pending IH]; intros net l net1 pending1 l1 Ha Hl E.
  - discriminate.
  - cbn [bootstrapRoot_collect] in E.
    destruct (bootstrapNetRecv _ _ _ _) as [[s sock'] info'].
    destruct (ok s); cbn [negb] in E; [|discriminate].
    destruct (ncclSocketClose net sock') as [[s2 net2] sk].
    destruct (ok s2); cbn [negb] in E; [|discriminate].
    change (mkRoot (root_nranks l) (root_c l) info' (root_rankAddresses l)
              (root_rankAddressesRoot l)) with (with_info l info') in E.
    destruct (checkin_stored asz (with_info l info') l1 Ha Hl) as [_ Hcoll].
    destruct (bootstrapRoot_checkin asz (with_info l info')) as [l'|l'|e l'] eqn:HC.
    + destruct (checkin_stored asz (with_info l info') l' Ha Hl) as [Hnext _].
      eapply IH; [exact Ha| |exact E]. right. now apply Hnext.
    + injection E as _ _ <-. now apply Hcoll.
    + discriminate.
Qed.

(** C3.  Rejection while collecting.  Let the service have stored the
    check-ins of the connections [pre] (at least one), and let the next
    connection deliver [info'].  (A) If [info'.nranks] differs from the
    [nranks] captured on the first check-in, the service ends with the
    mismatch warning.  (B) If the count agrees and the slot
    [rankAddressesRoot[info'.rank]] is not zero, the service ends with the
    duplicate warning.  In both cases the two tables are as they were
    before this check-in, no connection to any rank is made (the only
    sockets closed after the check-in are the accepted connection and the
    listening socket), and the connections behind it are never accepted. *)
Theorem bootstrapRoot_rejects
  (asz : Z) (listenSock : ncclSocket) (magic : Z) (info0 : list byte) (net : Net)
  (pre : list ncclSocket) (bad : ncclSocket) (post : list ncclSocket)
  (net1 : Net) (l1 : rootLocals) (bad' : ncclSocket) (info' : list byte) :
  0 < asz ->
  sock_acceptq listenSock = pre ++ bad :: post ->
  pre <> [] ->
  root_turns asz pre net (mkRoot 0 0 info0 None None) net1 l1 ->
  bootstrapNetRecv bad (root_info l1) 0 (sizeof_extInfo asz)
  = (Ret ncclSuccess, bad', info') ->
  let res := bootstrapRoot asz listenSock magic info0 net in
  let aborted (e : rootExit) :=
    res_exit res = e
    /\ root_rankAddresses (res_locals res) = root_rankAddresses l1
    /\ root_rankAddressesRoot (res_locals res) = root_rankAddressesRoot l1
    /\ net_closed (res_net res)
       = net_closed net1 ++ [set_open bad' false;
                             set_open (set_acceptq listenSock post) false]
    /\ sock_acceptq (res_listenSock res) = post in
  (info_nranks info' <> root_nranks l1 ->
     aborted (RootMismatch (root_nranks l1) (info_nranks info')))
  /\
  (info_nranks info' = root_nranks l1 ->
   forall rankAddressesRoot slot,
     root_rankAddressesRoot l1 = Some rankAddressesRoot ->
     mem_read rankAddressesRoot (info_rank info' * asz) asz = Some slot ->
     slot <> zeros asz ->
     aborted (RootDuplicate (info_rank info') (root_nranks l1))).
Proof.
  intros Ha Hacc Hpre HT HR res aborted.
  destruct (turns_collecting asz pre net _ net1 l1 Ha HT (or_introl eq_refl) Hpre)
    as [(Hn & Hc & A & R & HA & HRt & _) _].
  assert (Hcoll : bootstrapRoot_collect asz (sock_acceptq listenSock) net
                    (mkRoot 0 0 info0 None None)
                  = match bootstrapRoot_checkin asz (with_info l1 info') with
                    | TurnNext l' =>
                        bootstrapRoot_collect asz post
                          (snd (fst (ncclSocketClose net1 bad'))) l'
                    | turn => (snd (fst (ncclSocketClose net1 bad')), post, turn)
                    end).
  { rewrite Hacc, (collect_after_turns _ _ _ _ _ _ HT).
    apply collect_step. exact HR. }
  split.
  - intros Hne.
    rewrite (checkin_mismatch asz (with_info l1 info')) in Hcoll
      by (cbn; first [lia | assumption]).
    subst aborted res. unfold bootstrapRoot. rewrite Hcoll. cbn.
    rewrite <- app_assoc. repeat split.
  - intros Heq R' slot HR' Hslot Hnz.
    rewrite (checkin_duplicate asz (with_info l1 info') A R' slot) in Hcoll
      by (cbn; first [lia | assumption]).
    subst aborted res. unfold bootstrapRoot. rewrite Hcoll. cbn.
    rewrite <- app_assoc. repeat split.
Qed.

Lemma mem_read_slot (asz : Z) (table : list byte) (n r : Z) :
  0 < asz -> 0 <= r < n ->
  Z.of_nat (length table) = n * asz ->
  mem_read table (r * asz) asz = Some (table_slot asz table r).
Proof.
  intros Ha Hr Hl. unfold mem_read, in_bounds, table_slot.
  replace (asz <=? 0) with false by zbool.
  replace (0 <=? r * asz) with true by (symmetry; apply Z.leb_le; nia).
  replace (r * asz + asz <=? Z.of_nat (length table)) with true
    by (symmetry; apply Z.leb_le; nia).
  reflexivity.
Qed.

(** The distributing loop, when every root address can be reached. *)
Lemma distribute_all (asz magic : Z) (l : rootLocals) (A R : list byte)
  (reach : list byte -> bool) (aerr : option ncclResult_t) (todo : nat) :
  forall (r : Z) (lst : list ncclSocket) (closed : list ncclSocket),
  0 < asz ->
  1 <= root_nranks l <= INT_MAX ->
  root_rankAddresses l = Some A ->
  root_rankAddressesRoot l = Some R ->
  Z.of_nat (length A) = root_nranks l * asz ->
  Z.of_nat (length R) = root_nranks l * asz ->
  (forall k, 0 <= k < root_nranks l -> reach (table_slot asz R k) = true) ->
  0 <= r -> r + Z.of_nat todo = root_nranks l ->
  bootstrapRoot_distribute asz todo magic (mkNet lst reach closed aerr) l r
  = (mkNet lst reach
       (closed ++ map (distribute_conn asz magic A R (root_nranks l)) (ranks_from r todo)) aerr,
     RootSentAll).
Proof.
  induction todo as [|todo IH]; intros r lst closed Ha Hn HA HR HlA HlR Hreach Hr Hsum.
  - cbn. now rewrite app_nil_r.
  - cbn [bootstrapRoot_distribute ranks_from map]. rewrite HA, HR.
    unfold INT_MAX in *.
    assert (Hadd : int_add r 1 = r + 1).
    { apply wrap_int_id. unfold is_int, INT_MIN, INT_MAX. lia. }
    rewrite Hadd, int_rem_nonneg by (unfold INT_MAX; lia).
    pose proof (mod_range (root_nranks l) (r + 1) ltac:(lia)) as Hm.
    rewrite (mem_read_slot asz R (root_nranks l) r) by (assumption || lia).
    unfold ncclSocketConnect. cbn [net_reachable ncclSocketInit sock_addr].
    rewrite Hreach by lia. cbn [ok negb].
    rewrite (netsend_tx _ _ _ _ _
               (mem_read_slot asz A (root_nranks l) _ Ha Hm HlA)).
    cbn [ok negb ncclSocketClose net_listen net_reachable net_closed].
    rewrite IH by (assumption || lia).
    rewrite <- app_assoc. reflexivity.
Qed.

Lemma collect_reachable (asz : Z) (pending : list ncclSocket) :
  forall (net : Net) (l : rootLocals),
  let net1 := fst (fst (bootstrapRoot_collect asz pending net l)) in
  net_reachable net1 = net_reachable net /\ net_listen net1 = net_listen net.
Proof.
  induction pending as [|sock pending IH]; intros net l; [now split|].
  cbn [bootstrapRoot_collect].
  destruct (bootstrapNetRecv _ _ _ _) as [[s sock'] info'].
  destruct (ok s); cbn [negb]; [|now split].
  cbn [ncclSocketClose ok negb].
  destruct (bootstrapRoot_checkin _ _) as [l'|l'|e l']; try (now split).
  apply (IH (mkNet (net_listen net) (net_reachable net)
                   (net_closed net ++ [set_open sock' false]) (net_accept_error net)) l').
Qed.

(** C4.  Distribution.  Once all [nranks] check-ins are collected, the
    service goes through [r = 0, 1, ..., nranks-1] in this order and, for
    each [r], opens a connection to [rankAddressesRoot[r]], sends on it
    exactly the framed [rankAddresses[(r+1) mod nranks]], and closes it; then
    it closes the listening socket and ends.  (The root addresses are taken
    to be reachable: a failed connect ends the service.) *)
Theorem bootstrapRoot_distributes
  (asz : Z) (listenSock : ncclSocket) (magic : Z) (info0 : list byte) (net : Net)
  (net1 : Net) (pending : list ncclSocket) (l : rootLocals) (A R : list byte) :
  0 < asz ->
  bootstrapRoot_collect asz (sock_acceptq listenSock) net (mkRoot 0 0 info0 None None)
  = (net1, pending, TurnCollected l) ->
  root_rankAddresses l = Some A ->
  root_rankAddressesRoot l = Some R ->
  (forall r, 0 <= r < root_nranks l -> net_reachable net (table_slot asz R r) = true) ->
  let res := bootstrapRoot asz listenSock magic info0 net in
  res_exit res = RootSentAll
  /\ res_locals res = l
  /\ net_closed (res_net res)
     = net_closed net1
       ++ map (distribute_conn asz magic A R (root_nranks l))
              (ranks_from 0 (Z.to_nat (root_nranks l)))
       ++ [set_open (set_acceptq listenSock pending) false].
Proof.
  intros Ha Hcoll HA HR Hreach res.
  destruct (collect_collected asz (sock_acceptq listenSock) net
              (mkRoot 0 0 info0 None None) net1 pending l Ha (or_introl eq_refl) Hcoll)
    as [(Hn & Hc & A' & R' & HA' & HR' & HlA & HlR) _].
  rewrite HA in HA'. rewrite HR in HR'. injection HA' as <-. injection HR' as <-.
  pose proof (collect_reachable asz (sock_acceptq listenSock) net
                (mkRoot 0 0 info0 None None)) as [Hre _].
  rewrite Hcoll in Hre. cbn in Hre.
  subst res. unfold bootstrapRoot. rewrite Hcoll.
  destruct net1 as [lst reach closed]. cbn in Hre. subst reach.
  rewrite (distribute_all asz magic l A R (net_reachable net)) by (assumption || lia).
  cbn. rewrite <- app_assoc. repeat split.
Qed.

Lemma root3_first_turn :
  root_turns 2 [root3_checkin 2 3 [xa2; xa2] [xb2; xb2]] root3_net
             (mkRoot 0 0 (zeros 12) None None) root3_net_after_first root3_after_first.
Proof.
  apply root_turns_cons with (sock' := mkSocket [] 0 true [] [] [])
                             (info' := extInfo_bytes 2 3 [xa2; xa2] [xb2; xb2])
                             (l' := root3_after_first).
  - vm_compute. reflexivity.
  - vm_compute. reflexivity.
  - apply root_turns_nil.
Defined.

Lemma bootstrapRoot_rejects_witness :
  res_exit (bootstrapRoot 2 root3_listen_mismatch 9 (zeros 12) root3_net) = RootMismatch 3 4
  /\ res_exit (bootstrapRoot 2 root3_listen_duplicate 9 (zeros 12) root3_net)
     = RootDuplicate 2 3
  /\ root_rankAddressesRoot
       (res_locals (bootstrapRoot 2 root3_listen_duplicate 9 (zeros 12) root3_net))
     = Some [x00; x00; x00; x00; xa2; xa2].
Proof.
  assert (Hne : [root3_checkin 2 3 [xa2; xa2] [xb2; xb2]] <> []) by discriminate.
  split; [|split].
  - destruct (bootstrapRoot_rejects 2 root3_listen_mismatch 9 (zeros 12) root3_net
                [root3_checkin 2 3 [xa2; xa2] [xb2; xb2]]
                (root3_checkin 0 4 [xa0; xa0] [xb0; xb0])
                [root3_checkin 1 3 [xa1; xa1] [xb1; xb1]]
                root3_net_after_first root3_after_first
                (mkSocket [] 0 true [] [] [])
                (extInfo_bytes 0 4 [xa0; xa0] [xb0; xb0])
                ltac:(lia) eq_refl Hne root3_first_turn eq_refl) as [HA _].
    apply HA. vm_compute. discriminate.
  - destruct (bootstrapRoot_rejects 2 root3_listen_duplicate 9 (zeros 12) root3_net
                [root3_checkin 2 3 [xa2; xa2] [xb2; xb2]]
                (root3_checkin 2 3 [xa0; xa0] [xb0; xb0])
                [root3_checkin 1 3 [xa1; xa1] [xb1; xb1]]
                root3_net_after_first root3_after_first
                (mkSocket [] 0 true [] [] [])
                (extInfo_bytes 2 3 [xa0; xa0] [xb0; xb0])
                ltac:(lia) eq_refl Hne root3_first_turn eq_refl) as [_ HB].
    apply (HB eq_refl [x00; x00; x00; x00; xa2; xa2] [xa2; xa2] eq_refl eq_refl).
    discriminate.
  - destruct (bootstrapRoot_rejects 2 root3_listen_duplicate 9 (zeros 12) root3_net
                [root3_checkin 2 3 [xa2; xa2] [xb2; xb2]]
                (root3_checkin 2 3 [xa0; xa0] [xb0; xb0])
                [root3_checkin 1 3 [xa1; xa1] [xb1; xb1]]
                root3_net_after_first root3_after_first
                (mkSocket [] 0 true [] [] [])
                (extInfo_bytes 2 3 [xa0; xa0] [xb0; xb0])
                ltac:(lia) eq_refl Hne root3_first_turn eq_refl) as [_ HB].
    apply (HB eq_refl [x00; x00; x00; x00; xa2; xa2] [xa2; xa2] eq_refl eq_refl).
    discriminate.
Defined.

Lemma bootstrapRoot_distributes_witness :
  let res := bootstrapRoot 2 root3_listen 9 (zeros 12) root3_net in
  res_exit res = RootSentAll
  /\ map (fun s => (sock_addr s, sock_tx s, sock_open s)) (skipn 3 (net_closed (res_net res)))
     = [ ([xa0; xa0], frame 2 [xb1; xb1], false);
         ([xa1; xa1], frame 2 [xb2; xb2], false);
         ([xa2; xa2], frame 2 [xb0; xb0], false);
         ([x01; x01], [], false) ].
Proof.
  set (run := bootstrapRoot_collect 2 (sock_acceptq root3_listen) root3_net
                (mkRoot 0 0 (zeros 12) None None)).
  set (l := mkRoot 3 3 (extInfo_bytes 1 3 [xa1; xa1] [xb1; xb1])
                   (Some [xb0; xb0; xb1; xb1; xb2; xb2])
                   (Some [xa0; xa0; xa1; xa1; xa2; xa2])).
  destruct (bootstrapRoot_distributes 2 root3_listen 9 (zeros 12) root3_net
              (fst (fst run)) (snd (fst run)) l
              [xb0; xb0; xb1; xb1; xb2; xb2] [xa0; xa0; xa1; xa1; xa2; xa2])
    as (H1 & _ & H3).
  - lia.
  - vm_compute. reflexivity.
  - reflexivity.
  - reflexivity.
  - intros r _. reflexivity.
  - intros res. split; [exact H1|].
    subst res. rewrite H3. vm_compute. reflexivity.
Defined.

(** ** The dissemination barrier *)

Lemma int_array_in (n : Z) (f : Z -> Z) (k : Z) :
  0 <= k < n -> int_array n f k = Some (f k).
Proof.
  intros H. unfold int_array.
  replace (0 <=? k) with true by zbool. replace (k <? n) with true by zbool.
  reflexivity.
Qed.

Lemma pow2_below (n : Z) (k : nat) :
  1 <= n -> (k < Z.to_nat (Z.log2_up n))%nat -> 2 ^ Z.of_nat k < n.
Proof.
  intros Hn Hk.
  assert (H1 : 1 < n).
  { destruct (Z.eq_dec n 1) as [->|]; [|lia]. cbn in Hk. lia. }
  pose proof (Z.log2_up_spec n H1) as [Hlo _].
  eapply Z.le_lt_trans; [|exact Hlo].
  apply Z.pow_le_mono_r; lia.
Qed.

Lemma pow2_reaches (n : Z) : 1 <= n -> n <= 2 ^ Z.log2_up n.
Proof.
  intros Hn. destruct (Z.eq_dec n 1) as [->|]; [cbn; lia|].
  apply Z.log2_up_spec. lia.
Qed.

Lemma pow2_double_small (n : Z) (k : nat) :
  n <= 1073741824 -> 2 ^ Z.of_nat k < n -> 2 * 2 ^ Z.of_nat k <= 1073741824.
Proof.
  intros Hn Hk.
  assert (Hk30 : Z.of_nat k < 30).
  { apply (Z.pow_lt_mono_r_iff 2); [lia|lia|]. change (2 ^ 30) with 1073741824. lia. }
  replace (2 * 2 ^ Z.of_nat k) with (2 ^ (Z.of_nat k + 1))
    by (rewrite Z.pow_add_r by lia; lia).
  change 1073741824 with (2 ^ 30). apply Z.pow_le_mono_r; lia.
Qed.

(** The loop on the recording layer, from [mask = 2^k] on. *)
Lemma barrier_loop_record (f : Z -> Z) (rank nranks tag : Z) (data : list byte) (m : nat) :
  forall (k fuel : nat) (log : list p2pCall),
  1 <= nranks <= 1073741824 -> 0 <= rank < nranks ->
  (k + m = Z.to_nat (Z.log2_up nranks))%nat -> (m <= fuel)%nat ->
  barrier_loop record_send record_recv fuel log (int_array nranks f) rank nranks tag data
               (2 ^ Z.of_nat k)
  = (Ret ncclSuccess,
     log ++ flat_map (barrier_round f rank nranks tag) (seq k m)).
Proof.
  induction m as [|m IH]; intros k fuel log Hn Hr Hk Hfuel.
  - assert (Hge : nranks <= 2 ^ Z.of_nat k).
    { replace (Z.of_nat k) with (Z.log2_up nranks).
      - apply pow2_reaches. lia.
      - pose proof (Z.log2_up_nonneg nranks). lia. }
    cbn [seq flat_map]. rewrite app_nil_r.
    destruct fuel; cbn [barrier_loop];
      replace (2 ^ Z.of_nat k <? nranks) with false by zbool; reflexivity.
  - assert (Hlt : 2 ^ Z.of_nat k < nranks) by (apply pow2_below; lia).
    pose proof (pow2_double_small nranks k ltac:(lia) Hlt) as Hdbl.
    assert (Hpos : 0 < 2 ^ Z.of_nat k) by (apply Z.pow_pos_nonneg; lia).
    destruct fuel as [|fuel]; [lia|]. cbn [barrier_loop].
    replace (2 ^ Z.of_nat k <? nranks) with true by zbool.
    set (mask := 2 ^ Z.of_nat k) in *.
    assert (Hdst : int_rem (int_add rank mask) nranks = (rank + mask) mod nranks).
    { unfold int_add. rewrite wrap_int_id by (unfold is_int, INT_MIN, INT_MAX; lia).
      apply int_rem_nonneg; unfold INT_MAX; lia. }
    assert (Hsrc : int_rem (int_add (int_sub rank mask) nranks) nranks
                   = (rank - mask + nranks) mod nranks).
    { unfold int_add, int_sub.
      rewrite (wrap_int_id (rank - mask)) by (unfold is_int, INT_MIN, INT_MAX; lia).
      rewrite wrap_int_id by (unfold is_int, INT_MIN, INT_MAX; lia).
      apply int_rem_nonneg; unfold INT_MAX; lia. }
    rewrite Hdst, Hsrc.
    rewrite !int_array_in by (apply mod_range; lia).
    unfold record_send at 1. cbn [ok negb]. unfold record_recv at 1. cbn [ok negb].
    assert (Hshl : int_shl mask 1 = 2 ^ Z.of_nat (S k)).
    { unfold int_shl. rewrite Z.shiftl_mul_pow2 by lia.
      rewrite wrap_int_id by (unfold is_int, INT_MIN, INT_MAX; lia).
      rewrite Nat2Z.inj_succ, Z.pow_succ_r by lia. unfold mask. lia. }
    rewrite Hshl, IH by (assumption || lia).
    cbn [seq flat_map]. rewrite <- !app_assoc. reflexivity.
Qed.

Lemma length_rounds_from (f : Z -> Z) (rank nranks tag : Z) (m : nat) :
  forall k, length (flat_map (barrier_round f rank nranks tag) (seq k m)) = (2 * m)%nat.
Proof.
  induction m as [|m IH]; intros k; [reflexivity|].
  cbn [seq flat_map]. rewrite length_app, IH. cbn. lia.
Qed.

Lemma length_barrier_rounds (f : Z -> Z) (rank nranks tag : Z) :
  length (barrier_rounds f rank nranks tag) = (2 * Z.to_nat (Z.log2_up nranks))%nat.
Proof. apply length_rounds_from. Qed.

(** *** The real point-to-point layer leaves the ring sockets alone *)

Lemma close_and_return_net (ret : status) (net : Net) (sock : ncclSocket) :
  net_reachable (snd (close_and_return ret net sock)) = net_reachable net.
Proof. destruct ret as [r| | |]; reflexivity. Qed.

Lemma bootstrapSend_state (asz : Z) (net : Net) (st : bootstrapState) (peer tag : Z)
  (mem : list byte) (off size : Z) :
  snd (snd (bootstrapSend asz (net, st) peer tag mem off size)) = st.
Proof.
  unfold bootstrapSend.
  destruct (peerCommAddresses st) as [table|]; [|reflexivity].
  destruct (mem_read table (peer * asz) asz) as [addr|]; [|reflexivity].
  repeat match goal with
         | |- context [if negb (ok ?s) then _ else _] => destruct (negb (ok s))
         | |- context [let '(_, _) := ?e in _] => destruct e
         end; reflexivity.
Qed.

Lemma bootstrapRecv_loop_ring (pending : list ncclSocket) :
  forall (net : Net) (st : bootstrapState) (peer tag newPeer newTag : Z)
         (mem : list byte) (off size : Z),
  let st' := snd (snd (fst (bootstrapRecv_loop pending net st peer tag newPeer newTag
                                               mem off size))) in
  ringSendSocket st' = ringSendSocket st /\ ringRecvSocket st' = ringRecvSocket st.
Proof.
  induction pending as [|sock pending IH]; intros net st peer tag newPeer newTag mem off size;
    [cbn [bootstrapRecv_loop]; destruct (close_and_return _ _ _); now split|].
  cbn [bootstrapRecv_loop].
  destruct (bootstrapNetRecv sock _ _ _) as [[s1 sock1] buf1].
  destruct (negb (ok s1)); [destruct (close_and_return _ _ _); now split|].
  destruct (bootstrapNetRecv sock1 _ _ _) as [[s2 sock2] buf2].
  destruct (negb (ok s2)); [destruct (close_and_return _ _ _); now split|].
  destruct (_ && _).
  - destruct (bootstrapNetRecv sock2 _ _ _) as [[s3 sock3] mem'].
    destruct (close_and_return _ _ _); now split.
  - cbn [unexpectedEnqueue ok negb].
    match goal with |- context [bootstrapRecv_loop pending net ?s _ _ ?a ?b _ _ _] =>
      specialize (IH net s peer tag a b mem off size) end.
    cbn in IH. exact IH.
Qed.

Lemma bootstrapRecv_ring (newPeer0 newTag0 : Z) (net : Net) (st : bootstrapState)
  (peer tag : Z) (mem : list byte) (off size : Z) :
  let st' := snd (snd (fst (bootstrapRecv newPeer0 newTag0 (net, st) peer tag mem off size))) in
  ringSendSocket st' = ringSendSocket st /\ ringRecvSocket st' = ringRecvSocket st.
Proof.
  unfold bootstrapRecv, unexpectedDequeue.
  destruct (unexpected_scan _ _ _) as [[sock' rest]|]; cbn [ok negb].
  - cbn [Z.eqb]. destruct (bootstrapNetRecv _ _ _ _) as [[s sock2] mem'].
    destruct (close_and_return _ _ _). now split.
  - cbn [Z.eqb]. apply bootstrapRecv_loop_ring.
Qed.

Section Preservation.

Context {St : Type}.
Variable Send : St -> Z -> Z -> list byte -> Z -> Z -> status * St.
Variable Recv : St -> Z -> Z -> list byte -> Z -> Z -> status * St * list byte.
Variable P : St -> Prop.
Hypothesis Send_keeps : forall st peer tag mem off size,
  P st -> P (snd (Send st peer tag mem off size)).
Hypothesis Recv_keeps : forall st peer tag mem off size,
  P st -> P (snd (fst (Recv st peer tag mem off size))).

(** What both calls keep, the barrier keeps. *)
Lemma barrier_loop_keeps (fuel : nat) :
  forall st ranks rank nranks tag data mask,
  P st -> P (snd (barrier_loop Send Recv fuel st ranks rank nranks tag data mask)).
Proof.
  induction fuel as [|fuel IH]; intros st ranks rank nranks tag data mask HP;
    cbn [barrier_loop]; destruct (mask <? nranks); try exact HP.
  destruct (ranks _) as [pd|]; [|exact HP].
  pose proof (Send_keeps st pd tag data 0 SIZEOF_INT HP) as H1.
  destruct (Send st pd tag data 0 SIZEOF_INT) as [s1 st1]. cbn in H1.
  destruct (negb (ok s1)); [exact H1|].
  destruct (ranks _) as [ps|]; [|exact H1].
  pose proof (Recv_keeps st1 ps tag data 0 SIZEOF_INT H1) as H2.
  destruct (Recv st1 ps tag data 0 SIZEOF_INT) as [[s2 st2] data2]. cbn in H2.
  destruct (negb (ok s2)); [exact H2|]. now apply IH.
Qed.

Lemma bootstrapBarrier_keeps (fuel : nat) st ranks rank nranks tag data0 :
  P st -> P (snd (bootstrapBarrier Send Recv fuel st ranks rank nranks tag data0)).
Proof.
  intros HP. unfold bootstrapBarrier. destruct (nranks =? 1); [exact HP|].
  now apply barrier_loop_keeps.
Qed.

End Preservation.

(** C6, as the code has it.  For [1 <= nranks <= 2^30] and
    [0 <= rank < nranks], [bootstrapBarrier] makes, for each
    [mask = 1, 2, 4, ... < nranks] in this order, exactly one [Send] to
    [ranks[(rank + mask) mod nranks]] followed by one [Recv] from
    [ranks[(rank - mask + nranks) mod nranks]], both with the given tag:
    [ceil(log2 nranks)] rounds in all; and whatever the point-to-point layer
    answers, the two ring sockets of the state are as before.  (The bound
    on [nranks] is where [rank - mask + nranks] and [mask << 1] still fit an
    [int].) *)
Theorem bootstrapBarrier_rounds
  (f : Z -> Z) (rank nranks tag : Z) (fuel : nat) (log : list p2pCall) (data0 : Z) :
  1 <= nranks <= 1073741824 ->
  0 <= rank < nranks ->
  (Z.to_nat (Z.log2_up nranks) <= fuel)%nat ->
  bootstrapBarrier record_send record_recv fuel log (int_array nranks f)
                   rank nranks tag data0
  = (Ret ncclSuccess, log ++ barrier_rounds f rank nranks tag)
  /\ length (barrier_rounds f rank nranks tag) = (2 * Z.to_nat (Z.log2_up nranks))%nat
  /\ forall asz newPeer0 newTag0 net st ranks,
       let st' := snd (snd (bootstrapBarrier (bootstrapSend asz)
                              (bootstrapRecv newPeer0 newTag0)
                              fuel (net, st) ranks rank nranks tag data0)) in
       ringSendSocket st' = ringSendSocket st
       /\ ringRecvSocket st' = ringRecvSocket st.
Proof.
  intros Hn Hr Hfuel. split; [|split].
  - unfold bootstrapBarrier. destruct (Z.eqb_spec nranks 1) as [->|Hne].
    + cbn. now rewrite app_nil_r.
    + apply (barrier_loop_record f rank nranks tag (int_to_bytes data0)
               (Z.to_nat (Z.log2_up nranks)) 0 fuel log); auto.
  - apply length_barrier_rounds.
  - intros asz newPeer0 newTag0 net st ranks.
    apply (bootstrapBarrier_keeps (bootstrapSend asz) (bootstrapRecv newPeer0 newTag0)
             (fun ns => ringSendSocket (snd ns) = ringSendSocket st
                        /\ ringRecvSocket (snd ns) = ringRecvSocket st)).
    + intros [net1 st1] peer tg mem off size HP.
      now rewrite bootstrapSend_state.
    + intros [net1 st1] peer tg mem off size [HP1 HP2].
      destruct (bootstrapRecv_ring newPeer0 newTag0 net1 st1 peer tg mem off size)
        as [H1 H2].
      cbn in HP1, HP2. split; congruence.
    + now split.
Qed.

Lemma bootstrapBarrier_rounds_witness :
  bootstrapBarrier record_send record_recv 3 [] (int_array 8 (fun k => k)) 3 8 176 0
  = (Ret ncclSuccess,
     [ CallSend 4 176 4; CallRecv 2 176 4;
       CallSend 5 176 4; CallRecv 1 176 4;
       CallSend 7 176 4; CallRecv 7 176 4 ])
  /\ length (barrier_rounds (fun k => k) 3 8 176) = 6%nat.
Proof.
  destruct (bootstrapBarrier_rounds (fun k => k) 3 8 176 3 [] 0) as (H1 & H2 & _).
  - lia.
  - lia.
  - vm_compute. lia.
  - split; [rewrite H1; reflexivity|rewrite H2; reflexivity].
Defined.

(** With more than 2^30 ranks the claim fails as stated: for
    [nranks = 2^30 + 1] and [rank = 2^30], the sum [rank - 1 + nranks] of the
    first round is 2^31, which wraps; the index of the peer to receive from
    is negative, and the barrier stops after its first send. *)
Lemma bootstrapBarrier_rounds_counterexample :
  1 <= 1073741825 <= INT_MAX
  /\ 0 <= 1073741824 < 1073741825
  /\ int_rem (int_add (int_sub 1073741824 1) 1073741825) 1073741825 = -1073741823
  /\ bootstrapBarrier record_send record_recv 64 [] (int_array 1073741825 (fun k => k))
                      1073741824 1073741825 7 0
     = (Fault, [CallSend 0 7 SIZEOF_INT])
  /\ bootstrapBarrier record_send record_recv 64 [] (int_array 1073741825 (fun k => k))
                      1073741824 1073741825 7 0
     <> (Ret ncclSuccess, [] ++ barrier_rounds (fun k => k) 1073741824 1073741825 7).
Proof.
  split; [unfold INT_MAX; lia|]. split; [lia|]. split; [reflexivity|].
  split; [vm_compute; reflexivity|].
  intros H. vm_compute in H. discriminate H.
Qed.

(** ** Single-rank collectives *)

(** C9.  With [nranks == 1], [bootstrapBarrier],
    [bootstrapIntraNodeAllGather] and [bootstrapIntraNodeBroadcast] return
    [ncclSuccess] at once: whatever the point-to-point layer is, neither of
    its calls is made, and the state and the buffer of the caller are
    returned as they were given. *)
Theorem single_rank_short_circuit (St : Type)
  (Send : St -> Z -> Z -> list byte -> Z -> Z -> status * St)
  (Recv : St -> Z -> Z -> list byte -> Z -> Z -> status * St * list byte)
  (st : St) (ranks : Z -> option Z) (rank root tag size data0 : Z)
  (fuel : nat) (data : list byte) :
  bootstrapBarrier Send Recv fuel st ranks rank 1 tag data0 = (Ret ncclSuccess, st)
  /\ bootstrapIntraNodeAllGather Send Recv st ranks rank 1 data size
     = (Ret ncclSuccess, st, data)
  /\ bootstrapIntraNodeBroadcast Send Recv st ranks rank 1 root data size
     = (Ret ncclSuccess, st, data)
  /\ bootstrapBarrier record_send record_recv fuel [] ranks rank 1 tag data0
     = (Ret ncclSuccess, [])
  /\ bootstrapIntraNodeAllGather record_send record_recv [] ranks rank 1 data size
     = (Ret ncclSuccess, [], data)
  /\ bootstrapIntraNodeBroadcast record_send record_recv [] ranks rank 1 root data size
     = (Ret ncclSuccess, [], data).
Proof. repeat split. Qed.

(** ** Close and abort *)

Lemma unexpectedFree_spec (q : list unexConn) :
  unexpectedFree q = map (fun e => UnexNode (unex_peer e) (unex_tag e)) q.
Proof. induction q as [|e q IH]; simpl; [reflexivity|now rewrite IH]. Qed.

(** C8, as the code has it.  [bootstrapClose] returns [ncclInternalError]
    exactly when [unexpectedConnections] is not empty while the abort flag
    is 0.  Otherwise it returns [ncclSuccess], closes [listenSock],
    [ringSendSocket] and [ringRecvSocket] in this order, and frees the nodes
    of the queue, the table [peerCommAddresses] and the state; the table
    [peerProxyAddresses] is not freed. *)
Theorem bootstrapClose_spec (net : Net) (st : bootstrapState) :
  let res := bootstrapClose net st in
  (td_status res = Ret ncclInternalError
   <-> (unexpectedConnections st <> [] /\ st_abortFlag st = 0))
  /\ (~ (unexpectedConnections st <> [] /\ st_abortFlag st = 0) ->
      td_status res = Ret ncclSuccess
      /\ net_closed (td_net res)
         = net_closed net ++ [ set_open (listenSock st) false;
                               set_open (ringSendSocket st) false;
                               set_open (ringRecvSocket st) false ]
      /\ td_state res
         = Some (set_ringRecvSocket
                   (set_ringSendSocket
                      (set_listenSock st (set_open (listenSock st) false))
                      (set_open (ringSendSocket st) false))
                   (set_open (ringRecvSocket st) false))
      /\ td_freed res
         = map (fun e => UnexNode (unex_peer e) (unex_tag e)) (unexpectedConnections st)
           ++ free_table (peerCommAddresses st) PeerCommAddressesTable
           ++ [StateStruct]
      /\ ~ In PeerProxyAddressesTable (td_freed res)).
Proof.
  unfold bootstrapClose.
  destruct (unexpectedConnections st) as [|e q] eqn:Hq.
  - cbn. split.
    + split; [discriminate|]. intros [H _]. congruence.
    + intros _. rewrite <- !app_assoc. repeat split.
      destruct (peerCommAddresses st); cbn; intuition discriminate.
  - cbn [length Nat.eqb negb andb].
    destruct (Z.eqb_spec (st_abortFlag st) 0) as [Hz|Hnz].
    + cbn. split.
      * split; [intros _; split; [discriminate|exact Hz]|reflexivity].
      * intros H. exfalso. apply H. split; [discriminate|exact Hz].
    + cbn. split.
      * split; [discriminate|]. intros [_ H]. contradiction.
      * intros _. rewrite <- !app_assoc, unexpectedFree_spec. repeat split.
        intros Hin. cbn in Hin. destruct Hin as [Hin|Hin]; [discriminate|].
        apply in_app_or in Hin. destruct Hin as [Hin|Hin].
        -- apply in_map_iff in Hin. destruct Hin as (x & Hx & _). discriminate.
        -- destruct (peerCommAddresses st); cbn in Hin; intuition discriminate.
Qed.

Lemma bootstrapClose_spec_witness :
  td_status (bootstrapClose s3_net close_state) = Ret ncclSuccess
  /\ td_freed (bootstrapClose s3_net close_state) = [PeerCommAddressesTable; StateStruct]
  /\ td_status (bootstrapClose s3_net
                  (set_unexpectedConnections close_state
                     [mkUnex 1 9 ncclSocketInit0]))
     = Ret ncclInternalError.
Proof.
  split; [|split].
  - destruct (bootstrapClose_spec s3_net close_state) as [_ H].
    destruct H as (H1 & _).
    + intros [Hq _]. apply Hq. reflexivity.
    + exact H1.
  - destruct (bootstrapClose_spec s3_net close_state) as [_ H].
    destruct H as (_ & _ & _ & H4 & _).
    + intros [Hq _]. apply Hq. reflexivity.
    + exact H4.
  - destruct (bootstrapClose_spec s3_net
                (set_unexpectedConnections close_state [mkUnex 1 9 ncclSocketInit0]))
      as [[_ H] _].
    apply H. split; [discriminate|reflexivity].
Defined.

(** The claim as stated has [bootstrapClose] free the address tables, that
    is [peerCommAddresses] and [peerProxyAddresses]: on a state that owns
    both, with an empty queue, the call succeeds and the proxy table is not
    among the objects it frees. *)
Lemma bootstrapClose_frees_tables_counterexample :
  peerCommAddresses close_state = Some [x0a; x0b]
  /\ peerProxyAddresses close_state = Some [x0c; x0d]
  /\ td_status (bootstrapClose s3_net close_state) = Ret ncclSuccess
  /\ td_freed (bootstrapClose s3_net close_state) = [PeerCommAddressesTable; StateStruct]
  /\ ~ (In PeerCommAddressesTable (td_freed (bootstrapClose s3_net close_state))
        /\ In PeerProxyAddressesTable (td_freed (bootstrapClose s3_net close_state))
        /\ In StateStruct (td_freed (bootstrapClose s3_net close_state))).
Proof.
  repeat split.
  intros (_ & H & _). cbn in H. intuition discriminate.
Qed.

(** C10.  [bootstrapAbort] with a null state returns [ncclSuccess]; it
    closes no socket and frees nothing, and there is no state it could have
    touched. *)
Theorem bootstrapAbort_null (net : Net) :
  bootstrapAbort net None = mkTeardown (Ret ncclSuccess) net [] None
  /\ net_closed (td_net (bootstrapAbort net None)) = net_closed net
  /\ td_freed (bootstrapAbort net None) = [].
Proof. repeat split. Qed.

(** *** One rank of a correct run

    The same run seen from one rank: when the bytes that arrive on its
    receive socket are the frames its predecessor sends in a correct run,
    [bootstrapAllGather] returns [ncclSuccess] with the gathered buffer,
    has read exactly these frames and has written to its send socket exactly
    the frames a correct run expects from it. *)

Section RingRank.

Variables (nranks size : Z) (data0 : Z -> list byte).
Hypothesis Hn : 1 <= nranks <= 1073741824.
Hypothesis Hsize : 0 < size <= INT_MAX.
Hypothesis Hlen0 : forall r, 0 <= r < nranks ->
  Z.of_nat (length (data0 r)) = nranks * size.

Local Abbreviation contrib := (contribution data0 size).
Local Abbreviation frames := (frames_from nranks size data0).

Lemma slices_after_store (r i : Z) (data data' : list byte) :
  0 <= r < nranks -> 0 <= i < nranks - 1 ->
  Z.of_nat (length data) = nranks * size ->
  (forall j, 0 <= j <= i ->
     mem_read data (((r - j) mod nranks) * size) size
     = Some (contrib ((r - j) mod nranks))) ->
  mem_write data (((r - i - 1) mod nranks) * size) (contrib ((r - i - 1) mod nranks))
  = Some data' ->
  forall j, 0 <= j <= i + 1 ->
    mem_read data' (((r - j) mod nranks) * size) size
    = Some (contrib ((r - j) mod nranks)).
Proof.
  intros Hr Hi Hlen Hsl Hw j Hj.
  pose proof (mod_range nranks (r - i - 1) ltac:(lia)) as Hm.
  assert (Hcl : Z.of_nat (length (contrib ((r - i - 1) mod nranks))) = size)
    by (eapply contribution_length; eauto).
  destruct (Z.eq_dec j (i + 1)) as [->|Hj'].
  - replace (r - (i + 1)) with (r - i - 1) by lia.
    pose proof (mem_read_write_same _ _ _ _ Hw) as R. now rewrite Hcl in R.
  - pose proof (mod_range nranks (r - j) ltac:(lia)) as Hmj.
    rewrite (mem_read_write_other _ _ _ _ _ _ Hw).
    + apply Hsl. lia.
    + nia.
    + rewrite Hcl.
      assert ((r - j) mod nranks <> (r - i - 1) mod nranks).
      { intros E. replace (r - i - 1) with (r - (i + 1)) in E by lia.
        apply mod_sub_inj in E; lia. }
      nia.
Qed.

Lemma allgather_loop_correct_run (todo : nat) :
  forall (i : Z) (st : bootstrapState) (data rest : list byte),
  0 <= st_rank st < nranks -> st_nranks st = nranks ->
  0 <= i -> i + Z.of_nat todo = nranks - 1 ->
  Z.of_nat (length data) = nranks * size ->
  (forall j, 0 <= j <= i ->
     mem_read data (((st_rank st - j) mod nranks) * size) size
     = Some (contrib ((st_rank st - j) mod nranks))) ->
  sock_rx (ringRecvSocket st) = frames (ring_pred nranks (st_rank st)) i todo ++ rest ->
  exists st' data',
    allgather_loop todo st data size i = (Ret ncclSuccess, st', data')
    /\ sock_rx (ringRecvSocket st') = rest
    /\ sock_tx (ringSendSocket st')
       = sock_tx (ringSendSocket st) ++ frames (st_rank st) i todo
    /\ forall k, 0 <= k < nranks ->
         mem_read data' (k * size) size = Some (contrib k).
Proof.
  induction todo as [|todo IH]; intros i st data rest Hr Hnr Hi Hsum Hlen Hsl Hrx.
  - exists st, data. cbn. rewrite app_nil_r. repeat split; try assumption.
    intros k Hk. pose proof (mod_range nranks (st_rank st - k) ltac:(lia)) as Hm.
    specialize (Hsl ((st_rank st - k) mod nranks) ltac:(lia)).
    now rewrite mod_sub_back in Hsl by lia.
  - cbn [allgather_loop]. unfold allgather_send. rewrite Hnr.
    rewrite allgather_sslice_spec by lia.
    pose proof (mod_range nranks (st_rank st - i) ltac:(lia)) as Hms.
    pose proof (mod_range nranks (st_rank st - i - 1) ltac:(lia)) as Hmr.
    rewrite (slice_offset_spec nranks) by (unfold INT_MAX in *; lia).
    rewrite (netsend_tx _ _ _ _ _ (Hsl i ltac:(lia))). cbn [ok].
    unfold allgather_recv.
    cbn [st_rank st_nranks set_ringSendSocket ringRecvSocket]. rewrite Hnr.
    rewrite allgather_rslice_spec by lia.
    rewrite (slice_offset_spec nranks) by (unfold INT_MAX in *; lia).
    cbn [frames_from] in Hrx.
    assert (Hp : (ring_pred nranks (st_rank st) - i) mod nranks
                 = (st_rank st - i - 1) mod nranks).
    { unfold ring_pred. rewrite Zminus_mod_idemp_l. f_equal. lia. }
    rewrite Hp, <- app_assoc in Hrx.
    assert (Hcl : Z.of_nat (length (contrib ((st_rank st - i - 1) mod nranks))) = size)
      by (eapply contribution_length; eauto).
    destruct (mem_write_in_bounds data (((st_rank st - i - 1) mod nranks) * size)
                (contrib ((st_rank st - i - 1) mod nranks))) as [data1 Hw].
    { unfold in_bounds. rewrite Hcl, Hlen. apply andb_true_iff.
      split; apply Z.leb_le; nia. }
    rewrite (netrecv_frame _ _ _ size _ _ data1 ltac:(lia) Hcl Hrx Hw). cbn [ok].
    assert (Hadd : int_add i 1 = i + 1).
    { apply wrap_int_id. unfold is_int, INT_MIN, INT_MAX. lia. }
    rewrite Hadd.
    set (st1 := set_ringRecvSocket
                  (set_ringSendSocket st
                     (set_tx (ringSendSocket st)
                        (sock_tx (ringSendSocket st)
                         ++ frame size (contrib ((st_rank st - i) mod nranks)))))
                  (set_rx (ringRecvSocket st)
                     (frames (ring_pred nranks (st_rank st)) (i + 1) todo ++ rest))).
    assert (Hlen1 : Z.of_nat (length data1) = nranks * size)
      by now rewrite (mem_write_length _ _ _ _ Hw).
    assert (Hsl1 : forall j, 0 <= j <= i + 1 ->
              mem_read data1 (((st_rank st1 - j) mod nranks) * size) size
              = Some (contrib ((st_rank st1 - j) mod nranks))).
    { apply slices_after_store with (data := data); assumption || lia. }
    destruct (IH (i + 1) st1 data1 rest Hr Hnr ltac:(lia) ltac:(lia) Hlen1 Hsl1 eq_refl)
      as (st' & data' & Hrun & Hrx' & Htx' & Hall).
    exists st', data'. split; [exact Hrun|]. split; [exact Hrx'|].
    split; [|exact Hall]. rewrite Htx'. cbn. now rewrite <- app_assoc.
Qed.

Lemma bootstrapAllGather_correct_run (st : bootstrapState) (data rest : list byte) :
  0 <= st_rank st < nranks -> st_nranks st = nranks ->
  Z.of_nat (length data) = nranks * size ->
  mem_read data (st_rank st * size) size = Some (contrib (st_rank st)) ->
  sock_rx (ringRecvSocket st)
  = frames (ring_pred nranks (st_rank st)) 0 (Z.to_nat (nranks - 1)) ++ rest ->
  exists st' data',
    bootstrapAllGather st data size = (Ret ncclSuccess, st', data')
    /\ sock_rx (ringRecvSocket st') = rest
    /\ sock_tx (ringSendSocket st')
       = sock_tx (ringSendSocket st) ++ frames (st_rank st) 0 (Z.to_nat (nranks - 1))
    /\ forall k, 0 <= k < nranks ->
         mem_read data' (k * size) size = Some (contrib k).
Proof.
  intros Hr Hnr Hlen Hown Hrx. unfold bootstrapAllGather.
  rewrite Hnr, (int_sub_nranks_1 nranks) by assumption.
  apply allgather_loop_correct_run; try assumption; try lia.
  intros j Hj. replace j with 0 by lia. rewrite Z.sub_0_r, Z.mod_small by lia.
  exact Hown.
Qed.

End RingRank.


(* ================================================================== *)
(** ** The ring all-gather: all ranks together *)

Lemma is_prefix_nil (b : list byte) : is_prefix [] b.
Proof. now exists b. Qed.

Lemma is_prefix_refl (a : list byte) : is_prefix a a.
Proof. exists []. now rewrite app_nil_r. Qed.

Lemma is_prefix_trans (a b c : list byte) :
  is_prefix a b -> is_prefix b c -> is_prefix a c.
Proof. intros [x ->] [y ->]. exists (x ++ y). now rewrite app_assoc. Qed.

Lemma is_prefix_length (a b : list byte) :
  is_prefix a b -> (length a <= length b)%nat.
Proof. intros [c ->]. rewrite length_app. lia. Qed.

Lemma is_prefix_eq (a b : list byte) :
  is_prefix a b -> length a = length b -> a = b.
Proof.
  intros [c ->] H. rewrite length_app in H.
  destruct c; [now rewrite app_nil_r|cbn in H; lia].
Qed.

Lemma is_prefix_complete (a b : list byte) :
  is_prefix a b -> a ++ skipn (length a) b = b.
Proof. intros [c ->]. now rewrite skipn_app, skipn_all, Nat.sub_diag. Qed.

(** A prefix of [f ++ R] ends inside [f], or holds [f] and a prefix of
    [R]. *)
Lemma is_prefix_app_cases (f R : list byte) :
  forall a, is_prefix a (f ++ R) ->
  (exists c, c <> [] /\ f = a ++ c)
  \/ (exists a', a = f ++ a' /\ is_prefix a' R).
Proof.
  induction f as [|x f IH]; intros a [c E].
  - right. exists a. split; [reflexivity|]. now exists c.
  - destruct a as [|y a].
    + left. exists (x :: f). split; [discriminate|reflexivity].
    + cbn in E. injection E as <- E.
      destruct (IH a (ex_intro _ c E)) as [(c' & Hc & ->)|(a' & -> & Hp)].
      * left. exists c'. now split.
      * right. exists a'. now split.
Qed.

(** A receive that finds only the beginning of a frame waits for the
    rest. *)
Lemma netrecv_waits (sock : ncclSocket) (mem : list byte) (off size : Z)
  (payload part c : list byte) :
  0 < size <= INT_MAX ->
  Z.of_nat (length payload) = size ->
  sock_rx sock = part ->
  frame size payload = part ++ c -> c <> [] ->
  exists sock', bootstrapNetRecv sock mem off size = (Blocked, sock', mem).
Proof.
  intros Hs Hp Hrx Hf Hc. unfold bootstrapNetRecv.
  assert (Hlen : (length part + length c = 4 + length payload)%nat).
  { rewrite <- length_app, <- Hf. unfold frame.
    now rewrite length_app, length_int_to_bytes. }
  assert (Hc0 : (0 < length c)%nat) by (destruct c; [contradiction|cbn; lia]).
  destruct (Nat.lt_ge_cases (length part) 4) as [Hshort|Hlong].
  - unfold ncclSocketRecv at 1. unfold SIZEOF_INT. simpl (4 <=? 0).
    rewrite Hrx. replace (4 <=? Z.of_nat (length part)) with false by zbool.
    cbn. eauto.
  - assert (Hhd : firstn 4 part = int_to_bytes size).
    { assert (E : firstn 4 (part ++ c) = firstn 4 (frame size payload)) by now rewrite Hf.
      rewrite firstn_app in E.
      replace (4 - length part)%nat with 0%nat in E by lia.
      rewrite firstn_O, app_nil_r in E. rewrite E. unfold frame.
      rewrite firstn_app, length_int_to_bytes, Nat.sub_diag, firstn_O, app_nil_r.
      rewrite <- (length_int_to_bytes size). apply firstn_all. }
    assert (Hsplit : sock_rx sock = int_to_bytes size ++ skipn 4 part).
    { rewrite Hrx, <- Hhd. symmetry. apply firstn_skipn. }
    rewrite (ncclSocketRecv_header sock (int_to_bytes size) (skipn 4 part) Hsplit
               (length_int_to_bytes size)).
    cbn [ok].
    rewrite bytes_to_int_to_bytes by (unfold is_int, INT_MIN, INT_MAX in *; lia).
    replace (size >? size) with false by zbool.
    rewrite Z.min_id. unfold ncclSocketRecv.
    replace (size <=? 0) with false by zbool.
    cbn [sock_rx set_rx]. rewrite length_skipn.
    replace (size <=? Z.of_nat (length part - 4)) with false by zbool.
    cbn [ok]. eauto.
Qed.

Section RingWhole.

Variables (nranks size : Z) (st0 : Z -> bootstrapState) (data0 : Z -> list byte).
Hypothesis Hn : 1 <= nranks <= 1073741824.
Hypothesis Hsize : 0 < size <= INT_MAX.
Hypothesis Hlen0 : forall r, 0 <= r < nranks ->
  Z.of_nat (length (data0 r)) = nranks * size.
Hypothesis Hst0 : forall r, 0 <= r < nranks ->
  st_rank (st0 r) = r /\ st_nranks (st0 r) = nranks.

Local Abbreviation contrib := (contribution data0 size).
Local Abbreviation frames := (frames_from nranks size data0).
Local Abbreviation all_frames p := (frames_from nranks size data0 p 0 (Z.to_nat (nranks - 1))).
Local Abbreviation call := (ring_call size st0 data0).
Local Abbreviation written := (ring_written size st0 data0).
Local Abbreviation pred := (ring_pred nranks).

Lemma pred_range (r : Z) : 0 <= pred r < nranks.
Proof. apply mod_range. lia. Qed.

Lemma contrib_length (x : Z) :
  0 <= x < nranks -> Z.of_nat (length (contrib x)) = size.
Proof. intros Hx. eapply contribution_length; eauto. Qed.

Lemma length_frame_contrib (x : Z) :
  0 <= x < nranks -> Z.of_nat (length (frame size (contrib x))) = 4 + size.
Proof.
  intros Hx. unfold frame. rewrite length_app, length_int_to_bytes.
  pose proof (contrib_length x Hx). lia.
Qed.

Lemma length_frames (p : Z) (k : nat) :
  forall i, Z.of_nat (length (frames p i k)) = Z.of_nat k * (4 + size).
Proof.
  induction k as [|k IH]; intros i; [reflexivity|].
  cbn [frames_from]. rewrite length_app, Nat2Z.inj_add, IH.
  rewrite length_frame_contrib by (apply mod_range; lia). lia.
Qed.

Lemma frames_from_app (p : Z) (a b : nat) :
  forall i, frames p i (a + b) = frames p i a ++ frames p (i + Z.of_nat a) b.
Proof.
  induction a as [|a IH]; intros i.
  - cbn. now rewrite Z.add_0_r.
  - cbn [Nat.add frames_from]. rewrite IH, <- app_assoc.
    do 2 f_equal. f_equal. lia.
Qed.

Lemma frames_prefix (p : Z) (j j' : nat) :
  (j <= j')%nat -> is_prefix (frames p 0 j) (frames p 0 j').
Proof.
  intros H. replace j' with (j + (j' - j))%nat by lia.
  rewrite frames_from_app. now eexists.
Qed.

(** A prefix of the frames of a rank: all of them, or some whole frames
    and the beginning of the next one. *)
Lemma is_prefix_frames (p : Z) (t : nat) :
  forall i a, is_prefix a (frames p i t) ->
  a = frames p i t
  \/ exists (k : nat) part c,
       (k < t)%nat /\ a = frames p i k ++ part
       /\ frame size (contrib ((p - (i + Z.of_nat k)) mod nranks)) = part ++ c
       /\ c <> [].
Proof.
  induction t as [|t IH]; intros i a Ha.
  - left. destruct Ha as [c E]. cbn in E. symmetry in E.
    now apply app_eq_nil in E.
  - cbn [frames_from] in Ha.
    destruct (is_prefix_app_cases _ _ a Ha) as [(c & Hc & E)|(a' & -> & Hp)].
    + right. exists 0%nat, a, c. cbn [frames_from app]. rewrite Z.add_0_r.
      split; [lia|]. now repeat split.
    + destruct (IH (i + 1) a' Hp) as [->|(k & part & c & Hk & -> & E & Hc)].
      * now left.
      * right. exists (S k), part, c. split; [lia|].
        cbn [frames_from]. rewrite <- app_assoc. split; [reflexivity|].
        split; [|exact Hc]. rewrite <- E. do 3 f_equal. lia.
Qed.

(** The loop on a receive socket that holds [k] whole frames and the
    beginning of the next one: the rank sends [k+1] frames and waits. *)
Lemma allgather_loop_waits (k : nat) :
  forall (todo : nat) (i : Z) (st : bootstrapState) (data part c : list byte),
  0 <= st_rank st < nranks -> st_nranks st = nranks ->
  0 <= i -> (k < todo)%nat -> i + Z.of_nat todo = nranks - 1 ->
  Z.of_nat (length data) = nranks * size ->
  (forall j, 0 <= j <= i ->
     mem_read data (((st_rank st - j) mod nranks) * size) size
     = Some (contrib ((st_rank st - j) mod nranks))) ->
  sock_rx (ringRecvSocket st) = frames (pred (st_rank st)) i k ++ part ->
  frame size (contrib ((pred (st_rank st) - (i + Z.of_nat k)) mod nranks)) = part ++ c ->
  c <> [] ->
  exists st' data',
    allgather_loop todo st data size i = (Blocked, st', data')
    /\ sock_tx (ringSendSocket st')
       = sock_tx (ringSendSocket st) ++ frames (st_rank st) i (S k).
Proof.
  induction k as [|k IH];
    intros todo i st data part c Hr Hnr Hi Hk Hsum Hlen Hsl Hrx Hfr Hc;
    (destruct todo as [|todo]; [lia|]).
  - cbn [allgather_loop]. unfold allgather_send. rewrite Hnr.
    rewrite allgather_sslice_spec by lia.
    pose proof (mod_range nranks (st_rank st - i) ltac:(lia)) as Hms.
    pose proof (mod_range nranks (st_rank st - i - 1) ltac:(lia)) as Hmr.
    rewrite (slice_offset_spec nranks) by (unfold INT_MAX in *; lia).
    rewrite (netsend_tx _ _ _ _ _ (Hsl i ltac:(lia))). cbn [ok].
    unfold allgather_recv.
    cbn [st_rank st_nranks set_ringSendSocket ringRecvSocket]. rewrite Hnr.
    cbn [frames_from app] in Hrx. rewrite Z.add_0_r in Hfr.
    pose proof (mod_range nranks (pred (st_rank st) - i) ltac:(lia)) as Hmp.
    destruct (netrecv_waits (ringRecvSocket st) data
                (slice_offset (allgather_rslice (st_rank st) i nranks) size) size
                _ part c Hsize
                (contrib_length _ Hmp) Hrx Hfr Hc)
      as [sock' E].
    rewrite E. cbn [ok]. eexists _, _. split; [reflexivity|].
    cbn. now rewrite app_nil_r.
  - cbn [allgather_loop]. unfold allgather_send. rewrite Hnr.
    rewrite allgather_sslice_spec by lia.
    pose proof (mod_range nranks (st_rank st - i) ltac:(lia)) as Hms.
    pose proof (mod_range nranks (st_rank st - i - 1) ltac:(lia)) as Hmr.
    rewrite (slice_offset_spec nranks) by (unfold INT_MAX in *; lia).
    rewrite (netsend_tx _ _ _ _ _ (Hsl i ltac:(lia))). cbn [ok].
    unfold allgather_recv.
    cbn [st_rank st_nranks set_ringSendSocket ringRecvSocket]. rewrite Hnr.
    rewrite allgather_rslice_spec by lia.
    rewrite (slice_offset_spec nranks) by (unfold INT_MAX in *; lia).
    cbn [frames_from] in Hrx.
    assert (Hp : (pred (st_rank st) - i) mod nranks = (st_rank st - i - 1) mod nranks).
    { unfold ring_pred. rewrite Zminus_mod_idemp_l. f_equal. lia. }
    rewrite Hp, <- app_assoc in Hrx.
    assert (Hcl : Z.of_nat (length (contrib ((st_rank st - i - 1) mod nranks))) = size)
      by (eapply contribution_length; eauto).
    destruct (mem_write_in_bounds data (((st_rank st - i - 1) mod nranks) * size)
                (contrib ((st_rank st - i - 1) mod nranks))) as [data1 Hw].
    { unfold in_bounds. rewrite Hcl, Hlen. apply andb_true_iff.
      split; apply Z.leb_le; nia. }
    rewrite (netrecv_frame _ _ _ size _ _ data1 ltac:(lia) Hcl Hrx Hw). cbn [ok].
    assert (Hadd : int_add i 1 = i + 1).
    { apply wrap_int_id. unfold is_int, INT_MIN, INT_MAX. lia. }
    rewrite Hadd.
    set (st1 := set_ringRecvSocket
                  (set_ringSendSocket st
                     (set_tx (ringSendSocket st)
                        (sock_tx (ringSendSocket st)
                         ++ frame size (contrib ((st_rank st - i) mod nranks)))))
                  (set_rx (ringRecvSocket st)
                     (frames (pred (st_rank st)) (i + 1) k ++ part))).
    assert (Hlen1 : Z.of_nat (length data1) = nranks * size)
      by now rewrite (mem_write_length _ _ _ _ Hw).
    assert (Hsl1 : forall j, 0 <= j <= i + 1 ->
              mem_read data1 (((st_rank st1 - j) mod nranks) * size) size
              = Some (contrib ((st_rank st1 - j) mod nranks))).
    { apply (slices_after_store nranks size data0 Hn Hsize Hlen0) with (data := data);
        assumption || lia. }
    assert (Hfr1 : frame size (contrib ((pred (st_rank st1) - (i + 1 + Z.of_nat k))
                                         mod nranks)) = part ++ c).
    { rewrite <- Hfr. cbn [st1 st_rank set_ringRecvSocket set_ringSendSocket].
      do 3 f_equal. lia. }
    destruct (IH todo (i + 1) st1 data1 part c Hr Hnr ltac:(lia) ltac:(lia) ltac:(lia)
                 Hlen1 Hsl1 eq_refl Hfr1 Hc)
      as (st' & data' & Hrun & Htx').
    exists st', data'. split; [exact Hrun|].
    rewrite Htx'. cbn. now rewrite <- app_assoc.
Qed.


(** The call of a rank when everything its predecessor sends has
    arrived. *)
Lemma ring_call_all (r : Z) :
  0 <= r < nranks ->
  exists st' data',
    call r (all_frames (pred r)) = (Ret ncclSuccess, st', data')
    /\ written r (all_frames (pred r)) = all_frames r
    /\ forall i, 0 <= i < nranks -> mem_read data' (i * size) size = Some (contrib i).
Proof.
  intros Hr. destruct (Hst0 r Hr) as [Hrk Hnr].
  destruct (bootstrapAllGather_correct_run nranks size data0 Hn Hsize Hlen0
              (set_ringRecvSocket (st0 r)
                 (set_rx (ringRecvSocket (st0 r)) (all_frames (pred r))))
              (data0 r) [])
    as (st' & data' & E & _ & Htx & Hall).
  - cbn [st_rank set_ringRecvSocket]. lia.
  - exact Hnr.
  - now apply Hlen0.
  - cbn [st_rank set_ringRecvSocket]. rewrite Hrk. eapply contribution_init; eauto.
  - cbn [st_rank set_ringRecvSocket ringRecvSocket sock_rx set_rx].
    now rewrite Hrk, app_nil_r.
  - exists st', data'. unfold ring_written, ring_call. cbn zeta. rewrite E. cbn [fst snd].
    split; [reflexivity|]. split; [|exact Hall].
    rewrite Htx. cbn [ringSendSocket set_ringRecvSocket st_rank].
    now rewrite skipn_app, skipn_all, Nat.sub_diag, Hrk.
Qed.

(** The call of a rank when [k] whole frames and the beginning of the next
    one have arrived. *)
Lemma ring_call_part (r : Z) (k : nat) (part c : list byte) :
  0 <= r < nranks -> (k < Z.to_nat (nranks - 1))%nat ->
  frame size (contrib ((pred r - (0 + Z.of_nat k)) mod nranks)) = part ++ c -> c <> [] ->
  exists st' data',
    call r (frames (pred r) 0 k ++ part) = (Blocked, st', data')
    /\ written r (frames (pred r) 0 k ++ part) = frames r 0 (S k).
Proof.
  intros Hr Hk Hfr Hc. destruct (Hst0 r Hr) as [Hrk Hnr].
  destruct (allgather_loop_waits k (Z.to_nat (nranks - 1)) 0
              (set_ringRecvSocket (st0 r)
                 (set_rx (ringRecvSocket (st0 r)) (frames (pred r) 0 k ++ part)))
              (data0 r) part c)
    as (st' & data' & E & Htx); try assumption.
  - cbn [st_rank set_ringRecvSocket]. lia.
  - lia.
  - lia.
  - now apply Hlen0.
  - intros j Hj. replace j with 0 by lia. cbn [st_rank set_ringRecvSocket].
    rewrite Hrk, Z.sub_0_r, Z.mod_small by lia. eapply contribution_init; eauto.
  - cbn [st_rank set_ringRecvSocket ringRecvSocket sock_rx set_rx]. now rewrite Hrk.
  - cbn [st_rank set_ringRecvSocket]. now rewrite Hrk.
  - exists st', data'. unfold ring_written, ring_call, bootstrapAllGather. cbn zeta.
    cbn [st_nranks set_ringRecvSocket]. rewrite Hnr, (int_sub_nranks_1 nranks Hn).
    rewrite E. cbn [fst snd]. split; [reflexivity|].
    rewrite Htx. cbn [ringSendSocket set_ringRecvSocket st_rank].
    now rewrite skipn_app, skipn_all, Nat.sub_diag, Hrk.
Qed.

(** What the call of a rank has done when a part of what its predecessor
    sends has arrived: it has returned [ncclSuccess] with the gathered
    buffer when all of it has arrived, and it waits otherwise, having sent
    one frame more than it has received. *)
Lemma ring_call_prefix (r : Z) (a : list byte) :
  0 <= r < nranks -> is_prefix a (all_frames (pred r)) ->
  (fst (fst (call r a)) = Ret ncclSuccess
   /\ a = all_frames (pred r)
   /\ written r a = all_frames r
   /\ forall i, 0 <= i < nranks ->
        mem_read (snd (call r a)) (i * size) size = Some (contrib i))
  \/ (fst (fst (call r a)) = Blocked
      /\ exists k : nat,
           (k < Z.to_nat (nranks - 1))%nat
           /\ written r a = frames r 0 (S k)
           /\ Z.of_nat k * (4 + size) <= Z.of_nat (length a)
              < (Z.of_nat k + 1) * (4 + size)).
Proof.
  intros Hr Ha.
  destruct (is_prefix_frames _ _ _ _ Ha) as [->|(k & part & c & Hk & -> & Hfr & Hc)].
  - left. destruct (ring_call_all r Hr) as (st' & data' & E & Hw & Hall).
    rewrite E. cbn [fst snd]. now repeat split.
  - right. destruct (ring_call_part r k part c Hr Hk Hfr Hc) as (st' & data' & E & Hw).
    rewrite E. cbn [fst snd]. split; [reflexivity|]. exists k.
    split; [exact Hk|]. split; [exact Hw|].
    rewrite length_app, Nat2Z.inj_add, length_frames.
    assert (Hl : Z.of_nat (length part) + Z.of_nat (length c) = 4 + size).
    { rewrite <- Nat2Z.inj_add, <- length_app, <- Hfr.
      apply length_frame_contrib. apply mod_range. lia. }
    assert (0 < Z.of_nat (length c)) by (destruct c; [contradiction|cbn; lia]).
    lia.
Qed.

Lemma ring_written_all (r : Z) (a : list byte) :
  0 <= r < nranks -> is_prefix a (all_frames (pred r)) ->
  is_prefix (written r a) (all_frames r).
Proof.
  intros Hr Ha.
  destruct (ring_call_prefix r a Hr Ha) as [(_ & _ & -> & _)|(_ & k & Hk & -> & _)].
  - apply is_prefix_refl.
  - apply frames_prefix. lia.
Qed.

(** The more has arrived, the more the call has written. *)
Lemma ring_written_mono (r : Z) (a a' : list byte) :
  0 <= r < nranks -> is_prefix a a' -> is_prefix a' (all_frames (pred r)) ->
  is_prefix (written r a) (written r a').
Proof.
  intros Hr Haa Ha'.
  pose proof (is_prefix_trans _ _ _ Haa Ha') as Ha.
  pose proof (is_prefix_length _ _ Haa) as Hl1.
  pose proof (is_prefix_length _ _ Ha') as Hl2.
  destruct (ring_call_prefix r a Hr Ha) as [(_ & E & Hw & _)|(_ & k & Hk & Hw & Hlen)].
  - assert (a' = a).
    { symmetry. apply is_prefix_eq; [exact Haa|]. rewrite E in *. lia. }
    subst a'. apply is_prefix_refl.
  - destruct (ring_call_prefix r a' Hr Ha') as [(_ & _ & Hw' & _)|(_ & k' & Hk' & Hw' & Hlen')];
      rewrite Hw, Hw'; apply frames_prefix; [lia|].
    assert (Z.of_nat k < Z.of_nat k' + 1) by nia. lia.
Qed.

Local Abbreviation Inv := (ring_inv nranks size st0 data0).
Local Abbreviation runs := (ring_runs nranks size st0 data0).
Local Abbreviation fed := (ring_fed nranks size).

Lemma ring_inv_start : Inv ring_start.
Proof. intros r Hr. split; apply is_prefix_nil. Qed.

Lemma ring_inv_deliver (A : Z -> list byte) (r : Z) (more : list byte) :
  Inv A -> 0 <= r < nranks ->
  is_prefix (A r ++ more) (written (pred r) (A (pred r))) ->
  Inv (upd A r (A r ++ more)).
Proof.
  intros HI Hr Hd.
  assert (Hgrow : forall q, is_prefix (A q) (upd A r (A r ++ more) q)).
  { intros q. unfold upd. destruct (q =? r) eqn:E.
    - apply Z.eqb_eq in E. subst q. now exists more.
    - apply is_prefix_refl. }
  assert (Hall : forall q, 0 <= q < nranks ->
            is_prefix (upd A r (A r ++ more) q) (all_frames (pred q))).
  { intros q Hq. unfold upd. destruct (q =? r) eqn:E.
    - apply Z.eqb_eq in E. subst q.
      eapply is_prefix_trans; [exact Hd|].
      apply ring_written_all; [apply pred_range|].
      apply (HI (pred r) (pred_range r)).
    - apply (HI q Hq). }
  intros q Hq. split; [now apply Hall|].
  assert (Hold : is_prefix (upd A r (A r ++ more) q) (written (pred q) (A (pred q)))).
  { unfold upd. destruct (q =? r) eqn:E.
    - apply Z.eqb_eq in E. now subst q.
    - apply (HI q Hq). }
  eapply is_prefix_trans; [exact Hold|].
  apply ring_written_mono; [apply pred_range|apply Hgrow|].
  apply Hall. apply pred_range.
Qed.

Lemma ring_inv_runs (A A' : Z -> list byte) : runs A A' -> Inv A -> Inv A'.
Proof.
  induction 1 as [|A r more A'' Hr Hd _ IH]; [auto|].
  intros HI. apply IH. now apply ring_inv_deliver.
Qed.

Lemma ring_runs_trans (A1 A2 A3 : Z -> list byte) :
  runs A1 A2 -> runs A2 A3 -> runs A1 A3.
Proof.
  induction 1 as [|A r more A'' Hr Hd _ IH]; [auto|].
  intros H3. eapply ring_runs_deliver; eauto.
Qed.

(** Everything the predecessor has written arrives. *)
Lemma ring_deliver_all (A : Z -> list byte) (r : Z) :
  Inv A -> 0 <= r < nranks ->
  runs A (upd A r (written (pred r) (A (pred r))))
  /\ Inv (upd A r (written (pred r) (A (pred r)))).
Proof.
  intros HI Hr. destruct (HI r Hr) as [_ Hp].
  pose proof (is_prefix_complete _ _ Hp) as E.
  set (more := skipn (length (A r)) (written (pred r) (A (pred r)))) in *.
  rewrite <- E. split.
  - apply ring_runs_deliver with (r := r) (more := more); [exact Hr| |apply ring_runs_refl].
    rewrite E. apply is_prefix_refl.
  - apply ring_inv_deliver; [exact HI|exact Hr|]. rewrite E. apply is_prefix_refl.
Qed.

Lemma ring_written_fed (A : Z -> list byte) (m : nat) (p : Z) :
  Inv A -> fed m A -> Z.of_nat m < nranks - 1 -> 0 <= p < nranks ->
  (Z.of_nat m + 1) * (4 + size) <= Z.of_nat (length (written p (A p))).
Proof.
  intros HI HF Hm Hp. destruct (HI p Hp) as [Ha _]. specialize (HF p Hp).
  assert (H4 : 0 < 4 + size) by lia.
  destruct (ring_call_prefix p (A p) Hp Ha) as [(_ & _ & -> & _)|(_ & k & Hk & -> & Hlen)];
    rewrite length_frames.
  - rewrite Z2Nat.id by lia. apply Z.mul_le_mono_nonneg_r; lia.
  - rewrite Nat2Z.inj_succ. assert (Z.of_nat m < Z.of_nat k + 1) by nia.
    apply Z.mul_le_mono_nonneg_r; lia.
Qed.

(** From a state in which [m] frames have arrived everywhere, the ring
    gets to one in which [m+1] frames have. *)
Lemma ring_sweep (A : Z -> list byte) (m : nat) :
  Inv A -> fed m A -> Z.of_nat m < nranks - 1 ->
  exists A', runs A A' /\ Inv A' /\ fed (S m) A'.
Proof.
  intros HI HF Hm.
  assert (Hj : forall j : nat, Z.of_nat j <= nranks ->
            exists A', runs A A' /\ Inv A' /\ fed m A'
                       /\ forall q, 0 <= q < Z.of_nat j ->
                            (Z.of_nat m + 1) * (4 + size) <= Z.of_nat (length (A' q))).
  { induction j as [|j IH]; intros Hle.
    - exists A. split; [apply ring_runs_refl|]. split; [exact HI|]. split; [exact HF|].
      intros q Hq. lia.
    - destruct (IH ltac:(lia)) as (A1 & R1 & I1 & F1 & G1).
      assert (Hr : 0 <= Z.of_nat j < nranks) by lia.
      destruct (ring_deliver_all A1 (Z.of_nat j) I1 Hr) as [R2 I2].
      pose proof (ring_written_fed A1 m (pred (Z.of_nat j)) I1 F1 Hm (pred_range _)) as L.
      eexists. split; [eapply ring_runs_trans; [exact R1|exact R2]|].
      split; [exact I2|]. split.
      + intros q Hq. unfold upd. destruct (q =? Z.of_nat j); [lia|now apply F1].
      + intros q Hq. unfold upd. destruct (q =? Z.of_nat j) eqn:E; [exact L|].
        apply Z.eqb_neq in E. apply G1. lia. }
  destruct (Hj (Z.to_nat nranks) ltac:(lia)) as (A' & R & I & _ & G).
  exists A'. split; [exact R|]. split; [exact I|].
  intros q Hq. specialize (G q ltac:(lia)). lia.
Qed.

Lemma ring_feed (m : nat) :
  Z.of_nat m <= nranks - 1 ->
  forall A, Inv A -> exists A', runs A A' /\ Inv A' /\ fed m A'.
Proof.
  induction m as [|m IH]; intros Hm A HI.
  - exists A. split; [apply ring_runs_refl|]. split; [exact HI|]. intros r Hr. lia.
  - destruct (IH ltac:(lia) A HI) as (A1 & R1 & I1 & F1).
    destruct (ring_sweep A1 m I1 F1 ltac:(lia)) as (A2 & R2 & I2 & F2).
    exists A2. split; [eapply ring_runs_trans; eauto|]. now split.
Qed.

Lemma ring_fed_done (A : Z -> list byte) (r : Z) :
  Inv A -> fed (Z.to_nat (nranks - 1)) A -> 0 <= r < nranks ->
  fst (fst (call r (A r))) = Ret ncclSuccess.
Proof.
  intros HI HF Hr. destruct (HI r Hr) as [Ha _]. specialize (HF r Hr).
  destruct (ring_call_prefix r (A r) Hr Ha) as [(E & _)|(_ & k & Hk & _ & Hlen)];
    [exact E|].
  rewrite Z2Nat.id in HF by lia.
  assert (Z.of_nat k + 1 <= nranks - 1) by lia.
  assert ((Z.of_nat k + 1) * (4 + size) <= (nranks - 1) * (4 + size))
    by (apply Z.mul_le_mono_nonneg_r; lia).
  lia.
Qed.

End RingWhole.




(** With more than 2^30 ranks the sum [rank - i + nranks] of the last rank
    does not fit an [int]: its first send takes its slice from outside the
    buffer. *)
Lemma bootstrapAllGather_overflow (nranks size : Z) (st : bootstrapState) (data : list byte) :
  1073741824 < nranks <= INT_MAX -> 0 < size <= INT_MAX ->
  st_rank st = nranks - 1 -> st_nranks st = nranks ->
  Z.of_nat (length data) = nranks * size ->
  bootstrapAllGather st data size
  = (Fault,
     set_ringSendSocket st
       (set_tx (ringSendSocket st) (sock_tx (ringSendSocket st) ++ int_to_bytes size)),
     data).
Proof.
  intros Hn Hs Hr Hnr Hlen. unfold bootstrapAllGather. rewrite Hnr.
  assert (Hsub : int_sub nranks 1 = nranks - 1)
    by (apply wrap_int_id; unfold is_int, INT_MIN, INT_MAX in *; lia).
  rewrite Hsub. replace (Z.to_nat (nranks - 1)) with (S (Z.to_nat (nranks - 2))) by lia.
  cbn [allgather_loop]. unfold allgather_send, bootstrapNetSend, ncclSocketSend.
  cbn [ok]. rewrite Hr, Hnr.
  pose proof (overflow_sslice_offset nranks size Hn Hs) as Hoff.
  unfold mem_read, in_bounds. replace (size <=? 0) with false by zbool. rewrite Hlen.
  match goal with |- context [(?a <=? ?b) && (?c <=? ?d)] =>
    replace (c <=? d) with false by zbool end.
  rewrite andb_false_r. reflexivity.
Qed.


(* ================================================================== *)
(** ** Framed transfers and tagged messages end to end *)

(** X1.  A framed transfer arrives as it was sent.  [bootstrapNetSend] of
    [size] bytes appends to the socket a frame of [4 + size] bytes, and
    [bootstrapNetRecv] with the same [size] on a socket that holds this
    frame returns [ncclSuccess], takes exactly the frame from the socket,
    stores the payload at the destination and changes no other byte of the
    destination region. *)
Theorem bootstrapNet_round_trip
  (sender : ncclSocket) (src dst : list byte) (soff doff size : Z) (payload : list byte) :
  0 <= size <= INT_MAX ->
  mem_read src soff size = Some payload ->
  in_bounds dst doff size = true ->
  exists wire dst',
    bootstrapNetSend sender src soff size
    = (Ret ncclSuccess, set_tx sender (sock_tx sender ++ wire))
    /\ Z.of_nat (length wire) = SIZEOF_INT + size
    /\ (forall receiver rest,
          sock_rx receiver = wire ++ rest ->
          bootstrapNetRecv receiver dst doff size
          = (Ret ncclSuccess, set_rx receiver rest, dst'))
    /\ mem_read dst' doff size = Some payload
    /\ length dst' = length dst
    /\ (forall o len,
          0 <= o -> o + len <= doff \/ doff + size <= o ->
          mem_read dst' o len = mem_read dst o len).
Proof.
  intros Hs Hr Hb.
  assert (Hl : Z.of_nat (length payload) = size).
  { rewrite (mem_read_length _ _ _ _ Hr). lia. }
  destruct (mem_write_in_bounds dst doff payload) as [dst' Hw].
  { now rewrite Hl. }
  exists (frame size payload), dst'. split; [|split; [|split; [|split; [|split]]]].
  - now apply netsend_tx.
  - unfold frame. rewrite length_app, length_int_to_bytes. unfold SIZEOF_INT. lia.
  - intros receiver rest Hrx.
    exact (netrecv_frame receiver dst doff size payload rest dst' Hs Hl Hrx Hw).
  - rewrite <- Hl. exact (mem_read_write_same _ _ _ _ Hw).
  - exact (mem_write_length _ _ _ _ Hw).
  - intros o len Ho Hd. apply (mem_read_write_other _ _ _ _ _ _ Hw Ho). lia.
Qed.

Lemma bootstrapNet_round_trip_witness :
  exists wire dst',
    bootstrapNetSend (mkSocket [] 0 true [] [x55] []) [x0a; x0b; x0c] 1 2
    = (Ret ncclSuccess,
       set_tx (mkSocket [] 0 true [] [x55] []) ([x55] ++ wire))
    /\ Z.of_nat (length wire) = SIZEOF_INT + 2
    /\ (forall receiver rest,
          sock_rx receiver = wire ++ rest ->
          bootstrapNetRecv receiver [x01; x02; x03; x04; x05] 2 2
          = (Ret ncclSuccess, set_rx receiver rest, dst'))
    /\ mem_read dst' 2 2 = Some [x0b; x0c]
    /\ length dst' = 5%nat
    /\ (forall o len,
          0 <= o -> o + len <= 2 \/ 2 + 2 <= o ->
          mem_read dst' o len = mem_read [x01; x02; x03; x04; x05] o len).
Proof.
  apply (bootstrapNet_round_trip (mkSocket [] 0 true [] [x55] [])
           [x0a; x0b; x0c] [x01; x02; x03; x04; x05] 1 2 2 [x0b; x0c]).
  - unfold INT_MAX. lia.
  - reflexivity.
  - reflexivity.
Defined.

(** The message [bootstrapSend] puts on a connection: the rank of the
    sender and the tag, each as a frame of its own, then the data. *)
Lemma bootstrapSend_success (asz : Z) (net : Net) (st : bootstrapState) (peer tag : Z)
  (mem : list byte) (off size : Z) (table addr payload : list byte) :
  peerCommAddresses st = Some table ->
  mem_read table (peer * asz) asz = Some addr ->
  net_reachable net addr = true ->
  mem_read mem off size = Some payload ->
  bootstrapSend asz (net, st) peer tag mem off size
  = (Ret ncclSuccess,
     (mkNet (net_listen net) (net_reachable net)
            (net_closed net
             ++ [mkSocket addr (st_magic st) false []
                   (frame SIZEOF_INT (int_to_bytes (st_rank st))
                    ++ frame SIZEOF_INT (int_to_bytes tag)
                    ++ frame size payload) []]) (net_accept_error net),
      st)).
Proof.
  intros Ht Ha Hre Hp. unfold bootstrapSend. rewrite Ht, Ha.
  unfold ncclSocketConnect. cbn [ncclSocketInit sock_addr]. rewrite Hre. cbn [ok negb].
  rewrite (netsend_tx _ (int_to_bytes (st_rank st)) 0 SIZEOF_INT (int_to_bytes (st_rank st)))
    by reflexivity.
  cbn [ok negb].
  rewrite (netsend_tx _ (int_to_bytes tag) 0 SIZEOF_INT (int_to_bytes tag)) by reflexivity.
  cbn [ok negb]. rewrite (netsend_tx _ _ _ _ _ Hp).
  unfold close_and_return, ncclSocketClose. cbn. now rewrite <- !app_assoc.
Qed.

(** X2.  [bootstrapSend] to a reachable peer: it connects to the address in
    slot [peer] of [peerCommAddresses] with the magic of the state, writes
    the sender's rank, the tag and the data, each as a frame of its own and
    in this order, closes the connection and returns [ncclSuccess]; the
    state and every other part of the network are as before. *)
Theorem bootstrapSend_wire (asz : Z) (net : Net) (st : bootstrapState) (peer tag : Z)
  (mem : list byte) (off size : Z) (table addr payload : list byte) :
  peerCommAddresses st = Some table ->
  mem_read table (peer * asz) asz = Some addr ->
  net_reachable net addr = true ->
  mem_read mem off size = Some payload ->
  bootstrapSend asz (net, st) peer tag mem off size
  = (Ret ncclSuccess,
     (mkNet (net_listen net) (net_reachable net)
            (net_closed net
             ++ [mkSocket addr (st_magic st) false []
                   (frame SIZEOF_INT (int_to_bytes (st_rank st))
                    ++ frame SIZEOF_INT (int_to_bytes tag)
                    ++ frame size payload) []]) (net_accept_error net),
      st)).
Proof. exact (bootstrapSend_success asz net st peer tag mem off size table addr payload). Qed.

Lemma bootstrapSend_wire_witness :
  bootstrapSend 2 (s3_net, s3_state) 1 7 [x68; x69; x6a] 1 2
  = (Ret ncclSuccess,
     (mkNet [] (net_reachable s3_net)
            [mkSocket [x0c; x0d] 5 false []
               (frame SIZEOF_INT (int_to_bytes 2) ++ frame SIZEOF_INT (int_to_bytes 7)
                ++ frame 2 [x69; x6a]) []] (net_accept_error s3_net),
      s3_state)).
Proof.
  apply (bootstrapSend_wire 2 s3_net s3_state 1 7 [x68; x69; x6a] 1 2
           [x0a; x0b; x0c; x0d] [x0c; x0d] [x69; x6a]); reflexivity.
Defined.

(** A framed send only ever appends to what the socket has sent, and it
    either succeeds or reads outside the source region. *)
Lemma netsend_shape (sock : ncclSocket) (mem : list byte) (off size : Z) :
  exists tx,
    snd (bootstrapNetSend sock mem off size) = set_tx sock tx
    /\ (fst (bootstrapNetSend sock mem off size) = Ret ncclSuccess
        \/ fst (bootstrapNetSend sock mem off size) = Fault).
Proof.
  unfold bootstrapNetSend, ncclSocketSend. cbn [ok].
  destruct (mem_read mem off size) as [payload|]; cbn [fst snd].
  - eexists. split; [|now left]. destruct sock; reflexivity.
  - eexists. split; [|now right]. reflexivity.
Qed.

(** X3.  [bootstrapSend] never changes the state, and it never leaves its
    connection open: whenever it returns a result, success or not, exactly
    one more socket has been closed, the one it had created for the peer.
    When the peer cannot be reached the result is the error of the connect
    and nothing has been written to that socket. *)
Theorem bootstrapSend_closes (asz : Z) (net : Net) (st : bootstrapState) (peer tag : Z)
  (mem : list byte) (off size : Z) :
  let res := bootstrapSend asz (net, st) peer tag mem off size in
  snd (snd res) = st
  /\ net_listen (fst (snd res)) = net_listen net
  /\ (forall r, fst res = Ret r ->
        exists table addr tx,
          peerCommAddresses st = Some table
          /\ mem_read table (peer * asz) asz = Some addr
          /\ net_closed (fst (snd res))
             = net_closed net ++ [mkSocket addr (st_magic st) false [] tx []]
          /\ (net_reachable net addr = false -> r = ncclSystemError /\ tx = []))
  /\ ((forall r, fst res <> Ret r) -> fst (snd res) = net).
Proof.
  assert (Hnone : forall ns : Net * bootstrapState,
            ns = (net, st) ->
            snd (snd (Fault, ns)) = st
            /\ net_listen (fst (snd (Fault, ns))) = net_listen net
            /\ (forall r, fst (Fault, ns) = Ret r ->
                  exists table addr tx,
                    peerCommAddresses st = Some table
                    /\ mem_read table (peer * asz) asz = Some addr
                    /\ net_closed (fst (snd (Fault, ns)))
                       = net_closed net ++ [mkSocket addr (st_magic st) false [] tx []]
                    /\ (net_reachable net addr = false -> r = ncclSystemError /\ tx = []))
            /\ ((forall r, fst (Fault, ns) <> Ret r) -> fst (snd (Fault, ns)) = net)).
  { intros ns ->. cbn. split; [reflexivity|]. split; [reflexivity|].
    split; [intros r Hr; discriminate|reflexivity]. }
  unfold bootstrapSend.
  destruct (peerCommAddresses st) as [table|]; cbn zeta; [|now apply Hnone].
  destruct (mem_read table (peer * asz) asz) as [addr|] eqn:Ha; cbn zeta;
    [|now apply Hnone].
  clear Hnone.
  assert (Hleave : forall (s : status) (tx : list byte),
            (net_reachable net addr = false -> s = Ret ncclSystemError /\ tx = []) ->
            let res :=
              (let '(r, net') :=
                 close_and_return s net (mkSocket addr (st_magic st) true [] tx []) in
               (r, (net', st))) in
            snd (snd res) = st
            /\ net_listen (fst (snd res)) = net_listen net
            /\ (forall r, fst res = Ret r ->
                  exists table0 addr0 tx0,
                    Some table = Some table0
                    /\ mem_read table0 (peer * asz) asz = Some addr0
                    /\ net_closed (fst (snd res))
                       = net_closed net ++ [mkSocket addr0 (st_magic st) false [] tx0 []]
                    /\ (net_reachable net addr0 = false -> r = ncclSystemError /\ tx0 = []))
            /\ ((forall r, fst res <> Ret r) -> fst (snd res) = net)).
  { intros s tx Hun. destruct s as [r| | |]; cbn;
      (split; [reflexivity|]; split; [reflexivity|]; split;
       [|first [ reflexivity | intros H; exfalso; now eapply H ]]).
    - intros r0 [= <-]. exists table, addr, tx.
      split; [reflexivity|]. split; [exact Ha|]. split; [reflexivity|].
      intros Hf. destruct (Hun Hf) as [[= ->] ->]. now split.
    - intros r0 Hr. discriminate.
    - intros r0 Hr. discriminate.
    - intros r0 Hr. discriminate. }
  unfold ncclSocketConnect. cbn [sock_addr ncclSocketInit].
  destruct (net_reachable net addr) eqn:Hre; cbn [ok negb].
  - repeat
      match goal with
      | |- context [bootstrapNetSend ?k ?m ?o ?z] =>
          let tx := fresh "tx" in
          let E := fresh "E" in
          let S := fresh "S" in
          destruct (netsend_shape k m o z) as (tx & E & S);
          destruct (bootstrapNetSend k m o z) as [? ?];
          cbn [fst snd] in E, S; subst;
          destruct S as [->| ->]; cbn [ok negb]
      end;
      unfold set_tx, ncclSocketInit;
      cbn [sock_addr sock_magic sock_open sock_rx sock_tx sock_acceptq];
      match goal with
      | |- context [close_and_return ?s net (mkSocket _ _ _ _ ?t _)] =>
          refine (Hleave s t _); intros Hf; discriminate
      end.
  - refine (Hleave (Ret ncclSystemError) [] _). intros _. now split.
Qed.

Lemma announce_of_rx (conn : ncclSocket) (p t : Z) (rx : list byte) :
  sock_rx conn
  = frame SIZEOF_INT (int_to_bytes p) ++ frame SIZEOF_INT (int_to_bytes t) ++ rx ->
  conn = announce p t (set_rx conn rx).
Proof. intros H. destruct conn. unfold announce, set_rx. cbn in *. now subst. Qed.

(** X4.  A tagged message is delivered.  Let rank A send [size] bytes to
    [peer] with [bootstrapSend], and let the connection it made arrive at
    the listening socket of the receiver, behind any number of connections
    that announce another peer or another tag.  Then the receiver's
    [bootstrapRecv] for the rank of A and the same tag returns
    [ncclSuccess] with the bytes of the sender at its destination, closes
    that connection, and has put the connections that came first, in their
    order, at the tail of its queue of unexpected connections. *)
Theorem bootstrapSend_Recv_round_trip
  (asz : Z) (netA netB : Net) (stA stB : bootstrapState) (peer tag : Z)
  (src dst : list byte) (soff doff size : Z) (table addr payload : list byte)
  (conn : ncclSocket) (arrivals : list arrival) (rest : list ncclSocket)
  (newPeer0 newTag0 : Z) :
  peerCommAddresses stA = Some table ->
  mem_read table (peer * asz) asz = Some addr ->
  net_reachable netA addr = true ->
  mem_read src soff size = Some payload ->
  is_int (st_rank stA) -> is_int tag -> 0 <= size <= INT_MAX ->
  in_bounds dst doff size = true ->
  Forall (unex_other (st_rank stA) tag) (unexpectedConnections stB) ->
  Forall (arrival_other (st_rank stA) tag) arrivals ->
  sock_acceptq (listenSock stB) = map arrival_conn arrivals ++ conn :: rest ->
  sock_rx conn
  = sock_tx (last (net_closed (fst (snd (bootstrapSend asz (netA, stA) peer tag
                                                       src soff size))))
                  ncclSocketInit0) ->
  exists dst',
    bootstrapRecv newPeer0 newTag0 (netB, stB) (st_rank stA) tag dst doff size
    = (Ret ncclSuccess,
       (mkNet (net_listen netB) (net_reachable netB)
              (net_closed netB ++ [set_open (set_rx conn []) false]) (net_accept_error netB),
        set_unexpectedConnections
          (set_listenSock stB (set_acceptq (listenSock stB) rest))
          (unexpectedConnections stB ++ map arrival_unex arrivals)),
       dst')
    /\ mem_read dst' doff size = Some payload
    /\ (forall o len,
          0 <= o -> o + len <= doff \/ doff + size <= o ->
          mem_read dst' o len = mem_read dst o len).
Proof.
  intros Ht Ha Hre Hp Hrk Htag Hs Hb Hq Harr Hacc Hrx.
  rewrite (bootstrapSend_success asz netA stA peer tag src soff size table addr payload
             Ht Ha Hre Hp) in Hrx.
  cbn [fst snd net_closed] in Hrx. rewrite last_last in Hrx. cbn [sock_tx] in Hrx.
  assert (Hl : Z.of_nat (length payload) = size).
  { rewrite (mem_read_length _ _ _ _ Hp). lia. }
  destruct (mem_write_in_bounds dst doff payload) as [dst' Hw].
  { now rewrite Hl. }
  exists dst'. split; [|split].
  - unfold bootstrapRecv, unexpectedDequeue.
    rewrite (unexpected_scan_none _ _ _ Hq). cbn [ok negb]. cbn [Z.eqb].
    rewrite Hacc, (announce_of_rx conn _ _ _ Hrx).
    rewrite bootstrapRecv_loop_arrivals by assumption.
    rewrite (netrecv_frame (set_rx conn (frame size payload)) dst doff size payload []
               dst' Hs Hl).
    + reflexivity.
    + cbn. now rewrite app_nil_r.
    + exact Hw.
  - rewrite <- Hl. exact (mem_read_write_same _ _ _ _ Hw).
  - intros o len Ho Hd. apply (mem_read_write_other _ _ _ _ _ _ Hw Ho). lia.
Qed.

Lemma bootstrapSend_Recv_round_trip_witness :
  exists dst',
    bootstrapRecv 0 0
      (s3_net,
       mkState (mkSocket [x0c; x0d] 5 true [] []
                  [mkSocket [] 0 true
                     (frame SIZEOF_INT (int_to_bytes 2) ++ frame SIZEOF_INT (int_to_bytes 7)
                      ++ frame 2 [x69; x6a]) [] []])
               ncclSocketInit0 ncclSocketInit0 None None [] 0 1 4 5 0)
      (st_rank s3_state) 7 [x00; x00; x00] 1 2
    = (Ret ncclSuccess,
       (mkNet [] (net_reachable s3_net)
              ([] ++ [mkSocket [] 0 false [] [] []]) (net_accept_error s3_net),
        set_unexpectedConnections
          (set_listenSock
             (mkState (mkSocket [x0c; x0d] 5 true [] []
                         [mkSocket [] 0 true
                            (frame SIZEOF_INT (int_to_bytes 2)
                             ++ frame SIZEOF_INT (int_to_bytes 7)
                             ++ frame 2 [x69; x6a]) [] []])
                      ncclSocketInit0 ncclSocketInit0 None None [] 0 1 4 5 0)
             (mkSocket [x0c; x0d] 5 true [] [] []))
          ([] ++ map arrival_unex [])),
       dst')
    /\ mem_read dst' 1 2 = Some [x69; x6a]
    /\ (forall o len,
          0 <= o -> o + len <= 1 \/ 1 + 2 <= o ->
          mem_read dst' o len = mem_read [x00; x00; x00] o len).
Proof.
  apply (bootstrapSend_Recv_round_trip 2 s3_net s3_net s3_state
           (mkState (mkSocket [x0c; x0d] 5 true [] []
                       [mkSocket [] 0 true
                          (frame SIZEOF_INT (int_to_bytes 2)
                           ++ frame SIZEOF_INT (int_to_bytes 7)
                           ++ frame 2 [x69; x6a]) [] []])
                    ncclSocketInit0 ncclSocketInit0 None None [] 0 1 4 5 0)
           1 7 [x68; x69; x6a] [x00; x00; x00] 1 1 2
           [x0a; x0b; x0c; x0d] [x0c; x0d] [x69; x6a]
           (mkSocket [] 0 true
              (frame SIZEOF_INT (int_to_bytes 2) ++ frame SIZEOF_INT (int_to_bytes 7)
               ++ frame 2 [x69; x6a]) [] [])
           [] [] 0 0).
  - reflexivity.
  - reflexivity.
  - reflexivity.
  - reflexivity.
  - unfold is_int, INT_MIN, INT_MAX. cbn. lia.
  - unfold is_int, INT_MIN, INT_MAX. lia.
  - unfold INT_MAX. lia.
  - reflexivity.
  - constructor.
  - constructor.
  - reflexivity.
  - vm_compute. reflexivity.
Defined.

(* ================================================================== *)
(** ** More on the queue of unexpected connections *)

Lemma unexpected_scan_some (q : list unexConn) (peer tag : Z) (sock : ncclSocket)
  (rest : list unexConn) :
  unexpected_scan q peer tag = Some (sock, rest) ->
  exists l1 e l2,
    q = l1 ++ e :: l2 /\ rest = l1 ++ l2 /\ sock = unex_sock e
    /\ unex_peer e = peer /\ unex_tag e = tag
    /\ Forall (unex_other peer tag) l1.
Proof.
  revert sock rest. induction q as [|e q IH]; intros sock rest; cbn [unexpected_scan].
  - discriminate.
  - destruct ((unex_peer e =? peer) && (unex_tag e =? tag)) eqn:T.
    + intros [= <- <-]. apply andb_true_iff in T. destruct T as [T1 T2].
      exists [], e, q. repeat split; try reflexivity; try (now apply Z.eqb_eq).
      constructor.
    + destruct (unexpected_scan q peer tag) as [[s r]|]; [|discriminate].
      intros [= <- <-].
      destruct (IH s r eq_refl) as (l1 & e' & l2 & -> & -> & -> & Hp & Htg & Hall).
      exists (e :: l1), e', l2. repeat split; try reflexivity; try assumption.
      constructor; [|exact Hall].
      apply andb_false_iff in T. unfold unex_other.
      destruct T as [T|T]; apply Z.eqb_neq in T; tauto.
Qed.

Lemma set_unexpectedConnections_same (st : bootstrapState) :
  set_unexpectedConnections st (unexpectedConnections st) = st.
Proof. now destruct st. Qed.

Lemma set_unexpectedConnections_twice (st : bootstrapState) (q q' : list unexConn) :
  set_unexpectedConnections (set_unexpectedConnections st q) q'
  = set_unexpectedConnections st q'.
Proof. reflexivity. Qed.

(** X5.  A key that is not in the queue.  [unexpectedDequeue] reports
    [found = 0] exactly when no entry of the queue has both the peer and the
    tag asked for, and then it leaves the state and the caller's socket
    variable as they were.  Otherwise it reports [found = 1], hands out the
    socket of an entry with that peer and tag and shortens the queue by this
    one entry.  It never fails. *)
Theorem unexpectedDequeue_missing (st : bootstrapState) (peer tag : Z) (sock : ncclSocket) :
  let '(s, st', sock', found) := unexpectedDequeue st peer tag sock in
  s = Ret ncclSuccess
  /\ (found = 0 <-> Forall (unex_other peer tag) (unexpectedConnections st))
  /\ (found = 0 -> st' = st /\ sock' = sock)
  /\ (found <> 0 ->
        found = 1
        /\ S (length (unexpectedConnections st')) = length (unexpectedConnections st)
        /\ exists e, In e (unexpectedConnections st)
                     /\ unex_peer e = peer /\ unex_tag e = tag /\ sock' = unex_sock e).
Proof.
  unfold unexpectedDequeue.
  destruct (unexpected_scan (unexpectedConnections st) peer tag) as [[sock' rest]|] eqn:E.
  - destruct (unexpected_scan_some _ _ _ _ _ E)
      as (l1 & e & l2 & Hq & -> & -> & Hp & Htg & Hall).
    split; [reflexivity|]. split; [|split].
    + split; [discriminate|]. intros HF. exfalso.
      rewrite Hq in HF. apply Forall_app in HF. destruct HF as [_ HF].
      inversion HF as [|x l Hx Hl]; subst. unfold unex_other in Hx. tauto.
    + discriminate.
    + intros _. split; [reflexivity|]. split.
      * cbn [unexpectedConnections set_unexpectedConnections].
        rewrite Hq, !length_app. cbn [length]. lia.
      * exists e. rewrite Hq. repeat split; try assumption.
        apply in_or_app. right. now left.
  - split; [reflexivity|]. split; [|split].
    + split; [intros _|reflexivity].
      revert E. induction (unexpectedConnections st) as [|e q IH]; cbn [unexpected_scan].
      * constructor.
      * destruct ((unex_peer e =? peer) && (unex_tag e =? tag)) eqn:T; [discriminate|].
        destruct (unexpected_scan q peer tag) as [[s r]|]; [discriminate|].
        intros _. constructor; [|now apply IH].
        apply andb_false_iff in T. unfold unex_other.
        destruct T as [T|T]; apply Z.eqb_neq in T; tauto.
    + now split.
    + intros H. now exfalso.
Qed.

(** X6.  What is put into the queue can be taken out again.  After
    [unexpectedEnqueue(peer, tag, sock)], an [unexpectedDequeue(peer, tag)]
    always finds an entry.  If the queue held no entry for [(peer, tag)]
    before, it hands out [sock] and the state is again as it was before the
    two calls; if it held one, the earliest of them is handed out and the
    new entry stays at the tail. *)
Theorem unexpectedEnqueue_Dequeue (st : bootstrapState) (peer tag : Z)
  (sock sock0 : ncclSocket) :
  let st1 := snd (unexpectedEnqueue st peer tag sock) in
  (Forall (unex_other peer tag) (unexpectedConnections st) ->
   unexpectedDequeue st1 peer tag sock0 = (Ret ncclSuccess, st, sock, 1))
  /\
  (forall l1 e l2,
     unexpectedConnections st = l1 ++ e :: l2 ->
     Forall (unex_other peer tag) l1 ->
     unex_peer e = peer -> unex_tag e = tag ->
     unexpectedDequeue st1 peer tag sock0
     = (Ret ncclSuccess,
        set_unexpectedConnections st (l1 ++ l2 ++ [mkUnex peer tag sock]),
        unex_sock e, 1)).
Proof.
  cbn zeta. unfold unexpectedEnqueue. cbn [snd]. rewrite unexpected_link_app. split.
  - intros Hq. unfold unexpectedDequeue.
    cbn [unexpectedConnections set_unexpectedConnections].
    rewrite (unexpected_scan_found (unexpectedConnections st) [] (mkUnex peer tag sock)
               peer tag Hq eq_refl eq_refl).
    rewrite app_nil_r, set_unexpectedConnections_twice, set_unexpectedConnections_same.
    reflexivity.
  - intros l1 e l2 Hq Hl1 Hp Ht. unfold unexpectedDequeue.
    cbn [unexpectedConnections set_unexpectedConnections].
    rewrite Hq, <- app_assoc. cbn [app].
    rewrite (unexpected_scan_found l1 (l2 ++ [mkUnex peer tag sock]) e peer tag Hl1 Hp Ht).
    now rewrite set_unexpectedConnections_twice.
Qed.

Lemma accept_idle_cases (net : Net) :
  accept_idle net = Blocked
  \/ exists r, accept_idle net = Ret r /\ net_accept_error net = Some r /\ r <> ncclSuccess.
Proof.
  unfold accept_idle. destruct (net_accept_error net) as [e|]; [|now left].
  destruct e; cbn; try (now left); right; eexists; repeat split; discriminate.
Qed.

Lemma accept_idle_not_ok (net : Net) : ok (accept_idle net) = false.
Proof.
  destruct (accept_idle_cases net) as [E|(r & E & _ & Hr)]; rewrite E; [reflexivity|].
  now destruct r.
Qed.

Lemma bootstrapRecv_loop_retires (pending : list ncclSocket) :
  forall (net : Net) (st : bootstrapState) (peer tag newPeer newTag : Z)
         (mem : list byte) (off size : Z),
  sock_acceptq (listenSock st) = pending ->
  let res := bootstrapRecv_loop pending net st peer tag newPeer newTag mem off size in
  let net' := fst (snd (fst res)) in
  let st' := snd (snd (fst res)) in
  match fst (fst res) with
  | Ret r => retired net net' st' r (length pending) (length (unexpectedConnections st))
  | _ => net_closed net' = net_closed net
  end.
Proof.
  induction pending as [|conn pending IH];
    intros net st peer tag newPeer newTag mem off size Hq; cbn zeta.
  - cbn [bootstrapRecv_loop].
    destruct (accept_idle_cases net) as [E|(r & E & Herr & Hr)]; rewrite E; cbn.
    + reflexivity.
    + eexists. split; [reflexivity|]. split; [reflexivity|]. right.
      repeat split; assumption.
  - cbn [bootstrapRecv_loop].
    assert (Hleave : forall (s : status) (sock : ncclSocket) (m : list byte),
              let res :=
                (let '(r, net') := close_and_return s net sock in
                 (r, (net', set_listenSock st (set_acceptq (listenSock st) pending)), m)) in
              match fst (fst res) with
              | Ret r =>
                  retired net (fst (snd (fst res))) (snd (snd (fst res))) r
                          (length (conn :: pending)) (length (unexpectedConnections st))
              | _ => net_closed (fst (snd (fst res))) = net_closed net
              end).
    { intros s sock m. destruct s as [r| | |]; cbn; try reflexivity.
      unfold retired. cbn. eexists. split; [reflexivity|]. split; [reflexivity|]. left. lia. }
    destruct (bootstrapNetRecv conn (int_to_bytes newPeer) 0 SIZEOF_INT) as [[s1 k1] b1].
    destruct (ok s1); cbn [negb]; [|apply Hleave].
    destruct (bootstrapNetRecv k1 (int_to_bytes newTag) 0 SIZEOF_INT) as [[s2 k2] b2].
    destruct (ok s2); cbn [negb]; [|apply Hleave].
    destruct ((bytes_to_int b1 =? peer) && (bytes_to_int b2 =? tag)).
    + destruct (bootstrapNetRecv k2 mem off size) as [[s3 k3] m3]. apply Hleave.
    + unfold unexpectedEnqueue. cbn [ok negb].
      match goal with
      | |- context [bootstrapRecv_loop pending net ?s peer tag ?a ?b mem off size] =>
          specialize (IH net s peer tag a b mem off size eq_refl);
          cbn zeta in IH;
          destruct (bootstrapRecv_loop pending net s peer tag a b mem off size)
            as [[s' [net' st']] mem']
      end.
      cbn [fst snd] in *.
      destruct s' as [r| | |]; try exact IH.
      destruct IH as (sock & Hc & Ho & Hn). exists sock. split; [exact Hc|].
      split; [exact Ho|].
      cbn [unexpectedConnections set_unexpectedConnections set_listenSock] in Hn.
      rewrite unexpected_link_app, length_app in Hn. cbn [length] in *.
      destruct Hn as [Hn|(H1 & H2 & H3 & H4 & H5)]; [left; lia|right].
      repeat split; try assumption. lia.
Qed.

(** X7.  Every [bootstrapRecv] that returns has closed exactly one socket,
    and no connection is lost.  Whenever the call returns a result, success
    or not, it has closed exactly one socket.  Either this is a connection
    (the one from the queue, the matching one, or one whose announcement or
    data could not be read): then the connections waiting at the listening
    socket and those in the queue of unexpected connections are together
    one fewer than before, every other connection the call accepted being in
    the queue.  Or an accept has failed: then the result is the error of
    that accept, the socket closed is the one [ncclSocketInit(&sock)] had
    just set up, which never was connected, and every connection that was
    waiting is now in the queue, whose length has grown by their number.  A
    call that does not return has closed nothing.  The ring sockets of the
    state are never touched. *)
Theorem bootstrapRecv_retires_one (newPeer0 newTag0 : Z) (net : Net) (st : bootstrapState)
  (peer tag : Z) (mem : list byte) (off size : Z) :
  let res := bootstrapRecv newPeer0 newTag0 (net, st) peer tag mem off size in
  let net' := fst (snd (fst res)) in
  let st' := snd (snd (fst res)) in
  match fst (fst res) with
  | Ret r =>
      exists sock,
        net_closed net' = net_closed net ++ [sock] /\ sock_open sock = false
        /\ ((length (sock_acceptq (listenSock st')) + length (unexpectedConnections st') + 1
             = length (sock_acceptq (listenSock st)) + length (unexpectedConnections st))%nat
            \/ (net_accept_error net = Some r /\ r <> ncclSuccess
                /\ sock = set_open ncclSocketInit0 false
                /\ sock_acceptq (listenSock st') = []
                /\ length (unexpectedConnections st')
                   = (length (sock_acceptq (listenSock st))
                      + length (unexpectedConnections st))%nat))
  | _ => net_closed net' = net_closed net
  end
  /\ ringSendSocket st' = ringSendSocket st
  /\ ringRecvSocket st' = ringRecvSocket st.
Proof.
  cbn zeta. split; [|exact (bootstrapRecv_ring newPeer0 newTag0 net st peer tag mem off size)].
  unfold bootstrapRecv, unexpectedDequeue.
  destruct (unexpected_scan (unexpectedConnections st) peer tag) as [[sock rest]|] eqn:E;
    cbn [ok negb].
  - destruct (unexpected_scan_some _ _ _ _ _ E)
      as (l1 & e & l2 & Hq & -> & -> & Hp & Htg & Hall).
    change (1 =? 0) with false. cbv iota.
    destruct (bootstrapNetRecv (unex_sock e) mem off size) as [[s k] m].
    destruct s as [r| | |]; cbn; try reflexivity.
    eexists. split; [reflexivity|]. split; [reflexivity|]. left.
    rewrite Hq, !length_app. cbn [length]. lia.
  - change (0 =? 0) with true. cbv iota.
    exact (bootstrapRecv_loop_retires (sock_acceptq (listenSock st)) net st peer tag
             newPeer0 newTag0 mem off size eq_refl).
Qed.

(* ================================================================== *)
(** ** More on the teardown paths *)

(** X8.  [bootstrapAbort] on a state.  Whatever the abort flag and the
    queue of unexpected connections are, it returns [ncclSuccess], closes
    [listenSock], [ringSendSocket] and [ringRecvSocket] in this order and
    nothing else, and frees the table [peerCommAddresses], the table
    [peerProxyAddresses] and the state.  It frees no node of the queue of
    unexpected connections.  On a state with an empty queue it closes what
    [bootstrapClose] closes and frees what [bootstrapClose] frees and, in
    addition, the table of proxy addresses. *)
Theorem bootstrapAbort_spec (net : Net) (st : bootstrapState) :
  let res := bootstrapAbort net (Some st) in
  td_status res = Ret ncclSuccess
  /\ net_closed (td_net res)
     = net_closed net ++ [ set_open (listenSock st) false;
                           set_open (ringSendSocket st) false;
                           set_open (ringRecvSocket st) false ]
  /\ td_freed res
     = free_table (peerCommAddresses st) PeerCommAddressesTable
       ++ free_table (peerProxyAddresses st) PeerProxyAddressesTable
       ++ [StateStruct]
  /\ (forall p t, ~ In (UnexNode p t) (td_freed res))
  /\ (unexpectedConnections st = [] ->
      td_status (bootstrapClose net st) = Ret ncclSuccess
      /\ td_net (bootstrapClose net st) = td_net res
      /\ td_state (bootstrapClose net st) = td_state res
      /\ forall o, In o (td_freed res)
                   <-> In o (td_freed (bootstrapClose net st))
                       \/ (o = PeerProxyAddressesTable /\ peerProxyAddresses st <> None)).
Proof.
  cbn zeta. unfold bootstrapAbort, bootstrapClose, ncclSocketClose. cbn.
  rewrite <- ?app_assoc. cbn [app].
  split; [reflexivity|]. split; [reflexivity|]. split; [reflexivity|]. split.
  - intros p t H.
    destruct (peerCommAddresses st), (peerProxyAddresses st); cbn in H;
      intuition discriminate.
  - intros ->. cbn. rewrite <- ?app_assoc. cbn [app].
    split; [reflexivity|]. split; [reflexivity|]. split; [reflexivity|].
    intros o.
    destruct (peerCommAddresses st), (peerProxyAddresses st); cbn;
      intuition (try discriminate; try congruence).
Qed.

(** X9.  A [bootstrapClose] that fails releases nothing but the queue
    nodes.  When the queue of unexpected connections is not empty and the
    abort flag is 0, [bootstrapClose] returns [ncclInternalError] after it
    has freed the nodes of the queue: no socket is closed, and neither
    address table nor the state is freed.  A [bootstrapAbort] on the state
    it leaves then closes the three sockets and frees the two tables and the
    state. *)
Theorem bootstrapClose_failed_then_Abort (net : Net) (st : bootstrapState) :
  unexpectedConnections st <> [] ->
  st_abortFlag st = 0 ->
  let c := bootstrapClose net st in
  let a := bootstrapAbort (td_net c) (td_state c) in
  td_status c = Ret ncclInternalError
  /\ td_net c = net
  /\ td_state c = Some st
  /\ td_freed c
     = map (fun e => UnexNode (unex_peer e) (unex_tag e)) (unexpectedConnections st)
  /\ td_status a = Ret ncclSuccess
  /\ net_closed (td_net a)
     = net_closed net ++ [ set_open (listenSock st) false;
                           set_open (ringSendSocket st) false;
                           set_open (ringRecvSocket st) false ]
  /\ td_freed a
     = free_table (peerCommAddresses st) PeerCommAddressesTable
       ++ free_table (peerProxyAddresses st) PeerProxyAddressesTable
       ++ [StateStruct].
Proof.
  intros Hq Hf. cbn zeta. unfold bootstrapClose.
  destruct (unexpectedConnections st) as [|e q] eqn:E; [congruence|].
  rewrite Hf. cbn [length Nat.eqb negb andb Z.eqb td_status td_net td_state td_freed].
  rewrite unexpectedFree_spec.
  split; [reflexivity|]. split; [reflexivity|]. split; [reflexivity|].
  split; [reflexivity|].
  unfold bootstrapAbort, ncclSocketClose. cbn. rewrite <- ?app_assoc. cbn [app].
  repeat split.
Qed.

Lemma bootstrapClose_failed_then_Abort_witness :
  let st := set_unexpectedConnections close_state [mkUnex 1 9 ncclSocketInit0] in
  let c := bootstrapClose s3_net st in
  let a := bootstrapAbort (td_net c) (td_state c) in
  td_status c = Ret ncclInternalError
  /\ td_net c = s3_net
  /\ td_state c = Some st
  /\ td_freed c
     = map (fun e => UnexNode (unex_peer e) (unex_tag e)) (unexpectedConnections st)
  /\ td_status a = Ret ncclSuccess
  /\ net_closed (td_net a)
     = net_closed s3_net ++ [ set_open (listenSock st) false;
                              set_open (ringSendSocket st) false;
                              set_open (ringRecvSocket st) false ]
  /\ td_freed a
     = free_table (peerCommAddresses st) PeerCommAddressesTable
       ++ free_table (peerProxyAddresses st) PeerProxyAddressesTable
       ++ [StateStruct].
Proof.
  apply (bootstrapClose_failed_then_Abort s3_net
           (set_unexpectedConnections close_state [mkUnex 1 9 ncclSocketInit0])).
  - discriminate.
  - reflexivity.
Defined.

(* ================================================================== *)
(** ** The intra-node collectives *)

Lemma int_add_small (a b : Z) : is_int (a + b) -> int_add a b = a + b.
Proof. apply wrap_int_id. Qed.

Lemma int_sub_small (a b : Z) : is_int (a - b) -> int_sub a b = a - b.
Proof. apply wrap_int_id. Qed.

Lemma int_mul_small (a b : Z) : is_int (a * b) -> int_mul a b = a * b.
Proof. apply wrap_int_id. Qed.

(** The two partners of a round, as the code computes them. *)
Lemma round_src (rank nranks i : Z) :
  1 <= nranks <= 1073741824 -> 0 <= rank < nranks -> 0 <= i <= nranks ->
  int_rem (int_add (int_sub rank i) nranks) nranks = (rank - i) mod nranks.
Proof.
  intros Hn Hr Hi.
  rewrite int_sub_small by (unfold is_int, INT_MIN, INT_MAX; lia).
  rewrite int_add_small by (unfold is_int, INT_MIN, INT_MAX; lia).
  rewrite int_rem_nonneg by (unfold INT_MAX; lia).
  replace (rank - i + nranks) with (rank - i + 1 * nranks) by lia.
  now rewrite Z.mod_add by lia.
Qed.

Lemma round_dst (rank nranks i : Z) :
  1 <= nranks <= 1073741824 -> 0 <= rank < nranks -> 0 <= i <= nranks ->
  int_rem (int_add rank i) nranks = (rank + i) mod nranks.
Proof.
  intros Hn Hr Hi.
  rewrite int_add_small by (unfold is_int, INT_MIN, INT_MAX; lia).
  now rewrite int_rem_nonneg by (unfold INT_MAX; lia).
Qed.

Lemma intranode_allgather_loop_note (f : Z -> Z) (rank nranks size : Z) (todo : nat) :
  forall (i : Z) (log : list p2pTransfer) (data : list byte),
  1 <= nranks <= 1073741824 -> 0 <= rank < nranks ->
  0 <= size -> nranks * size <= INT_MAX ->
  1 <= i -> i + Z.of_nat todo = nranks ->
  intranode_allgather_loop note_send note_recv todo log (int_array nranks f)
                           rank nranks data size i
  = (Ret ncclSuccess,
     log ++ flat_map (intranode_round f rank nranks size) (ranks_from i todo),
     data).
Proof.
  induction todo as [|todo IH]; intros i log data Hn Hr Hs Hns Hi Hsum.
  - cbn. now rewrite app_nil_r.
  - cbn [intranode_allgather_loop ranks_from flat_map].
    rewrite round_src, round_dst by lia.
    pose proof (mod_range nranks (rank + i) ltac:(lia)) as Hd.
    pose proof (mod_range nranks (rank - i) ltac:(lia)) as Hsr.
    rewrite !int_array_in by lia.
    unfold note_send at 1. cbn [ok negb]. unfold note_recv at 1. cbn [ok negb].
    assert (Hm1 : 0 <= rank * size <= nranks * size) by nia.
    assert (Hm2 : 0 <= (rank - i) mod nranks * size <= nranks * size) by nia.
    rewrite !int_mul_small by (unfold is_int, INT_MIN, INT_MAX in *; lia).
    rewrite int_add_small by (unfold is_int, INT_MIN, INT_MAX; lia).
    rewrite IH by lia. unfold intranode_round at 2. cbn [app].
    now rewrite <- !app_assoc.
Qed.

(** X10.  The transfers of [bootstrapIntraNodeAllGather].  For
    [2 <= nranks <= 2^30] ranks and a buffer of [nranks * size <= INT_MAX]
    bytes, rank [rank] makes, for [i = 1, ..., nranks-1] in this order, one
    send of its own slice [data + rank*size] to [ranks[(rank+i) mod nranks]]
    and then one receive from [ranks[(rank-i) mod nranks]] into the slice of
    that rank, both with the tag [i]: [2 * (nranks-1)] calls in all.  In
    round [i] the rank that [rank] sends to is the one whose receive of
    round [i] names [rank] as its source, with the same tag. *)
Theorem bootstrapIntraNodeAllGather_transfers
  (f : Z -> Z) (rank nranks size : Z) (log : list p2pTransfer) (data : list byte) :
  2 <= nranks <= 1073741824 ->
  0 <= rank < nranks ->
  0 <= size -> nranks * size <= INT_MAX ->
  bootstrapIntraNodeAllGather note_send note_recv log (int_array nranks f)
                              rank nranks data size
  = (Ret ncclSuccess,
     log ++ flat_map (intranode_round f rank nranks size)
                     (ranks_from 1 (Z.to_nat (nranks - 1))),
     data)
  /\ (forall i, 1 <= i < nranks ->
        let dst := (rank + i) mod nranks in
        0 <= dst < nranks /\ dst <> rank /\ (dst - i) mod nranks = rank).
Proof.
  intros Hn Hr Hs Hns. split.
  - unfold bootstrapIntraNodeAllGather.
    replace (nranks =? 1) with false by zbool.
    rewrite int_sub_small by (unfold is_int, INT_MIN, INT_MAX; lia).
    apply intranode_allgather_loop_note; lia.
  - intros i Hi dst. subst dst.
    pose proof (mod_range nranks (rank + i) ltac:(lia)) as Hd.
    split; [exact Hd|]. split.
    + intros E.
      assert (H : (rank + i) mod nranks = (rank + 0) mod nranks).
      { rewrite E, Z.add_0_r, Z.mod_small; lia. }
      replace (rank + i) with (rank - (- i)) in H by lia.
      replace (rank + 0) with (rank - 0) in H by lia.
      assert (H2 : (rank - (nranks - i)) mod nranks = (rank - 0) mod nranks).
      { rewrite <- H. replace (rank - (nranks - i)) with (rank - - i + (-1) * nranks) by lia.
        now rewrite Z.mod_add by lia. }
      apply mod_sub_inj in H2; lia.
    + rewrite Zminus_mod_idemp_l. replace (rank + i - i) with rank by lia.
      apply Z.mod_small. lia.
Qed.

Lemma bootstrapIntraNodeAllGather_transfers_witness :
  bootstrapIntraNodeAllGather note_send note_recv [] (int_array 3 (fun k => 10 + k))
                              1 3 [x0a; x0b; x0c; x0d; x0e; x0f] 2
  = (Ret ncclSuccess,
     [] ++ flat_map (intranode_round (fun k => 10 + k) 1 3 2)
                    (ranks_from 1 (Z.to_nat (3 - 1))),
     [x0a; x0b; x0c; x0d; x0e; x0f])
  /\ (forall i, 1 <= i < 3 ->
        let dst := (1 + i) mod 3 in
        0 <= dst < 3 /\ dst <> 1 /\ (dst - i) mod 3 = 1).
Proof.
  apply (bootstrapIntraNodeAllGather_transfers (fun k => 10 + k) 1 3 2 []
           [x0a; x0b; x0c; x0d; x0e; x0f]); unfold INT_MAX; lia.
Defined.

(** *** Where the intra-node all-gather puts what it receives

    The collective over any point-to-point layer in which a send succeeds
    and a receive from [peer] with tag [tag] stores the message
    [msg peer tag] of [size] bytes at the place it is given. *)
Section IntraNodeGather.

Context {St : Type}.
Variable Send : St -> Z -> Z -> list byte -> Z -> Z -> status * St.
Variable Recv : St -> Z -> Z -> list byte -> Z -> Z -> status * St * list byte.
Variable msg : Z -> Z -> list byte.
Variables (f : Z -> Z) (rank nranks size : Z).

Hypothesis Send_ok : forall st peer tag data off sz,
  fst (Send st peer tag data off sz) = Ret ncclSuccess.
Hypothesis Recv_ok : forall st peer tag data off data',
  mem_write data off (msg peer tag) = Some data' ->
  exists st', Recv st peer tag data off size = (Ret ncclSuccess, st', data').
Hypothesis msg_len : forall peer tag, Z.of_nat (length (msg peer tag)) = size.

Hypothesis Hn : 1 <= nranks <= 1073741824.
Hypothesis Hr : 0 <= rank < nranks.
Hypothesis Hsize : 0 < size.
Hypothesis Hfit : nranks * size <= INT_MAX.

Lemma intranode_allgather_loop_places (todo : nat) :
  forall (i : Z) (st : St) (data : list byte),
  1 <= i -> i + Z.of_nat todo = nranks ->
  Z.of_nat (length data) = nranks * size ->
  exists st' data',
    intranode_allgather_loop Send Recv todo st (int_array nranks f) rank nranks data size i
    = (Ret ncclSuccess, st', data')
    /\ length data' = length data
    /\ (forall k, 0 <= k < nranks ->
          (forall j, i <= j < nranks -> k <> (rank - j) mod nranks) ->
          mem_read data' (k * size) size = mem_read data (k * size) size)
    /\ (forall j, i <= j < nranks ->
          mem_read data' ((rank - j) mod nranks * size) size
          = Some (msg (f ((rank - j) mod nranks)) j)).
Proof.
  induction todo as [|todo IH]; intros i st data Hi Hsum Hlen.
  - exists st, data. cbn. repeat split; intros; lia || reflexivity.
  - cbn [intranode_allgather_loop].
    rewrite round_src, round_dst by lia.
    pose proof (mod_range nranks (rank + i) ltac:(lia)) as Hd.
    pose proof (mod_range nranks (rank - i) ltac:(lia)) as Hsr.
    rewrite !int_array_in by lia.
    assert (Hm1 : 0 <= rank * size <= nranks * size) by nia.
    assert (Hm2 : 0 <= (rank - i) mod nranks * size
                  /\ (rank - i) mod nranks * size + size <= nranks * size) by nia.
    rewrite !int_mul_small by (unfold is_int, INT_MIN, INT_MAX in *; lia).
    rewrite int_add_small by (unfold is_int, INT_MIN, INT_MAX in *; lia).
    pose proof (Send_ok st (f ((rank + i) mod nranks)) i data (rank * size) size) as HS.
    destruct (Send st (f ((rank + i) mod nranks)) i data (rank * size) size) as [s st1].
    cbn [fst] in HS. subst s. cbn [ok negb].
    destruct (mem_write_in_bounds data ((rank - i) mod nranks * size)
                (msg (f ((rank - i) mod nranks)) i)) as [data1 Hw].
    { unfold in_bounds. rewrite msg_len, Hlen. apply andb_true_iff.
      split; apply Z.leb_le; lia. }
    destruct (Recv_ok st1 (f ((rank - i) mod nranks)) i data _ data1 Hw) as [st2 HR].
    rewrite HR. cbn [ok negb].
    pose proof (mem_write_length _ _ _ _ Hw) as Hl1.
    destruct (IH (i + 1) st2 data1 ltac:(lia) ltac:(lia) ltac:(lia))
      as (st' & data' & Hrun & Hl' & Hkeep & Hgot).
    exists st', data'. split; [exact Hrun|]. split; [congruence|]. split.
    + intros k Hk Hnot.
      rewrite Hkeep by (assumption || (intros j Hj; apply Hnot; lia)).
      apply (mem_read_write_other _ _ _ _ _ _ Hw); [nia|].
      rewrite msg_len.
      assert (k <> (rank - i) mod nranks) by (apply Hnot; lia). nia.
    + intros j Hj. destruct (Z.eq_dec j i) as [->|Hne].
      * rewrite Hkeep.
        -- pose proof (mem_read_write_same _ _ _ _ Hw) as R.
           now rewrite msg_len in R.
        -- exact Hsr.
        -- intros j Hj' E. apply mod_sub_inj in E; lia.
      * apply Hgot. lia.
Qed.

(** X11.  What [bootstrapIntraNodeAllGather] gathers.  Over a
    point-to-point layer that delivers, for a buffer of [nranks] slices of
    [size] bytes with [nranks <= 2^30] and [nranks * size <= INT_MAX], the
    call returns [ncclSuccess]; the slice of the calling rank is as it
    was, and the slice of every other index [k] holds the message received
    from [ranks[k]] with the tag [(rank - k) mod nranks], the round in which
    the rank at index [k] is the source. *)
Theorem bootstrapIntraNodeAllGather_places (st : St) (data : list byte) :
  Z.of_nat (length data) = nranks * size ->
  exists st' data',
    bootstrapIntraNodeAllGather Send Recv st (int_array nranks f) rank nranks data size
    = (Ret ncclSuccess, st', data')
    /\ length data' = length data
    /\ mem_read data' (rank * size) size = mem_read data (rank * size) size
    /\ (forall k, 0 <= k < nranks -> k <> rank ->
          mem_read data' (k * size) size
          = Some (msg (f k) ((rank - k) mod nranks))).
Proof.
  intros Hlen. unfold bootstrapIntraNodeAllGather.
  destruct (Z.eqb_spec nranks 1) as [E|E].
  - exists st, data. repeat split. intros k Hk Hne. lia.
  - rewrite int_sub_small by (unfold is_int, INT_MIN, INT_MAX; lia).
    destruct (intranode_allgather_loop_places (Z.to_nat (nranks - 1)) 1 st data
                ltac:(lia) ltac:(lia) Hlen)
      as (st' & data' & Hrun & Hl' & Hkeep & Hgot).
    exists st', data'. split; [exact Hrun|]. split; [exact Hl'|]. split.
    + apply Hkeep; [exact Hr|]. intros j Hj E'.
      assert (H : (rank - 0) mod nranks = (rank - j) mod nranks).
      { rewrite <- E', Z.sub_0_r, Z.mod_small; lia. }
      apply mod_sub_inj in H; lia.
    + intros k Hk Hne.
      pose proof (mod_range nranks (rank - k) ltac:(lia)) as Hj.
      assert (Hj0 : (rank - k) mod nranks <> 0).
      { intros E0.
        assert (H : (rank - k) mod nranks = (rank - rank) mod nranks).
        { rewrite E0, Z.sub_diag. reflexivity. }
        apply mod_sub_inj in H; lia. }
      specialize (Hgot ((rank - k) mod nranks) ltac:(lia)).
      now rewrite mod_sub_back in Hgot by lia.
Qed.

End IntraNodeGather.

Lemma bootstrapIntraNodeAllGather_places_witness :
  exists (st' : unit) data',
    bootstrapIntraNodeAllGather
      (fun st _ _ _ _ _ => (Ret ncclSuccess, st))
      (fun st peer tag data off _ =>
         match mem_write data off [byte_of_Z peer; byte_of_Z tag] with
         | Some data' => (Ret ncclSuccess, st, data')
         | None => (Fault, st, data)
         end)
      tt (int_array 3 (fun k => 10 + k)) 1 3 [x00; x00; xaa; xbb; x00; x00] 2
    = (Ret ncclSuccess, st', data')
    /\ length data' = length [x00; x00; xaa; xbb; x00; x00]
    /\ mem_read data' (1 * 2) 2 = mem_read [x00; x00; xaa; xbb; x00; x00] (1 * 2) 2
    /\ (forall k, 0 <= k < 3 -> k <> 1 ->
          mem_read data' (k * 2) 2
          = Some [byte_of_Z ((fun k => 10 + k) k); byte_of_Z ((1 - k) mod 3)]).
Proof.
  apply (bootstrapIntraNodeAllGather_places
           (fun (st : unit) _ _ _ _ _ => (Ret ncclSuccess, st))
           (fun (st : unit) peer tag data off _ =>
              match mem_write data off [byte_of_Z peer; byte_of_Z tag] with
              | Some data' => (Ret ncclSuccess, st, data')
              | None => (Fault, st, data)
              end)
           (fun peer tag => [byte_of_Z peer; byte_of_Z tag])
           (fun k => 10 + k) 1 3 2).
  - intros. reflexivity.
  - intros st peer tag data off data' H. rewrite H. now exists st.
  - intros. reflexivity.
  - lia.
  - lia.
  - lia.
  - unfold INT_MAX. lia.
  - reflexivity.
Defined.

(** *** The broadcast *)

Lemma intranode_bcast_loop_sends (asz : Z) (st : bootstrapState) (table : list byte)
  (f : Z -> Z) (nranks root size slots : Z) (data payload : list byte)
  (lst : list ncclSocket) (reach : list byte -> bool) (aerr : option ncclResult_t)
  (todo : nat) :
  forall (i : Z) (closed : list ncclSocket),
  0 < asz -> nranks <= INT_MAX ->
  peerCommAddresses st = Some table ->
  Z.of_nat (length table) = slots * asz ->
  (forall j, 0 <= j < nranks -> j <> root ->
     0 <= f j < slots /\ reach (table_slot asz table (f j)) = true) ->
  mem_read data 0 size = Some payload ->
  0 <= i -> i + Z.of_nat todo = nranks ->
  intranode_bcast_loop (bootstrapSend asz) todo (mkNet lst reach closed aerr, st)
                       (int_array nranks f) root data size i
  = (Ret ncclSuccess,
     (mkNet lst reach
        (closed ++ map (bcast_conn asz st table f size payload)
                       (filter (fun j => negb (j =? root)) (ranks_from i todo))) aerr,
      st)).
Proof.
  induction todo as [|todo IH]; intros i closed Ha Hn Ht Hl Hf Hp Hi Hsum.
  - cbn. now rewrite app_nil_r.
  - cbn [intranode_bcast_loop ranks_from filter].
    rewrite int_add_small by (unfold is_int, INT_MIN, INT_MAX in *; lia).
    destruct (Z.eqb_spec i root) as [E|E]; cbn [negb].
    + apply IH; assumption || lia.
    + rewrite int_array_in by lia.
      destruct (Hf i ltac:(lia) E) as [Hfi Hre].
      rewrite (bootstrapSend_success asz (mkNet lst reach closed aerr) st (f i) (f i) data 0 size
                 table (table_slot asz table (f i)) payload Ht
                 (mem_read_slot asz table slots (f i) Ha Hfi Hl) Hre Hp).
      cbn [ok negb net_listen net_reachable net_closed].
      rewrite IH by (assumption || lia).
      cbn [map]. rewrite <- app_assoc. reflexivity.
Qed.

(** X12.  [bootstrapIntraNodeBroadcast] on the point-to-point layer.  The
    root (the caller with [rank = root]) goes through the indices
    [i = 0, ..., nranks-1] in this order, skips its own, and sends to every
    other one: a connection to the address of [ranks[i]], carrying its own
    rank, the tag [ranks[i]] and the [size] bytes of the data, closed
    afterwards; its state and its buffer are unchanged.  Every other caller
    makes exactly one [bootstrapRecv], from [ranks[root]] with the tag
    [ranks[rank]], into the start of its buffer. *)
Theorem bootstrapIntraNodeBroadcast_root
  (asz newPeer0 newTag0 : Z) (net : Net) (st : bootstrapState) (table : list byte)
  (f : Z -> Z) (nranks root size slots : Z) (data payload : list byte) :
  0 < asz -> 2 <= nranks <= INT_MAX -> 0 <= root < nranks ->
  peerCommAddresses st = Some table ->
  Z.of_nat (length table) = slots * asz ->
  (forall j, 0 <= j < nranks -> j <> root ->
     0 <= f j < slots /\ net_reachable net (table_slot asz table (f j)) = true) ->
  mem_read data 0 size = Some payload ->
  bootstrapIntraNodeBroadcast (bootstrapSend asz) (bootstrapRecv newPeer0 newTag0)
                              (net, st) (int_array nranks f) root nranks root data size
  = (Ret ncclSuccess,
     (mkNet (net_listen net) (net_reachable net)
        (net_closed net
         ++ map (bcast_conn asz st table f size payload)
                (filter (fun j => negb (j =? root)) (ranks_from 0 (Z.to_nat nranks)))) (net_accept_error net),
      st),
     data)
  /\ (forall rank ns buf,
        0 <= rank < nranks -> rank <> root ->
        bootstrapIntraNodeBroadcast (bootstrapSend asz) (bootstrapRecv newPeer0 newTag0)
                                    ns (int_array nranks f) rank nranks root buf size
        = bootstrapRecv newPeer0 newTag0 ns (f root) (f rank) buf 0 size).
Proof.
  intros Ha Hn Hroot Ht Hl Hf Hp. split.
  - unfold bootstrapIntraNodeBroadcast.
    replace (nranks =? 1) with false by zbool. rewrite Z.eqb_refl.
    destruct net as [lst reach closed aerr].
    rewrite (intranode_bcast_loop_sends asz st table f nranks root size slots data payload
               lst reach aerr (Z.to_nat nranks) 0 closed) by (assumption || lia).
    reflexivity.
  - intros rank ns buf Hr Hne. unfold bootstrapIntraNodeBroadcast.
    replace (nranks =? 1) with false by zbool.
    replace (rank =? root) with false by zbool.
    now rewrite !int_array_in by lia.
Qed.

Lemma bootstrapIntraNodeBroadcast_root_witness :
  bootstrapIntraNodeBroadcast (bootstrapSend 2) (bootstrapRecv 0 0)
                              (s3_net, s3_state) (int_array 2 (fun k => 1 - k)) 0 2 0
                              [x68; x69] 2
  = (Ret ncclSuccess,
     (mkNet (net_listen s3_net) (net_reachable s3_net)
        (net_closed s3_net
         ++ map (bcast_conn 2 s3_state [x0a; x0b; x0c; x0d] (fun k => 1 - k) 2 [x68; x69])
                (filter (fun j => negb (j =? 0)) (ranks_from 0 (Z.to_nat 2)))) (net_accept_error s3_net),
      s3_state),
     [x68; x69])
  /\ (forall rank ns buf,
        0 <= rank < 2 -> rank <> 0 ->
        bootstrapIntraNodeBroadcast (bootstrapSend 2) (bootstrapRecv 0 0)
                                    ns (int_array 2 (fun k => 1 - k)) rank 2 0 buf 2
        = bootstrapRecv 0 0 ns ((fun k => 1 - k) 0) ((fun k => 1 - k) rank) buf 0 2).
Proof.
  apply (bootstrapIntraNodeBroadcast_root 2 0 0 s3_net s3_state [x0a; x0b; x0c; x0d]
           (fun k => 1 - k) 2 0 2 2 [x68; x69] [x68; x69]).
  - lia.
  - unfold INT_MAX. lia.
  - lia.
  - reflexivity.
  - reflexivity.
  - intros j Hj Hne. split; [lia|reflexivity].
  - reflexivity.
Defined.

(** *** Who waits for whom in the barrier *)

Lemma nth_error_rounds {A : Type} (a b : nat -> A) (i : nat) :
  forall (s m : nat), (i < m)%nat ->
  nth_error (flat_map (fun k => [a k; b k]) (seq s m)) (2 * i) = Some (a (s + i)%nat)
  /\ nth_error (flat_map (fun k => [a k; b k]) (seq s m)) (2 * i + 1) = Some (b (s + i)%nat).
Proof.
  induction i as [|i IH]; intros s m Hm; destruct m as [|m]; try lia.
  - cbn. rewrite Nat.add_0_r. now split.
  - cbn [seq flat_map app].
    replace (2 * S i)%nat with (S (S (2 * i))) by lia.
    replace (S (S (2 * i)) + 1)%nat with (S (S (2 * i + 1))) by lia.
    cbn [nth_error].
    destruct (IH (S s) m ltac:(lia)) as [H1 H2].
    rewrite H1, H2. replace (S s + i)%nat with (s + S i)%nat by lia. now split.
Qed.

Lemma pow2_mod_distinct (n : Z) (j k : nat) :
  2 ^ Z.of_nat j < n -> 2 ^ Z.of_nat k < n -> j <> k ->
  forall r, (r - 2 ^ Z.of_nat j) mod n <> (r - 2 ^ Z.of_nat k) mod n.
Proof.
  intros Hj Hk Hne r E.
  assert (0 < 2 ^ Z.of_nat j) by (apply Z.pow_pos_nonneg; lia).
  assert (0 < 2 ^ Z.of_nat k) by (apply Z.pow_pos_nonneg; lia).
  apply mod_sub_inj in E; try lia.
  apply Z.pow_inj_r in E; lia.
Qed.

(** X13.  The rounds of the barrier fit together.  For
    [1 <= nranks <= 2^30], in round [k] (mask [2^k < nranks]) the rank that
    rank [r] sends to is another rank, [d = (r + 2^k) mod nranks], and the
    receive rank [d] makes in that round names [r] as its source, with the
    same tag: the [2k]-th call of [r] is the send to [ranks[d]] and the
    [(2k+1)]-th call of [d] is the receive from [ranks[r]].  The sources a
    rank receives from in two different rounds are different ranks, so
    within one barrier no rank receives twice from the same rank. *)
Theorem bootstrapBarrier_pairs
  (f : Z -> Z) (nranks tag : Z) (fuel : nat) (data0 : Z) (r : Z) (k : nat) :
  1 <= nranks <= 1073741824 ->
  0 <= r < nranks ->
  (k < Z.to_nat (Z.log2_up nranks))%nat ->
  (Z.to_nat (Z.log2_up nranks) <= fuel)%nat ->
  let calls q :=
    snd (bootstrapBarrier record_send record_recv fuel [] (int_array nranks f)
                          q nranks tag data0) in
  let d := (r + 2 ^ Z.of_nat k) mod nranks in
  0 <= d < nranks /\ d <> r
  /\ nth_error (calls r) (2 * k) = Some (CallSend (f d) tag SIZEOF_INT)
  /\ nth_error (calls d) (2 * k + 1) = Some (CallRecv (f r) tag SIZEOF_INT)
  /\ (forall j, (j < Z.to_nat (Z.log2_up nranks))%nat -> j <> k ->
        (r - 2 ^ Z.of_nat j + nranks) mod nranks
        <> (r - 2 ^ Z.of_nat k + nranks) mod nranks).
Proof.
  intros Hn Hr Hk Hfuel calls d.
  assert (Hlt : 2 ^ Z.of_nat k < nranks) by (apply pow2_below; lia).
  assert (Hpos : 0 < 2 ^ Z.of_nat k) by (apply Z.pow_pos_nonneg; lia).
  assert (Hd : 0 <= d < nranks) by (apply mod_range; lia).
  assert (Hne1 : nranks <> 1) by lia.
  assert (Hcalls : forall q, 0 <= q < nranks ->
            calls q = flat_map (barrier_round f q nranks tag)
                               (seq 0 (Z.to_nat (Z.log2_up nranks)))).
  { intros q Hq. subst calls. cbn beta. unfold bootstrapBarrier.
    replace (nranks =? 1) with false by zbool.
    pose proof (barrier_loop_record f q nranks tag (int_to_bytes data0)
                  (Z.to_nat (Z.log2_up nranks)) 0 fuel [] Hn Hq eq_refl Hfuel) as H.
    change (2 ^ Z.of_nat 0) with 1 in H. now rewrite H. }
  split; [exact Hd|]. split; [|split; [|split]].
  - subst d. intros E.
    assert (H : (r - (nranks - 2 ^ Z.of_nat k)) mod nranks = (r - 0) mod nranks).
    { rewrite Z.sub_0_r, (Z.mod_small r) by lia. rewrite <- E at 2.
      replace (r - (nranks - 2 ^ Z.of_nat k))
        with (r + 2 ^ Z.of_nat k + (-1) * nranks) by lia.
      now rewrite Z.mod_add by lia. }
    apply mod_sub_inj in H; lia.
  - rewrite (Hcalls r Hr). unfold barrier_round.
    destruct (nth_error_rounds
                (fun k => CallSend (f ((r + 2 ^ Z.of_nat k) mod nranks)) tag SIZEOF_INT)
                (fun k => CallRecv (f ((r - 2 ^ Z.of_nat k + nranks) mod nranks)) tag
                                   SIZEOF_INT)
                k 0 _ Hk) as [H1 _].
    exact H1.
  - rewrite (Hcalls d Hd). unfold barrier_round.
    destruct (nth_error_rounds
                (fun k => CallSend (f ((d + 2 ^ Z.of_nat k) mod nranks)) tag SIZEOF_INT)
                (fun k => CallRecv (f ((d - 2 ^ Z.of_nat k + nranks) mod nranks)) tag
                                   SIZEOF_INT)
                k 0 _ Hk) as [_ H2].
    rewrite H2. cbn [Nat.add]. subst d.
    replace ((r + 2 ^ Z.of_nat k) mod nranks - 2 ^ Z.of_nat k + nranks)
      with ((r + 2 ^ Z.of_nat k) mod nranks - 2 ^ Z.of_nat k + 1 * nranks) by lia.
    rewrite Z.mod_add, Zminus_mod_idemp_l by lia.
    replace (r + 2 ^ Z.of_nat k - 2 ^ Z.of_nat k) with r by lia.
    now rewrite (Z.mod_small r) by lia.
  - intros j Hj Hjk.
    assert (Hlj : 2 ^ Z.of_nat j < nranks) by (apply pow2_below; lia).
    replace (r - 2 ^ Z.of_nat j + nranks) with (r - 2 ^ Z.of_nat j + 1 * nranks) by lia.
    replace (r - 2 ^ Z.of_nat k + nranks) with (r - 2 ^ Z.of_nat k + 1 * nranks) by lia.
    rewrite !Z.mod_add by lia.
    now apply pow2_mod_distinct.
Qed.

Lemma bootstrapBarrier_pairs_witness :
  let calls q :=
    snd (bootstrapBarrier record_send record_recv 3 [] (int_array 5 (fun q => q))
                          q 5 176 0) in
  let d := (3 + 2 ^ Z.of_nat 1) mod 5 in
  0 <= d < 5 /\ d <> 3
  /\ nth_error (calls 3) (2 * 1) = Some (CallSend ((fun q => q) d) 176 SIZEOF_INT)
  /\ nth_error (calls d) (2 * 1 + 1) = Some (CallRecv ((fun q => q) 3) 176 SIZEOF_INT)
  /\ (forall j, (j < Z.to_nat (Z.log2_up 5))%nat -> j <> 1%nat ->
        (3 - 2 ^ Z.of_nat j + 5) mod 5 <> (3 - 2 ^ Z.of_nat 1 + 5) mod 5).
Proof.
  apply (bootstrapBarrier_pairs (fun q => q) 5 176 3 0 3 1).
  - lia.
  - lia.
  - vm_compute. lia.
  - vm_compute. lia.
Defined.

(* ================================================================== *)
(** ** The ring all-gather as one rank runs it *)

(** X14.  [bootstrapAllGather] from the side of one rank.  Let the bytes
    that arrive on the receive socket of rank [r] be the frames its
    predecessor sends in a correct run of [nranks <= 2^30] ranks, and let
    [r] enter with its own contribution in its slice.  Then the call returns
    [ncclSuccess], has read exactly these [nranks - 1] frames, has written
    to its send socket exactly the [nranks - 1] frames a correct run expects
    from it (in step [i] the contribution of rank [(r - i) mod nranks]),
    holds the contribution of every rank [k] in slice [k], and has changed
    nothing in the state but the two ring sockets. *)
Theorem bootstrapAllGather_one_rank
  (nranks size : Z) (data0 : Z -> list byte) (st : bootstrapState) (data rest : list byte) :
  1 <= nranks <= 1073741824 ->
  0 < size <= INT_MAX ->
  (forall r, 0 <= r < nranks -> Z.of_nat (length (data0 r)) = nranks * size) ->
  0 <= st_rank st < nranks ->
  st_nranks st = nranks ->
  Z.of_nat (length data) = nranks * size ->
  mem_read data (st_rank st * size) size = Some (contribution data0 size (st_rank st)) ->
  sock_rx (ringRecvSocket st)
  = frames_from nranks size data0 (ring_pred nranks (st_rank st)) 0 (Z.to_nat (nranks - 1))
    ++ rest ->
  exists st' data',
    bootstrapAllGather st data size = (Ret ncclSuccess, st', data')
    /\ sock_rx (ringRecvSocket st') = rest
    /\ sock_tx (ringSendSocket st')
       = sock_tx (ringSendSocket st)
         ++ frames_from nranks size data0 (st_rank st) 0 (Z.to_nat (nranks - 1))
    /\ (forall k, 0 <= k < nranks ->
          mem_read data' (k * size) size = Some (contribution data0 size k))
    /\ same_but_ring st st'.
Proof.
  intros Hn Hs Hl0 Hr Hnr Hl Hown Hrx.
  destruct (bootstrapAllGather_correct_run nranks size data0 Hn Hs Hl0 st data rest
              Hr Hnr Hl Hown Hrx) as (st' & data' & Hrun & H1 & H2 & H3).
  exists st', data'. repeat split; try assumption.
  all: pose proof (bootstrapAllGather_fields st data size) as F;
    rewrite Hrun in F; cbn [fst snd] in F; unfold same_but_ring in F; tauto.
Qed.

Lemma bootstrapAllGather_one_rank_witness :
  exists st' data',
    bootstrapAllGather
      (mkState ncclSocketInit0
         (mkSocket [] 0 true (frames_from 4 1 ring4_data0 (ring_pred 4 1) 0 3) [] [])
         (mkSocket [] 0 true [] [] []) None None [] 0 1 4 0 0)
      (ring4_data0 1) 1
    = (Ret ncclSuccess, st', data')
    /\ sock_rx (ringRecvSocket st') = []
    /\ sock_tx (ringSendSocket st')
       = [] ++ frames_from 4 1 ring4_data0 1 0 (Z.to_nat (4 - 1))
    /\ (forall k, 0 <= k < 4 ->
          mem_read data' (k * 1) 1 = Some (contribution ring4_data0 1 k))
    /\ same_but_ring
         (mkState ncclSocketInit0
            (mkSocket [] 0 true (frames_from 4 1 ring4_data0 (ring_pred 4 1) 0 3) [] [])
            (mkSocket [] 0 true [] [] []) None None [] 0 1 4 0 0)
         st'.
Proof.
  apply (bootstrapAllGather_one_rank 4 1 ring4_data0
           (mkState ncclSocketInit0
              (mkSocket [] 0 true (frames_from 4 1 ring4_data0 (ring_pred 4 1) 0 3) [] [])
              (mkSocket [] 0 true [] [] []) None None [] 0 1 4 0 0)
           (ring4_data0 1) []).
  - lia.
  - unfold INT_MAX. lia.
  - intros r Hr. unfold ring4_data0.
    destruct (r =? 0); [reflexivity|].
    destruct (r =? 1); [reflexivity|].
    destruct (r =? 2); reflexivity.
  - cbn. lia.
  - reflexivity.
  - reflexivity.
  - reflexivity.
  - cbn [ringRecvSocket sock_rx]. now rewrite app_nil_r.
Defined.

(* ================================================================== *)
(** ** More on the root service *)

(** The fields of an [extInfo] read back from its bytes. *)
Lemma info_rank_extInfo (rank nranks : Z) (aR aL : list byte) :
  is_int rank -> info_rank (extInfo_bytes rank nranks aR aL) = rank.
Proof.
  intros H. unfold info_rank, extInfo_bytes.
  change (firstn 4 (int_to_bytes rank ++ int_to_bytes nranks ++ aR ++ aL))
    with (int_to_bytes rank).
  now apply bytes_to_int_to_bytes.
Qed.

Lemma info_nranks_extInfo (rank nranks : Z) (aR aL : list byte) :
  is_int nranks -> info_nranks (extInfo_bytes rank nranks aR aL) = nranks.
Proof.
  intros H. unfold info_nranks, extInfo_bytes.
  change (firstn 4 (skipn 4 (int_to_bytes rank ++ int_to_bytes nranks ++ aR ++ aL)))
    with (int_to_bytes nranks).
  now apply bytes_to_int_to_bytes.
Qed.

Lemma skipn_8_extInfo (rank nranks : Z) (aR aL : list byte) :
  skipn 8 (extInfo_bytes rank nranks aR aL) = aR ++ aL.
Proof. reflexivity. Qed.

Lemma info_root_extInfo (asz rank nranks : Z) (aR aL : list byte) :
  Z.of_nat (length aR) = asz ->
  info_extAddressListenRoot asz (extInfo_bytes rank nranks aR aL) = aR.
Proof.
  intros H. unfold info_extAddressListenRoot. rewrite skipn_8_extInfo.
  rewrite firstn_app. replace (Z.to_nat asz - length aR)%nat with 0%nat by lia.
  cbn [firstn]. rewrite app_nil_r. apply firstn_all2. lia.
Qed.

Lemma info_listen_extInfo (asz rank nranks : Z) (aR aL : list byte) :
  Z.of_nat (length aR) = asz -> Z.of_nat (length aL) = asz ->
  info_extAddressListen asz (extInfo_bytes rank nranks aR aL) = aL.
Proof.
  intros H1 H2. unfold info_extAddressListen.
  replace (8 + Z.to_nat asz)%nat with (Z.to_nat asz + 8)%nat by lia.
  rewrite <- skipn_skipn, skipn_8_extInfo.
  rewrite skipn_app. replace (Z.to_nat asz - length aR)%nat with 0%nat by lia.
  rewrite skipn_all2 by lia. cbn [skipn app]. apply firstn_all2. lia.
Qed.

Lemma bytes_eqb_refl (a : list byte) : bytes_eqb a a = true.
Proof. unfold bytes_eqb. now destruct (list_eq_dec Byte.byte_eq_dec a a). Qed.

Lemma table_slot_read (asz : Z) (table : list byte) (n r : Z) (v : list byte) :
  0 < asz -> 0 <= r < n -> Z.of_nat (length table) = n * asz ->
  mem_read table (r * asz) asz = Some v -> table_slot asz table r = v.
Proof.
  intros Ha Hr Hl H. rewrite (mem_read_slot asz table n r Ha Hr Hl) in H. congruence.
Qed.

(** Storing an address in one slot of a table. *)
Lemma table_store (asz : Z) (table : list byte) (n r : Z) (a : list byte) :
  0 < asz -> 0 <= r < n -> Z.of_nat (length table) = n * asz ->
  Z.of_nat (length a) = asz ->
  exists table',
    mem_write table (r * asz) a = Some table'
    /\ length table' = length table
    /\ table_slot asz table' r = a
    /\ forall k, 0 <= k < n -> k <> r -> table_slot asz table' k = table_slot asz table k.
Proof.
  intros Ha Hr Hl Hla.
  destruct (mem_write_in_bounds table (r * asz) a) as [table' Hw].
  { unfold in_bounds. rewrite Hla, Hl. apply andb_true_iff. split; apply Z.leb_le; nia. }
  pose proof (mem_write_length _ _ _ _ Hw) as Hl'.
  exists table'. split; [exact Hw|]. split; [exact Hl'|]. split.
  - apply (table_slot_read asz table' n r a Ha Hr); [lia|].
    rewrite <- Hla at 2. exact (mem_read_write_same _ _ _ _ Hw).
  - intros k Hk Hne.
    apply (table_slot_read asz table' n k _ Ha Hk); [lia|].
    rewrite (mem_read_write_other _ _ _ _ _ _ Hw); [|nia|rewrite Hla; nia].
    now apply mem_read_slot with (n := n).
Qed.

(** X15.  What a check-in stores.  Let the root receive the [extInfo] of
    rank [rank] of [nranks], with [0 <= rank < nranks], while it has counted
    [c < nranks] check-ins: either this is the first one ([c = 0], and the
    two tables are allocated zeroed with [nranks] slots), or the tables
    exist with [nranks] slots and the slot of [rank] in [rankAddressesRoot]
    is still zero.  Then the root stores [extAddressListen] in slot [rank]
    of [rankAddresses] and [extAddressListenRoot] in slot [rank] of
    [rankAddressesRoot], changes no other slot, counts [c + 1], and goes on
    collecting exactly when [c + 1 < nranks]. *)
Theorem bootstrapRoot_checkin_stores
  (asz : Z) (l : rootLocals) (A R : list byte) (rank nranks : Z) (aR aL : list byte) :
  0 < asz -> 1 <= nranks <= INT_MAX -> 0 <= rank < nranks ->
  Z.of_nat (length aR) = asz -> Z.of_nat (length aL) = asz ->
  root_info l = extInfo_bytes rank nranks aR aL ->
  0 <= root_c l < nranks ->
  (if root_c l =? 0
   then A = zeros (nranks * asz) /\ R = zeros (nranks * asz)
   else root_nranks l = nranks
        /\ root_rankAddresses l = Some A /\ root_rankAddressesRoot l = Some R
        /\ Z.of_nat (length A) = nranks * asz /\ Z.of_nat (length R) = nranks * asz) ->
  table_slot asz R rank = zeros asz ->
  exists A' R',
    bootstrapRoot_checkin asz l
    = (if root_c l + 1 <? nranks then TurnNext else TurnCollected)
        (mkRoot nranks (root_c l + 1) (root_info l) (Some A') (Some R'))
    /\ table_slot asz A' rank = aL
    /\ table_slot asz R' rank = aR
    /\ (forall k, 0 <= k < nranks -> k <> rank ->
          table_slot asz A' k = table_slot asz A k
          /\ table_slot asz R' k = table_slot asz R k)
    /\ length A' = length A /\ length R' = length R.
Proof.
  intros Ha Hn Hr HlR HlL Hinfo Hc Htab Hzero.
  assert (Hir : is_int rank) by (unfold is_int, INT_MIN, INT_MAX in *; lia).
  assert (Hin : is_int nranks) by (unfold is_int, INT_MIN, INT_MAX in *; lia).
  assert (Hlens : Z.of_nat (length A) = nranks * asz /\ Z.of_nat (length R) = nranks * asz).
  { destruct (root_c l =? 0).
    - destruct Htab as [-> ->]. rewrite length_zeros. split; nia.
    - tauto. }
  destruct Hlens as [HLA HLR].
  destruct (table_store asz R nranks rank aR Ha Hr HLR HlR) as (R' & HwR & HlR' & HsR & HoR).
  destruct (table_store asz A nranks rank aL Ha Hr HLA HlL) as (A' & HwA & HlA' & HsA & HoA).
  exists A', R'.
  split; [|split; [exact HsA|split; [exact HsR|split; [|now split]]]].
  2:{ intros k Hk Hne. split; [now apply HoA|now apply HoR]. }
  unfold bootstrapRoot_checkin. rewrite Hinfo.
  rewrite info_nranks_extInfo, info_rank_extInfo by assumption.
  rewrite (info_root_extInfo asz) by assumption.
  rewrite (info_listen_extInfo asz) by assumption.
  assert (Hadd : int_add (root_c l) 1 = root_c l + 1).
  { apply wrap_int_id. unfold is_int, INT_MIN, INT_MAX in *. lia. }
  destruct (Z.eqb_spec (root_c l) 0) as [E|E].
  - destruct Htab as [-> ->]. unfold ncclCalloc.
    replace (nranks <? 0) with false by zbool.
    cbn [root_nranks root_rankAddresses root_rankAddressesRoot root_c].
    rewrite Z.eqb_refl. cbn [negb].
    rewrite (mem_read_slot asz _ nranks rank Ha Hr HLR), Hzero, bytes_eqb_refl.
    cbn [negb]. rewrite HwR, HwA, Hadd. now destruct (root_c l + 1 <? nranks).
  - destruct Htab as (Hnr & HA & HR & _ & _).
    rewrite HA, HR, Hnr, Z.eqb_refl. cbn [negb].
    rewrite (mem_read_slot asz _ nranks rank Ha Hr HLR), Hzero, bytes_eqb_refl.
    cbn [negb]. rewrite HwR, HwA, Hadd. now destruct (root_c l + 1 <? nranks).
Qed.

Lemma bootstrapRoot_checkin_stores_witness :
  exists A' R',
    bootstrapRoot_checkin 2
      (mkRoot 3 1 (extInfo_bytes 0 3 [xa0; xa0] [xb0; xb0])
              (Some [x00; x00; x00; x00; xb2; xb2])
              (Some [x00; x00; x00; x00; xa2; xa2]))
    = (if 1 + 1 <? 3 then TurnNext else TurnCollected)
        (mkRoot 3 (1 + 1) (extInfo_bytes 0 3 [xa0; xa0] [xb0; xb0]) (Some A') (Some R'))
    /\ table_slot 2 A' 0 = [xb0; xb0]
    /\ table_slot 2 R' 0 = [xa0; xa0]
    /\ (forall k, 0 <= k < 3 -> k <> 0 ->
          table_slot 2 A' k = table_slot 2 [x00; x00; x00; x00; xb2; xb2] k
          /\ table_slot 2 R' k = table_slot 2 [x00; x00; x00; x00; xa2; xa2] k)
    /\ length A' = length [x00; x00; x00; x00; xb2; xb2]
    /\ length R' = length [x00; x00; x00; x00; xa2; xa2].
Proof.
  apply (bootstrapRoot_checkin_stores 2
           (mkRoot 3 1 (extInfo_bytes 0 3 [xa0; xa0] [xb0; xb0])
                   (Some [x00; x00; x00; x00; xb2; xb2])
                   (Some [x00; x00; x00; x00; xa2; xa2]))
           [x00; x00; x00; x00; xb2; xb2] [x00; x00; x00; x00; xa2; xa2]
           0 3 [xa0; xa0] [xb0; xb0]).
  - lia.
  - unfold INT_MAX. lia.
  - lia.
  - reflexivity.
  - reflexivity.
  - reflexivity.
  - cbn. lia.
  - cbn. repeat split.
  - reflexivity.
Defined.

(** X16.  The root does not check the rank it is told.  When a check-in
    passes the test of the rank count and its [info.rank] is negative or not
    below [nranks], the comparison of the slot [rankAddressesRoot[info.rank]]
    with zero reads outside the table of [nranks] slots: no warning is
    given and nothing rejects the check-in before that access, which is
    undefined behaviour. *)
Theorem bootstrapRoot_checkin_rank_unchecked (asz : Z) (l : rootLocals) (nranks : Z) :
  0 < asz ->
  0 <= nranks ->
  info_nranks (root_info l) = nranks ->
  (if root_c l =? 0 then True
   else root_nranks l = nranks
        /\ exists A R,
             root_rankAddresses l = Some A /\ root_rankAddressesRoot l = Some R
             /\ Z.of_nat (length A) = nranks * asz
             /\ Z.of_nat (length R) = nranks * asz) ->
  ~ (0 <= info_rank (root_info l) < nranks) ->
  exists l', bootstrapRoot_checkin asz l = TurnOut (RootFailed Fault) l'.
Proof.
  intros Ha Hn Hin Htab Hrank.
  assert (Hout : forall R, Z.of_nat (length R) = nranks * asz ->
            mem_read R (info_rank (root_info l) * asz) asz = None).
  { intros R HR. unfold mem_read. replace (asz <=? 0) with false by zbool.
    unfold in_bounds. rewrite HR.
    destruct (Z_lt_le_dec (info_rank (root_info l)) 0) as [Hlt|Hge].
    - replace (0 <=? info_rank (root_info l) * asz) with false by (symmetry; apply Z.leb_gt; nia).
      reflexivity.
    - replace (info_rank (root_info l) * asz + asz <=? nranks * asz) with false
        by (symmetry; apply Z.leb_gt; nia).
      now rewrite andb_false_r. }
  unfold bootstrapRoot_checkin. rewrite Hin.
  destruct (Z.eqb_spec (root_c l) 0) as [E|E].
  - unfold ncclCalloc. replace (nranks <? 0) with false by zbool.
    cbn [root_nranks root_rankAddresses root_rankAddressesRoot root_c].
    rewrite Z.eqb_refl. cbn [negb].
    rewrite Hout by (rewrite length_zeros; nia). now eexists.
  - destruct Htab as (Hnr & A & R & HA & HR & HLA & HLR).
    rewrite HA, HR, Hnr, Z.eqb_refl. cbn [negb]. rewrite (Hout R HLR). now eexists.
Qed.

Lemma bootstrapRoot_checkin_rank_unchecked_witness :
  exists l',
    bootstrapRoot_checkin 2 (mkRoot 0 0 (extInfo_bytes 3 3 [xa0; xa0] [xb0; xb0]) None None)
    = TurnOut (RootFailed Fault) l'.
Proof.
  apply (bootstrapRoot_checkin_rank_unchecked 2
           (mkRoot 0 0 (extInfo_bytes 3 3 [xa0; xa0] [xb0; xb0]) None None) 3).
  - lia.
  - lia.
  - reflexivity.
  - exact I.
  - vm_compute. intros [_ H]. discriminate H.
Defined.

(* ================================================================== *)
(** ** More on the initialisation of a rank *)

Lemma mem_read_whole (m : list byte) (len : Z) :
  Z.of_nat (length m) = len -> mem_read m 0 len = Some m.
Proof.
  intros H. unfold mem_read, in_bounds. destruct (Z.leb_spec len 0) as [L|L].
  - destruct m; [reflexivity|cbn in H; lia].
  - cbn [Z.leb andb]. replace (0 + len <=? Z.of_nat (length m)) with true by zbool.
    cbn [Z.to_nat skipn andb]. change (0 <=? 0) with true. cbn [andb].
    f_equal. apply firstn_all2. lia.
Qed.

Lemma length_extInfo_bytes (asz rank nranks : Z) (aR aL : list byte) :
  Z.of_nat (length aR) = asz -> Z.of_nat (length aL) = asz ->
  Z.of_nat (length (extInfo_bytes rank nranks aR aL)) = sizeof_extInfo asz.
Proof.
  intros H1 H2. unfold extInfo_bytes, sizeof_extInfo, SIZEOF_INT.
  rewrite !length_app, !length_int_to_bytes. lia.
Qed.

(** X17.  The handshake of [bootstrapInit] with the root.  Let the system
    give the rank its two listening sockets [L1] (for the other ranks) and
    [L2] (for the root), let the root be reachable, let the root answer on
    [L2] with the framed address [nextAddr] of a reachable successor, and let
    the predecessor have connected to [L1].  Then the first part of
    [bootstrapInit] succeeds and: the check-in it sent to the address of the
    handle is one frame holding [rank], [nranks], the address of [L2] and
    the address of [L1], in this order; the check-in connection, the
    connection of the answer and [L2] are closed, in this order, and [L1]
    stays open as [listenSock]; [ringSendSocket] is a socket to [nextAddr]
    with the magic of the handle and [ringRecvSocket] is the connection of
    the predecessor. *)
Theorem bootstrapInit_ring_handshake
  (asz : Z) (ifAddr nextAddr0 : list byte) (handle : ncclBootstrapHandle) (net : Net)
  (st : bootstrapState) (L1 L2 : ncclSocket) (restL : list ncclSocket)
  (reply prev : ncclSocket) (q1 q2 : list ncclSocket) (nextAddr rest2 : list byte) :
  0 < asz <= INT_MAX ->
  net_listen net = L1 :: L2 :: restL ->
  sock_acceptq L2 = reply :: q2 ->
  sock_rx reply = frame asz nextAddr ++ rest2 ->
  Z.of_nat (length nextAddr) = asz ->
  Z.of_nat (length nextAddr0) = asz ->
  sock_acceptq L1 = prev :: q1 ->
  net_reachable net (handle_addr handle) = true ->
  net_reachable net nextAddr = true ->
  let magic := handle_magic handle in
  bootstrapInit_ring asz ifAddr nextAddr0 handle net st
  = (Ret ncclSuccess,
     mkNet restL (net_reachable net)
       (net_closed net
        ++ [ mkSocket (handle_addr handle) magic false []
               (frame (sizeof_extInfo asz)
                  (extInfo_bytes (st_rank st) (st_nranks st)
                     (ncclSocketGetAddr asz L2) (ncclSocketGetAddr asz L1))) [];
             set_open (set_rx reply rest2) false;
             mkSocket (sock_addr L2) magic false [] [] q2 ]) (net_accept_error net),
     mkState (mkSocket (sock_addr L1) magic true [] [] q1)
             prev
             (ncclSocketInit nextAddr magic)
             (peerCommAddresses st) (peerProxyAddresses st) (unexpectedConnections st)
             (st_cudaDev st) (st_rank st) (st_nranks st) (st_magic st) (st_abortFlag st)).
Proof.
  intros Ha HL HQ2 Hrx Hln Hl0 HQ1 Hroot Hnext magic.
  unfold bootstrapInit_ring. fold magic.
  unfold ncclSocketListen at 1. rewrite HL. cbn [ok negb].
  unfold ncclSocketListen at 1. cbn [net_listen ok negb].
  unfold ncclSocketConnect at 1.
  cbn [ncclSocketInit sock_addr net_reachable]. rewrite Hroot. cbn [ok negb].
  cbn [st_rank st_nranks set_listenSock listenSock].
  change (ncclSocketGetAddr asz (mkSocket (sock_addr L1) magic true [] [] (sock_acceptq L1)))
    with (ncclSocketGetAddr asz L1).
  change (ncclSocketGetAddr asz (mkSocket (sock_addr L2) magic true [] [] (sock_acceptq L2)))
    with (ncclSocketGetAddr asz L2).
  rewrite (netsend_tx _ _ 0 (sizeof_extInfo asz)
             (extInfo_bytes (st_rank st) (st_nranks st)
                (ncclSocketGetAddr asz L2) (ncclSocketGetAddr asz L1))).
  2:{ apply mem_read_whole. apply length_extInfo_bytes;
        apply length_ncclSocketGetAddr; lia. }
  cbn [ok negb]. unfold ncclSocketClose at 1. cbn [ok negb].
  unfold ncclSocketAccept at 1. cbn [sock_acceptq]. rewrite HQ2. cbn [ok negb].
  rewrite (netrecv_frame reply nextAddr0 0 asz nextAddr rest2 nextAddr
             ltac:(unfold INT_MAX in *; lia) Hln Hrx).
  2:{ apply mem_write_whole. lia. }
  cbn [ok negb]. unfold ncclSocketClose at 1. cbn [ok negb].
  unfold ncclSocketClose at 1. cbn [ok negb].
  cbn [ringSendSocket set_ringSendSocket].
  unfold ncclSocketConnect. cbn [ncclSocketInit sock_addr net_reachable].
  rewrite Hnext. cbn [ok negb].
  unfold ncclSocketAccept. cbn [listenSock sock_acceptq]. rewrite HQ1. cbn [ok negb].
  cbn. rewrite <- !app_assoc. reflexivity.
Qed.

Lemma bootstrapInit_ring_handshake_witness :
  let magic := handle_magic (mkHandle 9 [x01; x01]) in
  bootstrapInit_ring 2 [x7f; x00] [x00; x00] (mkHandle 9 [x01; x01]) init2_net
    (mkState ncclSocketInit0 ncclSocketInit0 ncclSocketInit0 None None [] 0 1 2 9 0)
  = (Ret ncclSuccess,
     mkNet [mkSocket [xc1; xc1] 0 true [] [] []] (net_reachable init2_net)
       (net_closed init2_net
        ++ [ mkSocket (handle_addr (mkHandle 9 [x01; x01])) magic false []
               (frame (sizeof_extInfo 2)
                  (extInfo_bytes 1 2
                     (ncclSocketGetAddr 2
                        (mkSocket [xa1; xa1] 0 true [] []
                           [mkSocket [] 0 true (frame 2 [xb0; xb0]) [] []]))
                     (ncclSocketGetAddr 2
                        (mkSocket [xb1; xb1] 0 true [] []
                           [mkSocket [] 0 true
                              (frame 2 [xb0; xb0] ++ frame 2 [xc0; xc0]) [] []])))) [];
             set_open (set_rx (mkSocket [] 0 true (frame 2 [xb0; xb0]) [] []) []) false;
             mkSocket [xa1; xa1] magic false [] [] [] ]) (net_accept_error init2_net),
     mkState (mkSocket [xb1; xb1] magic true [] [] [])
             (mkSocket [] 0 true (frame 2 [xb0; xb0] ++ frame 2 [xc0; xc0]) [] [])
             (ncclSocketInit [xb0; xb0] magic)
             None None [] 0 1 2 9 0).
Proof.
  apply (bootstrapInit_ring_handshake 2 [x7f; x00] [x00; x00] (mkHandle 9 [x01; x01])
           init2_net
           (mkState ncclSocketInit0 ncclSocketInit0 ncclSocketInit0 None None [] 0 1 2 9 0)
           (mkSocket [xb1; xb1] 0 true [] []
              [mkSocket [] 0 true (frame 2 [xb0; xb0] ++ frame 2 [xc0; xc0]) [] []])
           (mkSocket [xa1; xa1] 0 true [] [] [mkSocket [] 0 true (frame 2 [xb0; xb0]) [] []])
           [mkSocket [xc1; xc1] 0 true [] [] []]
           (mkSocket [] 0 true (frame 2 [xb0; xb0]) [] [])
           (mkSocket [] 0 true (frame 2 [xb0; xb0] ++ frame 2 [xc0; xc0]) [] [])
           [] [] [xb0; xb0] []).
  - unfold INT_MAX. lia.
  - reflexivity.
  - reflexivity.
  - reflexivity.
  - reflexivity.
  - reflexivity.
  - reflexivity.
  - reflexivity.
  - reflexivity.
Defined.

Lemma bootstrapInit_ring_keeps (asz : Z) (ifAddr nextAddr0 : list byte)
  (handle : ncclBootstrapHandle) (net : Net) (st : bootstrapState) :
  let st' := snd (bootstrapInit_ring asz ifAddr nextAddr0 handle net st) in
  st_rank st' = st_rank st /\ st_nranks st' = st_nranks st
  /\ st_magic st' = st_magic st /\ st_abortFlag st' = st_abortFlag st.
Proof.
  unfold bootstrapInit_ring.
  repeat match goal with
         | |- context [let '(_, _) := ?e in _] => destruct e as [? ?]
         | |- context [if negb (ok ?s) then _ else _] => destruct (ok s); cbn [negb]
         | |- context [match ?e with (_, _) => _ end] => destruct e
         end; cbn; auto.
Qed.

(** X18.  What [bootstrapInit] leaves in the communicator, however it
    ends.  When the allocation of the state fails, the call returns the
    error of the allocation and has touched nothing: the communicator, with
    its [bootstrap] pointer and its magic, and the network are as before.
    Once the state is allocated, on every path, also when the call fails
    later, [comm->magic] is the magic of the handle and [comm->bootstrap]
    points to the state, whose rank, rank count, magic and abort flag are
    those of the communicator and the handle.  The rank, the rank count and
    the abort flag of the communicator are never changed, and the proxy is
    set up only by a call that returns [ncclSuccess]. *)
Theorem bootstrapInit_comm (asz : Z) (ifAddr nextAddr0 : list byte)
  (callocState : ncclResult_t) (handle : ncclBootstrapHandle) (comm : ncclComm) (net : Net) :
  let res := bootstrapInit asz ifAddr nextAddr0 callocState handle comm net in
  let comm' := snd res in
  (callocState <> ncclSuccess -> res = (Ret callocState, net, comm))
  /\ (callocState = ncclSuccess ->
      comm_magic comm' = handle_magic handle
      /\ exists st,
           comm_bootstrap comm' = Some st
           /\ st_rank st = comm_rank comm
           /\ st_nranks st = comm_nRanks comm
           /\ st_magic st = handle_magic handle
           /\ st_abortFlag st = comm_abortFlag comm)
  /\ comm_rank comm' = comm_rank comm
  /\ comm_nRanks comm' = comm_nRanks comm
  /\ comm_abortFlag comm' = comm_abortFlag comm
  /\ (fst (fst res) <> Ret ncclSuccess -> comm_proxy comm' = comm_proxy comm).
Proof.
  cbn zeta. unfold bootstrapInit.
  destruct (ok (Ret callocState)) eqn:Hcs; cbn [negb].
  2:{ cbn [fst snd]. split; [reflexivity|]. split; [|now repeat split].
      intros ->. discriminate Hcs. }
  apply ok_true in Hcs. injection Hcs as Hcs.
  split; [intros H; contradiction|].
  set (st0 := mkState ncclSocketInit0 ncclSocketInit0 ncclSocketInit0 None None []
                      0 (comm_rank comm) (comm_nRanks comm) (handle_magic handle)
                      (comm_abortFlag comm)).
  pose proof (bootstrapInit_ring_keeps asz ifAddr nextAddr0 handle net st0) as F1.
  destruct (bootstrapInit_ring asz ifAddr nextAddr0 handle net st0) as [[s1 net1] st1].
  cbn [snd] in F1. cbn [st_rank st_nranks st_magic st_abortFlag st0] in F1.
  destruct F1 as (R1 & N1 & M1 & B1).
  assert (Hfail : forall (s : status) (n : Net) (st : bootstrapState),
            st_rank st = comm_rank comm -> st_nranks st = comm_nRanks comm ->
            st_magic st = handle_magic handle -> st_abortFlag st = comm_abortFlag comm ->
            let res := (s, n, set_comm_bootstrap (set_comm_magic comm (handle_magic handle)) st) in
            (callocState = ncclSuccess ->
             comm_magic (snd res) = handle_magic handle
             /\ exists st',
                  comm_bootstrap (snd res) = Some st'
                  /\ st_rank st' = comm_rank comm
                  /\ st_nranks st' = comm_nRanks comm
                  /\ st_magic st' = handle_magic handle
                  /\ st_abortFlag st' = comm_abortFlag comm)
            /\ comm_rank (snd res) = comm_rank comm
            /\ comm_nRanks (snd res) = comm_nRanks comm
            /\ comm_abortFlag (snd res) = comm_abortFlag comm
            /\ (fst (fst res) <> Ret ncclSuccess -> comm_proxy (snd res) = comm_proxy comm)).
  { intros s n st HR HN HM HB. cbn. split; [|now repeat split].
    intros _. split; [reflexivity|]. exists st. now repeat split. }
  destruct (ok s1); cbn [negb]; [|now apply Hfail; auto].
  destruct (ncclCalloc (st_nranks st1) asz) as [table|]; [|apply Hfail; auto].
  cbn [st_rank st_nranks set_peerCommAddresses listenSock].
  destruct (mem_write table (st_rank st1 * asz) _) as [table1|];
    [|apply Hfail; cbn; auto].
  pose proof (bootstrapAllGather_fields
                (set_peerCommAddresses (set_peerCommAddresses st1 (Some table)) (Some table1))
                table1 asz) as F2.
  destruct (bootstrapAllGather _ table1 asz) as [[s2 st2] table2].
  cbn [fst snd] in F2. unfold same_but_ring in F2. cbn in F2.
  destruct F2 as (_ & _ & _ & _ & R2 & N2 & M2 & B2).
  destruct (ok s2); cbn [negb]; [|apply Hfail; cbn; auto; congruence].
  cbn [st_rank st_nranks set_peerCommAddresses].
  destruct (ncclCalloc (st_nranks st2) asz) as [ptable|];
    [|apply Hfail; cbn; auto; congruence].
  destruct (ncclSocketListen net1 _) as [[s3 net3] proxySocket].
  destruct (ok s3); cbn [negb]; [|apply Hfail; cbn; auto; congruence].
  cbn [st_rank st_nranks set_peerProxyAddresses set_peerCommAddresses].
  destruct (mem_write ptable (st_rank st2 * asz) _) as [ptable1|];
    [|apply Hfail; cbn; auto; congruence].
  match goal with
  | |- context [bootstrapAllGather ?st ptable1 asz] =>
      pose proof (bootstrapAllGather_fields st ptable1 asz) as F3;
      destruct (bootstrapAllGather st ptable1 asz) as [[s4 st4] ptable2]
  end.
  cbn [fst snd] in F3. unfold same_but_ring in F3. cbn in F3.
  destruct F3 as (_ & _ & _ & _ & R4 & N4 & M4 & B4).
  destruct (ok s4); cbn [negb]; [|apply Hfail; cbn; auto; congruence].
  unfold ncclProxyInit. cbn.
  split; [|repeat split; congruence].
  intros _. split; [reflexivity|].
  eexists. split; [reflexivity|]. cbn. repeat split; congruence.
Qed.

(* ================================================================== *)
(** ** The selection of the bootstrap interface *)

Section InterfaceSelectionFacts.

Variable GetAddr GetAddr' : list byte -> ncclResult_t * list byte.
Variable MatchSubnet MatchSubnet' :
  list byte -> list byte -> list byte -> Z * list byte * list byte.
Variable FindIfs FindIfs' : list byte -> list byte -> Z * list byte * list byte.

(** How a call that found the flag at 0 and the mutex free ends. *)
Lemma bootstrapNetInit_first (env : option (list byte)) (g : netGlobals) :
  bootstrapNetInitDone g = 0 -> bootstrapNetLock g = false ->
  let res := bootstrapNetInit GetAddr MatchSubnet FindIfs env g in
  (fst res = Ret ncclSuccess
   /\ bootstrapNetInitDone (snd res) = 1 /\ bootstrapNetLock (snd res) = false)
  \/ ((fst res = Ret ncclInvalidArgument \/ fst res = Ret ncclSystemError
       \/ fst res = Ret ncclInternalError)
      /\ bootstrapNetInitDone (snd res) = 0 /\ bootstrapNetLock (snd res) = true).
Proof.
  intros Hd Hl. cbn zeta. unfold bootstrapNetInit. rewrite Hd, Hl. cbn [Z.eqb].
  cbn [set_bootstrapNetLock bootstrapNetInitDone]. rewrite Hd. cbn [Z.eqb].
  destruct env as [env|].
  - destruct (GetAddr env) as [res remote].
    destruct (ok (Ret res)); cbn [negb].
    + destruct (MatchSubnet _ _ remote) as [[n ifName] ifAddr].
      destruct (n <=? 0); cbn; [right|left]; tauto.
    + cbn. right. tauto.
  - destruct (FindIfs _ _) as [[n ifName] ifAddr].
    destruct (n <=? 0); cbn; [right|left]; tauto.
Qed.

(** X19.  The choice of the interface is made once.  When a call of
    [bootstrapNetInit] returns [ncclSuccess], the flag
    [bootstrapNetInitDone] is set and the mutex is as the call found it; and
    every later call returns [ncclSuccess] at once and changes nothing,
    whatever [NCCL_COMM_ID] holds then and whatever the interfaces of the
    machine have become: the interface is not chosen again. *)
Theorem bootstrapNetInit_once (env env' : option (list byte)) (g g' : netGlobals) :
  bootstrapNetInit GetAddr MatchSubnet FindIfs env g = (Ret ncclSuccess, g') ->
  bootstrapNetInitDone g' <> 0
  /\ bootstrapNetLock g' = bootstrapNetLock g
  /\ (bootstrapNetInitDone g <> 0 -> g' = g)
  /\ bootstrapNetInit GetAddr' MatchSubnet' FindIfs' env' g' = (Ret ncclSuccess, g').
Proof.
  intros H.
  assert (Hdone : bootstrapNetInitDone g' <> 0 /\ bootstrapNetLock g' = bootstrapNetLock g
                  /\ (bootstrapNetInitDone g <> 0 -> g' = g)).
  { destruct (Z.eq_dec (bootstrapNetInitDone g) 0) as [Hd|Hd].
    - destruct (bootstrapNetLock g) eqn:Hl.
      + unfold bootstrapNetInit in H. rewrite Hd, Hl in H. discriminate.
      + pose proof (bootstrapNetInit_first env g Hd Hl) as F. cbn zeta in F.
        rewrite H in F. cbn [fst snd] in F.
        destruct F as [(_ & F1 & F2)|([F|[F|F]] & _)]; try discriminate.
        rewrite F1, F2. repeat split; lia.
    - unfold bootstrapNetInit in H.
      replace (bootstrapNetInitDone g =? 0) with false in H by zbool.
      injection H as <-. repeat split; auto. }
  destruct Hdone as (H1 & H2 & H3). repeat split; try assumption.
  unfold bootstrapNetInit. now replace (bootstrapNetInitDone g' =? 0) with false by zbool.
Qed.

(** X20.  A failed choice keeps the mutex.  When [bootstrapNetInit] is
    entered with the flag at 0 and the mutex free and does not succeed, it
    returns [ncclInvalidArgument] (the string of [NCCL_COMM_ID] is not an
    address), [ncclSystemError] (no interface matches the subnet of that
    address) or [ncclInternalError] (no interface at all, when the variable
    is not set); the flag is still 0 and the mutex is still held, because
    the function returns inside the critical section.  Every later call
    then waits for the mutex and never returns. *)
Theorem bootstrapNetInit_failure_keeps_lock
  (env env' : option (list byte)) (g g' : netGlobals) (s : status) :
  bootstrapNetInitDone g = 0 -> bootstrapNetLock g = false ->
  bootstrapNetInit GetAddr MatchSubnet FindIfs env g = (s, g') ->
  s <> Ret ncclSuccess ->
  (s = Ret ncclInvalidArgument
   <-> exists e, env = Some e /\ fst (GetAddr e) <> ncclSuccess)
  /\ (s = Ret ncclSystemError
      <-> exists e, env = Some e /\ fst (GetAddr e) = ncclSuccess
                    /\ fst (fst (MatchSubnet (bootstrapNetIfName g) (bootstrapNetIfAddr g)
                                             (snd (GetAddr e)))) <= 0)
  /\ (s = Ret ncclInternalError
      <-> env = None
          /\ fst (fst (FindIfs (bootstrapNetIfName g) (bootstrapNetIfAddr g))) <= 0)
  /\ (s = Ret ncclInvalidArgument \/ s = Ret ncclSystemError \/ s = Ret ncclInternalError)
  /\ bootstrapNetInitDone g' = 0
  /\ bootstrapNetLock g' = true
  /\ bootstrapNetInit GetAddr' MatchSubnet' FindIfs' env' g' = (Blocked, g').
Proof.
  intros Hd Hl H Hs.
  assert (Hcodes :
    (s = Ret ncclInvalidArgument
     <-> exists e, env = Some e /\ fst (GetAddr e) <> ncclSuccess)
    /\ (s = Ret ncclSystemError
        <-> exists e, env = Some e /\ fst (GetAddr e) = ncclSuccess
                      /\ fst (fst (MatchSubnet (bootstrapNetIfName g) (bootstrapNetIfAddr g)
                                               (snd (GetAddr e)))) <= 0)
    /\ (s = Ret ncclInternalError
        <-> env = None
            /\ fst (fst (FindIfs (bootstrapNetIfName g) (bootstrapNetIfAddr g))) <= 0)).
  { revert H. unfold bootstrapNetInit. rewrite Hd, Hl. cbn [Z.eqb].
    cbn [set_bootstrapNetLock bootstrapNetInitDone bootstrapNetIfName bootstrapNetIfAddr].
    rewrite Hd. cbn [Z.eqb].
    destruct env as [e|].
    - destruct (GetAddr e) as [res remote] eqn:EG. cbn [fst snd].
      destruct (ok (Ret res)) eqn:EO; cbn [negb].
      + assert (Hres : res = ncclSuccess) by (destruct res; cbn in EO; congruence).
        destruct (MatchSubnet _ _ remote) as [[n ifName] ifAddr] eqn:EM. cbn [fst].
        destruct (Z.leb_spec n 0) as [Hn|Hn]; cbn [ok negb]; intros [= <- <-];
          [|congruence].
        split; [|split].
        * split; [discriminate|]. intros (e' & [= <-] & H'). rewrite EG in H'.
          cbn in H'. congruence.
        * split; [|reflexivity]. intros _. exists e. rewrite EG. cbn [fst snd].
          rewrite EM. cbn [fst]. now repeat split.
        * split; [discriminate|]. intros [H' _]. discriminate.
      + assert (Hres : res <> ncclSuccess) by (intros ->; cbn in EO; discriminate).
        intros [= <- <-]. split; [|split].
        * split; [|reflexivity]. intros _. exists e. rewrite EG. now split.
        * split; [discriminate|]. intros (e' & [= <-] & H' & _). rewrite EG in H'.
          cbn in H'. congruence.
        * split; [discriminate|]. intros [H' _]. discriminate.
    - destruct (FindIfs _ _) as [[n ifName] ifAddr] eqn:EF. cbn [fst].
      destruct (Z.leb_spec n 0) as [Hn|Hn]; cbn [ok negb]; intros [= <- <-];
        [|congruence].
      split; [|split].
      + split; [discriminate|]. intros (e' & [=] & _).
      + split; [discriminate|]. intros (e' & [=] & _).
      + split; [|reflexivity]. intros _. now split. }
  pose proof (bootstrapNetInit_first env g Hd Hl) as F. cbn zeta in F.
  rewrite H in F. cbn [fst snd] in F.
  destruct F as [(F & _)|(Fs & F1 & F2)]; [contradiction|].
  destruct Hcodes as (C1 & C2 & C3).
  split; [exact C1|]. split; [exact C2|]. split; [exact C3|].
  split; [exact Fs|]. split; [exact F1|]. split; [exact F2|].
  unfold bootstrapNetInit. now rewrite F1, F2.
Qed.

End InterfaceSelectionFacts.

Lemma bootstrapNetInit_once_witness :
  let g' := mkGlobals [x65; x74; x68; x30] [x0a; x00; x00; x01] 1 false in
  bootstrapNetInitDone g' <> 0
  /\ bootstrapNetLock g' = bootstrapNetLock (mkGlobals [] [] 0 false)
  /\ (bootstrapNetInitDone (mkGlobals [] [] 0 false) <> 0 -> g' = mkGlobals [] [] 0 false)
  /\ bootstrapNetInit (fun _ => (ncclInvalidArgument, [])) (fun _ _ _ => (0, [], []))
                      (fun _ _ => (0, [], [])) (Some [x78]) g'
     = (Ret ncclSuccess, g').
Proof.
  exact (bootstrapNetInit_once
           (fun _ => (ncclSuccess, [])) (fun _ => (ncclInvalidArgument, []))
           (fun _ _ _ => (0, [], [])) (fun _ _ _ => (0, [], []))
           (fun _ _ => (1, [x65; x74; x68; x30], [x0a; x00; x00; x01]))
           (fun _ _ => (0, [], []))
           None (Some [x78]) (mkGlobals [] [] 0 false)
           (mkGlobals [x65; x74; x68; x30] [x0a; x00; x00; x01] 1 false) eq_refl).
Defined.

Lemma bootstrapNetInit_failure_keeps_lock_witness :
  let g := mkGlobals [] [] 0 false in
  let g' := mkGlobals [] [] 0 true in
  let GetAddr := fun _ : list byte => (ncclInvalidArgument, @nil byte) in
  let MatchSubnet := fun _ _ _ : list byte => (0, @nil byte, @nil byte) in
  let FindIfs := fun _ _ : list byte => (0, @nil byte, @nil byte) in
  (Ret ncclInvalidArgument = Ret ncclInvalidArgument
   <-> exists e, Some [x78] = Some e /\ fst (GetAddr e) <> ncclSuccess)
  /\ (Ret ncclInvalidArgument = Ret ncclSystemError
      <-> exists e, Some [x78] = Some e /\ fst (GetAddr e) = ncclSuccess
                    /\ fst (fst (MatchSubnet (bootstrapNetIfName g) (bootstrapNetIfAddr g)
                                             (snd (GetAddr e)))) <= 0)
  /\ (Ret ncclInvalidArgument = Ret ncclInternalError
      <-> Some [x78] = None
          /\ fst (fst (FindIfs (bootstrapNetIfName g) (bootstrapNetIfAddr g))) <= 0)
  /\ (Ret ncclInvalidArgument = Ret ncclInvalidArgument
      \/ Ret ncclInvalidArgument = Ret ncclSystemError
      \/ Ret ncclInvalidArgument = Ret ncclInternalError)
  /\ bootstrapNetInitDone g' = 0
  /\ bootstrapNetLock g' = true
  /\ bootstrapNetInit (fun _ => (ncclSuccess, [])) (fun _ _ _ => (1, [], []))
                      (fun _ _ => (1, [], [])) None g'
     = (Blocked, g').
Proof.
  apply (bootstrapNetInit_failure_keeps_lock
           (fun _ => (ncclInvalidArgument, [])) (fun _ => (ncclSuccess, []))
           (fun _ _ _ => (0, [], [])) (fun _ _ _ => (1, [], []))
           (fun _ _ => (0, [], [])) (fun _ _ => (1, [], []))
           (Some [x78]) None (mkGlobals [] [] 0 false) (mkGlobals [] [] 0 true)
           (Ret ncclInvalidArgument)).
  - reflexivity.
  - reflexivity.
  - reflexivity.
  - discriminate.
Defined.

(* ================================================================== *)
(** ** The unique id and the start of the root *)

(** X21.  With [NCCL_COMM_ID] set, [bootstrapGetUniqueId] starts no root.
    Whatever the string is, no thread is started and the network is not
    touched (no socket listens).  When the random magic was obtained, the
    call returns [ncclSuccess] exactly when the string parses as an address
    and [ncclInvalidArgument] otherwise, and the handle holds the random
    magic and what the parser wrote as the address. *)
Theorem bootstrapGetUniqueId_env
  (GetAddr : list byte -> ncclResult_t * list byte) (asz : Z) (getRandomData : status * Z)
  (e : list byte) (pthread_create pthread_detach : Z) (g : netGlobals) (net : Net) :
  let res := bootstrapGetUniqueId GetAddr asz getRandomData (Some e)
                                  pthread_create pthread_detach g net in
  snd res = None
  /\ snd (fst (fst res)) = net
  /\ (fst getRandomData = Ret ncclSuccess ->
      snd (fst res) = mkHandle (snd getRandomData) (snd (GetAddr e))
      /\ (fst (GetAddr e) = ncclSuccess -> fst (fst (fst res)) = Ret ncclSuccess)
      /\ (fst (GetAddr e) <> ncclSuccess -> fst (fst (fst res)) = Ret ncclInvalidArgument))
  /\ (fst getRandomData <> Ret ncclSuccess ->
      fst (fst (fst res)) = fst getRandomData
      /\ snd (fst res) = mkHandle (snd getRandomData) (zeros asz)).
Proof.
  cbn zeta. unfold bootstrapGetUniqueId. destruct getRandomData as [s magic].
  cbn [fst snd handle_addr handle_magic].
  destruct s as [[]| | |]; cbn [ok negb];
    try (cbn; repeat split; intros; congruence).
  destruct (GetAddr e) as [res addr]. cbn [fst snd].
  destruct res; cbn; repeat split; intros; congruence.
Qed.

(** X22.  Without [NCCL_COMM_ID], [bootstrapGetUniqueId] starts the root
    on a socket of its own.  When the random magic is obtained, the system
    gives a listening socket [L] and the thread can be created and
    detached, the call returns [ncclSuccess]; the handle holds the random
    magic and the address [L] is bound to, and the root thread is started
    with the listening socket [L] and the same magic, so that what the
    ranks later send to the address in the handle arrives at that thread.
    No socket is closed. *)
Theorem bootstrapGetUniqueId_root
  (GetAddr : list byte -> ncclResult_t * list byte) (asz magic : Z)
  (g : netGlobals) (net : Net) (L : ncclSocket) (rest : list ncclSocket) :
  net_listen net = L :: rest ->
  bootstrapGetUniqueId GetAddr asz (Ret ncclSuccess, magic) None 0 0 g net
  = (Ret ncclSuccess,
     mkNet rest (net_reachable net) (net_closed net) (net_accept_error net),
     mkHandle magic (ncclSocketGetAddr asz L),
     Some (mkRootArgs (mkSocket (sock_addr L) magic true [] [] (sock_acceptq L)) magic)).
Proof.
  intros HL. unfold bootstrapGetUniqueId, bootstrapCreateRoot, ncclSocketListen.
  cbn [ok negb handle_addr handle_magic]. rewrite HL. reflexivity.
Qed.

Lemma bootstrapGetUniqueId_root_witness :
  bootstrapGetUniqueId (fun _ => (ncclInvalidArgument, [])) 2 (Ret ncclSuccess, 9) None 0 0
                       (mkGlobals [] [x7f; x00] 1 false)
                       (mkNet [root3_listen] (fun _ => true) [] None)
  = (Ret ncclSuccess,
     mkNet [] (fun _ => true) [] None,
     mkHandle 9 (ncclSocketGetAddr 2 root3_listen),
     Some (mkRootArgs (mkSocket (sock_addr root3_listen) 9 true [] []
                                (sock_acceptq root3_listen)) 9)).
Proof.
  exact (bootstrapGetUniqueId_root (fun _ => (ncclInvalidArgument, [])) 2 9
           (mkGlobals [] [x7f; x00] 1 false)
           (mkNet [root3_listen] (fun _ => true) [] None) root3_listen [] eq_refl).
Defined.

(** X23.  How [bootstrapCreateRoot] can end.  It returns [ncclSuccess]
    exactly when the listen succeeds and both [pthread_create] and
    [pthread_detach] return 0.  The root thread runs exactly when the
    listen succeeds and [pthread_create] returns 0, and it is given the
    socket that listens and the magic of the handle: a failing
    [pthread_detach] makes the call return [ncclSystemError] although the
    thread has been started.  As soon as the listen succeeds, the address of
    the handle is the address the listening socket is bound to, on all three
    paths, also when no thread could be created; when the listen fails the
    handle is as before and the error of the listen is returned.  The magic
    of the handle is never changed, and the call closes no socket on any
    path. *)
Theorem bootstrapCreateRoot_outcomes
  (asz pthread_create pthread_detach : Z) (handle : ncclBootstrapHandle)
  (idFromEnv : bool) (net : Net) :
  let res := bootstrapCreateRoot asz pthread_create pthread_detach handle idFromEnv net in
  let status := fst (fst (fst res)) in
  let net' := snd (fst (fst res)) in
  let handle' := snd (fst res) in
  let lst := ncclSocketListen net
               (ncclSocketInit (handle_addr handle) (handle_magic handle)) in
  let listened := ok (fst (fst lst)) in
  (status = Ret ncclSuccess
   <-> listened = true /\ pthread_create = 0 /\ pthread_detach = 0)
  /\ (snd res <> None <-> listened = true /\ pthread_create = 0)
  /\ (forall args, snd res = Some args ->
        args_listenSock args = snd lst
        /\ args_magic args = handle_magic handle
        /\ sock_magic (args_listenSock args) = handle_magic handle)
  /\ (listened = true ->
        handle_addr handle' = ncclSocketGetAddr asz (snd lst)
        /\ net' = snd (fst lst))
  /\ (listened = false ->
        handle' = handle /\ status = fst (fst lst) /\ net' = snd (fst lst))
  /\ (listened = true -> pthread_create <> 0 \/ pthread_detach <> 0 ->
        status = Ret ncclSystemError)
  /\ handle_magic handle' = handle_magic handle
  /\ net_closed net' = net_closed net.
Proof.
  cbn zeta. unfold bootstrapCreateRoot, ncclSocketListen.
  destruct (net_listen net) as [|L rest]; cbn [ok negb fst snd].
  - cbn. repeat split; intros; intuition (try discriminate; try congruence).
  - destruct (Z.eqb_spec pthread_create 0) as [Hc|Hc]; cbn [negb];
      [destruct (Z.eqb_spec pthread_detach 0) as [Hd|Hd]; cbn [negb]|];
      cbn; repeat split; intros;
      try (match goal with H : Some _ = Some _ |- _ => injection H as <- end; reflexivity);
      intuition (try discriminate; try congruence).
Qed.

(* ================================================================== *)
(** ** Split *)

Lemma array_set_spec (a : list Z) (i v : Z) (a' : list Z) :
  array_set a i v = Some a' ->
  length a' = length a
  /\ array_get a' i = Some v
  /\ forall j, j <> i -> array_get a' j = array_get a j.
Proof.
  unfold array_set. destruct (_ && _) eqn:B; [|discriminate]. intros [= <-].
  apply andb_true_iff in B. destruct B as [B1 B2].
  apply Z.leb_le in B1. apply Z.ltb_lt in B2.
  assert (Hl : length (firstn (Z.to_nat i) a) = Z.to_nat i)
    by (rewrite length_firstn; lia).
  split; [|split].
  - rewrite length_app, Hl. cbn [length]. rewrite length_skipn. lia.
  - unfold array_get. replace (i <? 0) with false by zbool.
    rewrite nth_error_app2 by lia. rewrite Hl, Nat.sub_diag. reflexivity.
  - intros j Hj. unfold array_get. destruct (j <? 0) eqn:Hneg; [reflexivity|].
    apply Z.ltb_ge in Hneg.
    destruct (Z_lt_le_dec j i) as [Hlt|Hge].
    + rewrite nth_error_app1 by lia. rewrite nth_error_firstn.
      now replace (Z.to_nat j <? Z.to_nat i)%nat with true
        by (symmetry; apply Nat.ltb_lt; lia).
    + rewrite nth_error_app2 by lia. rewrite Hl.
      replace (Z.to_nat j - Z.to_nat i)%nat with (S (Z.to_nat j - (Z.to_nat i + 1))) by lia.
      cbn [nth_error]. rewrite nth_error_skipn. f_equal. lia.
Qed.

Lemma split_topParentRanks_spec (parentTop : list Z) (parentRanks : Z -> option Z)
  (todo : nat) :
  forall (i : Z) (a a' : list Z),
  0 <= i -> i + Z.of_nat todo <= INT_MAX ->
  split_topParentRanks todo i a parentTop parentRanks = Some a' ->
  length a' = length a
  /\ (forall j, i <= j < i + Z.of_nat todo ->
        exists pr v, parentRanks j = Some pr
                     /\ array_get parentTop pr = Some v
                     /\ array_get a' j = Some v)
  /\ (forall j, ~ (i <= j < i + Z.of_nat todo) -> array_get a' j = array_get a j).
Proof.
  induction todo as [|todo IH]; intros i a a' Hi Hmax E; cbn [split_topParentRanks] in E.
  - injection E as <-. repeat split; intros; lia || reflexivity.
  - destruct (parentRanks i) as [pr|] eqn:Hpr; [|discriminate].
    destruct (array_get parentTop pr) as [v|] eqn:Hv; [|discriminate].
    destruct (array_set a i v) as [a1|] eqn:Hs; [|discriminate].
    destruct (array_set_spec a i v a1 Hs) as (L1 & G1 & O1).
    rewrite int_add_small in E by (unfold is_int, INT_MIN, INT_MAX in *; lia).
    destruct (IH (i + 1) a1 a' ltac:(lia) ltac:(lia) E) as (L2 & G2 & O2).
    split; [congruence|]. split.
    + intros j Hj. destruct (Z.eq_dec j i) as [->|Hne].
      * exists pr, v. repeat split; try assumption. rewrite O2 by lia. exact G1.
      * apply G2. lia.
    + intros j Hj. rewrite O2 by lia. apply O1. lia.
Qed.

Lemma ncclAtomicRefCountIncrement_spec (store : list Z) (p : nat) (store' : list Z) :
  ncclAtomicRefCountIncrement store p = Some store' ->
  exists c, nth_error store p = Some c
            /\ nth_error store' p = Some (int_add c 1)
            /\ length store' = length store
            /\ forall q, q <> p -> nth_error store' q = nth_error store q.
Proof.
  unfold ncclAtomicRefCountIncrement.
  destruct (nth_error store p) as [c|] eqn:E; [|discriminate]. intros [= <-].
  assert (Hp : (p < length store)%nat) by (apply nth_error_Some; congruence).
  assert (Hl : length (firstn p store) = p) by (rewrite length_firstn; lia).
  exists c. split; [reflexivity|]. split; [|split].
  - rewrite nth_error_app2 by lia. now rewrite Hl, Nat.sub_diag.
  - rewrite length_app, Hl. cbn [length]. rewrite length_skipn. lia.
  - intros q Hq. destruct (Nat.lt_ge_cases q p) as [Hlt|Hge].
    + rewrite nth_error_app1 by lia. rewrite nth_error_firstn.
      now replace (q <? p)%nat with true by (symmetry; apply Nat.ltb_lt; lia).
    + rewrite nth_error_app2 by lia. rewrite Hl.
      replace (q - p)%nat with (S (q - (p + 1))) by lia.
      cbn [nth_error]. rewrite nth_error_skipn. f_equal. lia.
Qed.

(** [bootstrapRecv] changes nothing in the state but the queue of
    unexpected connections and the connections waiting at the listening
    socket, of which it takes some from the front. *)
Lemma set_acceptq_skipn_0 (st : bootstrapState) (q : list unexConn) :
  set_unexpectedConnections
    (set_listenSock st
       (set_acceptq (listenSock st) (skipn 0 (sock_acceptq (listenSock st))))) q
  = set_unexpectedConnections st q.
Proof. destruct st as [ls ? ? ? ? ? ? ? ? ? ?]. destruct ls. reflexivity. Qed.

Lemma bootstrapRecv_loop_state (pending : list ncclSocket) :
  forall (net : Net) (st : bootstrapState) (peer tag newPeer newTag : Z)
         (mem : list byte) (off size : Z),
  sock_acceptq (listenSock st) = pending ->
  exists n q,
    snd (snd (fst (bootstrapRecv_loop pending net st peer tag newPeer newTag mem off size)))
    = set_unexpectedConnections
        (set_listenSock st (set_acceptq (listenSock st) (skipn n pending))) q.
Proof.
  induction pending as [|conn pending IH];
    intros net st peer tag newPeer newTag mem off size Hq.
  - exists 0%nat, (unexpectedConnections st). cbn [bootstrapRecv_loop].
    destruct (close_and_return _ net ncclSocketInit0) as [r net']. cbn [fst snd].
    rewrite <- Hq, set_acceptq_skipn_0. now destruct st.
  - cbn [bootstrapRecv_loop].
    assert (Hleave : forall (s : status) (sock : ncclSocket) (m : list byte),
              exists n q,
                snd (snd (fst (let '(r, net') := close_and_return s net sock in
                               (r, (net', set_listenSock st
                                            (set_acceptq (listenSock st) pending)), m))))
                = set_unexpectedConnections
                    (set_listenSock st
                       (set_acceptq (listenSock st) (skipn n (conn :: pending)))) q).
    { intros s sock m. exists 1%nat, (unexpectedConnections st).
      destruct (close_and_return s net sock) as [r net']. cbn. reflexivity. }
    destruct (bootstrapNetRecv conn (int_to_bytes newPeer) 0 SIZEOF_INT) as [[s1 k1] b1].
    destruct (ok s1); cbn [negb]; [|apply Hleave].
    destruct (bootstrapNetRecv k1 (int_to_bytes newTag) 0 SIZEOF_INT) as [[s2 k2] b2].
    destruct (ok s2); cbn [negb]; [|apply Hleave].
    destruct ((bytes_to_int b1 =? peer) && (bytes_to_int b2 =? tag)).
    + destruct (bootstrapNetRecv k2 mem off size) as [[s3 k3] m3]. apply Hleave.
    + unfold unexpectedEnqueue. cbn [ok negb].
      match goal with
      | |- context [bootstrapRecv_loop pending net ?st1 peer tag ?np ?nt mem off size] =>
          destruct (IH net st1 peer tag np nt mem off size eq_refl) as (n & q & E)
      end.
      exists (S n), q. rewrite E. reflexivity.
Qed.

Lemma bootstrapRecv_state (newPeer0 newTag0 : Z) (net : Net) (st : bootstrapState)
  (peer tag : Z) (mem : list byte) (off size : Z) :
  exists n q,
    snd (snd (fst (bootstrapRecv newPeer0 newTag0 (net, st) peer tag mem off size)))
    = set_unexpectedConnections
        (set_listenSock st
           (set_acceptq (listenSock st) (skipn n (sock_acceptq (listenSock st))))) q.
Proof.
  unfold bootstrapRecv, unexpectedDequeue.
  destruct (unexpected_scan (unexpectedConnections st) peer tag) as [[sock rest]|];
    cbn [ok negb].
  - change (1 =? 0) with false. cbv iota.
    destruct (bootstrapNetRecv sock mem off size) as [[s k] m].
    destruct (close_and_return s net k) as [r net']. cbn [fst snd].
    exists 0%nat, rest. now rewrite set_acceptq_skipn_0.
  - change (0 =? 0) with true. cbv iota. now apply bootstrapRecv_loop_state.
Qed.

(** X24.  The exchange of [bootstrapSplit] with its two neighbours.  Let
    rank [rank] of a new communicator of [nranks <= 2^30] ranks get its
    listening socket [L], to which its predecessor in the new ring has
    connected.  Its neighbours are [prev = parentRanks[(rank-1) mod nranks]]
    and [next = parentRanks[(rank+1) mod nranks]].  Through the bootstrap
    state of the parent it sends the address of [L] to [prev] and receives
    from [next], both with the tag -2; if [prev] is reachable and the
    message of [next] arrives at the listening socket of the parent (behind
    any number of other messages, which are put into the queue of unexpected
    connections of the parent), this part succeeds: [ringSendSocket] is a
    socket to the address [next] has sent, [ringRecvSocket] is the
    connection of the predecessor, the two connections used for the exchange
    are closed, and in the parent nothing has changed but its listening
    socket and its queue. *)
Theorem bootstrapSplit_ring_exchange
  (asz : Z) (g : netGlobals) (newPeer0 newTag0 : Z) (tmpAddr0 : list byte) (f : Z -> Z)
  (net : Net) (st : bootstrapState) (parent : ncclCommTop) (pst : bootstrapState)
  (L prevconn conn : ncclSocket) (restL q prest : list ncclSocket)
  (ptab paddr nextAddr : list byte) (arrivals : list arrival) :
  let rank := st_rank st in
  let nranks := st_nranks st in
  let prev := f ((rank - 1) mod nranks) in
  let next := f ((rank + 1) mod nranks) in
  0 < asz <= INT_MAX -> 1 <= nranks <= 1073741824 -> 0 <= rank < nranks ->
  net_listen net = L :: restL ->
  sock_acceptq L = prevconn :: q ->
  comm_bootstrap (top_comm parent) = Some pst ->
  peerCommAddresses pst = Some ptab ->
  mem_read ptab (prev * asz) asz = Some paddr ->
  net_reachable net paddr = true ->
  is_int next ->
  Forall (unex_other next (-2)) (unexpectedConnections pst) ->
  Forall (arrival_other next (-2)) arrivals ->
  sock_acceptq (listenSock pst) = map arrival_conn arrivals ++ conn :: prest ->
  sock_rx conn
  = frame SIZEOF_INT (int_to_bytes next) ++ frame SIZEOF_INT (int_to_bytes (-2))
    ++ frame asz nextAddr ->
  Z.of_nat (length nextAddr) = asz ->
  Z.of_nat (length tmpAddr0) = asz ->
  net_reachable net nextAddr = true ->
  bootstrapSplit_ring asz g newPeer0 newTag0 tmpAddr0 (int_array nranks f) net st parent
  = (Ret ncclSuccess,
     mkNet restL (net_reachable net)
       (net_closed net
        ++ [ mkSocket paddr (st_magic pst) false []
               (frame SIZEOF_INT (int_to_bytes (st_rank pst))
                ++ frame SIZEOF_INT (int_to_bytes (-2))
                ++ frame asz (ncclSocketGetAddr asz L)) [];
             set_open (set_rx conn []) false ]) (net_accept_error net),
     mkState (mkSocket (sock_addr L) (st_magic st) true [] [] q)
             prevconn
             (ncclSocketInit nextAddr (st_magic st))
             (peerCommAddresses st) (peerProxyAddresses st) (unexpectedConnections st)
             (st_cudaDev st) (st_rank st) (st_nranks st) (st_magic st) (st_abortFlag st),
     set_top_comm parent
       (set_comm_bootstrap (top_comm parent)
          (set_unexpectedConnections
             (set_listenSock pst (set_acceptq (listenSock pst) prest))
             (unexpectedConnections pst ++ map arrival_unex arrivals)))).
Proof.
  intros rank nranks prev next Ha Hn Hr HL HQ Hpb Hpt Hpa Hpre Hnext Hunex Harr Hacc Hrx
         Hln Hl0 Hnre.
  unfold bootstrapSplit_ring. fold rank nranks.
  replace (nranks =? 0) with false by zbool.
  rewrite (round_src rank nranks 1), (round_dst rank nranks 1) by lia.
  rewrite !int_array_in by (apply mod_range; lia). fold prev next.
  cbn [listenSock set_listenSock set_ringRecvSocket].
  unfold ncclSocketListen. rewrite HL. cbn [ok negb]. rewrite Hpb.
  cbn [listenSock set_listenSock].
  change (ncclSocketGetAddr asz
            (mkSocket (sock_addr L)
               (sock_magic (ncclSocketInit (bootstrapNetIfAddr g) (st_magic st)))
               true [] [] (sock_acceptq L)))
    with (ncclSocketGetAddr asz L).
  rewrite (bootstrapSend_success asz (mkNet restL (net_reachable net) (net_closed net) (net_accept_error net))
             pst prev (-2) (ncclSocketGetAddr asz L) 0 asz
             ptab paddr (ncclSocketGetAddr asz L) Hpt Hpa Hpre).
  2:{ apply mem_read_whole. apply length_ncclSocketGetAddr. lia. }
  cbn [ok negb net_listen net_reachable net_closed].
  unfold bootstrapRecv at 1. unfold unexpectedDequeue.
  rewrite (unexpected_scan_none _ _ _ Hunex). cbn [ok negb]. cbn [Z.eqb].
  rewrite Hacc, (announce_of_rx conn _ _ _ Hrx).
  rewrite bootstrapRecv_loop_arrivals by (assumption || (unfold is_int, INT_MIN, INT_MAX; lia)).
  rewrite (netrecv_frame (set_rx conn (frame asz nextAddr)) tmpAddr0 0 asz nextAddr []
             nextAddr ltac:(unfold INT_MAX in *; lia) Hln).
  2:{ cbn. now rewrite app_nil_r. }
  2:{ apply mem_write_whole. lia. }
  unfold close_and_return, ncclSocketClose. cbn [ok negb].
  cbn [ringSendSocket set_ringSendSocket].
  unfold ncclSocketConnect. cbn [ncclSocketInit sock_addr net_reachable].
  rewrite Hnre. cbn [ok negb].
  unfold ncclSocketAccept. cbn [listenSock sock_acceptq]. rewrite HQ. cbn [ok negb].
  cbn. rewrite <- !app_assoc. reflexivity.
Qed.

Lemma bootstrapSplit_ring_exchange_witness :
  bootstrapSplit_ring 2 split2_globals 0 0 [x00; x00]
    (int_array (st_nranks
                  (mkState ncclSocketInit0 ncclSocketInit0 ncclSocketInit0 None None []
                           0 1 2 9 0))
               (fun i => 2 * i))
    split2_net
    (mkState ncclSocketInit0 ncclSocketInit0 ncclSocketInit0 None None [] 0 1 2 9 0)
    (split2_parent 1)
  = (Ret ncclSuccess,
     mkNet [mkSocket [xc1; xc1] 0 true [] [] []] (net_reachable split2_net)
       (net_closed split2_net
        ++ [ mkSocket [xa0; xa0] (st_magic split2_pst) false []
               (frame SIZEOF_INT (int_to_bytes (st_rank split2_pst))
                ++ frame SIZEOF_INT (int_to_bytes (-2))
                ++ frame 2 (ncclSocketGetAddr 2
                              (mkSocket [xb1; xb1] 0 true [] [] [split2_prevconn]))) [];
             set_open
               (set_rx (announce 0 (-2) (mkSocket [] 0 true (frame 2 [xb0; xb0]) [] [])) [])
               false ]) (net_accept_error split2_net),
     mkState (mkSocket [xb1; xb1] 9 true [] [] [])
             split2_prevconn
             (ncclSocketInit [xb0; xb0] 9)
             None None [] 0 1 2 9 0,
     set_top_comm (split2_parent 1)
       (set_comm_bootstrap (top_comm (split2_parent 1))
          (set_unexpectedConnections
             (set_listenSock split2_pst (set_acceptq (listenSock split2_pst) []))
             (unexpectedConnections split2_pst
              ++ map arrival_unex
                     [(3, 9, mkSocket [] 0 true (frame 2 [x78; x78]) [] [])])))).
Proof.
  apply (bootstrapSplit_ring_exchange 2 split2_globals 0 0 [x00; x00] (fun i => 2 * i)
           split2_net
           (mkState ncclSocketInit0 ncclSocketInit0 ncclSocketInit0 None None [] 0 1 2 9 0)
           (split2_parent 1) split2_pst
           (mkSocket [xb1; xb1] 0 true [] [] [split2_prevconn])
           split2_prevconn
           (announce 0 (-2) (mkSocket [] 0 true (frame 2 [xb0; xb0]) [] []))
           [mkSocket [xc1; xc1] 0 true [] [] []] [] []
           [xa0; xa0; xa1; xa1; xa2; xa2; xa3; xa3] [xa0; xa0] [xb0; xb0]
           [(3, 9, mkSocket [] 0 true (frame 2 [x78; x78]) [] [])]).
  - unfold INT_MAX. lia.
  - cbn. lia.
  - cbn. lia.
  - reflexivity.
  - reflexivity.
  - reflexivity.
  - reflexivity.
  - reflexivity.
  - reflexivity.
  - unfold is_int, INT_MIN, INT_MAX. cbn. lia.
  - constructor.
  - constructor; [|constructor]. unfold arrival_other, is_int, INT_MIN, INT_MAX. lia.
  - reflexivity.
  - reflexivity.
  - reflexivity.
  - reflexivity.
  - reflexivity.
Defined.

Lemma close_and_return_listen (ret : status) (net : Net) (sock : ncclSocket) :
  net_listen (snd (close_and_return ret net sock)) = net_listen net.
Proof. destruct ret as [r| | |]; reflexivity. Qed.

Lemma bootstrapSend_listen (asz : Z) (net : Net) (st : bootstrapState) (peer tag : Z)
  (mem : list byte) (off size : Z) :
  net_listen (fst (snd (bootstrapSend asz (net, st) peer tag mem off size)))
  = net_listen net.
Proof.
  unfold bootstrapSend.
  destruct (peerCommAddresses st) as [table|]; [|reflexivity].
  destruct (mem_read table (peer * asz) asz) as [addr|]; [|reflexivity].
  repeat match goal with
         | |- context [if negb (ok ?s) then _ else _] => destruct (negb (ok s))
         | |- context [let '(_, _) := bootstrapNetSend ?a ?b ?c ?d in _] =>
             destruct (bootstrapNetSend a b c d)
         end;
    match goal with
    | |- context [close_and_return ?s net ?k] =>
        pose proof (close_and_return_listen s net k) as H;
        destruct (close_and_return s net k); exact H
    end.
Qed.

Lemma bootstrapRecv_loop_listen (pending : list ncclSocket) :
  forall (net : Net) (st : bootstrapState) (peer tag newPeer newTag : Z)
         (mem : list byte) (off size : Z),
  net_listen (fst (snd (fst (bootstrapRecv_loop pending net st peer tag newPeer newTag
                                                mem off size))))
  = net_listen net.
Proof.
  induction pending as [|conn pending IH];
    intros net st peer tag newPeer newTag mem off size.
  { cbn [bootstrapRecv_loop].
    pose proof (close_and_return_listen (accept_idle net) net ncclSocketInit0) as H.
    destruct (close_and_return _ net ncclSocketInit0). exact H. }
  cbn [bootstrapRecv_loop].
  assert (Hleave : forall (s : status) (sock : ncclSocket) (m : list byte)
                          (st1 : bootstrapState),
            net_listen (fst (snd (fst (let '(r, net') := close_and_return s net sock in
                                       (r, (net', st1), m)))))
            = net_listen net).
  { intros s sock m st1. pose proof (close_and_return_listen s net sock) as H.
    destruct (close_and_return s net sock). exact H. }
  destruct (bootstrapNetRecv conn (int_to_bytes newPeer) 0 SIZEOF_INT) as [[s1 k1] b1].
  destruct (ok s1); cbn [negb]; [|apply Hleave].
  destruct (bootstrapNetRecv k1 (int_to_bytes newTag) 0 SIZEOF_INT) as [[s2 k2] b2].
  destruct (ok s2); cbn [negb]; [|apply Hleave].
  destruct ((bytes_to_int b1 =? peer) && (bytes_to_int b2 =? tag)).
  - destruct (bootstrapNetRecv k2 mem off size) as [[s3 k3] m3]. apply Hleave.
  - unfold unexpectedEnqueue. cbn [ok negb]. apply IH.
Qed.

Lemma bootstrapRecv_listen (newPeer0 newTag0 : Z) (net : Net) (st : bootstrapState)
  (peer tag : Z) (mem : list byte) (off size : Z) :
  net_listen (fst (snd (fst (bootstrapRecv newPeer0 newTag0 (net, st) peer tag
                                           mem off size))))
  = net_listen net.
Proof.
  unfold bootstrapRecv, unexpectedDequeue.
  destruct (unexpected_scan (unexpectedConnections st) peer tag) as [[sock rest]|];
    cbn [ok negb].
  - change (1 =? 0) with false. cbv iota.
    destruct (bootstrapNetRecv sock mem off size) as [[s k] m].
    pose proof (close_and_return_listen s net k) as H.
    destruct (close_and_return s net k). exact H.
  - change (0 =? 0) with true. cbv iota. apply bootstrapRecv_loop_listen.
Qed.

Lemma parent_same_but_queue_set (parent : ncclCommTop) (pst : bootstrapState)
  (n : nat) (q : list unexConn) :
  comm_bootstrap (top_comm parent) = Some pst ->
  parent_same_but_queue parent
    (set_top_comm parent
       (set_comm_bootstrap (top_comm parent)
          (set_unexpectedConnections
             (set_listenSock pst
                (set_acceptq (listenSock pst) (skipn n (sock_acceptq (listenSock pst)))))
             q))).
Proof.
  intros H. unfold parent_same_but_queue. rewrite H. cbn.
  repeat split. now exists n, q.
Qed.

Lemma parent_same_but_queue_refl (parent : ncclCommTop) :
  parent_same_but_queue parent parent.
Proof.
  unfold parent_same_but_queue. repeat split.
  destruct (comm_bootstrap (top_comm parent)) as [pst|]; [|reflexivity].
  exists 0%nat, (unexpectedConnections pst). rewrite set_acceptq_skipn_0. now destruct pst.
Qed.

(** What the first part of [bootstrapSplit] can change. *)
Lemma bootstrapSplit_ring_keeps (asz : Z) (g : netGlobals) (newPeer0 newTag0 : Z)
  (tmpAddr0 : list byte) (parentRanks : Z -> option Z) (net : Net)
  (st : bootstrapState) (parent : ncclCommTop) :
  let res := bootstrapSplit_ring asz g newPeer0 newTag0 tmpAddr0 parentRanks net st parent in
  let s := fst (fst (fst res)) in
  let net' := snd (fst (fst res)) in
  let st' := snd (fst res) in
  st_rank st' = st_rank st /\ st_nranks st' = st_nranks st
  /\ st_magic st' = st_magic st /\ st_abortFlag st' = st_abortFlag st
  /\ peerCommAddresses st' = peerCommAddresses st
  /\ peerProxyAddresses st' = peerProxyAddresses st
  /\ parent_same_but_queue parent (snd res)
  /\ (s = Ret ncclSuccess ->
      (exists L, net_listen net = L :: net_listen net')
      /\ comm_bootstrap (top_comm parent) <> None
      /\ sock_magic (ringSendSocket st') = st_magic st
      /\ sock_magic (listenSock st') = st_magic st).
Proof.
  cbn zeta. unfold bootstrapSplit_ring.
  assert (Hstop : forall (s : status) (n : Net) (st1 : bootstrapState) (p : ncclCommTop),
            s <> Ret ncclSuccess ->
            st_rank st1 = st_rank st -> st_nranks st1 = st_nranks st ->
            st_magic st1 = st_magic st -> st_abortFlag st1 = st_abortFlag st ->
            peerCommAddresses st1 = peerCommAddresses st ->
            peerProxyAddresses st1 = peerProxyAddresses st ->
            parent_same_but_queue parent p ->
            let res := (s, n, st1, p) in
            st_rank (snd (fst res)) = st_rank st /\ st_nranks (snd (fst res)) = st_nranks st
            /\ st_magic (snd (fst res)) = st_magic st
            /\ st_abortFlag (snd (fst res)) = st_abortFlag st
            /\ peerCommAddresses (snd (fst res)) = peerCommAddresses st
            /\ peerProxyAddresses (snd (fst res)) = peerProxyAddresses st
            /\ parent_same_but_queue parent (snd res)
            /\ (fst (fst (fst res)) = Ret ncclSuccess ->
                (exists L, net_listen net = L :: net_listen (snd (fst (fst res))))
                /\ comm_bootstrap (top_comm parent) <> None
                /\ sock_magic (ringSendSocket (snd (fst res))) = st_magic st
                /\ sock_magic (listenSock (snd (fst res))) = st_magic st)).
  { intros s n st1 p Hs H1 H2 H3 H4 H5 H6 H7. cbn.
    repeat (split; [assumption|]). intros E. contradiction. }
  assert (Hnot : forall s : status, ok s = false -> s <> Ret ncclSuccess).
  { intros s H ->. discriminate. }
  destruct (st_nranks st =? 0);
    [apply Hstop; auto using parent_same_but_queue_refl; discriminate|].
  destruct (parentRanks _) as [prev|];
    [|apply Hstop; auto using parent_same_but_queue_refl; discriminate].
  destruct (parentRanks _) as [next|];
    [|apply Hstop; auto using parent_same_but_queue_refl; discriminate].
  cbn [listenSock set_listenSock set_ringRecvSocket].
  unfold ncclSocketListen.
  destruct (net_listen net) as [|L restL] eqn:HL; cbn [ok negb];
    [apply Hstop; cbn; auto using parent_same_but_queue_refl; discriminate|].
  destruct (comm_bootstrap (top_comm parent)) as [pst|] eqn:Hpb;
    [|apply Hstop; cbn; auto using parent_same_but_queue_refl; discriminate].
  cbn [listenSock set_listenSock].
  match goal with
  | |- context [bootstrapSend asz (?n, pst) prev (-2) ?m 0 asz] =>
      pose proof (bootstrapSend_state asz n pst prev (-2) m 0 asz) as HS1;
      pose proof (bootstrapSend_listen asz n pst prev (-2) m 0 asz) as HS2;
      destruct (bootstrapSend asz (n, pst) prev (-2) m 0 asz) as [s1 [net1 pst1]]
  end.
  cbn [fst snd net_listen] in HS1, HS2. subst pst1.
  assert (Hp1 : parent_same_but_queue parent
                  (set_top_comm parent (set_comm_bootstrap (top_comm parent) pst))).
  { pose proof (parent_same_but_queue_set parent pst 0 (unexpectedConnections pst) Hpb)
      as Hp.
    rewrite set_acceptq_skipn_0 in Hp.
    now replace (set_unexpectedConnections pst (unexpectedConnections pst))
      with pst in Hp by now destruct pst. }
  destruct (ok s1) eqn:O1; cbn [negb]; [|apply Hstop; cbn; auto].
  pose proof (bootstrapRecv_state newPeer0 newTag0 net1 pst next (-2) tmpAddr0 0 asz)
    as (nq & q & HR1).
  pose proof (bootstrapRecv_listen newPeer0 newTag0 net1 pst next (-2) tmpAddr0 0 asz) as HR2.
  destruct (bootstrapRecv newPeer0 newTag0 (net1, pst) next (-2) tmpAddr0 0 asz)
    as [[s2 [net2 pst2]] tmpAddr].
  cbn [fst snd] in HR1, HR2. subst pst2.
  assert (Hp2 : parent_same_but_queue parent
                  (set_top_comm
                     (set_top_comm parent (set_comm_bootstrap (top_comm parent) pst))
                     (set_comm_bootstrap
                        (top_comm (set_top_comm parent
                                     (set_comm_bootstrap (top_comm parent) pst)))
                        (set_unexpectedConnections
                           (set_listenSock pst
                              (set_acceptq (listenSock pst)
                                 (skipn nq (sock_acceptq (listenSock pst)))))
                           q)))).
  { exact (parent_same_but_queue_set parent pst nq q Hpb). }
  destruct (ok s2) eqn:O2; cbn [negb]; [|apply Hstop; cbn; auto].
  cbn [ringSendSocket set_ringSendSocket].
  destruct (ok (ncclSocketConnect net2 _)) eqn:O3; cbn [negb];
    [|apply Hstop; cbn; auto].
  unfold ncclSocketAccept.
  cbn [listenSock sock_acceptq set_ringSendSocket set_listenSock set_ringRecvSocket].
  destruct (sock_acceptq L) as [|c qq]; cbn [ok negb].
  { rewrite accept_idle_not_ok. cbn [negb].
    apply Hstop; cbn; auto. apply Hnot, accept_idle_not_ok. }
  cbn - [parent_same_but_queue].
  repeat (split; [first [assumption | reflexivity]|]).
  intros _. split; [exists L; congruence|]. split; [discriminate|]. now split.
Qed.

Lemma bootstrapSplit_shareProxy_store (nranks : Z) (comm parent : ncclCommTop)
  (parentRanks : Z -> option Z) (store : list Z) :
  let res := bootstrapSplit_shareProxy nranks comm parent parentRanks store in
  (fst (fst res) <> Ret ncclSuccess /\ snd res = store)
  \/ (fst (fst res) = Ret ncclSuccess
      /\ exists p c,
           top_sharedProxyState parent = Some p
           /\ nth_error store p = Some c
           /\ nth_error (snd res) p = Some (int_add c 1)
           /\ length (snd res) = length store
           /\ forall q, q <> p -> nth_error (snd res) q = nth_error store q).
Proof.
  cbn zeta. unfold bootstrapSplit_shareProxy.
  destruct (split_topParentRanks _ _ _ _ _) as [tpr|]; [|left; split; [discriminate|reflexivity]].
  destruct (top_sharedProxyState parent) as [p|]; [|left; split; [discriminate|reflexivity]].
  destruct (ncclAtomicRefCountIncrement store p) as [store2|] eqn:HI;
    [|left; split; [discriminate|reflexivity]].
  right. split; [reflexivity|].
  destruct (ncclAtomicRefCountIncrement_spec store p store2 HI) as (c & C1 & C2 & C3 & C4).
  exists p, c. cbn [snd]. now repeat split.
Qed.

(** X25.  What [bootstrapSplit] does to the parent.  However the call
    ends, the parent communicator is as before but for two things in its
    bootstrap state: the connections waiting at its listening socket, of
    which some have been taken from the front, and its queue of unexpected
    connections.  Its ring sockets, its address tables, its rank, rank count
    and magic, its proxy, and the address, the magic and the state of its
    listening socket are not changed.  The reference count of the shared
    proxy state of the parent goes up by one exactly when the parent asks
    for sharing and the call returns [ncclSuccess], every other count
    staying as it is; on every other path the store of proxy states is as
    before.  A parent without a bootstrap state makes the call fail. *)
Theorem bootstrapSplit_parent (asz : Z) (g : netGlobals) (newPeer0 newTag0 : Z)
  (tmpAddr0 : list byte) (callocState : ncclResult_t) (handle : ncclBootstrapHandle)
  (comm parent : ncclCommTop)
  (color key : Z) (parentRanks : Z -> option Z) (net : Net) (store : list Z) :
  let res := bootstrapSplit asz g newPeer0 newTag0 tmpAddr0 callocState handle comm parent
                            color key parentRanks net store in
  let status := fst (fst (fst (fst res))) in
  let parent' := snd (fst res) in
  let store' := snd res in
  parent_same_but_queue parent parent'
  /\ (comm_bootstrap (top_comm parent) = None -> status <> Ret ncclSuccess)
  /\ (forall pst pst',
        comm_bootstrap (top_comm parent) = Some pst ->
        comm_bootstrap (top_comm parent') = Some pst' ->
        ringSendSocket pst' = ringSendSocket pst
        /\ ringRecvSocket pst' = ringRecvSocket pst
        /\ peerCommAddresses pst' = peerCommAddresses pst
        /\ peerProxyAddresses pst' = peerProxyAddresses pst
        /\ st_rank pst' = st_rank pst /\ st_nranks pst' = st_nranks pst
        /\ st_magic pst' = st_magic pst
        /\ sock_addr (listenSock pst') = sock_addr (listenSock pst)
        /\ sock_magic (listenSock pst') = sock_magic (listenSock pst)
        /\ sock_open (listenSock pst') = sock_open (listenSock pst)
        /\ exists n, sock_acceptq (listenSock pst') = skipn n (sock_acceptq (listenSock pst)))
  /\ (status <> Ret ncclSuccess \/ top_splitShare parent = 0 -> store' = store)
  /\ (status = Ret ncclSuccess -> top_splitShare parent <> 0 ->
      exists p c,
        top_sharedProxyState parent = Some p
        /\ nth_error store p = Some c
        /\ nth_error store' p = Some (int_add c 1)
        /\ length store' = length store
        /\ forall q, q <> p -> nth_error store' q = nth_error store q).
Proof.
  cbn zeta.
  set (res := bootstrapSplit asz g newPeer0 newTag0 tmpAddr0 callocState handle comm parent
                             color key parentRanks net store).
  assert (Hmain :
    parent_same_but_queue parent (snd (fst res))
    /\ (comm_bootstrap (top_comm parent) = None -> fst (fst (fst (fst res))) <> Ret ncclSuccess)
    /\ (fst (fst (fst (fst res))) <> Ret ncclSuccess \/ top_splitShare parent = 0 ->
        snd res = store)
    /\ (fst (fst (fst (fst res))) = Ret ncclSuccess -> top_splitShare parent <> 0 ->
        exists p c,
          top_sharedProxyState parent = Some p
          /\ nth_error store p = Some c
          /\ nth_error (snd res) p = Some (int_add c 1)
          /\ length (snd res) = length store
          /\ forall q, q <> p -> nth_error (snd res) q = nth_error store q)).
  { subst res. unfold bootstrapSplit.
    assert (Hexit : forall (s : status) (n : Net) (c p1 : ncclCommTop),
              parent_same_but_queue parent p1 ->
              (comm_bootstrap (top_comm parent) = None -> s <> Ret ncclSuccess) ->
              s <> Ret ncclSuccess \/ top_splitShare parent = 0 ->
              let res := (s, n, c, p1, store) in
              parent_same_but_queue parent (snd (fst res))
              /\ (comm_bootstrap (top_comm parent) = None ->
                  fst (fst (fst (fst res))) <> Ret ncclSuccess)
              /\ (fst (fst (fst (fst res))) <> Ret ncclSuccess \/ top_splitShare parent = 0 ->
                  snd res = store)
              /\ (fst (fst (fst (fst res))) = Ret ncclSuccess -> top_splitShare parent <> 0 ->
                  exists p c,
                    top_sharedProxyState parent = Some p
                    /\ nth_error store p = Some c
                    /\ nth_error (snd res) p = Some (int_add c 1)
                    /\ length (snd res) = length store
                    /\ forall q, q <> p -> nth_error (snd res) q = nth_error store q)).
    { intros s n c p1 HP HN HS. cbn [fst snd].
      split; [exact HP|]. split; [exact HN|]. split; [reflexivity|].
      intros E Hsh. destruct HS; contradiction. }
    assert (Hnot : forall s : status, ok s = false -> s <> Ret ncclSuccess).
    { intros s H ->. discriminate. }
    destruct (ok (Ret callocState)) eqn:Hcs; cbn [negb].
    2:{ apply Hexit; [apply parent_same_but_queue_refl|intros _; now apply Hnot|
                      left; now apply Hnot]. }
    match goal with
    | |- context [bootstrapSplit_ring ?a ?b ?c ?d ?e ?f ?n ?s ?p] =>
        pose proof (bootstrapSplit_ring_keeps a b c d e f n s p) as K;
        destruct (bootstrapSplit_ring a b c d e f n s p) as [[[s1 net1] st1] parent1]
    end.
    cbn zeta in K. cbn [fst snd] in K.
    destruct K as (_ & _ & _ & _ & _ & _ & KP & KS).
    destruct (ok s1) eqn:O1; cbn [negb].
    2:{ apply Hexit; [exact KP|intros _; now apply Hnot|left; now apply Hnot]. }
    apply ok_true in O1. subst s1. destruct (KS eq_refl) as (_ & Hnn & _).
    assert (HN : forall s : status,
              comm_bootstrap (top_comm parent) = None -> s <> Ret ncclSuccess)
      by (intros s E; contradiction).
    destruct (ncclCalloc _ asz) as [t0|]; [|apply Hexit; auto; left; discriminate].
    destruct (mem_write t0 _ _) as [t1|]; [|apply Hexit; auto; left; discriminate].
    destruct (bootstrapAllGather _ t1 asz) as [[s2 st2] t2].
    destruct (ok s2) eqn:O2; cbn [negb]; [|apply Hexit; auto; left; now apply Hnot].
    assert (Hsh : top_splitShare parent1 = top_splitShare parent) by apply KP.
    assert (Hsp : top_sharedProxyState parent1 = top_sharedProxyState parent) by apply KP.
    destruct (Z.eqb_spec (top_splitShare parent1) 0) as [Hz|Hnz]; cbn [negb].
    - destruct (bootstrapSplit_newProxy asz g net1 _ _) as [[s n2] c].
      apply Hexit; auto. right. congruence.
    - match goal with
      | |- context [bootstrapSplit_shareProxy ?a ?b ?c ?d ?e] =>
          pose proof (bootstrapSplit_shareProxy_store a b c d e) as HS;
          destruct (bootstrapSplit_shareProxy a b c d e) as [[s c2] store2]
      end.
      cbn zeta in HS. cbn [fst snd] in HS. cbn [fst snd].
      split; [exact KP|]. split; [apply HN|].
      destruct HS as [[Hs ->]|(-> & p & c & H1 & H2 & H3 & H4 & H5)].
      + split; [reflexivity|]. intros E. contradiction.
      + split.
        * intros [E|E]; [now contradiction E|congruence].
        * intros _ _. exists p, c. rewrite <- Hsp. now repeat split. }
  destruct Hmain as (HP & HN & HS1 & HS2).
  split; [exact HP|]. split; [exact HN|]. split; [|split; assumption].
  intros pst pst' E E'. unfold parent_same_but_queue in HP.
  destruct HP as (_ & _ & _ & _ & _ & _ & _ & _ & HB). rewrite E in HB.
  destruct HB as (n & q & HB). rewrite E' in HB. injection HB as ->.
  cbn. repeat split. now exists n.
Qed.

(** How a [bootstrapSplit] that returns [ncclSuccess] got to the choice
    of the proxy. *)
Lemma bootstrapSplit_gathered (asz : Z) (g : netGlobals) (newPeer0 newTag0 : Z)
  (tmpAddr0 : list byte) (callocState : ncclResult_t) (handle : ncclBootstrapHandle)
  (comm parent : ncclCommTop)
  (color key : Z) (parentRanks : Z -> option Z) (net : Net) (store : list Z)
  (net' : Net) (comm' parent' : ncclCommTop) (store' : list Z) :
  0 < asz <= INT_MAX ->
  comm_nRanks (top_comm comm) <= INT_MAX ->
  bootstrapSplit asz g newPeer0 newTag0 tmpAddr0 callocState handle comm parent color key
                 parentRanks net store
  = (Ret ncclSuccess, net', comm', parent', store') ->
  exists net1 st table,
    (exists L, net_listen net = L :: net_listen net1)
    /\ st_rank st = comm_rank (top_comm comm)
    /\ st_nranks st = comm_nRanks (top_comm comm)
    /\ st_magic st = handle_magic handle
    /\ peerCommAddresses st = Some table
    /\ peerProxyAddresses st = None
    /\ mem_read table (st_rank st * asz) asz = Some (ncclSocketGetAddr asz (listenSock st))
    /\ parent_same_but_queue parent parent'
    /\ (let comm1 := set_top_comm comm (set_comm_magic (top_comm comm) (handle_magic handle)) in
        if negb (top_splitShare parent' =? 0) then
          let '(s, comm2, store2) :=
            bootstrapSplit_shareProxy (comm_nRanks (top_comm comm)) comm1 parent'
                                      parentRanks store in
          (s, net1, set_top_comm comm2 (set_comm_bootstrap (top_comm comm2) st), store2)
        else
          let '(s, net2, c) := bootstrapSplit_newProxy asz g net1 st (top_comm comm1) in
          (s, net2, set_top_comm comm1 c, store))
       = (Ret ncclSuccess, net', comm', store').
Proof.
  intros Ha Hn E. unfold bootstrapSplit in E.
  passed (Ret callocState) E.
  match type of E with
  | context [bootstrapSplit_ring ?a ?b ?c ?d ?e ?f ?n ?s ?p] =>
      pose proof (bootstrapSplit_ring_keeps a b c d e f n s p) as K;
      destruct (bootstrapSplit_ring a b c d e f n s p) as [[[s1 net1] st1] parent1]
  end.
  cbn zeta in K. cbn [fst snd st_rank st_nranks st_magic st_abortFlag
                      peerCommAddresses peerProxyAddresses] in K.
  destruct K as (K1 & K2 & K3 & K4 & K5 & K6 & KP & KS).
  passed s1 E. apply ok_true in O0. subst s1.
  destruct (KS eq_refl) as (KL & _ & _ & _).
  destruct (ncclCalloc (comm_nRanks (top_comm comm)) asz) as [t0|] eqn:HC; [|discriminate].
  destruct (mem_write t0 _ _) as [t1|] eqn:HW; [|discriminate].
  destruct (bootstrapAllGather _ t1 asz) as [[s2 st2] t2] eqn:HG.
  match type of HG with bootstrapAllGather ?st _ _ = _ =>
    pose proof (bootstrapAllGather_fields st t1 asz) as HS;
    pose proof (gather_keeps_address asz st t0 t1 (ncclSocketGetAddr asz (listenSock st1))
                  s2 st2 t2 Ha) as HK end.
  rewrite HG in HS. unfold same_but_ring in HS. cbn in HS, HK.
  destruct HS as (HL & _ & HPx & _ & HR & HN & HM & _).
  rewrite K2 in HK. rewrite K1 in HK.
  assert (Ha0 : 0 <= asz) by lia.
  specialize (HK Hn HC (length_ncclSocketGetAddr _ _ Ha0) HW HG).
  passed s2 E.
  exists net1, (set_peerCommAddresses st2 (Some t2)), t2.
  cbn [st_rank st_nranks st_magic peerCommAddresses peerProxyAddresses
       set_peerCommAddresses listenSock].
  rewrite HR, HN, HM, HL, HPx, K1, K2, K3, K6.
  split; [exact KL|]. split; [reflexivity|]. split; [reflexivity|].
  split; [reflexivity|]. split; [reflexivity|]. split; [reflexivity|].
  split; [exact HK|].
  assert (parent' = parent1 /\
          (let comm1 := set_top_comm comm (set_comm_magic (top_comm comm) (handle_magic handle)) in
           if negb (top_splitShare parent1 =? 0) then
             let '(s, comm2, store2) :=
               bootstrapSplit_shareProxy (comm_nRanks (top_comm comm)) comm1 parent1
                                         parentRanks store in
             (s, net1, set_top_comm comm2
                         (set_comm_bootstrap (top_comm comm2)
                            (set_peerCommAddresses st2 (Some t2))), store2)
           else
             let '(s, net2, c) :=
               bootstrapSplit_newProxy asz g net1 (set_peerCommAddresses st2 (Some t2))
                                       (top_comm comm1) in
             (s, net2, set_top_comm comm1 c, store))
          = (Ret ncclSuccess, net', comm', store')) as [-> HT].
  { cbn zeta. destruct (negb (top_splitShare parent1 =? 0)).
    - destruct (bootstrapSplit_shareProxy _ _ parent1 parentRanks store) as [[s c2] st2'].
      injection E as -> <- <- <- <-. now split.
    - destruct (bootstrapSplit_newProxy asz g net1 _ _) as [[s n2] c].
      injection E as -> <- <- <- <-. now split. }
  split; [exact KP|exact HT].
Qed.

(** X26.  A split that shares the proxy of its parent.  When the parent
    asks for sharing ([config.splitShare] is not 0) and [bootstrapSplit]
    returns [ncclSuccess]: the new state has the rank, the rank count and
    the magic it was given, and the slot [rank] of its [peerCommAddresses]
    holds the address of its own listening socket; it has no table of proxy
    addresses and no proxy socket of its own (exactly one socket was made
    to listen); its proxy state is the shared proxy state of the parent,
    whose reference count has gone up by one while every other count is as
    before; and [topParentRanks[i]] of the new communicator is
    [topParentRanks[parentRanks[i]]] of the parent for every [i < nranks]. *)
Theorem bootstrapSplit_shares_proxy (asz : Z) (g : netGlobals) (newPeer0 newTag0 : Z)
  (tmpAddr0 : list byte) (callocState : ncclResult_t) (handle : ncclBootstrapHandle)
  (comm parent : ncclCommTop)
  (color key : Z) (parentRanks : Z -> option Z) (net : Net) (store : list Z)
  (net' : Net) (comm' parent' : ncclCommTop) (store' : list Z) :
  0 < asz <= INT_MAX ->
  comm_nRanks (top_comm comm) <= INT_MAX ->
  top_splitShare parent <> 0 ->
  bootstrapSplit asz g newPeer0 newTag0 tmpAddr0 callocState handle comm parent color key
                 parentRanks net store
  = (Ret ncclSuccess, net', comm', parent', store') ->
  exists st table p c,
    comm_bootstrap (top_comm comm') = Some st
    /\ comm_magic (top_comm comm') = handle_magic handle
    /\ st_rank st = comm_rank (top_comm comm)
    /\ st_nranks st = comm_nRanks (top_comm comm)
    /\ st_magic st = handle_magic handle
    /\ peerCommAddresses st = Some table
    /\ mem_read table (st_rank st * asz) asz = Some (ncclSocketGetAddr asz (listenSock st))
    /\ peerProxyAddresses st = None
    /\ comm_proxy (top_comm comm') = comm_proxy (top_comm comm)
    /\ (exists L, net_listen net = L :: net_listen net')
    /\ top_sharedProxyState parent = Some p
    /\ top_proxyState comm' = Some p
    /\ nth_error store p = Some c
    /\ nth_error store' p = Some (int_add c 1)
    /\ length store' = length store
    /\ (forall q, q <> p -> nth_error store' q = nth_error store q)
    /\ length (top_topParentRanks comm') = length (top_topParentRanks comm)
    /\ (forall i, 0 <= i < comm_nRanks (top_comm comm) ->
          exists pr v,
            parentRanks i = Some pr
            /\ array_get (top_topParentRanks parent) pr = Some v
            /\ array_get (top_topParentRanks comm') i = Some v).
Proof.
  intros Ha Hn Hshare E.
  destruct (bootstrapSplit_gathered _ _ _ _ _ _ _ _ _ _ _ _ _ _ _ _ _ _ Ha Hn E)
    as (net1 & st & table & KL & R1 & R2 & R3 & HT & HPx & HK & KP & T).
  unfold parent_same_but_queue in KP.
  destruct KP as (P1 & P2 & P3 & _).
  cbn zeta in T. rewrite P1 in T.
  replace (top_splitShare parent =? 0) with false in T by zbool. cbn [negb] in T.
  unfold bootstrapSplit_shareProxy in T. rewrite P2, P3 in T.
  cbn [top_topParentRanks set_top_comm] in T.
  destruct (split_topParentRanks _ 0 _ _ parentRanks) as [tpr|] eqn:HL; [|discriminate].
  destruct (top_sharedProxyState parent) as [p|] eqn:Hp; [|discriminate].
  destruct (ncclAtomicRefCountIncrement store p) as [store2|] eqn:HI; [|discriminate].
  injection T as <- <- <-.
  destruct (ncclAtomicRefCountIncrement_spec store p store2 HI) as (c & C1 & C2 & C3 & C4).
  assert (H0 : 0 <= 0) by lia.
  assert (Hmax : 0 + Z.of_nat (Z.to_nat (comm_nRanks (top_comm comm))) <= INT_MAX)
    by (unfold INT_MAX in *; lia).
  destruct (split_topParentRanks_spec _ _ _ 0 _ _ H0 Hmax HL) as (L1 & L2 & _).
  exists st, table, p, c. cbn.
  repeat (split; [first [assumption | reflexivity]|]).
  intros i Hi. apply L2. lia.
Qed.

Lemma bootstrapSplit_shares_proxy_witness :
  exists st table p c,
    comm_bootstrap (top_comm (snd (fst (fst (split2_run 1))))) = Some st
    /\ comm_magic (top_comm (snd (fst (fst (split2_run 1)))))
       = handle_magic (mkHandle 9 [x01; x01])
    /\ st_rank st = comm_rank (top_comm split2_comm)
    /\ st_nranks st = comm_nRanks (top_comm split2_comm)
    /\ st_magic st = handle_magic (mkHandle 9 [x01; x01])
    /\ peerCommAddresses st = Some table
    /\ mem_read table (st_rank st * 2) 2 = Some (ncclSocketGetAddr 2 (listenSock st))
    /\ peerProxyAddresses st = None
    /\ comm_proxy (top_comm (snd (fst (fst (split2_run 1)))))
       = comm_proxy (top_comm split2_comm)
    /\ (exists L, net_listen split2_net
                  = L :: net_listen (snd (fst (fst (fst (split2_run 1))))))
    /\ top_sharedProxyState (split2_parent 1) = Some p
    /\ top_proxyState (snd (fst (fst (split2_run 1)))) = Some p
    /\ nth_error split2_store p = Some c
    /\ nth_error (snd (split2_run 1)) p = Some (int_add c 1)
    /\ length (snd (split2_run 1)) = length split2_store
    /\ (forall q, q <> p -> nth_error (snd (split2_run 1)) q = nth_error split2_store q)
    /\ length (top_topParentRanks (snd (fst (fst (split2_run 1)))))
       = length (top_topParentRanks split2_comm)
    /\ (forall i, 0 <= i < comm_nRanks (top_comm split2_comm) ->
          exists pr v,
            split2_ranks i = Some pr
            /\ array_get (top_topParentRanks (split2_parent 1)) pr = Some v
            /\ array_get (top_topParentRanks (snd (fst (fst (split2_run 1))))) i = Some v).
Proof.
  apply (bootstrapSplit_shares_proxy 2 split2_globals 0 0 [x00; x00] ncclSuccess (mkHandle 9 [x01; x01])
           split2_comm (split2_parent 1) 0 0 (split2_ranks) split2_net split2_store
           (snd (fst (fst (fst (split2_run 1))))) (snd (fst (fst (split2_run 1))))
           (snd (fst (split2_run 1))) (snd (split2_run 1))).
  - unfold INT_MAX. lia.
  - cbn. unfold INT_MAX. lia.
  - cbn. lia.
  - vm_compute. reflexivity.
Defined.

(** X27.  A split with a proxy of its own.  When the parent does not ask
    for sharing and [bootstrapSplit] returns [ncclSuccess]: the slot [rank]
    of [peerCommAddresses] holds the address of the own listening socket
    and the slot [rank] of [peerProxyAddresses] the address of the new proxy
    socket, which was handed to [ncclProxyInit] together with that table;
    two sockets were made to listen; the store of proxy states, the proxy
    state pointer and [topParentRanks] of the new communicator are as
    before. *)
Theorem bootstrapSplit_own_proxy (asz : Z) (g : netGlobals) (newPeer0 newTag0 : Z)
  (tmpAddr0 : list byte) (callocState : ncclResult_t) (handle : ncclBootstrapHandle)
  (comm parent : ncclCommTop)
  (color key : Z) (parentRanks : Z -> option Z) (net : Net) (store : list Z)
  (net' : Net) (comm' parent' : ncclCommTop) (store' : list Z) :
  0 < asz <= INT_MAX ->
  comm_nRanks (top_comm comm) <= INT_MAX ->
  top_splitShare parent = 0 ->
  bootstrapSplit asz g newPeer0 newTag0 tmpAddr0 callocState handle comm parent color key
                 parentRanks net store
  = (Ret ncclSuccess, net', comm', parent', store') ->
  exists st table ptable proxySocket,
    comm_bootstrap (top_comm comm') = Some st
    /\ comm_magic (top_comm comm') = handle_magic handle
    /\ st_rank st = comm_rank (top_comm comm)
    /\ st_nranks st = comm_nRanks (top_comm comm)
    /\ peerCommAddresses st = Some table
    /\ mem_read table (st_rank st * asz) asz = Some (ncclSocketGetAddr asz (listenSock st))
    /\ peerProxyAddresses st = Some ptable
    /\ comm_proxy (top_comm comm') = Some (proxySocket, ptable)
    /\ mem_read ptable (st_rank st * asz) asz = Some (ncclSocketGetAddr asz proxySocket)
    /\ (exists L P, net_listen net = L :: P :: net_listen net')
    /\ store' = store
    /\ top_proxyState comm' = top_proxyState comm
    /\ top_topParentRanks comm' = top_topParentRanks comm.
Proof.
  intros Ha Hn Hshare E.
  destruct (bootstrapSplit_gathered _ _ _ _ _ _ _ _ _ _ _ _ _ _ _ _ _ _ Ha Hn E)
    as (net1 & st & table & (L & KL) & R1 & R2 & R3 & HT & HPx & HK & KP & T).
  unfold parent_same_but_queue in KP.
  destruct KP as (P1 & _).
  cbn zeta in T. rewrite P1, Hshare in T. cbn [Z.eqb negb] in T.
  unfold bootstrapSplit_newProxy in T. rewrite R2 in T.
  destruct (ncclCalloc (comm_nRanks (top_comm comm)) asz) as [p0|] eqn:HC; [|discriminate].
  unfold ncclSocketListen in T.
  destruct (net_listen net1) as [|P restL] eqn:HL1; [discriminate|].
  cbn [ok negb st_rank st_magic set_peerProxyAddresses] in T.
  destruct (mem_write p0 _ _) as [p1|] eqn:HW; [|discriminate].
  destruct (bootstrapAllGather _ p1 asz) as [[s4 st4] p2] eqn:HG.
  match type of HG with bootstrapAllGather ?st0 _ _ = _ =>
    pose proof (bootstrapAllGather_fields st0 p1 asz) as HS;
    pose proof (gather_keeps_address asz st0 p0 p1
                  (ncclSocketGetAddr asz
                     (mkSocket (sock_addr P)
                        (sock_magic (ncclSocketInit (bootstrapNetIfAddr g) (st_magic st)))
                        true [] [] (sock_acceptq P)))
                  s4 st4 p2 Ha) as HK2 end.
  rewrite HG in HS. unfold same_but_ring in HS. cbn in HS, HK2.
  destruct HS as (HL & HC2 & _ & _ & HR & HN & _).
  rewrite R2 in HK2.
  assert (Ha0 : 0 <= asz) by lia.
  specialize (HK2 Hn HC (length_ncclSocketGetAddr _ _ Ha0) HW HG).
  passed s4 T. unfold ncclProxyInit in T. cbn in T. injection T as <- <- <-.
  eexists (set_peerProxyAddresses st4 (Some p2)), table, p2, _. cbn.
  rewrite HR, HN, HL, HC2.
  split; [reflexivity|]. split; [reflexivity|]. split; [exact R1|].
  split; [exact R2|]. split; [exact HT|]. split; [exact HK|].
  split; [reflexivity|]. split; [reflexivity|]. split; [exact HK2|].
  split; [exists L, P; now rewrite KL|]. now repeat split.
Qed.

Lemma bootstrapSplit_own_proxy_witness :
  exists st table ptable proxySocket,
    comm_bootstrap (top_comm (snd (fst (fst (split2_run 0))))) = Some st
    /\ comm_magic (top_comm (snd (fst (fst (split2_run 0)))))
       = handle_magic (mkHandle 9 [x01; x01])
    /\ st_rank st = comm_rank (top_comm split2_comm)
    /\ st_nranks st = comm_nRanks (top_comm split2_comm)
    /\ peerCommAddresses st = Some table
    /\ mem_read table (st_rank st * 2) 2 = Some (ncclSocketGetAddr 2 (listenSock st))
    /\ peerProxyAddresses st = Some ptable
    /\ comm_proxy (top_comm (snd (fst (fst (split2_run 0))))) = Some (proxySocket, ptable)
    /\ mem_read ptable (st_rank st * 2) 2 = Some (ncclSocketGetAddr 2 proxySocket)
    /\ (exists L P, net_listen split2_net
                    = L :: P :: net_listen (snd (fst (fst (fst (split2_run 0))))))
    /\ snd (split2_run 0) = split2_store
    /\ top_proxyState (snd (fst (fst (split2_run 0)))) = top_proxyState split2_comm
    /\ top_topParentRanks (snd (fst (fst (split2_run 0))))
       = top_topParentRanks split2_comm.
Proof.
  apply (bootstrapSplit_own_proxy 2 split2_globals 0 0 [x00; x00] ncclSuccess (mkHandle 9 [x01; x01])
           split2_comm (split2_parent 0) 0 0 (split2_ranks) split2_net split2_store
           (snd (fst (fst (fst (split2_run 0))))) (snd (fst (fst (split2_run 0))))
           (snd (fst (split2_run 0))) (snd (split2_run 0))).
  - unfold INT_MAX. lia.
  - cbn. unfold INT_MAX. lia.
  - reflexivity.
  - vm_compute. reflexivity.
Defined.

(* ================================================================== *)
(** ** What the barrier achieves *)

Lemma heard_after_step (n : Z) (k : nat) (p q : Z) :
  0 < n ->
  In q (heard_after n (S k) p)
  <-> In q (heard_after n k p) \/ In q (heard_after n k ((p - 2 ^ Z.of_nat k) mod n)).
Proof.
  intros Hn. unfold heard_after. rewrite !in_map_iff.
  assert (Hpow : Z.of_nat (2 ^ k) = 2 ^ Z.of_nat k).
  { rewrite Nat2Z.inj_pow. reflexivity. }
  assert (Hdbl : (2 ^ S k = 2 ^ k + 2 ^ k)%nat) by (cbn; lia).
  split.
  - intros (d & Hd & Hin). apply in_seq in Hin.
    destruct (Nat.lt_ge_cases d (2 ^ k)) as [Hlt|Hge].
    + left. exists d. split; [exact Hd|]. apply in_seq. lia.
    + right. exists (d - 2 ^ k)%nat. split; [|apply in_seq; lia].
      rewrite <- Hd, Zminus_mod_idemp_l. f_equal. lia.
  - intros [(d & Hd & Hin)|(d & Hd & Hin)]; apply in_seq in Hin.
    + exists d. split; [exact Hd|]. apply in_seq. lia.
    + exists (2 ^ k + d)%nat. split; [|apply in_seq; lia].
      rewrite <- Hd, Zminus_mod_idemp_l. f_equal. lia.
Qed.

Lemma heard_after_all (n : Z) (k : nat) (p q : Z) :
  0 < n -> n <= 2 ^ Z.of_nat k -> 0 <= p < n -> 0 <= q < n ->
  In q (heard_after n k p).
Proof.
  intros Hn Hk Hp Hq. unfold heard_after. apply in_map_iff.
  pose proof (mod_range n (p - q) Hn) as Hd.
  exists (Z.to_nat ((p - q) mod n)). split.
  - rewrite Z2Nat.id by lia. apply mod_sub_back; lia.
  - apply in_seq. split; [lia|].
    assert (Z.of_nat (2 ^ k) = 2 ^ Z.of_nat k) by (rewrite Nat2Z.inj_pow; reflexivity).
    lia.
Qed.

(* ================================================================== *)
(** ** The barrier: all ranks together *)

(** *** One receive of the barrier *)

Lemma in_first_split {A : Type} (g : A -> Z) (x : Z) (l : list A) :
  In x (map g l) ->
  exists l1 a l2, l = l1 ++ a :: l2 /\ g a = x /\ Forall (fun b => g b <> x) l1.
Proof.
  induction l as [|b l IH]; intros H; [destruct H|].
  destruct (Z.eq_dec (g b) x) as [E|N].
  - exists [], b, l. repeat split; auto.
  - destruct H as [H|H]; [contradiction|].
    destruct (IH H) as (l1 & a & l2 & -> & Ha & Hl).
    exists (b :: l1), a, l2. repeat split; auto.
Qed.

Lemma barrier_arrival_other (tag x : Z) (l : list arrival) :
  is_int tag ->
  Forall (barrier_arrival tag) l ->
  Forall (fun b => fst (fst b) <> x) l ->
  Forall (arrival_other x tag) l /\ Forall (unex_other x tag) (map arrival_unex l).
Proof.
  induction l as [|[[y t] after] l IH]; intros Htag0 Ha Hx; [split; constructor|].
  inversion Ha as [|? ? Hya Ha']; subst.
  inversion Hx as [|? ? Hne Hx']; subst. cbn in Hne, Hya.
  destruct Hya as (Hy & Ht & _).
  destruct (IH Htag0 Ha' Hx') as [I1 I2]. split; constructor; auto.
  - cbn. subst t. split; [exact Hy|]. split; [exact Htag0|]. now left.
  - left. exact Hne.
Qed.

Lemma barrier_netrecv (tag : Z) (a : arrival) (mem : list byte) :
  barrier_arrival tag a -> length mem = 4%nat ->
  exists d, length d = 4%nat
    /\ bootstrapNetRecv (snd a) mem 0 SIZEOF_INT
       = (Ret ncclSuccess, set_rx (snd a) [], d).
Proof.
  destruct a as [[x t] after]. intros (_ & _ & _ & d & Hd & Hrx) Hm.
  exists d. split; [exact Hd|]. cbn [snd].
  apply netrecv_frame with (payload := d).
  - unfold SIZEOF_INT, INT_MAX. lia.
  - rewrite Hd. reflexivity.
  - now rewrite app_nil_r.
  - apply mem_write_whole. congruence.
Qed.

Lemma bootstrapRecv_loop_all_other (arrivals : list arrival) :
  forall (net : Net) (st : bootstrapState) (peer tag newPeer newTag : Z)
         (mem : list byte) (off size : Z),
  net_accept_error net = None ->
  Forall (arrival_other peer tag) arrivals ->
  exists st',
    bootstrapRecv_loop (map arrival_conn arrivals) net st peer tag newPeer newTag
                       mem off size
    = (Blocked, (net, st'), mem).
Proof.
  induction arrivals as [|a arrivals IH];
    intros net st peer tag newPeer newTag mem off size Hnone Hall.
  - cbn [map bootstrapRecv_loop]. unfold accept_idle. rewrite Hnone. cbn. eauto.
  - inversion Hall as [|a' l' Ha Hl]; subst. cbn [map].
    rewrite bootstrapRecv_loop_other by assumption. now apply IH.
Qed.

Section BarrierRecv.

Variables (tag newPeer0 newTag0 : Z).
Hypothesis Htag : is_int tag.

Local Abbreviation sender := (fun a : arrival => fst (fst a)).
Local Abbreviation good := (Forall (barrier_arrival tag)).

(** When no connection of the wanted rank has arrived, the receive waits. *)
Lemma barrier_recv_missing (x : Z) (us qs : list arrival) (net : Net)
  (st : bootstrapState) (mem : list byte) :
  is_int x -> good us -> good qs ->
  unexpectedConnections st = map arrival_unex us ->
  sock_acceptq (listenSock st) = map arrival_conn qs ->
  net_accept_error net = None ->
  ~ In x (map sender (us ++ qs)) ->
  exists st',
    bootstrapRecv newPeer0 newTag0 (net, st) x tag mem 0 SIZEOF_INT
    = (Blocked, (net, st'), mem).
Proof.
  intros Hx Hus Hqs HU HQ Hnone Hnot.
  assert (Hne : forall l, (forall y, In y (map sender l) -> In y (map sender (us ++ qs))) ->
                   Forall (fun b : arrival => fst (fst b) <> x) l).
  { intros l Hl. apply Forall_forall. intros b Hb E. apply Hnot, Hl.
    rewrite <- E. now apply (in_map sender). }
  assert (Hu1 : Forall (fun b : arrival => fst (fst b) <> x) us).
  { apply Hne. intros y Hy. rewrite map_app. apply in_or_app. now left. }
  assert (Hq1 : Forall (fun b : arrival => fst (fst b) <> x) qs).
  { apply Hne. intros y Hy. rewrite map_app. apply in_or_app. now right. }
  destruct (barrier_arrival_other tag x us Htag Hus Hu1) as [_ Hu2].
  destruct (barrier_arrival_other tag x qs Htag Hqs Hq1) as [Hq2 _].
  unfold bootstrapRecv, unexpectedDequeue. rewrite HU.
  rewrite (unexpected_scan_none _ _ _ Hu2). cbn [ok negb]. cbn [Z.eqb]. rewrite HQ.
  apply bootstrapRecv_loop_all_other; assumption.
Qed.

(** When one has arrived, the receive takes the first of them, from the
    queue of unexpected connections or from the accept queue, and closes
    it; the connections of other ranks stay. *)
Lemma barrier_recv_found (x : Z) (us qs : list arrival) (net : Net)
  (st : bootstrapState) (mem : list byte) :
  is_int x -> good us -> good qs ->
  unexpectedConnections st = map arrival_unex us ->
  sock_acceptq (listenSock st) = map arrival_conn qs ->
  length mem = 4%nat ->
  In x (map sender (us ++ qs)) ->
  exists us' qs' c st' mem',
    bootstrapRecv newPeer0 newTag0 (net, st) x tag mem 0 SIZEOF_INT
    = (Ret ncclSuccess,
       (mkNet (net_listen net) (net_reachable net) (net_closed net ++ [c])
              (net_accept_error net), st'),
       mem')
    /\ sock_addr c = [] /\ length mem' = 4%nat
    /\ good us' /\ good qs'
    /\ unexpectedConnections st' = map arrival_unex us'
    /\ sock_acceptq (listenSock st') = map arrival_conn qs'
    /\ peerCommAddresses st' = peerCommAddresses st
    /\ st_rank st' = st_rank st /\ st_magic st' = st_magic st
    /\ (forall y, y <> x ->
          (In y (map sender (us' ++ qs')) <-> In y (map sender (us ++ qs)))).
Proof.
  intros Hx Hus Hqs HU HQ Hm Hin.
  destruct (in_dec Z.eq_dec x (map sender us)) as [Hu|Hu].
  - destruct (in_first_split sender x us Hu) as (l1 & a & l2 & -> & Ha & Hl1).
    apply Forall_app in Hus. destruct Hus as [Hg1 Hg2].
    inversion Hg2 as [|? ? Hga Hg2']; subst.
    destruct (barrier_arrival_other tag _ l1 Htag Hg1 Hl1) as [_ Ho].
    destruct (barrier_netrecv tag a mem Hga Hm) as (d & Hd & Hrecv).
    destruct a as [[y t] after]. cbn [fst snd] in *. destruct Hga as (_ & -> & Haddr & _).
    exists (l1 ++ l2), qs, (set_open (set_rx after []) false),
           (set_unexpectedConnections st (map arrival_unex (l1 ++ l2))), d.
    split; [|split; [exact Haddr|split; [exact Hd|split; [|split; [exact Hqs|]]]]].
    + unfold bootstrapRecv, unexpectedDequeue. rewrite HU, map_app. cbn [map arrival_unex].
      rewrite (unexpected_scan_found (map arrival_unex l1) (map arrival_unex l2)
                 (mkUnex y tag after) y tag Ho eq_refl eq_refl).
      cbn [ok negb arrival_unex unex_sock]. cbn [Z.eqb]. rewrite Hrecv.
      cbn. now rewrite map_app.
    + apply Forall_app. now split.
    + split; [reflexivity|]. split; [exact HQ|]. split; [reflexivity|].
      split; [reflexivity|]. split; [reflexivity|].
      intros z Hz. rewrite !map_app, !in_app_iff. cbn [map In fst]. intuition congruence.
  - assert (Hq : In x (map sender qs)).
    { rewrite map_app in Hin. apply in_app_or in Hin. tauto. }
    destruct (in_first_split sender x qs Hq) as (l1 & a & l2 & -> & Ha & Hl1).
    apply Forall_app in Hqs. destruct Hqs as [Hg1 Hg2].
    inversion Hg2 as [|? ? Hga Hg2']; subst.
    destruct (barrier_arrival_other tag _ l1 Htag Hg1 Hl1) as [Ho _].
    assert (Hu1 : Forall (fun b : arrival => fst (fst b) <> fst (fst a)) us).
    { apply Forall_forall. intros b Hb E. apply Hu. rewrite <- E.
      now apply (in_map sender). }
    destruct (barrier_arrival_other tag _ us Htag Hus Hu1) as [_ Hu2].
    destruct (barrier_netrecv tag a mem Hga Hm) as (d & Hd & Hrecv).
    destruct a as [[y t] after]. cbn [fst snd] in *. destruct Hga as (_ & -> & Haddr & _).
    exists (us ++ l1), l2, (set_open (set_rx after []) false),
           (set_unexpectedConnections
              (set_listenSock st (set_acceptq (listenSock st) (map arrival_conn l2)))
              (unexpectedConnections st ++ map arrival_unex l1)), d.
    split; [|split; [exact Haddr|split; [exact Hd|split; [|split; [exact Hg2'|]]]]].
    + unfold bootstrapRecv, unexpectedDequeue. rewrite HU.
      rewrite (unexpected_scan_none _ _ _ Hu2). cbn [ok negb]. cbn [Z.eqb].
      rewrite HQ, map_app. cbn [map arrival_conn].
      rewrite bootstrapRecv_loop_arrivals by assumption.
      rewrite Hrecv. cbn. now rewrite HU.
    + apply Forall_app. now split.
    + split; [cbn; now rewrite HU, map_app|]. split; [reflexivity|].
      split; [reflexivity|]. split; [reflexivity|]. split; [reflexivity|].
      intros z Hz. rewrite !map_app, !in_app_iff. cbn [map In fst]. intuition congruence.
Qed.

End BarrierRecv.

(** *** One rank in the barrier *)

Lemma addr_eqb_true (a b : list byte) : addr_eqb a b = true <-> a = b.
Proof. unfold addr_eqb. destruct (list_eq_dec _ a b); split; congruence. Qed.

Lemma barrier_src_range (n p : Z) (k : nat) : 0 < n -> 0 <= barrier_src n p k < n.
Proof. intros H. now apply mod_range. Qed.

Lemma barrier_dst_range (n p : Z) (k : nat) : 0 < n -> 0 <= barrier_dst n p k < n.
Proof. intros H. now apply mod_range. Qed.

Lemma barrier_src_distinct (n p : Z) (i k : nat) :
  1 <= n -> (i < Z.to_nat (Z.log2_up n))%nat -> (k < Z.to_nat (Z.log2_up n))%nat ->
  i <> k -> barrier_src n p i <> barrier_src n p k.
Proof.
  intros Hn Hi Hk Hne. apply pow2_mod_distinct; auto using pow2_below.
Qed.

(** The member that [q] receives from in round [k] sends to [q] in round
    [k], and the other way round. *)
Lemma barrier_dst_src (n q : Z) (k : nat) :
  0 <= q < n -> barrier_dst n (barrier_src n q k) k = q.
Proof.
  intros Hq. unfold barrier_dst, barrier_src.
  rewrite Zplus_mod_idemp_l. replace (q - 2 ^ Z.of_nat k + 2 ^ Z.of_nat k) with q by lia.
  apply Z.mod_small. lia.
Qed.

Lemma barrier_src_dst (n s : Z) (k : nat) :
  0 <= s < n -> barrier_src n (barrier_dst n s k) k = s.
Proof.
  intros Hs. unfold barrier_dst, barrier_src.
  rewrite Zminus_mod_idemp_l. replace (s + 2 ^ Z.of_nat k - 2 ^ Z.of_nat k) with s by lia.
  apply Z.mod_small. lia.
Qed.

Section BarrierWhole.

Variables (asz nranks tag magic : Z) (f : Z -> Z) (fuel : nat) (newPeer0 newTag0 : Z).
Variables (st0 : Z -> bootstrapState) (net0 : Z -> Net) (data0 : Z -> Z).
Variable addr : Z -> list byte.
Variable entered : Z -> bool.

Hypothesis Hn : 1 <= nranks <= 1073741824.
Hypothesis Hfuel : (Z.to_nat (Z.log2_up nranks) <= fuel)%nat.
Hypothesis Htag : is_int tag.
Hypothesis Hf : forall q, 0 <= q < nranks -> is_int (f q).
Hypothesis Hfinj : forall q q',
  0 <= q < nranks -> 0 <= q' < nranks -> f q = f q' -> q = q'.
Hypothesis Haddr : forall q, 0 <= q < nranks -> addr q <> [].
Hypothesis Hainj : forall q q',
  0 <= q < nranks -> 0 <= q' < nranks -> addr q = addr q' -> q = q'.
Hypothesis Hst0 : forall p, 0 <= p < nranks ->
  st_rank (st0 p) = f p /\ st_magic (st0 p) = magic
  /\ sock_magic (listenSock (st0 p)) = magic
  /\ unexpectedConnections (st0 p) = []
  /\ sock_acceptq (listenSock (st0 p)) = []
  /\ exists table,
       peerCommAddresses (st0 p) = Some table
       /\ forall q, 0 <= q < nranks -> mem_read table (f q * asz) asz = Some (addr q).
Hypothesis Hnet0 : forall p, 0 <= p < nranks ->
  net_accept_error (net0 p) = None
  /\ forall q, 0 <= q < nranks -> net_reachable (net0 p) (addr q) = true.

Local Abbreviation rounds := (Z.to_nat (Z.log2_up nranks)).
Local Abbreviation src := (barrier_src nranks).
Local Abbreviation dst := (barrier_dst nranks).
Local Abbreviation sender := (fun a : arrival => fst (fst a)).
Local Abbreviation sent := (barrier_sent nranks tag magic f addr).
Local Abbreviation to q := (fun c : ncclSocket => addr_eqb (sock_addr c) (addr q)).
Local Abbreviation call := (barrier_call asz nranks tag f fuel newPeer0 newTag0 st0 net0 data0).
Local Abbreviation made :=
  (barrier_made asz nranks tag f fuel newPeer0 newTag0 st0 net0 data0 addr).
Local Abbreviation runs := (barrier_runs asz nranks tag f fuel newPeer0 newTag0 st0 net0 data0 addr entered).
Local Abbreviation Inv := (barrier_inv nranks tag f entered).
Local Abbreviation fed := (barrier_fed nranks).

Lemma to_member (c : ncclSocket) (q' q : Z) :
  0 <= q' < nranks -> 0 <= q < nranks -> sock_addr c = addr q' ->
  addr_eqb (sock_addr c) (addr q) = (q' =? q).
Proof.
  intros Hq' Hq E. rewrite E. destruct (Z.eqb_spec q' q) as [->|N].
  - now apply addr_eqb_true.
  - destruct (addr_eqb (addr q') (addr q)) eqn:B; [|reflexivity].
    apply addr_eqb_true in B. apply Hainj in B; auto. contradiction.
Qed.

Lemma to_none (c : ncclSocket) (q : Z) :
  0 <= q < nranks -> sock_addr c = [] -> addr_eqb (sock_addr c) (addr q) = false.
Proof.
  intros Hq E. rewrite E. destruct (addr_eqb [] (addr q)) eqn:B; [|reflexivity].
  apply addr_eqb_true in B. symmetry in B. now apply Haddr in B.
Qed.

Lemma f_src_distinct (p : Z) (i k : nat) :
  (i < rounds)%nat -> (k < rounds)%nat -> i <> k -> f (src p i) <> f (src p k).
Proof.
  intros Hi Hk Hne E. apply Hfinj in E; try (apply barrier_src_range; lia).
  revert E. apply barrier_src_distinct; auto; lia.
Qed.

(** The loop from round [k] on, on the real point-to-point layer: it goes
    on to the first round [j] whose message has not arrived and waits
    there, or through all rounds; it has made the connections of the rounds
    up to [j]. *)
Lemma barrier_loop_real (p : Z) (m : nat) :
  forall (k fuel' : nat) (net : Net) (st : bootstrapState) (data : list byte)
         (us qs : list arrival),
  0 <= p < nranks -> (k + m = rounds)%nat -> (m <= fuel')%nat ->
  net_accept_error net = None ->
  (forall q, 0 <= q < nranks -> net_reachable net (addr q) = true) ->
  st_rank st = f p -> st_magic st = magic ->
  (exists table,
     peerCommAddresses st = Some table
     /\ forall q, 0 <= q < nranks -> mem_read table (f q * asz) asz = Some (addr q)) ->
  unexpectedConnections st = map arrival_unex us ->
  sock_acceptq (listenSock st) = map arrival_conn qs ->
  Forall (barrier_arrival tag) us -> Forall (barrier_arrival tag) qs ->
  length data = 4%nat ->
  let res := barrier_loop (bootstrapSend asz) (bootstrapRecv newPeer0 newTag0) fuel'
               (net, st) (int_array nranks f) p nranks tag data (2 ^ Z.of_nat k) in
  exists (j : nat) (cl : list ncclSocket),
    (k <= j <= rounds)%nat
    /\ net_closed (fst (snd res)) = net_closed net ++ cl
    /\ (forall i, (k <= i < j)%nat -> In (f (src p i)) (map sender (us ++ qs)))
    /\ ((j < rounds)%nat -> ~ In (f (src p j)) (map sender (us ++ qs)))
    /\ fst res = (if (j <? rounds)%nat then Blocked else Ret ncclSuccess)
    /\ forall q, 0 <= q < nranks ->
         Forall2 (sent p)
                 (filter (fun t => dst p t =? q) (seq k (Nat.min (S j) rounds - k)))
                 (filter (to q) cl).
Proof.
  induction m as [|m IH];
    intros k fuel' net st data us qs Hp Hk Hfuel' Hnone Hreach Hrank Hmagic Htab HU HQ
           Hus Hqs Hdata res.
  - assert (Hge : nranks <= 2 ^ Z.of_nat k).
    { replace (Z.of_nat k) with (Z.log2_up nranks).
      - apply pow2_reaches. lia.
      - pose proof (Z.log2_up_nonneg nranks). lia. }
    exists k, []. subst res.
    assert (E : barrier_loop (bootstrapSend asz) (bootstrapRecv newPeer0 newTag0) fuel'
                  (net, st) (int_array nranks f) p nranks tag data (2 ^ Z.of_nat k)
                = (Ret ncclSuccess, (net, st))).
    { destruct fuel'; cbn [barrier_loop];
        replace (2 ^ Z.of_nat k <? nranks) with false by zbool; reflexivity. }
    rewrite E. cbn [fst snd]. rewrite app_nil_r.
    split; [lia|]. split; [reflexivity|]. split; [intros i Hi; lia|].
    split; [intros Hj; lia|]. split.
    + replace (k <? rounds)%nat with false; [reflexivity|].
      symmetry. apply Nat.ltb_ge. lia.
    + intros q Hq. replace (Nat.min (S k) rounds - k)%nat with 0%nat by lia.
      cbn. constructor.
  - assert (Hlt : 2 ^ Z.of_nat k < nranks) by (apply pow2_below; lia).
    pose proof (pow2_double_small nranks k ltac:(lia) Hlt) as Hdbl.
    assert (Hpos : 0 < 2 ^ Z.of_nat k) by (apply Z.pow_pos_nonneg; lia).
    destruct fuel' as [|fuel']; [lia|]. subst res. cbn [barrier_loop].
    replace (2 ^ Z.of_nat k <? nranks) with true by zbool.
    assert (Hdst : int_rem (int_add p (2 ^ Z.of_nat k)) nranks = dst p k).
    { unfold int_add. rewrite wrap_int_id by (unfold is_int, INT_MIN, INT_MAX; lia).
      apply int_rem_nonneg; unfold INT_MAX; lia. }
    assert (Hsrc : int_rem (int_add (int_sub p (2 ^ Z.of_nat k)) nranks) nranks = src p k).
    { unfold int_add, int_sub.
      rewrite (wrap_int_id (p - 2 ^ Z.of_nat k))
        by (unfold is_int, INT_MIN, INT_MAX; lia).
      rewrite wrap_int_id by (unfold is_int, INT_MIN, INT_MAX; lia).
      rewrite int_rem_nonneg by (unfold INT_MAX; lia).
      unfold barrier_src. rewrite <- (Z_mod_plus_full (p - 2 ^ Z.of_nat k) 1 nranks).
      f_equal. lia. }
    rewrite Hdst, Hsrc.
    pose proof (barrier_dst_range nranks p k ltac:(lia)) as Hdr.
    pose proof (barrier_src_range nranks p k ltac:(lia)) as Hsr.
    rewrite !int_array_in by assumption.
    destruct Htab as (table & Ht & Hslots).
    rewrite (bootstrapSend_success asz net st (f (dst p k)) tag data 0 SIZEOF_INT
               table (addr (dst p k)) data Ht (Hslots _ Hdr) (Hreach _ Hdr)
               (mem_read_whole data SIZEOF_INT ltac:(rewrite Hdata; reflexivity))).
    cbn [ok negb].
    set (c0 := mkSocket (addr (dst p k)) (st_magic st) false []
                 (frame SIZEOF_INT (int_to_bytes (st_rank st))
                  ++ frame SIZEOF_INT (int_to_bytes tag) ++ frame SIZEOF_INT data) []).
    set (net1 := mkNet (net_listen net) (net_reachable net) (net_closed net ++ [c0])
                       (net_accept_error net)).
    assert (Hc0 : sent p k c0).
    { unfold barrier_sent, c0. cbn [sock_addr sock_magic sock_tx].
      split; [reflexivity|]. split; [exact Hmagic|].
      exists data. split; [exact Hdata|]. now rewrite Hrank. }
    assert (Hto0 : forall q, 0 <= q < nranks -> to q c0 = (dst p k =? q)).
    { intros q Hq. now apply to_member. }
    destruct (in_dec Z.eq_dec (f (src p k)) (map sender (us ++ qs))) as [Hin|Hout].
    + destruct (barrier_recv_found tag newPeer0 newTag0 Htag (f (src p k)) us qs net1 st data
                  (Hf _ Hsr) Hus Hqs HU HQ Hdata Hin)
        as (us' & qs' & c & st' & mem' & Hrecv & Hc & Hmem' & Hus' & Hqs' & HU' & HQ'
            & Htab' & Hrank' & Hmagic' & Hpool).
      rewrite Hrecv. cbn [ok negb].
      match goal with
      | |- context [barrier_loop _ _ fuel' (?n2, st') _ _ _ _ mem' (int_shl _ 1)] =>
          set (net2 := n2)
      end.
      assert (Hshl : int_shl (2 ^ Z.of_nat k) 1 = 2 ^ Z.of_nat (S k)).
      { unfold int_shl. rewrite Z.shiftl_mul_pow2 by lia.
        rewrite wrap_int_id by (unfold is_int, INT_MIN, INT_MAX; lia).
        rewrite Nat2Z.inj_succ, Z.pow_succ_r by lia. lia. }
      rewrite Hshl.
      destruct (IH (S k) fuel' net2 st' mem' us' qs' Hp ltac:(lia) ltac:(lia)
                  Hnone Hreach ltac:(congruence) ltac:(congruence)
                  ltac:(exists table; split; [congruence|exact Hslots])
                  HU' HQ' Hus' Hqs' Hmem')
        as (j & cl & Hj & Hcl & Hbefore & Hstop & Hstatus & Hmade).
      exists j, (c0 :: c :: cl).
      split; [lia|]. split.
      { rewrite Hcl. unfold net2, net1. cbn [net_closed].
        rewrite <- !app_assoc. reflexivity. }
      split.
      { intros i Hi. destruct (Nat.eq_dec i k) as [->|Hne]; [exact Hin|].
        apply Hpool; [apply f_src_distinct; lia|]. apply Hbefore. lia. }
      split.
      { intros Hjr Hc'. apply (Hstop Hjr). apply Hpool; [apply f_src_distinct; lia|].
        exact Hc'. }
      split; [exact Hstatus|].
      intros q Hq.
      replace (Nat.min (S j) rounds - k)%nat with (S (Nat.min (S j) rounds - S k)) by lia.
      cbn [seq filter]. rewrite (Hto0 q Hq), (to_none c q Hq Hc).
      destruct (dst p k =? q); [constructor; [exact Hc0|]|]; apply Hmade; exact Hq.
    + destruct (barrier_recv_missing tag newPeer0 newTag0 Htag (f (src p k)) us qs net1 st data
                  (Hf _ Hsr) Hus Hqs HU HQ Hnone Hout) as (st' & Hrecv).
      rewrite Hrecv. cbn [ok negb fst snd].
      exists k, [c0].
      split; [lia|]. split; [reflexivity|]. split; [intros i Hi; lia|].
      split; [intros _; exact Hout|]. split.
      { replace (k <? rounds)%nat with true; [reflexivity|].
        symmetry. apply Nat.ltb_lt. lia. }
      intros q Hq. replace (Nat.min (S k) rounds - k)%nat with 1%nat by lia.
      cbn [seq filter]. rewrite (Hto0 q Hq).
      destruct (dst p k =? q); constructor; [exact Hc0|constructor].
Qed.

Lemma barrier_arrivals_of (arr : list (Z * ncclSocket)) :
  (forall s c, In (s, c) arr -> 0 <= s < nranks /\ barrier_msg tag (f s) c) ->
  exists qs,
    map arrival_conn qs = map snd arr
    /\ map sender qs = map f (map fst arr)
    /\ Forall (barrier_arrival tag) qs.
Proof.
  induction arr as [|[s c] arr IH]; intros H.
  - exists []. repeat split; constructor.
  - destruct IH as (qs & E1 & E2 & G).
    { intros s' c' Hin. apply H. now right. }
    destruct (H s c (or_introl eq_refl)) as (_ & after & -> & Ha).
    exists ((f s, tag, after) :: qs). cbn [map fst snd arrival_conn].
    rewrite E1, E2. repeat split; try reflexivity. now constructor.
Qed.

Lemma in_map_member (arr : list (Z * ncclSocket)) (x : Z) :
  (forall s c, In (s, c) arr -> 0 <= s < nranks) -> 0 <= x < nranks ->
  In (f x) (map f (map fst arr)) <-> In x (map fst arr).
Proof.
  intros H Hx. split.
  - intros Hin. apply in_map_iff in Hin. destruct Hin as (y & E & Hy).
    assert (0 <= y < nranks).
    { apply in_map_iff in Hy. destruct Hy as ([s c] & <- & Hsc). now apply (H s c). }
    apply Hfinj in E; auto. now subst.
  - apply in_map.
Qed.

(** What the call of member [p] has done when [arr] has arrived. *)
Lemma barrier_call_real (p : Z) (arr : list (Z * ncclSocket)) :
  0 <= p < nranks ->
  (forall s c, In (s, c) arr -> 0 <= s < nranks /\ barrier_msg tag (f s) c) ->
  exists j : nat,
    (j <= rounds)%nat
    /\ barrier_reached nranks p arr j
    /\ ((j < rounds)%nat -> ~ In (src p j) (map fst arr))
    /\ fst (call p (map snd arr)) = (if (j <? rounds)%nat then Blocked else Ret ncclSuccess)
    /\ forall q, 0 <= q < nranks ->
         Forall2 (sent p)
                 (filter (fun t => dst p t =? q) (seq 0 (Nat.min (S j) rounds)))
                 (made p q (map snd arr)).
Proof.
  intros Hp Harr.
  destruct (barrier_arrivals_of arr Harr) as (qs & E1 & E2 & G).
  destruct (Hst0 p Hp) as (Hrank & Hmagic & _ & HU & HQ & Htab).
  destruct (Hnet0 p Hp) as (Hnone & Hreach).
  set (st := set_listenSock (st0 p)
               (set_acceptq (listenSock (st0 p))
                            (sock_acceptq (listenSock (st0 p)) ++ map snd arr))).
  assert (Hcall : call p (map snd arr)
                  = barrier_loop (bootstrapSend asz) (bootstrapRecv newPeer0 newTag0) fuel
                      (net0 p, st) (int_array nranks f) p nranks tag
                      (int_to_bytes (data0 p)) (2 ^ Z.of_nat 0)).
  { unfold barrier_call, bootstrapBarrier. fold st.
    destruct (Z.eqb_spec nranks 1) as [E|_]; [|reflexivity].
    rewrite E. destruct fuel; reflexivity. }
  destruct (barrier_loop_real p rounds 0 fuel (net0 p) st (int_to_bytes (data0 p)) [] qs
              Hp eq_refl Hfuel Hnone Hreach Hrank Hmagic Htab HU
              ltac:(unfold st; cbn; now rewrite HQ, E1) ltac:(constructor) G
              (length_int_to_bytes _))
    as (j & cl & Hj & Hcl & Hbefore & Hstop & Hstatus & Hmade).
  rewrite <- Hcall in Hcl, Hstatus.
  assert (Hrange : forall s c, In (s, c) arr -> 0 <= s < nranks)
    by (intros s c Hin; apply (Harr s c Hin)).
  cbn [app] in Hbefore, Hstop. rewrite E2 in Hbefore, Hstop.
  exists j. split; [lia|]. split; [|split; [|split; [exact Hstatus|]]].
  - intros i Hi. apply (in_map_member arr); auto; [apply barrier_src_range; lia|].
    apply Hbefore. lia.
  - intros Hjr Hin. apply (Hstop Hjr). apply (in_map_member arr); auto.
    apply barrier_src_range; lia.
  - intros q Hq. unfold barrier_made. rewrite Hcl.
    rewrite skipn_app, skipn_all, Nat.sub_diag. cbn [app skipn].
    specialize (Hmade q Hq). now rewrite Nat.sub_0_r in Hmade.
Qed.

(** *** All ranks *)

Lemma Forall2_in_r {A B : Type} (P : A -> B -> Prop) (l : list A) (l' : list B) (y : B) :
  Forall2 P l l' -> In y l' -> exists x, In x l /\ P x y.
Proof.
  induction 1 as [|a b l l' Hab _ IH]; intros Hin; [destruct Hin|].
  destruct Hin as [<-|Hin]; [exists a; split; [now left|exact Hab]|].
  destruct (IH Hin) as (x & Hx & Hp). exists x. split; [now right|exact Hp].
Qed.

Lemma Forall2_in_l {A B : Type} (P : A -> B -> Prop) (l : list A) (l' : list B) (x : A) :
  Forall2 P l l' -> In x l -> exists y, In y l' /\ P x y.
Proof.
  induction 1 as [|a b l l' Hab _ IH]; intros Hin; [destruct Hin|].
  destruct Hin as [<-|Hin]; [exists b; split; [now left|exact Hab]|].
  destruct (IH Hin) as (y & Hy & Hp). exists y. split; [now right|exact Hp].
Qed.

Lemma barrier_reached_more (p : Z) (arr arr' : list (Z * ncclSocket)) (j : nat) :
  barrier_reached nranks p arr j ->
  (forall x, In x (map fst arr) -> In x (map fst arr')) ->
  barrier_reached nranks p arr' j.
Proof. intros H Hsub i Hi. apply Hsub, H, Hi. Qed.

Lemma upd_more (A : Z -> list (Z * ncclSocket)) (q : Z) (e : Z * ncclSocket) (p x : Z) :
  In x (map fst (A p)) -> In x (map fst (upd A q (A q ++ [e]) p)).
Proof.
  unfold upd. destruct (Z.eqb_spec p q) as [->|_]; [|auto].
  rewrite map_app. intros H. apply in_or_app. now left.
Qed.

Lemma barrier_accepted (p : Z) (t : nat) (c : ncclSocket) :
  0 <= p < nranks -> sent p t c -> barrier_msg tag (f p) (accepted c).
Proof.
  intros Hp (_ & _ & d & Hd & Htx).
  exists (mkSocket [] (sock_magic c) true (frame SIZEOF_INT d) [] []). split.
  - unfold accepted, announce, set_rx. cbn. now rewrite Htx.
  - cbn. split; [now apply Hf|]. split; [reflexivity|]. split; [reflexivity|].
    exists d. now split.
Qed.

Lemma barrier_inv_arrived (A : Z -> list (Z * ncclSocket)) (q : Z) :
  Inv A -> 0 <= q < nranks ->
  forall s c, In (s, c) (A q) -> 0 <= s < nranks /\ barrier_msg tag (f s) c.
Proof. intros HI Hq s c Hin. destruct (HI q s c Hq Hin) as (H1 & _ & H2 & _). now split. Qed.

Lemma barrier_inv_start : Inv barrier_start.
Proof. intros q s c _ []. Qed.

Lemma barrier_inv_deliver (A : Z -> list (Z * ncclSocket)) (p q : Z) (c : ncclSocket) :
  Inv A -> 0 <= p < nranks -> 0 <= q < nranks -> entered p = true ->
  nth_error (made p q (map snd (A p))) (length (made_by p (A q))) = Some c ->
  Inv (upd A q (A q ++ [(p, accepted c)])).
Proof.
  intros HI Hp Hq He Hnth q' s c' Hq' Hin.
  assert (Hold : In (s, c') (A q') ->
            0 <= s < nranks /\ entered s = true /\ barrier_msg tag (f s) c'
            /\ exists j, (j < rounds)%nat /\ q' = dst s j
                 /\ barrier_reached nranks s (upd A q (A q ++ [(p, accepted c)]) s) j).
  { intros Hin'. destruct (HI q' s c' Hq' Hin') as (H1 & H2 & H3 & j & Hj & Hd & Hr).
    split; [exact H1|]. split; [exact H2|]. split; [exact H3|].
    exists j. split; [exact Hj|]. split; [exact Hd|].
    eapply barrier_reached_more; [exact Hr|]. intros x. apply upd_more. }
  unfold upd in Hin at 1. destruct (Z.eqb_spec q' q) as [->|_]; [|now apply Hold].
  apply in_app_or in Hin. destruct Hin as [Hin|[E|[]]]; [now apply Hold|].
  injection E as <- <-.
  destruct (barrier_call_real p (A p) Hp (barrier_inv_arrived A p HI Hp))
    as (j & Hj & Hreached & _ & _ & Hmade).
  apply nth_error_In in Hnth. apply filter_In in Hnth. destruct Hnth as [Hnth Hto].
  assert (Hc : In c (made p q (map snd (A p)))).
  { unfold barrier_made. apply filter_In. now split. }
  destruct (Forall2_in_r _ _ _ c (Hmade q Hq) Hc) as (t & Ht & Hsent).
  apply filter_In in Ht. destruct Ht as [Ht Hdst]. apply in_seq in Ht.
  apply Z.eqb_eq in Hdst.
  split; [exact Hp|]. split; [exact He|]. split; [now apply (barrier_accepted p t)|].
  exists t. split; [lia|]. split; [now symmetry|].
  eapply barrier_reached_more; [|intros x; apply upd_more].
  intros i Hi. apply Hreached. lia.
Qed.

Lemma barrier_inv_runs (A A' : Z -> list (Z * ncclSocket)) : runs A A' -> Inv A -> Inv A'.
Proof.
  induction 1 as [A|A p q c A'' Hp Hq He Hnth Hm _ IH]; intros HI; [exact HI|].
  apply IH. now apply barrier_inv_deliver.
Qed.

Lemma barrier_runs_trans (A1 A2 A3 : Z -> list (Z * ncclSocket)) :
  runs A1 A2 -> runs A2 A3 -> runs A1 A3.
Proof.
  induction 1 as [A|A p q c A'' Hp Hq He Hnth Hm _ IH]; intros H; [exact H|].
  eapply barrier_runs_deliver;
    [exact Hp|exact Hq|exact He|exact Hnth|exact Hm|apply IH, H].
Qed.

(** A member that has got the messages of its first [k] rounds has heard,
    through them, of [2^k] members, itself included: all of them are inside
    the barrier. *)
Lemma barrier_heard (A : Z -> list (Z * ncclSocket)) :
  Inv A ->
  forall (k : nat) (p : Z),
  (k <= rounds)%nat -> 0 <= p < nranks -> entered p = true ->
  barrier_reached nranks p (A p) k ->
  forall q, In q (heard_after nranks k p) -> entered q = true.
Proof.
  intros HI. induction k as [|k IH]; intros p Hk Hp He Hr q Hq.
  - unfold heard_after in Hq. cbn in Hq. destruct Hq as [<-|[]].
    rewrite Z.sub_0_r, Z.mod_small by lia. exact He.
  - apply heard_after_step in Hq; [|lia]. destruct Hq as [Hq|Hq].
    + apply (IH p); auto; [lia|]. intros i Hi. apply Hr. lia.
    + fold (barrier_src nranks p k) in Hq.
      assert (Hin : In (src p k) (map fst (A p))) by (apply Hr; lia).
      apply in_map_iff in Hin. destruct Hin as ([s c] & Es & Hin). cbn [fst] in Es.
      destruct (HI p s c Hp Hin) as (Hs & Hes & _ & j & Hj & Hd & Hrs).
      assert (j = k).
      { destruct (Nat.eq_dec j k) as [E|N]; [exact E|]. exfalso.
        apply (barrier_src_distinct nranks p j k); try lia.
        rewrite <- Es, Hd. now apply barrier_src_dst. }
      subst j. rewrite <- Es in Hq. apply (IH s); auto. lia.
Qed.

Lemma made_by_none (p : Z) (arr : list (Z * ncclSocket)) :
  ~ In p (map fst arr) -> made_by p arr = [].
Proof.
  induction arr as [|[s c] arr IH]; intros H; [reflexivity|].
  cbn [made_by filter fst]. destruct (Z.eqb_spec s p) as [->|_].
  - exfalso. apply H. now left.
  - apply IH. intros Hin. apply H. now right.
Qed.

Section AllInside.

Hypothesis Hall : forall q, 0 <= q < nranks -> entered q = true.

(** The message of round [k] for [q] can arrive once its sender has got
    the messages of its rounds before [k]. *)
Lemma barrier_deliver_one (A : Z -> list (Z * ncclSocket)) (k : nat) (q : Z) :
  Inv A -> fed k A -> (k < rounds)%nat -> 0 <= q < nranks ->
  exists A',
    runs A A' /\ fed k A'
    /\ (forall x y, In y (map fst (A x)) -> In y (map fst (A' x)))
    /\ In (src q k) (map fst (A' q)).
Proof.
  intros HI HF Hk Hq.
  destruct (in_dec Z.eq_dec (src q k) (map fst (A q))) as [Hin|Hout].
  - exists A. split; [constructor|]. split; [exact HF|]. split; [auto|exact Hin].
  - pose proof (barrier_src_range nranks q k ltac:(lia)) as Hs.
    destruct (barrier_call_real (src q k) (A (src q k)) Hs
                (barrier_inv_arrived A _ HI Hs))
      as (j & Hj & Hreached & Hstop & _ & Hmade).
    assert (Hkj : (k <= j)%nat).
    { destruct (Nat.le_gt_cases k j) as [L|G]; [exact L|]. exfalso.
      apply Hstop; [lia|]. apply (HF _ Hs). exact G. }
    assert (Hround : In k (filter (fun t => dst (src q k) t =? q)
                                  (seq 0 (Nat.min (S j) rounds)))).
    { apply filter_In. split; [apply in_seq; lia|].
      apply Z.eqb_eq. now apply barrier_dst_src. }
    destruct (Forall2_in_l _ _ _ k (Hmade q Hq) Hround) as (c' & Hc' & _).
    destruct (made (src q k) q (map snd (A (src q k)))) as [|c rest] eqn:Em;
      [destruct Hc'|].
    assert (Hsent : exists t, sent (src q k) t c).
    { specialize (Hmade q Hq). rewrite Em in Hmade.
      inversion Hmade as [|t ? ? ? Hs' _ Et]; subst. now exists t. }
    destruct Hsent as (t & _ & Hmagic & _).
    destruct (Hst0 q Hq) as (_ & _ & Hlm & _).
    exists (upd A q (A q ++ [(src q k, accepted c)])).
    split; [|split; [|split]].
    + eapply (barrier_runs_deliver _ _ _ _ _ _ _ _ _ _ _ _ A (src q k) q c);
        [exact Hs|exact Hq|now apply Hall| | |constructor].
      * rewrite (made_by_none _ _ Hout), Em. reflexivity.
      * now rewrite Hmagic, Hlm.
    + intros p Hp. eapply barrier_reached_more; [apply (HF p Hp)|].
      intros x. apply upd_more.
    + intros x y. apply upd_more.
    + unfold upd. rewrite Z.eqb_refl, map_app. apply in_or_app. right. now left.
Qed.

Lemma barrier_sweep (k : nat) (t : nat) :
  forall A : Z -> list (Z * ncclSocket),
  Inv A -> fed k A -> (k < rounds)%nat -> Z.of_nat t <= nranks ->
  exists A',
    runs A A' /\ fed k A'
    /\ (forall x y, In y (map fst (A x)) -> In y (map fst (A' x)))
    /\ forall q, 0 <= q < Z.of_nat t -> In (src q k) (map fst (A' q)).
Proof.
  induction t as [|t IH]; intros A HI HF Hk Ht.
  - exists A. split; [constructor|]. split; [exact HF|]. split; [auto|]. intros q Hq. lia.
  - destruct (IH A HI HF Hk ltac:(lia)) as (A1 & R1 & F1 & M1 & D1).
    destruct (barrier_deliver_one A1 k (Z.of_nat t) (barrier_inv_runs _ _ R1 HI) F1 Hk
                ltac:(lia)) as (A2 & R2 & F2 & M2 & D2).
    exists A2. split; [eapply barrier_runs_trans; eauto|]. split; [exact F2|].
    split; [intros x y Hy; now apply M2, M1|].
    intros q Hq. destruct (Z.eq_dec q (Z.of_nat t)) as [->|N]; [exact D2|].
    apply M2, D1. lia.
Qed.

Lemma barrier_feed (k : nat) :
  forall A : Z -> list (Z * ncclSocket),
  Inv A -> (k <= rounds)%nat -> exists A', runs A A' /\ fed k A'.
Proof.
  induction k as [|k IH]; intros A HI Hk.
  - exists A. split; [constructor|]. intros p Hp i Hi. lia.
  - destruct (IH A HI ltac:(lia)) as (A1 & R1 & F1).
    destruct (barrier_sweep k (Z.to_nat nranks) A1 (barrier_inv_runs _ _ R1 HI) F1
                ltac:(lia) ltac:(lia)) as (A2 & R2 & F2 & _ & D2).
    exists A2. split; [eapply barrier_runs_trans; eauto|].
    intros p Hp i Hi. destruct (Nat.eq_dec i k) as [->|N].
    + apply D2. lia.
    + apply (F2 p Hp). lia.
Qed.

End AllInside.

Lemma barrier_fed_done (A : Z -> list (Z * ncclSocket)) (p : Z) :
  Inv A -> fed rounds A -> 0 <= p < nranks ->
  fst (call p (map snd (A p))) = Ret ncclSuccess.
Proof.
  intros HI HF Hp.
  destruct (barrier_call_real p (A p) Hp (barrier_inv_arrived A p HI Hp))
    as (j & Hj & _ & Hstop & Hstatus & _).
  rewrite Hstatus. destruct (Nat.ltb_spec j rounds) as [L|_]; [|reflexivity].
  exfalso. apply (Hstop L). now apply (HF p Hp).
Qed.

Lemma barrier_status (A : Z -> list (Z * ncclSocket)) (p : Z) :
  Inv A -> 0 <= p < nranks ->
  (fst (call p (map snd (A p))) = Ret ncclSuccess
   \/ fst (call p (map snd (A p))) = Blocked)
  /\ (entered p = true -> fst (call p (map snd (A p))) = Ret ncclSuccess ->
      forall q, 0 <= q < nranks -> entered q = true).
Proof.
  intros HI Hp.
  destruct (barrier_call_real p (A p) Hp (barrier_inv_arrived A p HI Hp))
    as (j & Hj & Hreached & _ & Hstatus & _).
  rewrite Hstatus. destruct (Nat.ltb_spec j rounds) as [L|G].
  - split; [now right|]. intros _ H. discriminate.
  - split; [now left|]. intros He _ q Hq.
    assert (j = rounds) by lia. subst j.
    apply (barrier_heard A HI rounds p); auto.
    apply heard_after_all; try lia.
    rewrite Z2Nat.id by apply Z.log2_up_nonneg. apply pow2_reaches. lia.
Qed.

End BarrierWhole.

(** X28.  No member leaves the barrier before every member has entered
    it, and when all have entered, all leave.  The [nranks <= 2^30] members
    of a group run [bootstrapBarrier] on [bootstrapSend] and
    [bootstrapRecv]: member [p] is rank [f p], listens on [addr p], finds
    the addresses of the others in its table, and enters with no connection
    waiting; [Accept] waits when nothing has arrived.  A connection that a
    member inside the barrier has made arrives at the listening socket it
    was made to at any later time, in any order with the connections of
    other members.  (1) In every state that can be reached, whichever
    members have entered, the call of a member has returned [ncclSuccess]
    or it waits; and if the call of one member has returned, every member
    of the group has entered.  (2) When all members enter, every state that
    can be reached can go on to a state in which the calls of all members
    have returned [ncclSuccess]. *)
Theorem bootstrapBarrier_waits_for_all
  (asz nranks tag magic : Z) (f : Z -> Z) (fuel : nat) (newPeer0 newTag0 : Z)
  (st0 : Z -> bootstrapState) (net0 : Z -> Net) (data0 : Z -> Z)
  (addr : Z -> list byte) (entered : Z -> bool) :
  1 <= nranks <= 1073741824 ->
  (Z.to_nat (Z.log2_up nranks) <= fuel)%nat ->
  is_int tag ->
  (forall q, 0 <= q < nranks -> is_int (f q)) ->
  (forall q q', 0 <= q < nranks -> 0 <= q' < nranks -> f q = f q' -> q = q') ->
  (forall q, 0 <= q < nranks -> addr q <> []) ->
  (forall q q', 0 <= q < nranks -> 0 <= q' < nranks -> addr q = addr q' -> q = q') ->
  (forall p, 0 <= p < nranks ->
     st_rank (st0 p) = f p /\ st_magic (st0 p) = magic
     /\ sock_magic (listenSock (st0 p)) = magic
     /\ unexpectedConnections (st0 p) = []
     /\ sock_acceptq (listenSock (st0 p)) = []
     /\ exists table,
          peerCommAddresses (st0 p) = Some table
          /\ forall q, 0 <= q < nranks -> mem_read table (f q * asz) asz = Some (addr q)) ->
  (forall p, 0 <= p < nranks ->
     net_accept_error (net0 p) = None
     /\ forall q, 0 <= q < nranks -> net_reachable (net0 p) (addr q) = true) ->
  (forall A,
     barrier_runs asz nranks tag f fuel newPeer0 newTag0 st0 net0 data0 addr entered
                  barrier_start A ->
     forall p, 0 <= p < nranks ->
       let s := fst (barrier_call asz nranks tag f fuel newPeer0 newTag0 st0 net0 data0
                                  p (map snd (A p))) in
       (s = Ret ncclSuccess \/ s = Blocked)
       /\ (entered p = true -> s = Ret ncclSuccess ->
           forall q, 0 <= q < nranks -> entered q = true))
  /\
  ((forall q, 0 <= q < nranks -> entered q = true) ->
   forall A,
     barrier_runs asz nranks tag f fuel newPeer0 newTag0 st0 net0 data0 addr entered
                  barrier_start A ->
     exists A',
       barrier_runs asz nranks tag f fuel newPeer0 newTag0 st0 net0 data0 addr entered A A'
       /\ forall p, 0 <= p < nranks ->
            fst (barrier_call asz nranks tag f fuel newPeer0 newTag0 st0 net0 data0
                              p (map snd (A' p)))
            = Ret ncclSuccess).
Proof.
  intros Hn Hfuel Htag Hf Hfinj Haddr Hainj Hst0 Hnet0.
  assert (Hinv : forall A,
            barrier_runs asz nranks tag f fuel newPeer0 newTag0 st0 net0 data0 addr entered
                         barrier_start A ->
            barrier_inv nranks tag f entered A).
  { intros A HR.
    eapply (barrier_inv_runs asz nranks tag magic f fuel newPeer0 newTag0 st0 net0 data0
              addr entered); eauto.
    apply barrier_inv_start. }
  split.
  - intros A HR p Hp. cbn zeta.
    eapply (barrier_status asz nranks tag magic f fuel newPeer0 newTag0 st0 net0 data0
              addr entered); eauto.
  - intros Hall A HR.
    destruct (barrier_feed asz nranks tag magic f fuel newPeer0 newTag0 st0 net0 data0
                addr entered Hn Hfuel Htag Hf Hfinj Haddr Hainj Hst0 Hnet0 Hall
                (Z.to_nat (Z.log2_up nranks)) A (Hinv A HR) (le_n _)) as (A' & R' & F').
    exists A'. split; [exact R'|]. intros p Hp.
    eapply (barrier_fed_done asz nranks tag magic f fuel newPeer0 newTag0 st0 net0 data0
              addr entered); eauto.
    eapply (barrier_inv_runs asz nranks tag magic f fuel newPeer0 newTag0 st0 net0 data0
              addr entered); eauto.
Qed.

Lemma bootstrapBarrier_waits_for_all_witness :
  (forall A,
     barrier_runs 1 3 176 (fun i => 2 * i) 2 0 0 barrier3_st0 barrier3_net0 (fun _ => 0)
                  barrier3_addr (fun _ => true) barrier_start A ->
     forall p, 0 <= p < 3 ->
       let s := fst (barrier_call 1 3 176 (fun i => 2 * i) 2 0 0 barrier3_st0 barrier3_net0
                                  (fun _ => 0) p (map snd (A p))) in
       (s = Ret ncclSuccess \/ s = Blocked)
       /\ (true = true -> s = Ret ncclSuccess -> forall q, 0 <= q < 3 -> true = true))
  /\
  ((forall q, 0 <= q < 3 -> true = true) ->
   forall A,
     barrier_runs 1 3 176 (fun i => 2 * i) 2 0 0 barrier3_st0 barrier3_net0 (fun _ => 0)
                  barrier3_addr (fun _ => true) barrier_start A ->
     exists A',
       barrier_runs 1 3 176 (fun i => 2 * i) 2 0 0 barrier3_st0 barrier3_net0 (fun _ => 0)
                    barrier3_addr (fun _ => true) A A'
       /\ forall p, 0 <= p < 3 ->
            fst (barrier_call 1 3 176 (fun i => 2 * i) 2 0 0 barrier3_st0 barrier3_net0
                              (fun _ => 0) p (map snd (A' p)))
            = Ret ncclSuccess).
Proof.
  assert (Hcases : forall q, 0 <= q < 3 -> q = 0 \/ q = 1 \/ q = 2) by (intros q Hq; lia).
  apply (bootstrapBarrier_waits_for_all 1 3 176 9 (fun i => 2 * i) 2 0 0
           barrier3_st0 barrier3_net0 (fun _ => 0) barrier3_addr (fun _ => true)).
  - lia.
  - vm_compute. lia.
  - unfold is_int, INT_MIN, INT_MAX. lia.
  - intros q Hq. unfold is_int, INT_MIN, INT_MAX. lia.
  - intros q q' Hq Hq' H. lia.
  - intros q Hq. destruct (Hcases q Hq) as [->|[->| ->]]; discriminate.
  - intros q q' Hq Hq' H.
    destruct (Hcases q Hq) as [->|[->| ->]]; destruct (Hcases q' Hq') as [->|[->| ->]];
      first [reflexivity | discriminate H].
  - intros p Hp. repeat (split; [reflexivity|]).
    exists [xa0; x00; xa1; x00; xa2]. split; [reflexivity|].
    intros q Hq. destruct (Hcases q Hq) as [->|[->| ->]]; reflexivity.
  - intros p Hp. split; [reflexivity|]. intros q Hq. reflexivity.
Defined.
